(* ===== verification/_CoqProject ===== *)
-Q . S2P
Prelude.v
Decimal.v
StdMap.v
Doubles.v
FloatRound.v
Exceptions.v
JsonValue.v
JsonLexer.v
JsonParser.v
JsonDtoa.v
JsonGrisuDigits.v
JsonGrisu.v
JsonDump.v
JsonPointer.v
JsonPatch.v
JsonLexerFacts.v
JsonParserFacts.v
JsonUtf8.v
JsonScanUtf8.v
JsonSpec.v
JsonTokens.v
JsonFloatText.v
JsonRoundTrip.v
JsonPointerFacts.v
JsonPatchFacts.v
Metrics.v
MetricsFacts.v
MetricsSteps.v
MetricsSpec.v
Effects.v
Logger.v
PqxxConv.v
PqxxBuffer.v
PqxxConvFacts.v
PqxxBufferFacts.v
PqxxBinary.v
PqxxTime.v
PqxxResult.v
PqxxRow.v
PqxxEncoding.v
PqxxArray.v
PqxxCopy.v
PqxxTransaction.v
PqxxStreams.v
PqxxRobust.v
PqxxCursor.v
Database.v
WebServer.v
Server.v
EffectsFacts.v
TestEnv.v
LoggerFacts.v
LoggerSpec.v
PqxxEncodingFacts.v
PqxxGlyphs.v
PqxxCopyFacts.v
PqxxArrayFacts.v
PqxxArraySpec.v
PqxxArrayTotal.v
PqxxTransactionFacts.v
PqxxStreamsSpec.v
PqxxRobustFacts.v
PqxxCursorSpec.v
PqxxLive.v
DatabaseFacts.v
SqlTrace.v
Concurrent.v
DatabaseSpec.v
ServerFacts.v
ServerSpec.v
ServerSql.v
HandlerSpec.v
