(* ===== verification/Prelude.v ===== *)
(** * Service Management System: a verification library

    The repository is the backend of a computer service desk: a C++ web
    server (src/src) over PostgreSQL, with the JSON library nlohmann/json
    (src/include/nlohmann/json.hpp) and the PostgreSQL client libpqxx
    (src/libpqxx-7.7.5) built from source beside it.

    ** How the parts interact

    [main] (main.cpp) constructs a [WebServer]: it initialises the [Logger]
    singleton, reads the configuration file with the JSON parser, builds a
    libpq connection string, connects a [Database] (one [pqxx::connection]),
    fills the [MetricsRegistry] and registers twelve routes; then it runs the
    HTTP event loop.  A request runs one handler, which reads or changes the
    database through one [pqxx::work] per call, parses and prints JSON, logs
    and records metrics.

    ** Files

    Shared:
    - [Prelude]: [result] (a value or the exception thrown), fixed-width
      integers as [Z] with explicit wrap-around, byte strings, tactics.
    - [Decimal], [StdMap], [Doubles], [Exceptions]: decimal text, [std::map]
      (interface [OrderedKey]), IEEE binary64 on [SpecFloat], the exceptions.
      [FloatRound]: what [SpecFloat]'s rounding promises: a rational within
      half a unit of a double's last place is read as that double.
    - [Effects]: programs [prog S A] = state, history -> result, state,
      history.  Every interaction with the outside (clock, files, curl, libpq,
      standard streams, event loop) is appended to the history as an [event],
      and its answer is a function of the history given by the class [Env]; a
      theorem for every [Env] is a theorem for every behaviour of the outside.
      [EffectsFacts]: the rules of triples [triple P m Q] over state and
      history, and [sql_log], the commands sent to the server so far.
      [TestEnv]: concrete environments for the witnesses.

    JSON (json.hpp):
    - [JsonValue]: the value type, element access, [get<T>()].
    - [JsonPointer], [JsonPatch]: JSON pointers (checked, creating and testing
      access), [operator==], patches, diffs and merge patches.  A reference
      into a document is the path to the value.  Patches run as in the release
      build, where assertions are compiled out.  [JsonPointerFacts],
      [JsonPatchFacts].
    - [JsonLexer], [JsonParser]: [detail::lexer] byte by byte, the parser's
      loop with its explicit stack, and the DOM builder.
    - [JsonDtoa], [JsonDump]: Grisu2 and the serializer of [dump()].
    - [JsonLexerFacts], [JsonParserFacts]: termination.  [JsonUtf8],
      [JsonScanUtf8], [JsonSpec]: UTF-8, and that parsed values can be dumped.
      [JsonGrisuDigits], [JsonGrisu], [JsonFloatText]: the digits Grisu2
      generates stay inside the rounding interval, the table of cached powers
      (checked entry by entry), and the text of every finite double.
      [JsonTokens], [JsonRoundTrip]: parsing what was dumped.

    Metrics (metrics.h): [Metrics] (labels, counters, histograms, registry,
    text exposition), [MetricsSteps] (interleavings: each mutex-protected
    section is one atomic step), [MetricsFacts], [MetricsSpec].

    Logger (logger.h): [Logger], [LoggerFacts], [LoggerSpec].

    libpqxx: [PqxxConv] (strconv.cxx, conversions.hxx), [PqxxResult]
    (result.cxx, field.hxx, encoding groups), [PqxxRow] (addressing in
    result.cxx, row.cxx, field.cxx), [PqxxEncoding] (the character
    scanners of encodings.cxx and their clients), [PqxxTransaction]
    (connection.cxx, transaction_base.cxx, transaction.cxx, util.cxx); their
    facts in [PqxxConvFacts], [PqxxEncodingFacts], [PqxxTransactionFacts] (the protocol whatever
    the server answers) and [PqxxLive] (exact runs with a healthy server).
    [PqxxBuffer] (conversions.hxx, composite.hxx, array-composite.hxx): values
    written into memory; [string_traits] is the class [StringTraits], its
    contract the class [StringTraitsLaws], with instances for strings,
    integers, optional values and containers ([PqxxBufferFacts]), binary data
    ([PqxxBinary]: util.cxx) and dates ([PqxxTime]: time.cxx, time.hxx).
    [PqxxArray] (array.cxx, array-composite.hxx, composite.hxx): the readers
    of arrays and composite values; [PqxxGlyphs] (a scan sees only its own
    character), [PqxxArrayFacts], [PqxxArraySpec] (reading back what was
    written), [PqxxArrayTotal].
    [PqxxCopy]: the lines of the COPY protocol (stream_to.hxx, stream_to.cxx,
    [parse_line] of stream_from.cxx), [PqxxCopyFacts]; [PqxxStreams]: the
    stream objects as the focus of their transaction and the COPY functions of
    connection.cxx (what libpq answers is the class [CopyEnv]),
    [PqxxStreamsSpec].
    [PqxxRobust] (robusttransaction.cxx, subtransaction.cxx,
    nontransaction.hxx; the virtual functions of a transaction are the
    arguments of [commit_as] and [abort_as]), [PqxxRobustFacts]; [PqxxCursor]
    (sql_cursor.cxx, cursor.cxx), [PqxxCursorSpec].
    Application: [Database] (database.cpp, database.h), [WebServer] (the
    twelve handlers of webserver.cpp), [Server] (constructor, [configure],
    [run], main.cpp); [DatabaseFacts], [DatabaseSpec], [ServerFacts],
    [ServerSpec], [SqlTrace] (the commands sent, each with whether it was
    carried out), [ServerSql], [HandlerSpec].  [Concurrent]: changes made at
    the same time, as threads that take turns on the one connection.

    ** Correspondence

    A member function is a definition of the same name; its state is the
    record of the class's data members, passed explicitly.  A C++ reference
    into a container is the key (metrics) or the path (JSON builder) it stands
    for.  Destructors run where the scope ends ([with_work], [finally]), also
    when an exception is thrown.  [static] and [const] tables are translated
    literally.  An integer type of [w] bits is a [Z] in its range; conversions
    wrap as the code's do, and behaviour the language leaves undefined is a
    parameter ([Platform]).  Undefined dereferences of a null connection are
    the value [None] of [serve] and excluded by [server_invariant].

    ** What the theorems show

    - Data access: every change sends exactly the work's protocol, reports
      success only for an acknowledged COMMIT ([change_protocol]), every query
      reads what the server answered ([query_protocol]), both succeed with a
      healthy server, a busy connection is refused, records survive storage.
    - Threads: nothing keeps the transactions of concurrent requests apart.
      There is a schedule in which two changes go into one transaction, so that
      one is rolled back with the other and reported as done
      ([transactions_overlap]).
    - Server: routes exist only with a connection and the connection is free
      between requests ([server_invariant]); the commands sent to the database
      over the whole life of the program refine an abstract client with six
      constant statements, which begins no transaction inside another one and
      commits only after its statement was carried out ([server_sql_refines]);
      each route's answer, metrics and
      SQL commands.
    - JSON: the parser terminates on every input, strings are accepted by the
      serializer exactly when they are UTF-8, every parsed value can be
      written again, and parsing what was written gives the value back, floats
      bit for bit ([dump_parse_round_trip], on [to_chars_round_trip]); what
      was parsed and written once is a fixed point ([parse_dump_parse]).
    - Conversions: integers of every width round-trip, the two parsers agree
      and report overflow exactly.  Encodings: every scanner moves on inside its
      buffer or throws ([glyph_scanner_bounds]), and in encodings whose
      multi-byte characters hold no ASCII byte the character-wise searches are
      the byte-wise ones ([find_query_end_agrees], [esc_like_spec]).
    - SQL values: arrays of any nesting, composite values, binary data and
      dates are read back from the text written for them ([array_round_trip],
      [composite_round_trip], [binary_round_trip], [date_round_trip]); the
      array parser ends on every text, and what is behind the text changes
      nothing, but for one byte in one encoding ([array_parser_total]); what the buffer
      of an array holds and what [size_buffer] forgets ([array_buffer_need]).
    - Rows: columns by name in slices ([slice_columns]); slices and fields stay
      inside the row for numbers that are not negative, and only then
      ([row_slices]).
    - COPY: a row survives the text of its line ([copy_round_trip]), any line is
      taken apart inside its buffers ([parse_line_inside]); a COMMIT follows a
      COPY only when all its data was acknowledged, and nothing is sent past an
      open stream ([copy_in_committed]); what the server sends is read row by
      row ([copy_out_rows]).
    - Robust transactions: what each outcome of a commit stands for
      ([robust_commit_protocol]), and that a commit nothing is known about is
      reported as a success ([unknown_outcome_committed]).  Nested
      transactions: [subtransaction_protocol].
    - Cursors, against a server that moves them as PostgreSQL documents it: the
      object knows the position, and rows are retrieved by number
      ([retrieve_rows]).
    - JSON patches: the patch between two values turns the first into the second
      ([diff_patch]), merge patches follow RFC 7396 ([merge_patch_spec]);
      pointers and their texts correspond one to one ([json_pointer_text]), an
      assignment changes only its own place ([json_pointer_assign]).
    - Metrics: no increment is lost under any interleaving (up to 2^53, where
      a counter stops), references stay
      valid, buckets are cumulative.
    - Logger: what each call writes, that no call fails, and that the entries
      pushed to Loki are never valid JSON.

    ** Bounds and fuel

    The scanning loops take [input_fuel], the bytes left plus two,
    and the parser [parse_fuel], the length of the input plus two; a loop whose
    fuel is used up has no result ([None]; [Hang] in the parser), and
    [parser_parse_total] shows that this never happens.  The mutual recursion of
    [close] and [abort] is unfolded twice ([close_n]): the second call finds
    the transaction ended.  The digit loops of [to_chars] and [to_string] are
    bounded by the digits of the type.  Loops over characters take the length
    of the buffer plus one ([glyph_scanner_bounds]), those of the array readers
    at most its length plus two ([array_parser_total]), those of a COPY line the
    length of the line plus one ([parse_line_inside]).  Loops that end when the
    server says so ([flush_lines], [read_all_rows], [stream_lines]) take the
    number of lines as fuel ([copy_out_rows]: any fuel above it gives the
    result).  The 500 attempts to find out about a lost commit are the code's.

    ** Not modelled

    Crow (an HTTP framework, a git submodule that is not in the tree: class
    [Crow]), libpq, libcurl and the file system (class [Env]), floating-point
    output of the standard library ([Build]); static assets, SQL scripts,
    deployment files and tests; the parts of json.hpp and libpqxx no path of
    the program reaches (binary formats, flattening, iterators; pipelines,
    streams over cursors, large objects, notifications), but for those listed above.
    In [Concurrent] the steps are coarser than those of the program (a data
    race inside a call, which the language leaves undefined, is below the
    model), so the file only claims that schedules exist, never that a property
    holds in all of them.  The handlers of [Server] run one at a time.
    The memory behind a text is an argument of the readers ([Behind]): whatever
    is there.

    Open: libpqxx's pipelines, and the iterators over blocks of a cursor. *)

From Stdlib Require Export Ascii String ZArith Lia.
From stdpp Require Export base tactics strings list numbers.

(** ** Tactics *)

(** Case analysis on every [match] and [if] of the goal, discharging the
    branches closed by congruence. *)
Ltac crush_match :=
  repeat (case_match; simplify_eq/=; try done).

(** Turn boolean comparisons of the context into propositions. *)
Ltac b2p :=
  repeat match goal with
  | H : (_ && _)%bool = true |- _ => apply andb_true_iff in H; destruct H
  | H : (_ || _)%bool = false |- _ => apply orb_false_iff in H; destruct H
  | H : negb _ = true |- _ => apply negb_true_iff in H
  | H : negb _ = false |- _ => apply negb_false_iff in H
  | H : (_ <=? _)%Z = true |- _ => apply Z.leb_le in H
  | H : (_ <=? _)%Z = false |- _ => apply Z.leb_gt in H
  | H : (_ <? _)%Z = true |- _ => apply Z.ltb_lt in H
  | H : (_ <? _)%Z = false |- _ => apply Z.ltb_ge in H
  | H : (_ =? _)%Z = true |- _ => apply Z.eqb_eq in H
  | H : (_ =? _)%Z = false |- _ => apply Z.eqb_neq in H
  | H : String.eqb _ _ = true |- _ => apply String.eqb_eq in H
  | H : String.eqb _ _ = false |- _ => apply String.eqb_neq in H
  end.

(** ** Exceptions and fallible code

    A C++ function that may throw returns a [result]: the value, or the
    exception object it throws.  The monad instances give the notation
    [x ← e; k] of stdpp. *)

Inductive result (E A : Type) : Type :=
  | Ok (a : A)
  | Throw (e : E).
Arguments Ok {E A} a.
Arguments Throw {E A} e.

#[export] Instance result_ret E : MRet (result E) := λ A a, Ok a.
#[export] Instance result_bind E : MBind (result E) := λ A B f r,
  match r with Ok a => f a | Throw e => Throw e end.
#[export] Instance result_fmap E : FMap (result E) := λ A B f r,
  match r with Ok a => Ok (f a) | Throw e => Throw e end.

Definition is_ok {E A} (r : result E A) : bool :=
  match r with Ok _ => true | Throw _ => false end.

Lemma result_bind_ok {E A B} (f : A → result E B) (r : result E A) b :
  (r ≫= f) = Ok b ↔ ∃ a, r = Ok a ∧ f a = Ok b.
Proof.
  destruct r as [a|e]; cbn; split; [eauto| |discriminate|].
  all: intros (a' & Ha & Hb); congruence.
Qed.

Lemma result_bind_throw {E A B} (f : A → result E B) (r : result E A) e :
  (r ≫= f) = Throw e ↔ r = Throw e ∨ ∃ a, r = Ok a ∧ f a = Throw e.
Proof.
  destruct r as [a|e']; cbn; split; [eauto| |intros [= ->]; by left|].
  all: intros [?|(a' & Ha & Hb)]; congruence.
Qed.

(** ** Machine integers

    A value of a [w]-bit type is a [Z]; conversions wrap modulo [2^w]. *)

Definition wrap_u (w : Z) (z : Z) : Z := z `mod` 2 ^ w.
Definition wrap_s (w : Z) (z : Z) : Z :=
  (z + 2 ^ (w - 1)) `mod` 2 ^ w - 2 ^ (w - 1).

Definition in_u (w : Z) (z : Z) : Prop := (0 ≤ z < 2 ^ w)%Z.
Definition in_s (w : Z) (z : Z) : Prop := (- 2 ^ (w - 1) ≤ z < 2 ^ (w - 1))%Z.

#[export] Instance in_u_dec w z : Decision (in_u w z).
Proof. unfold in_u. apply _. Defined.
#[export] Instance in_s_dec w z : Decision (in_s w z).
Proof. unfold in_s. apply _. Defined.

Lemma wrap_u_range w z : (0 ≤ w)%Z → in_u w (wrap_u w z).
Proof. intros. apply Z.mod_pos_bound, Z.pow_pos_nonneg; lia. Qed.

Lemma wrap_u_id w z : in_u w z → wrap_u w z = z.
Proof. apply Z.mod_small. Qed.

Lemma pow2_half w : (0 < w)%Z → (2 ^ w = 2 * 2 ^ (w - 1))%Z.
Proof. intros. rewrite <- Z.pow_succ_r by lia. f_equal. lia. Qed.

Lemma wrap_s_range w z : (0 < w)%Z → in_s w (wrap_s w z).
Proof.
  intros Hw. unfold in_s, wrap_s. rewrite (pow2_half w) by done.
  pose proof (Z.pow_pos_nonneg 2 (w - 1) ltac:(lia) ltac:(lia)).
  pose proof (Z.mod_pos_bound (z + 2 ^ (w - 1)) (2 * 2 ^ (w - 1)) ltac:(lia)).
  lia.
Qed.

Lemma wrap_s_id w z : (0 < w)%Z → in_s w z → wrap_s w z = z.
Proof.
  intros Hw [??]. unfold wrap_s. rewrite Z.mod_small; [lia|].
  rewrite (pow2_half w) by done. lia.
Qed.

Lemma wrap_s_cong w z : (0 < w)%Z → (wrap_s w z `mod` 2 ^ w = z `mod` 2 ^ w)%Z.
Proof.
  intros Hw. unfold wrap_s. rewrite Zminus_mod_idemp_l. f_equal. lia.
Qed.

Lemma wrap_u_succ w n : wrap_u w (wrap_u w n + 1) = wrap_u w (n + 1).
Proof. unfold wrap_u. apply Zplus_mod_idemp_l. Qed.

#[global] Opaque wrap_u wrap_s.

(** ** Characters and strings

    [std::string] is a sequence of bytes; [byte_of] is the value of a
    character as an [unsigned char]. *)

Definition byte_of (c : ascii) : Z := Z.of_N (N_of_ascii c).
Definition char_of (z : Z) : ascii := ascii_of_N (Z.to_N z).

Lemma byte_of_range c : (0 ≤ byte_of c < 256)%Z.
Proof. unfold byte_of. pose proof (N_ascii_bounded c). lia. Qed.

Lemma char_of_byte_of c : char_of (byte_of c) = c.
Proof. unfold char_of, byte_of. rewrite N2Z.id. apply ascii_N_embedding. Qed.

Lemma byte_of_char_of z : (0 ≤ z < 256)%Z → byte_of (char_of z) = z.
Proof.
  intros. unfold char_of, byte_of. rewrite N_ascii_embedding by lia. lia.
Qed.

Lemma byte_of_inj c d : byte_of c = byte_of d → c = d.
Proof. intros H. by rewrite <- (char_of_byte_of c), H, char_of_byte_of. Qed.

(** Every property of the 256 byte values is decided by evaluation. *)
Definition all_chars : list ascii :=
  map (λ n, ascii_of_nat n) (seq 0 256).

Lemma all_chars_complete c : c ∈ all_chars.
Proof.
  unfold all_chars. apply list_elem_of_In, in_map_iff.
  exists (nat_of_ascii c). rewrite ascii_nat_embedding. split; [done|].
  apply in_seq. pose proof (nat_ascii_bounded c). lia.
Qed.

Lemma forall_chars (P : ascii → bool) :
  forallb P all_chars = true → ∀ c, P c = true.
Proof.
  intros H c. rewrite forallb_forall in H. apply H.
  apply list_elem_of_In, all_chars_complete.
Qed.

(** The empty string is printed as nothing; characters used in messages that
    a literal cannot hold. *)
Definition NL : string := String "010"%char EmptyString.
Definition DQ : string := String "034"%char EmptyString.

(** Text with double quotes, written with back quotes. *)
Fixpoint bq (s : string) : string :=
  match s with
  | EmptyString => EmptyString
  | String c s' => String (if Ascii.eqb c "`"%char then "034"%char else c) (bq s')
  end.

Definition is_empty (s : string) : bool :=
  match s with EmptyString => true | _ => false end.

Lemma is_empty_true s : is_empty s = true ↔ s = EmptyString.
Proof. by destruct s. Qed.

Lemma sapp_cons c (s t : string) : String c s +:+ t = String c (s +:+ t).
Proof. done. Qed.

Lemma sapp_nil_l (s : string) : EmptyString +:+ s = s.
Proof. done. Qed.

Lemma sapp_nil_r (s : string) : s +:+ EmptyString = s.
Proof. induction s as [|c s IH]; [done|]. by rewrite sapp_cons, IH. Qed.

Lemma sapp_assoc (s t u : string) : s +:+ (t +:+ u) = (s +:+ t) +:+ u.
Proof. induction s as [|c s IH]; [done|]. by rewrite !sapp_cons, IH. Qed.

Lemma slength_app (s t : string) :
  String.length (s +:+ t) = String.length s + String.length t.
Proof.
  induction s as [|c s IH]; [done|]. rewrite sapp_cons. cbn. by rewrite IH.
Qed.

Create Rewrite HintDb strings.
#[export] Hint Rewrite sapp_nil_r slength_app sapp_cons : strings.
#[export] Hint Rewrite <- sapp_assoc : strings.

(** [push_back]. *)
Definition snoc (s : string) (c : ascii) : string :=
  s +:+ String c EmptyString.

Lemma snoc_app s c t : snoc s c +:+ t = s +:+ String c t.
Proof. unfold snoc. by rewrite <- sapp_assoc. Qed.

(** Does every character satisfy [P]? *)
Fixpoint sforall (P : ascii → bool) (s : string) : bool :=
  match s with
  | EmptyString => true
  | String c s' => P c && sforall P s'
  end.

Lemma sforall_app P s t : sforall P (s +:+ t) = sforall P s && sforall P t.
Proof.
  induction s as [|c s IH]; [done|]. rewrite sapp_cons. cbn.
  rewrite IH. by rewrite andb_assoc.
Qed.

Lemma sforall_impl P Q s :
  (∀ c, P c = true → Q c = true) → sforall P s = true → sforall Q s = true.
Proof.
  intros HPQ. induction s as [|c s IH]; cbn; [done|].
  rewrite !andb_true_iff. intros [Hc Hs]. auto.
Qed.

Lemma sapp_inj_tail (s t u : string) : s +:+ u = t +:+ u → s = t.
Proof.
  revert t. induction s as [|c s IH]; intros [|d t]; rewrite ?sapp_nil_l, ?sapp_cons; intros E.
  - done.
  - pose proof (f_equal String.length E) as L. cbn in L. rewrite slength_app in L. lia.
  - pose proof (f_equal String.length E) as L. cbn in L. rewrite slength_app in L. lia.
  - injection E as -> E. f_equal. by apply IH.
Qed.

(** A text is split at the first occurrence of a separator in one way. *)
Lemma sapp_split (c : ascii) (a b s t : string) :
  sforall (λ d, negb (Ascii.eqb d c)) a = true →
  sforall (λ d, negb (Ascii.eqb d c)) b = true →
  a +:+ String c s = b +:+ String c t → a = b ∧ s = t.
Proof.
  revert b. induction a as [|x a IH]; intros [|y b]; cbn; intros Ha Hb E.
  - rewrite !sapp_nil_l in E. by injection E as ->.
  - rewrite sapp_nil_l, sapp_cons in E. injection E as -> _.
    by rewrite Ascii.eqb_refl in Hb.
  - rewrite sapp_nil_l, sapp_cons in E. injection E as -> _.
    by rewrite Ascii.eqb_refl in Ha.
  - rewrite !sapp_cons in E. injection E as -> E.
    apply andb_true_iff in Ha as [_ Ha], Hb as [_ Hb].
    by destruct (IH b Ha Hb E) as [-> ->].
Qed.

(** [s.find(t) != npos] *)
Fixpoint scontains (t s : string) : bool :=
  String.prefix t s ||
  match s with
  | EmptyString => false
  | String _ s' => scontains t s'
  end.

Lemma prefix_app (t u : string) : String.prefix t (t +:+ u) = true.
Proof.
  induction t as [|c t IH]; [by destruct u|]. rewrite sapp_cons. cbn.
  destruct (ascii_dec c c); [exact IH|congruence].
Qed.

Lemma prefix_inv (t s : string) :
  String.prefix t s = true → ∃ u, s = t +:+ u.
Proof.
  revert s. induction t as [|c t IH]; intros s; [by exists s|].
  destruct s as [|d s]; [done|]. cbn.
  destruct (ascii_dec c d) as [->|]; [|done].
  intros [u ->]%IH. by exists u.
Qed.

Lemma scontains_unfold (t s : string) :
  scontains t s = String.prefix t s ||
    match s with EmptyString => false | String _ s' => scontains t s' end.
Proof. by destruct s. Qed.

Lemma scontains_spec (t s : string) :
  scontains t s = true ↔ ∃ u v, s = u +:+ t +:+ v.
Proof.
  split.
  - induction s as [|c s IH]; rewrite scontains_unfold, orb_true_iff;
      intros [H|H]; try (apply prefix_inv in H as [u ->]; by exists EmptyString, u).
    + done.
    + destruct (IH H) as (u & v & ->). by exists (String c u), v.
  - intros (u & v & ->). induction u as [|c u IH]; rewrite scontains_unfold.
    + rewrite sapp_nil_l. by rewrite prefix_app.
    + rewrite sapp_cons, IH. apply orb_true_r.
Qed.

(** [substr] *)
Lemma substring_split (s : string) n m :
  n + m ≤ String.length s →
  String.substring 0 (n + m) s = String.substring 0 n s +:+ String.substring n m s.
Proof.
  revert n m. induction s as [|c s IH]; intros n m Hl; cbn [String.length] in Hl.
  { by replace n with 0 by lia; replace m with 0 by lia. }
  destruct n as [|n]; [done|]. cbn [String.substring Nat.add]. rewrite sapp_cons, IH by lia. done.
Qed.

Lemma substring_all (s : string) : String.substring 0 (String.length s) s = s.
Proof. induction s as [|c s IH]; [done|]. cbn. by rewrite IH. Qed.

Lemma substring_one (s : string) i c :
  String.get i s = Some c → String.substring i 1 s = String c EmptyString.
Proof.
  revert i. induction s as [|d s IH]; intros i Hc; [done|].
  destruct i as [|i]; cbn in Hc |- *; [|by apply IH]. by destruct s; simplify_eq.
Qed.

Lemma substring_length (s : string) n m :
  n + m ≤ String.length s → String.length (String.substring n m s) = m.
Proof.
  revert n m. induction s as [|c s IH]; intros n m Hl; cbn [String.length] in Hl.
  { by replace n with 0 by lia; replace m with 0 by lia. }
  destruct n as [|n]; cbn [String.substring]; [|apply IH; lia].
  destruct m as [|m]; [done|]. cbn [String.length]. rewrite (IH 0 m) by lia. done.
Qed.
