(* ===== verification/Decimal.v ===== *)
(** Decimal text of integers: what [std::to_string] and the stream
    insertions of integers print, and the value a string of digits denotes.
    Shared by every component that prints or reads a number. *)

From S2P Require Import Prelude.

Local Open Scope Z_scope.

(** ** Digits *)

Definition digit_char (d : Z) : ascii := char_of (48 + d).
Definition is_digit (c : ascii) : bool := (48 <=? byte_of c) && (byte_of c <=? 57).
Definition digit_val (c : ascii) : Z := byte_of c - 48.

Lemma digit_char_is_digit d : 0 ≤ d < 10 → is_digit (digit_char d) = true.
Proof.
  intros. unfold is_digit, digit_char. rewrite byte_of_char_of by lia.
  apply andb_true_iff. rewrite !Z.leb_le. lia.
Qed.

Lemma digit_val_char d : 0 ≤ d < 10 → digit_val (digit_char d) = d.
Proof.
  intros. unfold digit_val, digit_char. rewrite byte_of_char_of by lia. lia.
Qed.

Lemma digit_val_range c : is_digit c = true → 0 ≤ digit_val c < 10.
Proof. unfold is_digit, digit_val. intros H. b2p. lia. Qed.

Lemma digit_char_val c : is_digit c = true → digit_char (digit_val c) = c.
Proof.
  intros. unfold digit_char, digit_val.
  replace (48 + (byte_of c - 48)) with (byte_of c) by lia. apply char_of_byte_of.
Qed.

(** ** Printing *)

(** Digits are produced from the least significant one, as every
    implementation in the repository does. *)
Fixpoint dec_go (fuel : nat) (n : Z) (acc : string) : string :=
  match fuel with
  | O => acc
  | S fuel' =>
      let acc' := String (digit_char (n `mod` 10)) acc in
      if n / 10 =? 0 then acc' else dec_go fuel' (n / 10) acc'
  end.

Definition dec_fuel (n : Z) : nat := S (Z.to_nat (Z.log2 n)).
Definition dec_nonneg (n : Z) : string := dec_go (dec_fuel n) n EmptyString.

(** [std::to_string] *)
Definition to_string (n : Z) : string :=
  if n <? 0 then String "-"%char (dec_nonneg (- n)) else dec_nonneg n.

(** ** Reading *)

Fixpoint dec_value_from (acc : Z) (s : string) : Z :=
  match s with
  | EmptyString => acc
  | String c s' => dec_value_from (10 * acc + digit_val c) s'
  end.
Definition dec_value (s : string) : Z := dec_value_from 0 s.

Lemma dec_value_from_app acc s t :
  dec_value_from acc (s +:+ t) = dec_value_from (dec_value_from acc s) t.
Proof. revert acc. induction s as [|c s IH]; intros acc; [done|apply IH]. Qed.

Lemma dec_value_from_nonneg acc s :
  0 ≤ acc → sforall is_digit s = true → 0 ≤ dec_value_from acc s.
Proof.
  revert acc. induction s as [|c s IH]; intros acc Hacc Hs; [done|].
  cbn in Hs. apply andb_true_iff in Hs as [Hc Hs]. cbn.
  apply IH; [|done]. pose proof (digit_val_range c Hc). lia.
Qed.

(** ** The text of a number reads back as that number *)

Lemma dec_go_value fuel n acc :
  0 ≤ n < 2 ^ Z.of_nat fuel →
  ∀ a, dec_value_from a (dec_go fuel n acc) =
       dec_value_from (dec_value_from a (dec_go fuel n EmptyString)) acc.
Proof.
  revert n acc. induction fuel as [|f IH]; intros n acc Hn a; [done|].
  cbn [dec_go]. case_match; [done|]. b2p.
  assert (0 ≤ n / 10 < 2 ^ Z.of_nat f).
  { rewrite Nat2Z.inj_succ, Z.pow_succ_r in Hn by lia.
    split; [apply Z.div_pos; lia|]. apply Z.div_lt_upper_bound; lia. }
  rewrite IH by done. rewrite (IH _ (String _ EmptyString)) by done. done.
Qed.

Lemma dec_go_value_0 fuel n :
  0 ≤ n < 2 ^ Z.of_nat fuel → dec_value (dec_go fuel n EmptyString) = n.
Proof.
  unfold dec_value. revert n. induction fuel as [|f IH]; intros n Hn.
  { cbn in *. lia. }
  rewrite Nat2Z.inj_succ, Z.pow_succ_r in Hn by lia.
  pose proof (Z.div_mod n 10 ltac:(lia)).
  pose proof (Z.mod_pos_bound n 10 ltac:(lia)).
  cbn [dec_go]. case_match; b2p.
  - cbn. rewrite digit_val_char by lia. lia.
  - assert (0 ≤ n / 10 < 2 ^ Z.of_nat f).
    { split; [apply Z.div_pos; lia|]. apply Z.div_lt_upper_bound; lia. }
    rewrite dec_go_value by done. rewrite IH by done. cbn.
    rewrite digit_val_char by lia. lia.
Qed.

Lemma dec_fuel_enough n : 0 ≤ n → 0 ≤ n < 2 ^ Z.of_nat (dec_fuel n).
Proof.
  intros Hn. split; [done|]. unfold dec_fuel.
  rewrite Nat2Z.inj_succ, Z2Nat.id by apply Z.log2_nonneg.
  destruct (decide (n = 0)) as [->|]; [done|]. apply Z.log2_spec. lia.
Qed.

Lemma dec_value_nonneg n : 0 ≤ n → dec_value (dec_nonneg n) = n.
Proof. intros. apply dec_go_value_0, dec_fuel_enough. done. Qed.

Lemma dec_go_digits fuel n acc :
  0 ≤ n → sforall is_digit acc = true →
  sforall is_digit (dec_go fuel n acc) = true.
Proof.
  revert n acc. induction fuel as [|f IH]; intros n acc Hn Hacc; [done|].
  cbn [dec_go].
  assert (sforall is_digit (String (digit_char (n `mod` 10)) acc) = true).
  { cbn. rewrite digit_char_is_digit; [done|]. apply Z.mod_pos_bound. lia. }
  case_match; [done|]. apply IH; [|done]. apply Z.div_pos; lia.
Qed.

Lemma dec_nonneg_digits n : 0 ≤ n → sforall is_digit (dec_nonneg n) = true.
Proof. intros. by apply dec_go_digits. Qed.

(** The text has no superfluous leading zero. *)
Lemma dec_go_head fuel n acc :
  0 < n < 2 ^ Z.of_nat fuel →
  ∃ c s, dec_go fuel n acc = String c s ∧ is_digit c = true ∧ digit_val c ≠ 0.
Proof.
  revert n acc. induction fuel as [|f IH]; intros n acc Hn.
  { cbn in *. lia. }
  rewrite Nat2Z.inj_succ, Z.pow_succ_r in Hn by lia.
  pose proof (Z.div_mod n 10 ltac:(lia)).
  pose proof (Z.mod_pos_bound n 10 ltac:(lia)).
  cbn [dec_go]. case_match; b2p.
  - eexists _, _. split; [done|].
    rewrite digit_val_char, digit_char_is_digit by lia. split; [done|lia].
  - apply IH. pose proof (Z.div_pos n 10 ltac:(lia) ltac:(lia)).
    split; [lia|]. apply Z.div_lt_upper_bound; lia.
Qed.

Lemma dec_nonneg_head n :
  0 < n → ∃ c s, dec_nonneg n = String c s ∧ is_digit c = true ∧ digit_val c ≠ 0.
Proof. intros. apply dec_go_head. pose proof (dec_fuel_enough n). lia. Qed.

Lemma dec_nonneg_inj n m :
  0 ≤ n → 0 ≤ m → dec_nonneg n = dec_nonneg m → n = m.
Proof.
  intros Hn Hm H. by rewrite <- (dec_value_nonneg n), H, dec_value_nonneg.
Qed.

Lemma dec_nonneg_nonempty n : 0 ≤ n → ∃ c s, dec_nonneg n = String c s ∧ is_digit c = true.
Proof.
  intros Hn. destruct (decide (n = 0)) as [->|].
  { eexists _, _. split; reflexivity. }
  destruct (dec_nonneg_head n) as (c & s & -> & ? & _); eauto with lia.
Qed.

(** ** Digit by digit *)

Lemma dec_go_acc fuel n acc : dec_go fuel n acc = dec_go fuel n EmptyString +:+ acc.
Proof.
  revert n acc. induction fuel as [|f IH]; intros n acc; [done|]. cbn [dec_go].
  destruct (_ =? 0); [done|]. rewrite IH, (IH _ (String _ EmptyString)), <-sapp_assoc. done.
Qed.

Lemma dec_go_fuel f g n acc :
  0 ≤ n < 2 ^ Z.of_nat f → 0 ≤ n < 2 ^ Z.of_nat g → (0 < f)%nat → (0 < g)%nat →
  dec_go f n acc = dec_go g n acc.
Proof.
  revert g n acc. induction f as [|f IH]; intros [|g] n acc Hf Hg; [lia..|]. intros _ _.
  cbn [dec_go]. destruct (Z.eqb_spec (n / 10) 0) as [|Hd]; [done|].
  rewrite Nat2Z.inj_succ, Z.pow_succ_r in Hf, Hg by lia.
  assert (0 < n / 10) by (pose proof (Z.div_pos n 10); lia).
  assert (n / 10 < 2 ^ Z.of_nat f) by (apply Z.div_lt_upper_bound; lia).
  assert (n / 10 < 2 ^ Z.of_nat g) by (apply Z.div_lt_upper_bound; lia).
  apply IH; [lia..| |]; [destruct f|destruct g]; cbn in *; lia.
Qed.

Lemma dec_nonneg_small n : 0 ≤ n < 10 → dec_nonneg n = String (digit_char n) EmptyString.
Proof.
  intros Hn. unfold dec_nonneg, dec_fuel. cbn [dec_go].
  by rewrite Z.div_small, Z.mod_small by lia.
Qed.

Lemma dec_nonneg_step n :
  10 ≤ n → dec_nonneg n = dec_nonneg (n / 10) +:+ String (digit_char (n `mod` 10)) EmptyString.
Proof.
  intros Hn. pose proof (Z.div_le_lower_bound n 10 1 ltac:(lia) ltac:(lia)) as Hd.
  unfold dec_nonneg at 1. unfold dec_fuel. cbn [dec_go].
  destruct (Z.eqb_spec (n / 10) 0) as [E|_]; [lia|].
  rewrite dec_go_acc. f_equal. pose proof (dec_fuel_enough n ltac:(lia)) as Hf.
  unfold dec_fuel in Hf. rewrite Nat2Z.inj_succ, Z.pow_succ_r in Hf by lia.
  assert (n / 10 < 2 ^ Z.of_nat (Z.to_nat (Z.log2 n))) by (apply Z.div_lt_upper_bound; lia).
  assert (0 < Z.log2 n) by (apply Z.log2_pos; lia).
  apply dec_go_fuel; [lia|apply dec_fuel_enough; lia|lia|unfold dec_fuel; lia].
Qed.

Lemma to_string_inj n m : to_string n = to_string m → n = m.
Proof.
  unfold to_string. intros H.
  destruct (n <? 0) eqn:Hn, (m <? 0) eqn:Hm; b2p.
  - injection H as H. apply dec_nonneg_inj in H; lia.
  - destruct (dec_nonneg_nonempty m Hm) as (c & s & E & Hd).
    rewrite E in H. injection H as <- _. by vm_compute in Hd.
  - destruct (dec_nonneg_nonempty n Hn) as (c & s & E & Hd).
    rewrite E in H. injection H as -> _. by vm_compute in Hd.
  - by apply dec_nonneg_inj.
Qed.

Example to_string_examples :
  map to_string [0; 7; 10; 401; -1; 2147483647] =
  ["0"; "7"; "10"; "401"; "-1"; "2147483647"]%string.
Proof. reflexivity. Qed.
