(* ===== verification/StdMap.v ===== *)
(** [std::map]: a sorted association list over a strict total order of keys
    ([operator<]), iterated in key order.  [OrderedKey] is the interface a key
    type offers; the instances cover the key types of the program
    ([std::string], and [std::map<std::string,std::string>] itself, which
    orders [Labels]). *)

From S2P Require Import Prelude.

(** ** Keys *)

Class OrderedKey (K : Type) := {
  kltb : K → K → bool;
  kltb_irrefl k : kltb k k = false;
  kltb_trans a b c : kltb a b = true → kltb b c = true → kltb a c = true;
  kltb_total a b : kltb a b = false → kltb b a = false → a = b;
}.

Lemma kltb_asym `{OrderedKey K} a b : kltb a b = true → kltb b a = false.
Proof.
  intros Hab. destruct (kltb b a) eqn:Hba; [|done].
  pose proof (kltb_trans _ _ _ Hab Hba) as Haa. by rewrite kltb_irrefl in Haa.
Qed.

Lemma kltb_neq `{OrderedKey K} a b : kltb a b = true → a ≠ b.
Proof. intros Hab ->. by rewrite kltb_irrefl in Hab. Qed.

(** [std::string::operator<] compares characters as [unsigned char]. *)
#[export] Program Instance ascii_key : OrderedKey ascii := {|
  kltb a b := (byte_of a <? byte_of b)%Z |}.
Next Obligation. intros. apply Z.ltb_irrefl. Qed.
Next Obligation. intros a b c. rewrite !Z.ltb_lt. lia. Qed.
Next Obligation. intros a b. rewrite !Z.ltb_ge. intros. apply byte_of_inj. lia. Qed.

(** Lexicographic order of sequences. *)
Fixpoint lex_ltb `{OrderedKey A} (l m : list A) : bool :=
  match l, m with
  | _, [] => false
  | [], _ :: _ => true
  | a :: l', b :: m' =>
      if kltb a b then true else if kltb b a then false else lex_ltb l' m'
  end.

Lemma lex_step (a b c : bool) :
  (if a then true else if b then false else c) = a || (negb b && c).
Proof. by destruct a, b. Qed.

#[export] Program Instance list_key `{OrderedKey A} : OrderedKey (list A) := {|
  kltb := lex_ltb |}.
Next Obligation.
  intros A HA l. induction l as [|a l IH]; [done|]. cbn. by rewrite kltb_irrefl, IH.
Qed.
Next Obligation.
  intros A HA a. induction a as [|x a IH]; intros [|y b] [|z c]; try done.
  cbn. rewrite !lex_step, !orb_true_iff, !andb_true_iff, !negb_true_iff.
  intros [Hxy|[Hyx Hab]] [Hyz|[Hzy Hbc]].
  - left. by eapply kltb_trans.
  - left. destruct (kltb y z) eqn:E; [by eapply kltb_trans|].
    by rewrite <- (kltb_total y z).
  - left. destruct (kltb x y) eqn:E; [by eapply kltb_trans|].
    by rewrite (kltb_total x y).
  - destruct (kltb x y) eqn:E1, (kltb y z) eqn:E2.
    + left. by eapply kltb_trans.
    + left. by rewrite <- (kltb_total y z).
    + left. by rewrite (kltb_total x y).
    + right. rewrite (kltb_total x y), (kltb_total y z) by done.
      rewrite kltb_irrefl. split; [done|]. by eapply IH.
Qed.
Next Obligation.
  intros A HA a. induction a as [|x a IH]; intros [|y b]; try done.
  cbn. rewrite !lex_step, !orb_false_iff, !andb_false_iff, !negb_false_iff.
  intros [Hxy [Hyx|Hab]] [Hyx' [Hxy'|Hba]]; try congruence.
  rewrite (kltb_total x y) by done. f_equal. by apply IH.
Qed.

Fixpoint string_ltb (s t : string) : bool :=
  match s, t with
  | _, EmptyString => false
  | EmptyString, String _ _ => true
  | String a s', String b t' =>
      if kltb a b then true else if kltb b a then false else string_ltb s' t'
  end.

Lemma string_ltb_list s t :
  string_ltb s t = kltb (String.list_ascii_of_string s) (String.list_ascii_of_string t).
Proof. revert t. induction s as [|a s IH]; intros [|b t]; try done. cbn. by rewrite IH. Qed.

#[export] Program Instance string_key : OrderedKey string := {| kltb := string_ltb |}.
Next Obligation. intros k. rewrite string_ltb_list. apply kltb_irrefl. Qed.
Next Obligation. intros a b c. rewrite !string_ltb_list. apply kltb_trans. Qed.
Next Obligation.
  intros a b. rewrite !string_ltb_list. intros H1 H2. pose proof (kltb_total _ _ H1 H2) as H.
  by rewrite <- (String.string_of_list_ascii_of_string a), H,
    String.string_of_list_ascii_of_string.
Qed.

(** [std::pair::operator<] *)
#[export] Program Instance pair_key `{OrderedKey A, OrderedKey B} : OrderedKey (A * B) := {|
  kltb p q := if kltb p.1 q.1 then true else if kltb q.1 p.1 then false else kltb p.2 q.2 |}.
Next Obligation. intros A HA B HB [a b]. cbn. by rewrite !kltb_irrefl. Qed.
Next Obligation.
  intros A HA B HB [a1 a2] [b1 b2] [c1 c2]. cbn.
  rewrite !lex_step, !orb_true_iff, !andb_true_iff, !negb_true_iff.
  intros [H1|[H1 H1']] [H2|[H2 H2']].
  - left. by eapply kltb_trans.
  - left. destruct (kltb b1 c1) eqn:E; [by eapply kltb_trans|].
    by rewrite <- (kltb_total b1 c1).
  - left. destruct (kltb a1 b1) eqn:E; [by eapply kltb_trans|].
    by rewrite (kltb_total a1 b1).
  - destruct (kltb a1 b1) eqn:E1, (kltb b1 c1) eqn:E2.
    + left. by eapply kltb_trans.
    + left. by rewrite <- (kltb_total b1 c1).
    + left. by rewrite (kltb_total a1 b1).
    + right. rewrite (kltb_total a1 b1), (kltb_total b1 c1) by done.
      rewrite kltb_irrefl. split; [done|]. by eapply kltb_trans.
Qed.
Next Obligation.
  intros A HA B HB [a1 a2] [b1 b2]. cbn.
  rewrite !lex_step, !orb_false_iff, !andb_false_iff, !negb_false_iff.
  intros [H1 [H2|H2]] [H3 [H4|H4]]; try congruence.
  f_equal; by apply kltb_total.
Qed.

(** ** The map *)

Section omap.
Context `{OrderedKey K} {V : Type}.
Implicit Types (m : list (K * V)) (k : K) (v : V).

(** [find] *)
Fixpoint om_find k m : option V :=
  match m with
  | [] => None
  | (k', v') :: m' =>
      if kltb k k' then None
      else if kltb k' k then om_find k m'
      else Some v'
  end.

(** [m[k] = v] *)
Fixpoint om_assign k v m : list (K * V) :=
  match m with
  | [] => [(k, v)]
  | (k', v') :: m' =>
      if kltb k k' then (k, v) :: m
      else if kltb k' k then (k', v') :: om_assign k v m'
      else (k', v) :: m'
  end.

(** [m.emplace(k, v)]: an existing element is kept. *)
Definition om_emplace k v m : list (K * V) :=
  match om_find k m with
  | Some _ => m
  | None => om_assign k v m
  end.

(** Mutation of the element with key [k] through a reference. *)
Definition om_update k (f : V → V) m : list (K * V) :=
  match om_find k m with
  | Some v => om_assign k (f v) m
  | None => m
  end.

(** The representation invariant. *)
Definition om_lt_all k m : Prop := Forall (λ p, kltb k p.1 = true) m.
Fixpoint om_sorted m : Prop :=
  match m with
  | [] => True
  | (k, _) :: m' => om_lt_all k m' ∧ om_sorted m'
  end.

Lemma om_sorted_nil : om_sorted [].
Proof. done. Qed.

Lemma om_lt_all_trans a b m :
  kltb a b = true → om_lt_all b m → om_lt_all a m.
Proof.
  intros Hab. apply Forall_impl. intros p. by apply kltb_trans.
Qed.

Lemma om_find_lt_all k m : om_lt_all k m → om_find k m = None.
Proof. destruct 1 as [|[k' v'] m' Hk]; [done|]. cbn in *. by rewrite Hk. Qed.

Lemma om_assign_lt_all a k v m :
  kltb a k = true → om_lt_all a m → om_lt_all a (om_assign k v m).
Proof.
  intros Hak. induction 1 as [|[k' v'] m' Hk Hm IH]; cbn.
  { by repeat constructor. }
  destruct (kltb k k'); [by repeat constructor|].
  destruct (kltb k' k); by constructor.
Qed.

Lemma om_assign_sorted k v m : om_sorted m → om_sorted (om_assign k v m).
Proof.
  induction m as [|[k' v'] m IH]; cbn.
  { intros _. split; [constructor|done]. }
  intros [Hk Hm]. destruct (kltb k k') eqn:E1; cbn.
  { split; [|done]. constructor; [done|]. by eapply om_lt_all_trans. }
  destruct (kltb k' k) eqn:E2; cbn; [|done].
  split; [by apply om_assign_lt_all|by apply IH].
Qed.

Lemma om_emplace_sorted k v m : om_sorted m → om_sorted (om_emplace k v m).
Proof. unfold om_emplace. case_match; [done|]. apply om_assign_sorted. Qed.

Lemma om_update_sorted k f m : om_sorted m → om_sorted (om_update k f m).
Proof. unfold om_update. case_match; [|done]. apply om_assign_sorted. Qed.

Lemma om_find_assign_eq k v m : om_find k (om_assign k v m) = Some v.
Proof.
  induction m as [|[k' v'] m IH]; cbn; [by rewrite kltb_irrefl|].
  destruct (kltb k k') eqn:E1; cbn; [by rewrite kltb_irrefl|].
  destruct (kltb k' k) eqn:E2; cbn; by rewrite E1, E2.
Qed.

Lemma om_find_assign_ne k k' v m :
  om_sorted m → k' ≠ k → om_find k' (om_assign k v m) = om_find k' m.
Proof.
  intros Hs Hne. induction m as [|[a w] m IH]; cbn.
  { destruct (kltb k' k) eqn:E1, (kltb k k') eqn:E2; try done.
    destruct Hne. by apply kltb_total. }
  destruct Hs as [Ha Hs]. destruct (kltb k a) eqn:E1; cbn.
  - destruct (kltb k' k) eqn:E2.
    { by rewrite (kltb_trans _ _ _ E2 E1). }
    destruct (kltb k k') eqn:E3; [done|]. destruct Hne. by apply kltb_total.
  - destruct (kltb a k) eqn:E2; cbn.
    + rewrite IH by done. done.
    + rewrite (kltb_total k a) in Hne by done.
      destruct (kltb k' a) eqn:E3; [done|].
      destruct (kltb a k') eqn:E4; [done|]. destruct Hne. by apply kltb_total.
Qed.

Lemma om_find_emplace_eq k v m :
  om_find k (om_emplace k v m) = Some (default v (om_find k m)).
Proof.
  unfold om_emplace. destruct (om_find k m) eqn:E; cbn; [done|].
  apply om_find_assign_eq.
Qed.

Lemma om_find_emplace_ne k k' v m :
  om_sorted m → k' ≠ k → om_find k' (om_emplace k v m) = om_find k' m.
Proof. unfold om_emplace. intros. case_match; [done|]. by apply om_find_assign_ne. Qed.

Lemma om_find_update_eq k f m : om_find k (om_update k f m) = f <$> om_find k m.
Proof.
  unfold om_update. destruct (om_find k m) eqn:E; cbn; [|done].
  apply om_find_assign_eq.
Qed.

Lemma om_find_update_ne k k' f m :
  om_sorted m → k' ≠ k → om_find k' (om_update k f m) = om_find k' m.
Proof. unfold om_update. intros. case_match; [|done]. by apply om_find_assign_ne. Qed.

Lemma om_assign_length k v m :
  length (om_assign k v m) =
  match om_find k m with Some _ => length m | None => S (length m) end.
Proof.
  induction m as [|[k' v'] m IH]; cbn; [done|].
  destruct (kltb k k'); cbn; [done|]. destruct (kltb k' k); cbn; [|done].
  rewrite IH. by destruct (om_find k m).
Qed.

Lemma om_find_in k v m : om_sorted m → om_find k m = Some v ↔ In (k, v) m.
Proof.
  induction m as [|[a w] m IH]; cbn; [done|]. intros [Ha Hs].
  specialize (IH Hs). unfold om_lt_all in Ha. rewrite Forall_forall in Ha.
  destruct (kltb k a) eqn:E1; [|destruct (kltb a k) eqn:E2].
  - split; [done|]. intros [[= -> ->]|Hin].
    { by rewrite kltb_irrefl in E1. }
    apply Ha in Hin. cbn in Hin.
    apply kltb_asym in Hin. congruence.
  - rewrite IH. split; [by right|]. intros [[= -> ->]|Hin]; [|done].
    by rewrite kltb_irrefl in E2.
  - rewrite (kltb_total k a) in * by done. split.
    { intros [= ->]. by left. }
    intros [[= ->]|Hin]; [done|].
    apply Ha in Hin. cbn in Hin. congruence.
Qed.

(** A sorted map is determined by its lookups. *)
Lemma om_ext m1 m2 :
  om_sorted m1 → om_sorted m2 → (∀ k, om_find k m1 = om_find k m2) → m1 = m2.
Proof.
  revert m2. induction m1 as [|[k1 v1] m1 IH]; intros [|[k2 v2] m2]; try done.
  { intros _ _ Hf. specialize (Hf k2). cbn in Hf. by rewrite kltb_irrefl in Hf. }
  { intros _ _ Hf. specialize (Hf k1). cbn in Hf. by rewrite kltb_irrefl in Hf. }
  cbn. intros [H1 S1] [H2 S2] Hf.
  assert (k1 = k2) as <-.
  { pose proof (Hf k1) as F1. pose proof (Hf k2) as F2.
    rewrite kltb_irrefl in F1, F2. apply kltb_total.
    - destruct (kltb k1 k2) eqn:E; [congruence|done].
    - destruct (kltb k2 k1) eqn:E; [congruence|done]. }
  assert (v1 = v2) as <-.
  { specialize (Hf k1). rewrite kltb_irrefl in Hf. congruence. }
  f_equal. apply IH; [done..|]. intros k. specialize (Hf k).
  destruct (kltb k k1) eqn:E1; [|destruct (kltb k1 k) eqn:E2; [done|]].
  - rewrite !om_find_lt_all; [done| |]; by eapply om_lt_all_trans.
  - rewrite (kltb_total k k1) by done. by rewrite !om_find_lt_all.
Qed.

(** [erase] *)
Fixpoint om_erase k m : list (K * V) :=
  match m with
  | [] => []
  | (k', v') :: m' =>
      if kltb k k' then m
      else if kltb k' k then (k', v') :: om_erase k m'
      else m'
  end.

Lemma om_erase_lt_all a k m : om_lt_all a m → om_lt_all a (om_erase k m).
Proof.
  induction 1 as [|[k' v'] m' Hk Hm IH]; cbn; [constructor|].
  destruct (kltb k k'); [by constructor|]. destruct (kltb k' k); [by constructor|done].
Qed.

Lemma om_erase_sorted k m : om_sorted m → om_sorted (om_erase k m).
Proof.
  induction m as [|[k' v'] m IH]; cbn; [done|]. intros [Hk Hm].
  destruct (kltb k k'); [done|]. destruct (kltb k' k); [|done].
  split; [by apply om_erase_lt_all|by apply IH].
Qed.

Lemma om_find_erase_eq k m : om_sorted m → om_find k (om_erase k m) = None.
Proof.
  induction m as [|[a w] m IH]; cbn; [done|]. intros [Ha Hs]. specialize (IH Hs).
  destruct (kltb k a) eqn:E1; [|destruct (kltb a k) eqn:E2]; cbn; rewrite ?E1, ?E2; [done..|].
  rewrite <-(kltb_total k a) in Ha by done. by apply om_find_lt_all.
Qed.

Lemma om_find_erase_ne k k' m : om_sorted m → k' ≠ k → om_find k' (om_erase k m) = om_find k' m.
Proof.
  intros Hs Hne. induction m as [|[a w] m IH]; cbn; [done|]. destruct Hs as [Ha Hs].
  specialize (IH Hs).
  destruct (kltb k a) eqn:E1; [done|]. destruct (kltb a k) eqn:E2; cbn; [by rewrite IH|].
  rewrite <-(kltb_total k a) in Ha |- * by done.
  destruct (kltb k' k) eqn:E3; [|destruct (kltb k k') eqn:E4; [done|]].
  - by apply om_find_lt_all, (om_lt_all_trans _ k).
  - by destruct (Hne (kltb_total _ _ E3 E4)).
Qed.

(** Appending a key larger than every key present. *)
Lemma om_sorted_app m1 m2 :
  om_sorted (m1 ++ m2) → om_sorted m1 ∧ om_sorted m2.
Proof.
  induction m1 as [|[k v] m1 IH]; cbn; [done|].
  intros [Hk Hs]. apply IH in Hs as [??].
  apply Forall_app in Hk as [??]. done.
Qed.

Lemma om_assign_snoc k v m :
  om_sorted (m ++ [(k, v)]) → om_assign k v m = m ++ [(k, v)].
Proof.
  induction m as [|[k' v'] m IH]; cbn; [done|].
  intros [Hk Hs]. apply Forall_app in Hk as [_ Hk].
  apply Forall_inv in Hk. cbn in Hk.
  rewrite (kltb_asym _ _ Hk), Hk. by rewrite IH.
Qed.

Lemma om_assign_last k v w m :
  om_sorted (m ++ [(k, v)]) → om_assign k w (m ++ [(k, v)]) = m ++ [(k, w)].
Proof.
  induction m as [|[k' v'] m IH]; cbn; [by rewrite kltb_irrefl|].
  intros [Hk Hs]. apply Forall_app in Hk as [_ Hk].
  inversion Hk as [|?? Hlt _]; subst. cbn in Hlt.
  rewrite (kltb_asym _ _ Hlt), Hlt. by rewrite IH.
Qed.

Lemma om_assign_same k v m : om_sorted m → om_find k m = Some v → om_assign k v m = m.
Proof.
  intros Hs Hf. apply om_ext; [by apply om_assign_sorted|done|]. intros k'.
  destruct (kltb k k') eqn:E1; [rewrite om_find_assign_ne; [done..|by apply not_eq_sym, kltb_neq]|].
  destruct (kltb k' k) eqn:E2; [rewrite om_find_assign_ne; [done..|by apply kltb_neq]|].
  rewrite (kltb_total _ _ E1 E2) in *. by rewrite om_find_assign_eq.
Qed.

Lemma om_find_snoc_none k v m :
  om_sorted (m ++ [(k, v)]) → om_find k m = None.
Proof.
  induction m as [|[k' v'] m IH]; cbn; [done|].
  intros [Hk Hs]. apply Forall_app in Hk as [_ Hk].
  apply Forall_inv in Hk. cbn in Hk.
  rewrite (kltb_asym _ _ Hk), Hk. by apply IH.
Qed.
End omap.

(** Being sorted is a property of the keys. *)
Lemma om_sorted_keys `{OrderedKey K} {V W} (m1 : list (K * V)) (m2 : list (K * W)) :
  m1.*1 = m2.*1 → om_sorted m1 → om_sorted m2.
Proof.
  revert m2. induction m1 as [|[k v] m1 IH]; intros [|[k' w] m2]; try done.
  cbn. intros [= -> Hm] [Hk Hs]. split; [|by apply IH]. unfold om_lt_all in *.
  apply (Forall_fmap fst (λ a, kltb k' a = true)) in Hk. rewrite Hm in Hk.
  by apply (Forall_fmap fst (λ a, kltb k' a = true)) in Hk.
Qed.

Create HintDb stdmap.
#[export] Hint Resolve om_sorted_nil om_assign_sorted om_emplace_sorted om_update_sorted om_erase_sorted : stdmap.

(** [std::map<K,V> m{...}] filled by successive assignments. *)
Definition om_of_list `{OrderedKey K} {V} (l : list (K * V)) : list (K * V) :=
  fold_left (λ m p, om_assign p.1 p.2 m) l [].

Lemma om_of_list_sorted `{OrderedKey K} {V} (l : list (K * V)) :
  om_sorted (om_of_list l).
Proof.
  unfold om_of_list. assert (om_sorted (@nil (K * V))) as Hs by done. revert Hs.
  generalize (@nil (K * V)). induction l as [|p l IH]; intros m Hs; [done|].
  cbn. apply IH. auto with stdmap.
Qed.
#[export] Hint Resolve om_of_list_sorted : stdmap.

Example om_of_list_example :
  om_of_list [("path", "/"); ("method", "GET"); ("status", "200")]%string =
  [("method", "GET"); ("path", "/"); ("status", "200")]%string.
Proof. reflexivity. Qed.
