(* ===== verification/Doubles.v ===== *)
(** IEEE-754 binary64, the type [double] of the program: arithmetic with
    round-to-nearest-even from the standard library's executable
    specification [SpecFloat], the conversions the program uses (from
    integers, from decimal text as [strtod] does, to decimal text as
    [std::fixed] with [std::setprecision] does), and the exactness of small
    integers, on which the counters rely. *)

From Corelib Require Export SpecFloat.
From S2P Require Import Prelude Decimal.

Local Open Scope Z_scope.

Abbreviation double := spec_float.

#[export] Instance double_eq_dec : EqDecision double.
Proof. solve_decision. Defined.

(** ** Operations *)

Definition dbl_zero : double := S754_zero false.
Definition dbl_add : double → double → double := SFadd 53 1024.
Definition dbl_leb : double → double → bool := SFleb.
Definition dbl_div : double → double → double := SFdiv 53 1024.

(** [static_cast<double>] of an integer. *)
Definition dbl_of_Z (n : Z) : double := binary_normalize 53 1024 n 0 false.

Definition dbl_isfinite (d : double) : bool :=
  match d with S754_zero _ | S754_finite _ _ _ => true | _ => false end.

(** [strtod] of a decimal number [± m * 10^e]: correctly rounded. *)
Definition dbl_of_dec (neg : bool) (m : Z) (e : Z) : double :=
  match m with
  | Zpos p =>
      if 0 <=? e
      then binary_normalize 53 1024 ((if neg then Zneg p else Zpos p) * 10 ^ e) 0 neg
      else SFdiv 53 1024 (S754_finite neg p 0) (S754_finite false (Z.to_pos (10 ^ (- e))) 0)
  | _ => S754_zero neg
  end.

(** The nearest integer to [n / d], ties to even. *)
Definition div_round_even (n d : Z) : Z :=
  let q := n / d in
  let r := n `mod` d in
  if 2 * r <? d then q
  else if d <? 2 * r then q + 1
  else if Z.even q then q else q + 1.

(** [n] padded on the left with zeros to [w] characters. *)
Fixpoint zeros (k : nat) : string :=
  match k with O => EmptyString | S k' => String "0"%char (zeros k') end.
Definition pad0 (w : nat) (n : Z) : string :=
  let s := dec_nonneg n in zeros (w - String.length s) +:+ s.

(** [std::fixed << std::setprecision(prec)] *)
Definition fixed_abs (prec : nat) (m e : Z) : string :=
  let scale := 10 ^ Z.of_nat prec in
  let n := if 0 <=? e then m * 2 ^ e * scale
           else div_round_even (m * scale) (2 ^ (- e)) in
  match prec with
  | O => dec_nonneg n
  | _ => dec_nonneg (n / scale) +:+ String "."%char (pad0 prec (n `mod` scale))
  end.

Definition format_fixed (prec : nat) (d : double) : string :=
  match d with
  | S754_zero s => (if s then "-" else "")%string +:+ fixed_abs prec 0 0
  | S754_finite s m e => (if s then "-" else "")%string +:+ fixed_abs prec (Zpos m) e
  | S754_infinity s => if s then "-inf" else "inf"
  | S754_nan => "nan"
  end%string.

Example format_fixed_examples :
  map (format_fixed 4) [dbl_of_dec false 5 (-3); dbl_of_dec false 25 (-1); dbl_zero] =
  ["0.0050"; "2.5000"; "0.0000"]%string ∧
  format_fixed 0 (dbl_of_Z 12) = "12"%string ∧
  format_fixed 6 (dbl_of_dec true 1 (-3)) = "-0.001000"%string.
Proof. by vm_compute. Qed.

(** ** Digits *)

Lemma digits2_pos_log2 p : Zpos (digits2_pos p) = Z.log2 (Zpos p) + 1.
Proof.
  induction p as [p IH|p IH|]; [| |done]; cbn [digits2_pos];
    rewrite Pos2Z.inj_succ, IH.
  - rewrite (Pos2Z.inj_xI p), Z.log2_succ_double by lia. lia.
  - rewrite (Pos2Z.inj_xO p), Z.log2_double by lia. lia.
Qed.

Lemma Zdigits2_log2 n : 0 < n → Zdigits2 n = Z.log2 n + 1.
Proof. destruct n; try done. intros _. apply digits2_pos_log2. Qed.

Lemma Zdigits2_shift n j : 0 < n → 0 ≤ j → Zdigits2 (n * 2 ^ j) = Zdigits2 n + j.
Proof.
  intros. rewrite !Zdigits2_log2 by (try done; apply Z.mul_pos_pos; lia).
  rewrite Z.log2_mul_pow2 by lia. lia.
Qed.

(** ** Exact shifts *)

Lemma shr_1_even k :
  0 < k → shr_1 {| shr_m := 2 * k; shr_r := false; shr_s := false |} =
  {| shr_m := k; shr_r := false; shr_s := false |}.
Proof. by destruct k. Qed.

Lemma iter_shr_exact p k :
  0 < k →
  SpecFloat.iter_pos shr_1 p {| shr_m := k * 2 ^ Zpos p; shr_r := false; shr_s := false |} =
  {| shr_m := k; shr_r := false; shr_s := false |}.
Proof.
  revert k. induction p as [p IH|p IH|]; intros k Hk; cbn [SpecFloat.iter_pos].
  - rewrite (Pos2Z.inj_xI p).
    replace (2 * Zpos p + 1) with (1 + (Zpos p + Zpos p)) by lia.
    rewrite !Z.pow_add_r by lia.
    replace (k * (2 ^ 1 * (2 ^ Zpos p * 2 ^ Zpos p)))
      with (2 * ((k * 2 ^ Zpos p) * 2 ^ Zpos p)) by lia.
    rewrite shr_1_even by (repeat apply Z.mul_pos_pos; lia).
    rewrite IH by (apply Z.mul_pos_pos; lia). by apply IH.
  - rewrite (Pos2Z.inj_xO p).
    replace (2 * Zpos p) with (Zpos p + Zpos p) by lia.
    rewrite Z.pow_add_r by lia. rewrite Z.mul_assoc.
    rewrite IH by (apply Z.mul_pos_pos; lia). by apply IH.
  - rewrite Z.pow_1_r, Z.mul_comm. by apply shr_1_even.
Qed.

Lemma shr_exact k e n :
  0 < k → 0 ≤ n →
  shr {| shr_m := k * 2 ^ n; shr_r := false; shr_s := false |} e n =
  ({| shr_m := k; shr_r := false; shr_s := false |}, e + n).
Proof.
  intros Hk Hn. destruct n as [|p|p]; [|by cbn; rewrite iter_shr_exact|lia].
  cbn. by rewrite Z.mul_1_r, Z.add_0_r.
Qed.

Lemma pos_iter_xO d m : Zpos (Pos.iter xO m d) = Zpos m * 2 ^ Zpos d.
Proof.
  induction d as [|d IH] using Pos.peano_ind.
  - cbn. rewrite (Pos2Z.inj_xO m). lia.
  - rewrite Pos.iter_succ, (Pos2Z.inj_xO (Pos.iter _ _ _)), IH, Pos2Z.inj_succ.
    rewrite Z.pow_succ_r by lia. lia.
Qed.

Lemma shl_align_left m e e' :
  e' ≤ e → shl_align m e e' = (Z.to_pos (Zpos m * 2 ^ (e - e')), e').
Proof.
  intros. unfold shl_align. destruct (e' - e) as [|d|d] eqn:E; [|lia|].
  - replace (e - e') with 0 by lia. rewrite Z.mul_1_r. cbn. f_equal. lia.
  - replace (e - e') with (Zpos d) by lia. by rewrite <- pos_iter_xO.
Qed.

Lemma shl_align_keep m e e' : e ≤ e' → shl_align m e e' = (m, e).
Proof. intros. unfold shl_align. destruct (e' - e) eqn:E; [done|done|lia]. Qed.

(** ** Small integers are exact *)

Abbreviation fexp64 := (SpecFloat.fexp 53 1024).

(** The double whose value is the integer [n], [0 < n < 2^53]. *)
Definition exact_int (n : Z) : double :=
  let d := Zdigits2 n in S754_finite false (Z.to_pos (n * 2 ^ (53 - d))) (d - 53).

Lemma fexp64_small k : -1000 ≤ k → fexp64 k = k - 53.
Proof. unfold SpecFloat.fexp, SpecFloat.emin. lia. Qed.

Lemma Zdigits2_small n : 0 < n < 2 ^ 53 → 1 ≤ Zdigits2 n ≤ 53.
Proof.
  intros. rewrite Zdigits2_log2 by lia.
  assert (Z.log2 n < 53) by (apply Z.log2_lt_pow2; lia).
  pose proof (Z.log2_nonneg n). lia.
Qed.

(** Rounding does nothing to a mantissa of 53 digits. *)
Lemma round_aux_exact k j :
  0 < k → 0 ≤ j → Zdigits2 k = 53 → ∀ e, -1000 ≤ e ≤ 0 → j ≤ 200 →
  binary_round_aux 53 1024 false (k * 2 ^ j) (e - j) loc_Exact =
  S754_finite false (Z.to_pos k) e.
Proof.
  intros Hk Hj Hd e He Hj'. unfold binary_round_aux, shr_fexp.
  cbn [shr_record_of_loc].
  rewrite Zdigits2_shift, Hd by lia.
  replace (53 + j + (e - j)) with (53 + e) by lia.
  rewrite fexp64_small by lia.
  replace (53 + e - 53 - (e - j)) with j by lia.
  rewrite shr_exact by lia. cbn [shr_m loc_of_shr_record round_nearest_even].
  rewrite Hd. replace (e - j + j) with e by lia.
  rewrite fexp64_small by lia. replace (53 + e - 53 - e) with 0 by lia.
  cbn [shr]. cbn [shr_m]. destruct k as [|p|p]; try lia.
  case_match; b2p; [done|lia].
Qed.

Lemma normalize_exact n j :
  0 < n < 2 ^ 53 → 0 ≤ j ≤ 100 →
  binary_normalize 53 1024 (n * 2 ^ j) (- j) false = exact_int n.
Proof.
  intros Hn Hj. pose proof (Zdigits2_small n Hn) as Hd.
  assert (0 < 2 ^ j) by (apply Z.pow_pos_nonneg; lia).
  assert (0 < n * 2 ^ j) as Hpos by (apply Z.mul_pos_pos; lia).
  destruct (n * 2 ^ j) as [|m|m] eqn:Em; try lia. cbn [binary_normalize].
  unfold binary_round.
  assert (Zpos (digits2_pos m) = Zdigits2 n + j) as ->.
  { change (Zpos (digits2_pos m)) with (Zdigits2 (Zpos m)).
    rewrite <- Em. apply Zdigits2_shift; lia. }
  replace (Zdigits2 n + j + - j) with (Zdigits2 n) by lia.
  rewrite fexp64_small by lia. unfold exact_int.
  set (k := n * 2 ^ (53 - Zdigits2 n)).
  assert (0 < k) by (apply Z.mul_pos_pos; [lia|apply Z.pow_pos_nonneg; lia]).
  assert (Zdigits2 k = 53) by (unfold k; rewrite Zdigits2_shift; lia).
  destruct (Z.le_gt_cases (Zdigits2 n - 53) (- j)) as [Hle|Hgt].
  - rewrite shl_align_left by lia. rewrite <- Em.
    replace (n * 2 ^ j * 2 ^ (- j - (Zdigits2 n - 53))) with k.
    2:{ unfold k. rewrite <- Z.mul_assoc, <- Z.pow_add_r by lia. f_equal. f_equal. lia. }
    rewrite Z2Pos.id by lia.
    pose proof (round_aux_exact k 0 ltac:(lia) ltac:(lia) ltac:(done)
      (Zdigits2 n - 53) ltac:(lia) ltac:(lia)) as R.
    by rewrite Z.mul_1_r, Z.sub_0_r in R.
  - rewrite shl_align_keep by lia. rewrite <- Em.
    replace (n * 2 ^ j) with (k * 2 ^ (Zdigits2 n - 53 + j)).
    2:{ unfold k. rewrite <- Z.mul_assoc, <- Z.pow_add_r by lia. f_equal. f_equal. lia. }
    replace (- j) with (Zdigits2 n - 53 - (Zdigits2 n - 53 + j)) at 1 by lia.
    apply round_aux_exact; lia.
Qed.

Lemma dbl_of_Z_exact n : 0 < n < 2 ^ 53 → dbl_of_Z n = exact_int n.
Proof.
  intros. unfold dbl_of_Z. pose proof (normalize_exact n 0 ltac:(lia) ltac:(lia)) as E.
  by rewrite Z.mul_1_r in E.
Qed.

(** Incrementing by [1.0] is exact below [2^53] ... *)
Lemma dbl_add_one n :
  0 ≤ n < 2 ^ 53 → dbl_add (dbl_of_Z n) (dbl_of_Z 1) = dbl_of_Z (n + 1).
Proof.
  intros Hn. destruct (decide (n = 0)) as [->|]; [done|].
  rewrite (dbl_of_Z_exact n) by lia.
  pose proof (Zdigits2_small n ltac:(lia)) as Hd.
  assert (0 < 2 ^ (53 - Zdigits2 n)) by (apply Z.pow_pos_nonneg; lia).
  change (dbl_of_Z 1) with (S754_finite false 4503599627370496 (-52)).
  unfold dbl_add, SFadd, exact_int. cbn [cond_Zopp].
  rewrite Z.min_r by lia.
  rewrite !shl_align_left by lia. cbn [fst].
  assert (0 < n * 2 ^ (53 - Zdigits2 n)) by (apply Z.mul_pos_pos; lia).
  rewrite (Z2Pos.id (n * 2 ^ (53 - Zdigits2 n))) by lia.
  replace (n * 2 ^ (53 - Zdigits2 n) * 2 ^ (Zdigits2 n - 53 - -52)) with (n * 2 ^ 52).
  2:{ rewrite <- Z.mul_assoc, <- Z.pow_add_r by lia. f_equal. f_equal. lia. }
  rewrite Z2Pos.id by lia.
  replace (n * 2 ^ 52 + Z.pos (Z.to_pos (4503599627370496 * 2 ^ (-52 - -52))))
    with ((n + 1) * 2 ^ 52) by (cbn; lia).
  destruct (decide (n + 1 = 2 ^ 53)) as [->|]; [done|].
  rewrite dbl_of_Z_exact by lia. apply normalize_exact; lia.
Qed.

(** ... and does nothing at [2^53]. *)
Lemma dbl_add_one_saturates :
  dbl_add (dbl_of_Z (2 ^ 53)) (dbl_of_Z 1) = dbl_of_Z (2 ^ 53).
Proof. by vm_compute. Qed.

(** An exact integer is printed without decimals as itself. *)
Lemma format_fixed_int n :
  0 ≤ n < 2 ^ 53 → format_fixed 0 (dbl_of_Z n) = to_string n.
Proof.
  intros Hn. unfold to_string.
  destruct (n <? 0) eqn:E; [b2p; lia|clear E].
  destruct (decide (n = 0)) as [->|]; [done|].
  rewrite dbl_of_Z_exact by lia. unfold exact_int, format_fixed, fixed_abs.
  pose proof (Zdigits2_small n ltac:(lia)) as Hd.
  assert (0 < 2 ^ (53 - Zdigits2 n)) by (apply Z.pow_pos_nonneg; lia).
  assert (0 < n * 2 ^ (53 - Zdigits2 n)) by (apply Z.mul_pos_pos; lia).
  rewrite Z2Pos.id by lia. change (10 ^ Z.of_nat 0) with 1. rewrite sapp_nil_l, !Z.mul_1_r.
  f_equal. destruct (0 <=? Zdigits2 n - 53) eqn:E; b2p.
  - replace (Zdigits2 n) with 53 by lia. cbn. lia.
  - replace (- (Zdigits2 n - 53)) with (53 - Zdigits2 n) by lia.
    unfold div_round_even. rewrite Z.div_mul, Z.mod_mul by lia.
    case_match; b2p; [done|lia].
Qed.

(** [<=] is transitive; it is false whenever a NaN takes part. *)
Lemma dbl_leb_trans a b c : dbl_leb a b = true → dbl_leb b c = true → dbl_leb a c = true.
Proof.
  unfold dbl_leb, SFleb.
  destruct a as [[]|[]| |[] ma ea], b as [[]|[]| |[] mb eb], c as [[]|[]| |[] mc ec];
    try done; cbn [SFcompare];
    change (Pos.compare_cont Eq) with Pos.compare;
    destruct (Z.compare_spec ea eb), (Z.compare_spec eb ec), (Z.compare_spec ea ec);
    try lia; try done;
    destruct (Pos.compare_spec ma mb), (Pos.compare_spec mb mc), (Pos.compare_spec ma mc);
    try lia; done.
Qed.
