(* ===== verification/FloatRound.v ===== *)
(** Correct rounding of [strtod]: a decimal number inside the rounding
    interval of a binary64 is read as that binary64.

    The number being rounded is a fraction [P / Q] times a power of two; the
    executable specification keeps its integral part and the position of the
    rest. *)

From S2P Require Import Prelude Decimal Doubles.

Local Open Scope Z_scope.

(** ** The record of a fraction *)

Definition loc_of (P Q : Z) : location :=
  if P mod Q =? 0 then loc_Exact else loc_Inexact (2 * (P mod Q) ?= Q).

Definition rec_of (P Q : Z) : shr_record :=
  {| shr_m := P / Q; shr_r := Z.odd (2 * P / Q); shr_s := negb ((2 * P) mod Q =? 0) |}.

(** The half of the rest decides the bit behind the integral part. *)
Lemma double_div P Q :
  0 < Q →
  (2 * (P mod Q) < Q ∧ 2 * P / Q = 2 * (P / Q) ∧ (2 * P) mod Q = 2 * (P mod Q)) ∨
  (Q <= 2 * (P mod Q) ∧ 2 * P / Q = 2 * (P / Q) + 1 ∧ (2 * P) mod Q = 2 * (P mod Q) - Q).
Proof.
  intros HQ. pose proof (Z.div_mod P Q ltac:(lia)) as E. pose proof (Z.mod_pos_bound P Q HQ) as Hr.
  destruct (Z.lt_ge_cases (2 * (P mod Q)) Q) as [Hlt|Hge]; [left|right]; (split; [done|]).
  - split; [symmetry; apply (Z.div_unique_pos _ _ _ (2 * (P mod Q))); lia|].
    symmetry; apply (Z.mod_unique_pos _ _ (2 * (P / Q))); lia.
  - split; [symmetry; apply (Z.div_unique_pos _ _ _ (2 * (P mod Q) - Q)); lia|].
    symmetry; apply (Z.mod_unique_pos _ _ (2 * (P / Q) + 1)); lia.
Qed.

Lemma rec_of_loc P Q : 0 < Q → shr_record_of_loc (P / Q) (loc_of P Q) = rec_of P Q.
Proof.
  intros HQ. unfold loc_of, rec_of. pose proof (Z.mod_pos_bound P Q HQ) as Hr.
  destruct (double_div P Q HQ) as [(Hlt & -> & ->)|(Hge & -> & ->)].
  - replace (2 * (P / Q)) with (0 + 2 * (P / Q)) by lia. rewrite Z.odd_add_mul_2. cbn [Z.odd].
    destruct (Z.eqb_spec (P mod Q) 0) as [->|]; [done|].
    rewrite (proj2 (Z.compare_lt_iff _ _)) by lia. cbn.
    by rewrite (proj2 (Z.eqb_neq _ _)) by lia.
  - replace (2 * (P / Q) + 1) with (1 + 2 * (P / Q)) by lia. rewrite Z.odd_add_mul_2. cbn [Z.odd].
    rewrite (proj2 (Z.eqb_neq (P mod Q) 0)) by lia.
    destruct (Z.compare_spec (2 * (P mod Q)) Q) as [E|E|E]; [|lia|]; cbn.
    + by rewrite (proj2 (Z.eqb_eq _ _)) by lia.
    + by rewrite (proj2 (Z.eqb_neq _ _)) by lia.
Qed.

Lemma loc_of_rec P Q : 0 < Q → loc_of_shr_record (rec_of P Q) = loc_of P Q.
Proof.
  intros HQ. rewrite <- rec_of_loc by done.
  by destruct (loc_of P Q) as [|[]].
Qed.

(** ** Shifting *)

Lemma shr_1_step m r s :
  0 <= m → shr_1 {| shr_m := m; shr_r := r; shr_s := s |} =
  {| shr_m := m / 2; shr_r := Z.odd m; shr_s := r || s |}.
Proof.
  intros Hm. destruct m as [|p|p]; [done| |lia].
  destruct p as [p|p|]; cbn [shr_1 Z.odd]; [|by rewrite Pos2Z.inj_xO, Z.mul_comm, Z.div_mul|done].
  rewrite Pos2Z.inj_xI. f_equal. apply (Z.div_unique_pos _ _ _ 1); lia.
Qed.

Lemma shr_1_rec P Q : 0 <= P → 0 < Q → shr_1 (rec_of P Q) = rec_of P (Q * 2).
Proof.
  intros HP HQ. unfold rec_of. rewrite shr_1_step by (apply Z.div_pos; lia).
  f_equal.
  - by rewrite Z.div_div by lia.
  - by rewrite (Z.mul_comm Q), Z.div_mul_cancel_l by lia.
  - rewrite (Z.mul_comm Q), Z.mul_mod_distr_l by lia.
    destruct (double_div P Q HQ) as [(Hlt & -> & ->)|(Hge & -> & ->)].
    + replace (2 * (P / Q)) with (0 + 2 * (P / Q)) by lia. by rewrite Z.odd_add_mul_2.
    + replace (2 * (P / Q) + 1) with (1 + 2 * (P / Q)) by lia. rewrite Z.odd_add_mul_2. cbn.
      by rewrite (proj2 (Z.eqb_neq _ _)) by lia.
Qed.

Lemma iter_shr_rec p P Q :
  0 <= P → 0 < Q → SpecFloat.iter_pos shr_1 p (rec_of P Q) = rec_of P (Q * 2 ^ Zpos p).
Proof.
  intros HP. revert Q. induction p as [p IH|p IH|]; intros Q HQ; cbn [SpecFloat.iter_pos].
  - rewrite shr_1_rec, IH, IH by lia. f_equal. rewrite (Pos2Z.inj_xI p).
    replace (2 * Zpos p + 1) with (1 + Zpos p + Zpos p) by lia. rewrite !Z.pow_add_r by lia. lia.
  - rewrite IH, IH by lia. f_equal. rewrite (Pos2Z.inj_xO p).
    replace (2 * Zpos p) with (Zpos p + Zpos p) by lia. rewrite Z.pow_add_r by lia. lia.
  - by rewrite shr_1_rec.
Qed.

Lemma shr_rec P Q e t :
  0 <= P → 0 < Q → 0 <= t → shr (rec_of P Q) e t = (rec_of P (Q * 2 ^ t), e + t).
Proof.
  intros HP HQ Ht. destruct t as [|p|p]; [|by cbn [shr]; rewrite iter_shr_rec|lia].
  cbn [shr]. by rewrite Z.pow_0_r, Z.mul_1_r, Z.add_0_r.
Qed.

(** ** Rounding to the nearest *)

Lemma round_nearest P Q n :
  0 < Q → (2 * n - 1) * Q < 2 * P < (2 * n + 1) * Q → round_nearest_even (P / Q) (loc_of P Q) = n.
Proof.
  intros HQ Hn. unfold loc_of. pose proof (Z.div_mod P Q ltac:(lia)) as E.
  pose proof (Z.mod_pos_bound P Q HQ) as Hr. set (q := P / Q) in *. set (r := P mod Q) in *.
  assert (q = n ∧ 2 * r < Q ∨ q = n - 1 ∧ Q < 2 * r) as [[-> Hlt]|[-> Hlt]].
  { assert (n - 2 < q < n + 1) by nia. assert (q = n ∨ q = n - 1) as [Eq|Eq] by lia; [left|right]; nia. }
  - destruct (Z.eqb_spec r 0); [done|]. by rewrite (proj2 (Z.compare_lt_iff _ _) Hlt).
  - rewrite (proj2 (Z.eqb_neq r 0)) by lia. rewrite (proj2 (Z.compare_gt_iff _ _) Hlt). cbn. lia.
Qed.

(** ** The rounding interval of a binary64

    [X / D] is the number times [2^1074], so that every exponent is at least
    zero.  Below a power of two the neighbour is closer. *)
Definition rounds_to (m : positive) (e X D : Z) : Prop :=
  (2 * Zpos m - 1) * (2 ^ (e + 1074) * D) < 2 * X < (2 * Zpos m + 1) * (2 ^ (e + 1074) * D) ∧
  (Zpos m = 2 ^ 52 → -1074 < e → (4 * Zpos m - 1) * (2 ^ (e + 1074) * D) < 4 * X).

Lemma fexp64_max k : fexp64 k = Z.max (k - 53) (-1074).
Proof. reflexivity. Qed.

(** The mantissas and exponents of finite numbers. *)
Lemma bounded_inv m e :
  bounded 53 1024 m e = true →
  -1074 <= e <= 971 ∧ Zpos m < 2 ^ 53 ∧ (e = -1074 ∨ 2 ^ 52 <= Zpos m) ∧
  fexp64 (Zdigits2 (Zpos m) + e) = e.
Proof.
  unfold bounded, canonical_mantissa. intros Hb. b2p.
  change (Zpos (digits2_pos m)) with (Zdigits2 (Zpos m)) in *.
  match goal with H : fexp64 _ = _ |- _ => rename H into Hc end.
  pose proof Hc as Hmax. rewrite fexp64_max, Zdigits2_log2 in Hmax by lia.
  pose proof (Z.log2_spec (Zpos m) ltac:(lia)) as [Hlo Hhi].
  pose proof (Z.log2_nonneg (Zpos m)).
  assert (Z.log2 (Zpos m) <= 52) as Hl by lia.
  assert (2 ^ Z.succ (Z.log2 (Zpos m)) <= 2 ^ 53) by (apply Z.pow_le_mono_r; lia).
  split; [lia|]. split; [lia|]. split; [|done].
  destruct (Z.eq_dec e (-1074)) as [|]; [by left|right].
  by replace (Z.log2 (Zpos m)) with 52 in Hlo by lia.
Qed.

Lemma Zdigits2_bounds n : 0 < n → 2 ^ (Zdigits2 n - 1) <= n < 2 ^ Zdigits2 n.
Proof.
  intros Hn. rewrite Zdigits2_log2 by done. pose proof (Z.log2_spec n Hn).
  replace (Z.log2 n + 1 - 1) with (Z.log2 n) by lia. lia.
Qed.

Lemma pow2_lt_inv a b D : 0 <= a → 0 <= b → 0 < D → 2 ^ a * D < 2 ^ b * D → a < b.
Proof.
  intros Ha Hb HD Hlt. apply (Z.pow_lt_mono_r_iff 2); [lia..|]. by apply (Z.mul_lt_mono_pos_r D).
Qed.

(** How many bits the integral part has. *)
Lemma digits_scaled mx ez X D :
  0 <= mx → -1074 <= ez → 0 < D →
  mx * (2 ^ (ez + 1074) * D) <= X < (mx + 1) * (2 ^ (ez + 1074) * D) →
  mx = 0 ∧ X < 2 ^ (ez + 1074) * D ∨
  1 <= Zdigits2 mx ∧
  2 ^ (Zdigits2 mx - 1 + (ez + 1074)) * D <= X < 2 ^ (Zdigits2 mx + (ez + 1074)) * D.
Proof.
  intros Hmx Hez HD HX. destruct (Z.eq_dec mx 0) as [->|]; [left; lia|right].
  pose proof (Zdigits2_bounds mx ltac:(lia)) as [Hlo Hhi].
  assert (1 <= Zdigits2 mx) by (rewrite Zdigits2_log2 by lia; pose proof (Z.log2_nonneg mx); lia).
  assert (0 < 2 ^ (ez + 1074)) by (apply Z.pow_pos_nonneg; lia).
  split; [done|]. rewrite (Z.pow_add_r 2 (_ - 1)), (Z.pow_add_r 2 (Zdigits2 mx)) by lia.
  set (u := 2 ^ (ez + 1074) * D) in *. assert (0 < u) by (apply Z.mul_pos_pos; lia).
  rewrite <- !Z.mul_assoc. fold u. nia.
Qed.

(** The exponent the number is rounded at: its own, or one less just below a
    power of two. *)
Lemma rounding_exponent m e X D mx ez :
  bounded 53 1024 m e = true → rounds_to m e X D → 0 <= mx → -1074 <= ez → 0 < D →
  mx * (2 ^ (ez + 1074) * D) <= X < (mx + 1) * (2 ^ (ez + 1074) * D) →
  ez <= fexp64 (Zdigits2 mx + ez) →
  fexp64 (Zdigits2 mx + ez) = e ∨
  fexp64 (Zdigits2 mx + ez) = e - 1 ∧ Zpos m = 2 ^ 52 ∧ -1074 < e ∧ X < 2 ^ 53 * (2 ^ (e - 1 + 1074) * D).
Proof.
  intros Hm [[Hlo Hhi] Hclose] Hmx Hez HD HX Hfexp.
  destruct (bounded_inv m e Hm) as (He & Hm53 & Hnorm & _). rewrite fexp64_max in *.
  assert (0 < 2 ^ (e + 1074)) by (apply Z.pow_pos_nonneg; lia).
  set (w := 2 ^ (e + 1074) * D) in *. assert (0 < w) by nia.
  assert (X < 2 ^ (53 + (e + 1074)) * D) as HXhi.
  { rewrite (Z.pow_add_r 2 _ (e + 1074)), <- Z.mul_assoc by lia. fold w. nia. }
  destruct (digits_scaled mx ez X D Hmx Hez HD HX) as [(-> & HX0)|(Hd & HXlo' & HXhi')].
  { cbn [Zdigits2] in *. left. assert (ez = -1074) as -> by lia.
    destruct Hnorm as [->|Hnorm]; [lia|]. exfalso. cbn in HX0. nia. }
  set (d := Zdigits2 mx) in *.
  assert (d - 1 + (ez + 1074) < 53 + (e + 1074)) as Hdle.
  { apply (pow2_lt_inv _ _ D); lia. }
  destruct Hnorm as [->|Hnorm]; [left; lia|].
  destruct (Z.eq_dec e (-1074)) as [->|Hne]; [left; lia|].
  assert (2 ^ (51 + (e + 1074)) * D < X) as HX51.
  { rewrite (Z.pow_add_r 2 _ (e + 1074)), <- Z.mul_assoc by lia. fold w. nia. }
  assert (51 + (e + 1074) < d + (ez + 1074)) as Hdge.
  { apply (pow2_lt_inv _ _ D); lia. }
  assert (d + ez = 53 + e ∨ d + ez = 52 + e) as [Hd'|Hd'] by lia; [left; lia|right].
  split; [lia|].
  assert (X < 2 ^ 52 * w) as HX52.
  { replace (d + (ez + 1074)) with (52 + (e + 1074)) in HXhi' by lia.
    rewrite (Z.pow_add_r 2 52) in HXhi' by lia. unfold w. lia. }
  split; [nia|]. split; [lia|].
  replace (2 ^ 53 * (2 ^ (e - 1 + 1074) * D)) with (2 ^ 52 * w); [done|].
  unfold w. replace (e + 1074) with (1 + (e - 1 + 1074)) by lia. rewrite (Z.pow_add_r 2 1) by lia. lia.
Qed.

(** A mantissa at its exponent is not moved. *)
Lemma shr_fexp_canonical n e :
  fexp64 (Zdigits2 n + e) = e →
  shr_fexp 53 1024 n e loc_Exact = ({| shr_m := n; shr_r := false; shr_s := false |}, e).
Proof. intros Hc. unfold shr_fexp. by rewrite Hc, Z.sub_diag. Qed.

Lemma shr_fexp_loc P D ez :
  0 <= P → 0 < D → ez <= fexp64 (Zdigits2 (P / D) + ez) →
  shr_fexp 53 1024 (P / D) ez (loc_of P D) =
  (rec_of P (D * 2 ^ (fexp64 (Zdigits2 (P / D) + ez) - ez)), fexp64 (Zdigits2 (P / D) + ez)).
Proof. intros HP HD Hle. unfold shr_fexp. rewrite rec_of_loc, shr_rec by lia. f_equal. lia. Qed.

Lemma scale_interval a b w u D P :
  0 < u → a * (w * u * D) < 2 * (P * u) < b * (w * u * D) → a * (D * w) < 2 * P < b * (D * w).
Proof. intros Hu [Ha Hb]. split; apply (Zmult_lt_reg_r _ _ u); lia. Qed.

(** A number in the rounding interval of [m * 2^e] is rounded to it. *)
Lemma round_aux_nearest sx m e N D ez :
  bounded 53 1024 m e = true → -1074 <= ez <= 0 → 0 < N → 0 < D →
  rounds_to m e (N * 2 ^ 1074) D →
  ez <= fexp64 (Zdigits2 (N * 2 ^ (- ez) / D) + ez) →
  binary_round_aux 53 1024 sx (N * 2 ^ (- ez) / D) ez (loc_of (N * 2 ^ (- ez)) D) =
  S754_finite sx m e.
Proof.
  intros Hm Hez HN HD Hr Hfexp. set (P := N * 2 ^ (- ez)) in *.
  assert (0 < 2 ^ (- ez)) by (apply Z.pow_pos_nonneg; lia).
  assert (0 < P) by (apply Z.mul_pos_pos; lia).
  assert (P * 2 ^ (ez + 1074) = N * 2 ^ 1074) as EX.
  { unfold P. rewrite <- Z.mul_assoc, <- Z.pow_add_r by lia. do 2 f_equal. lia. }
  assert (0 <= P / D) as Hmx by (apply Z.div_pos; lia).
  assert (0 < 2 ^ (ez + 1074)) by (apply Z.pow_pos_nonneg; lia).
  destruct (rounding_exponent m e (N * 2 ^ 1074) D (P / D) ez)
    as [HE|(HE & Hm52 & He & HX)]; [done|done|done|lia|done| |done| |].
  { rewrite <- EX. pose proof (Z.div_mod P D ltac:(lia)). pose proof (Z.mod_pos_bound P D HD). nia. }
  all: destruct (bounded_inv m e Hm) as (He' & Hm53 & _ & Hc); destruct Hr as [[Hlo Hhi] Hclose].
  all: unfold binary_round_aux; rewrite shr_fexp_loc by lia;
    rewrite HE; cbn [shr_m rec_of]; rewrite loc_of_rec by (apply Z.mul_pos_pos; [done|apply Z.pow_pos_nonneg; lia]).
  - assert (2 ^ (e - ez) * 2 ^ (ez + 1074) = 2 ^ (e + 1074)) as Ew.
    { rewrite <- Z.pow_add_r by lia. f_equal. lia. }
    assert (0 < 2 ^ (e - ez)) by (apply Z.pow_pos_nonneg; lia).
    rewrite (round_nearest _ _ (Zpos m));
      [|by apply Z.mul_pos_pos|apply (scale_interval _ _ _ (2 ^ (ez + 1074))); [done|]; by rewrite Ew, EX].
    rewrite shr_fexp_canonical by done. cbn [shr_m].
    by rewrite (proj2 (Z.leb_le e (1024 - 53))) by lia.
  - assert (2 ^ (e - 1 - ez) * 2 ^ (ez + 1074) = 2 ^ (e - 1 + 1074)) as Ew.
    { rewrite <- Z.pow_add_r by lia. f_equal. lia. }
    assert (2 ^ (e + 1074) = 2 * 2 ^ (e - 1 + 1074)) as Ew'.
    { rewrite <- Z.pow_succ_r by lia. f_equal. lia. }
    assert (0 < 2 ^ (e - 1 - ez)) by (apply Z.pow_pos_nonneg; lia).
    specialize (Hclose Hm52 He).
    rewrite (round_nearest _ _ (2 ^ 53));
      [|by apply Z.mul_pos_pos|apply (scale_interval _ _ _ (2 ^ (ez + 1074))); [done|]; rewrite Ew, EX].
    2: { rewrite Ew', Hm52 in Hclose. lia. }
    unfold shr_fexp. change (Zdigits2 (2 ^ 53)) with 54.
    replace (fexp64 (54 + (e - 1)) - (e - 1)) with 1 by (rewrite fexp64_max; lia).
    assert (m = 4503599627370496%positive) as -> by (by injection Hm52).
    change (2 ^ 53) with 9007199254740992. cbn [shr SpecFloat.iter_pos shr_1 shr_m shr_record_of_loc].
    rewrite (proj2 (Z.leb_le _ (1024 - 53))) by lia. f_equal. lia.
Qed.

(** ** [strtod] *)

Lemma new_location_of P D : 0 < D → new_location D (P mod D) = loc_of P D.
Proof.
  intros HD. unfold new_location, new_location_even, new_location_odd, loc_of.
  destruct (Z.even D) eqn:HE; destruct (P mod D =? 0); try done. f_equal.
  pose proof (Z.negb_even D) as HO. rewrite HE in HO. symmetry in HO.
  apply Zodd_bool_iff, Zodd_ex_iff in HO as [j ->].
  destruct (Z.compare_spec (2 * (P mod (2 * j + 1)) + 1) (2 * j + 1)) as [E|E|E]; symmetry.
  - apply Z.compare_lt_iff. lia.
  - apply Z.compare_lt_iff. lia.
  - apply Z.compare_gt_iff. lia.
Qed.

Lemma Zdigits2_ge n k : 0 <= k → 2 ^ k <= n → k + 1 <= Zdigits2 n.
Proof.
  intros Hk Hn. assert (0 < 2 ^ k) by (apply Z.pow_pos_nonneg; lia).
  rewrite Zdigits2_log2 by lia. pose proof (Z.log2_le_mono (2 ^ k) n Hn) as Hl.
  rewrite Z.log2_pow2 in Hl by lia. lia.
Qed.

(** The quotient has enough bits. *)
Lemma quotient_digits N D ez :
  0 < N → 0 < D → ez <= fexp64 (Zdigits2 N - Zdigits2 D) → ez <= 0 →
  ez <= fexp64 (Zdigits2 (N * 2 ^ (- ez) / D) + ez).
Proof.
  intros HN HD He H0. rewrite !fexp64_max in *.
  set (d1 := Zdigits2 N) in *. set (d2 := Zdigits2 D) in *.
  destruct (Z.le_gt_cases (d1 - d2 - 53) (-1074)); [lia|].
  assert (1 <= d2) by (unfold d2; rewrite Zdigits2_log2 by lia; pose proof (Z.log2_nonneg D); lia).
  assert (1 <= d1) by (unfold d1; rewrite Zdigits2_log2 by lia; pose proof (Z.log2_nonneg N); lia).
  set (a := d1 - 1 - ez - d2) in *. assert (52 <= a) by lia.
  assert (2 ^ a <= N * 2 ^ (- ez) / D); [|assert (a + 1 <= Zdigits2 (N * 2 ^ (- ez) / D)) by (apply Zdigits2_ge; lia); lia].
  apply Z.div_le_lower_bound; [done|].
  pose proof (Zdigits2_bounds N HN) as [HN1 _]. pose proof (Zdigits2_bounds D HD) as [_ HD2].
  fold d1 in HN1. fold d2 in HD2.
  assert (2 ^ d2 * 2 ^ a = 2 ^ (d1 - 1) * 2 ^ (- ez)) as E.
  { rewrite <- (Z.pow_add_r 2 d2 a), <- (Z.pow_add_r 2 (d1 - 1) (- ez)) by lia. f_equal. lia. }
  assert (0 < 2 ^ a) by (apply Z.pow_pos_nonneg; lia).
  assert (0 < 2 ^ (- ez)) by (apply Z.pow_pos_nonneg; lia). nia.
Qed.

Lemma fexp64_ge k : -1074 <= fexp64 k.
Proof. rewrite fexp64_max. lia. Qed.

Lemma div_eucl_pair a b : Z.div_eucl a b = (a / b, a mod b).
Proof. unfold Z.div, Z.modulo. by destruct (Z.div_eucl a b). Qed.

(** A number is the rounding of the fraction [N / D]. *)
Definition rounding_of (neg : bool) (N D : Z) (x : double) : Prop :=
  ∃ ez, -1074 <= ez <= 0 ∧ ez <= fexp64 (Zdigits2 (N * 2 ^ (- ez) / D) + ez) ∧
    x = binary_round_aux 53 1024 neg (N * 2 ^ (- ez) / D) ez (loc_of (N * 2 ^ (- ez)) D).

Lemma rounding_nearest neg m e N D x :
  bounded 53 1024 m e = true → 0 < N → 0 < D → rounds_to m e (N * 2 ^ 1074) D →
  rounding_of neg N D x → x = S754_finite neg m e.
Proof. intros Hm HN HD Hr (ez & Hez & Hf & ->). by apply round_aux_nearest. Qed.

Lemma div_rounding neg p q :
  rounding_of neg (Zpos p) (Zpos q) (SFdiv 53 1024 (S754_finite neg p 0) (S754_finite false q 0)).
Proof.
  unfold SFdiv, SFdiv_core_binary. rewrite !Z.add_0_r, xorb_false_r.
  change (0 - 0) with 0. set (ez := Z.min (fexp64 (Zdigits2 (Zpos p) - Zdigits2 (Zpos q))) 0).
  pose proof (fexp64_ge (Zdigits2 (Zpos p) - Zdigits2 (Zpos q))) as Hf.
  assert (match 0 - ez with Z0 => Zpos p | Zpos _ => Z.shiftl (Zpos p) (0 - ez) | Zneg _ => 0 end
          = Zpos p * 2 ^ (- ez)) as ->.
  { replace (0 - ez) with (- ez) by lia.
    destruct (- ez) eqn:E; [by rewrite Z.mul_1_r|apply Z.shiftl_mul_pow2; lia|lia]. }
  rewrite div_eucl_pair, new_location_of by done.
  exists ez. split; [lia|]. split; [apply quotient_digits; lia|done].
Qed.

Lemma div_1 P : P / 1 = P.
Proof. apply Z.div_1_r. Qed.

Lemma loc_of_1 P : loc_of P 1 = loc_Exact.
Proof. unfold loc_of. by rewrite Z.mod_1_r. Qed.

Lemma normalize_rounding (neg : bool) p :
  rounding_of neg (Zpos p) 1 (binary_normalize 53 1024 (if neg then Zneg p else Zpos p) 0 neg).
Proof.
  assert (binary_normalize 53 1024 (if neg then Zneg p else Zpos p) 0 neg = binary_round 53 1024 neg p 0)
    as -> by by destruct neg.
  unfold binary_round. rewrite Z.add_0_r. change (Zpos (digits2_pos p)) with (Zdigits2 (Zpos p)).
  set (ez := Z.min (fexp64 (Zdigits2 (Zpos p))) 0).
  pose proof (fexp64_ge (Zdigits2 (Zpos p))) as Hf.
  assert (shl_align p 0 (fexp64 (Zdigits2 (Zpos p))) = (Z.to_pos (Zpos p * 2 ^ (- ez)), ez)) as ->.
  { destruct (Z.le_ge_cases (fexp64 (Zdigits2 (Zpos p))) 0).
    - rewrite shl_align_left by done. replace ez with (fexp64 (Zdigits2 (Zpos p))) by lia. do 2 f_equal.
    - rewrite shl_align_keep by done. replace ez with 0 by lia. by rewrite Z.mul_1_r. }
  rewrite Z2Pos.id by (apply Z.mul_pos_pos; [done|apply Z.pow_pos_nonneg; lia]).
  exists ez. split; [lia|]. rewrite div_1, loc_of_1. split; [|done].
  rewrite Zdigits2_shift by lia.
  replace (Zdigits2 (Zpos p) + - ez + ez) with (Zdigits2 (Zpos p)) by lia. lia.
Qed.

(** The decimal number [p * 10^k] lies in the rounding interval. *)
Definition decimal_rounds_to (m : positive) (e p k : Z) : Prop :=
  rounds_to m e (p * 10 ^ Z.max k 0 * 2 ^ 1074) (10 ^ Z.max (- k) 0).

(** [strtod] rounds the decimal number. *)
Lemma dbl_of_dec_rounding neg p k :
  0 < p → rounding_of neg (p * 10 ^ Z.max k 0) (10 ^ Z.max (- k) 0) (dbl_of_dec neg p k).
Proof.
  intros Hp. destruct p as [|p|p]; try lia. unfold dbl_of_dec.
  destruct (Z.leb_spec 0 k) as [Hk|Hk].
  - rewrite (Z.max_l k), (Z.max_r (- k)) by lia. assert (0 < 10 ^ k) by (apply Z.pow_pos_nonneg; lia).
    assert (((if neg then Zneg p else Zpos p) * 10 ^ k) =
            if neg then Zneg (p * Z.to_pos (10 ^ k)) else Zpos (p * Z.to_pos (10 ^ k))) as ->.
    { rewrite <- (Z2Pos.id (10 ^ k)) at 1 by done. by destruct neg. }
    replace (Zpos p * 10 ^ k) with (Zpos (p * Z.to_pos (10 ^ k))) by (by rewrite Pos2Z.inj_mul, Z2Pos.id).
    apply normalize_rounding.
  - rewrite (Z.max_r k), (Z.max_l (- k)), Z.mul_1_r by lia.
    replace (10 ^ (- k)) with (Zpos (Z.to_pos (10 ^ (- k)))) at 1 by (apply Z2Pos.id, Z.pow_pos_nonneg; lia).
    apply div_rounding.
Qed.

Lemma dbl_of_dec_nearest neg m e p k :
  bounded 53 1024 m e = true → 0 < p → decimal_rounds_to m e p k →
  dbl_of_dec neg p k = S754_finite neg m e.
Proof.
  intros Hm Hp Hr. apply (rounding_nearest _ _ _ _ _ _ Hm) with (3 := Hr); [| |by apply dbl_of_dec_rounding];
    repeat apply Z.mul_pos_pos; try apply Z.pow_pos_nonneg; lia.
Qed.

(** ** Rounding gives a binary64

    A mantissa of at most 53 bits, and of exactly 53 above the least
    exponent. *)
Definition rounded_mantissa (n E : Z) : Prop :=
  0 <= n <= 2 ^ 53 ∧ -1074 <= E ∧ (-1074 < E → 2 ^ 52 <= n).

Lemma round_nearest_cases n l : 0 <= n → round_nearest_even n l = n ∨ round_nearest_even n l = n + 1.
Proof. intros Hn. destruct l as [|[]]; cbn; [auto|destruct (Z.even n); auto|auto|auto]. Qed.

Lemma round_aux_valid sx P D ez :
  0 <= P → 0 < D → ez <= fexp64 (Zdigits2 (P / D) + ez) →
  valid_binary 53 1024 (binary_round_aux 53 1024 sx (P / D) ez (loc_of P D)) = true.
Proof.
  intros HP HD Hez. unfold binary_round_aux. rewrite shr_fexp_loc by done.
  set (E := fexp64 (Zdigits2 (P / D) + ez)) in *.
  assert (0 < 2 ^ (E - ez)) as Hp by (apply Z.pow_pos_nonneg; lia).
  change (shr_m (rec_of P (D * 2 ^ (E - ez)))) with (P / (D * 2 ^ (E - ez))).
  rewrite <- Z.div_div by lia.
  set (n := round_nearest_even _ _).
  assert (rounded_mantissa n E) as (Hn & HE & Hn52).
  { pose proof (fexp64_ge (Zdigits2 (P / D) + ez)) as HE. fold E in HE.
    set (mx := P / D) in *.
    assert (0 <= mx) as Hmx by (apply Z.div_pos; lia).
    assert (mx / 2 ^ (E - ez) < 2 ^ 53 ∧ (-1074 < E → 2 ^ 52 <= mx / 2 ^ (E - ez))) as [Hhi Hlo].
    { unfold E in *. rewrite fexp64_max in *. destruct (Z.eq_dec mx 0) as [->|Hne].
      - rewrite Z.div_0_l by lia. cbn [Zdigits2] in *. split; lia.
      - pose proof (Zdigits2_bounds mx ltac:(lia)) as [Hb1 Hb2]. set (d := Zdigits2 mx) in *.
        set (t := Z.max (d + ez - 53) (-1074) - ez) in *. split.
        + apply Z.div_lt_upper_bound; [lia|]. rewrite <- Z.pow_add_r by lia.
          apply Z.lt_le_trans with (2 ^ d); [done|]. apply Z.pow_le_mono_r; lia.
        + intros Hgt. apply Z.div_le_lower_bound; [lia|]. rewrite <- Z.pow_add_r by lia.
          replace (t + 52) with (d - 1) by lia. done. }
    assert (0 <= mx / 2 ^ (E - ez)) by (apply Z.div_pos; lia).
    unfold rounded_mantissa, n.
    destruct (round_nearest_cases (mx / 2 ^ (E - ez)) (loc_of_shr_record (rec_of P (D * 2 ^ (E - ez))))) as [-> | ->];
      [done|lia|lia]. }
  assert (n = 0 ∨ n = 2 ^ 53 ∨ 0 < n < 2 ^ 53) as [-> |[-> |Hlt]] by lia.
  - unfold shr_fexp. cbn [Zdigits2 shr_record_of_loc]. rewrite Z.add_0_l.
    assert (fexp64 E - E <= 0) by (rewrite fexp64_max; lia).
    by destruct (fexp64 E - E); [| lia|].
  - unfold shr_fexp. change (Zdigits2 (2 ^ 53)) with 54.
    replace (fexp64 (54 + E) - E) with 1 by (rewrite fexp64_max; lia).
    change (2 ^ 53) with 9007199254740992. cbn [shr SpecFloat.iter_pos shr_1 shr_m shr_record_of_loc].
    destruct (Z.leb_spec (E + 1) (1024 - 53)) as [Hle|]; [|done].
    cbn [valid_binary]. unfold bounded, canonical_mantissa. change (Zpos (digits2_pos 4503599627370496)) with 53.
    apply andb_true_iff. rewrite Z.eqb_eq, Z.leb_le, fexp64_max. lia.
  - assert (fexp64 (Zdigits2 n + E) = E) as Hc.
    { pose proof (Zdigits2_bounds n ltac:(lia)) as [Hb1 Hb2].
      pose proof (Zdigits2_small n ltac:(lia)) as Hd. rewrite fexp64_max.
      destruct (Z.eq_dec E (-1074)) as [->|]; [lia|].
      assert (52 < Zdigits2 n); [|lia].
      apply (Z.pow_lt_mono_r_iff 2); lia. }
    rewrite shr_fexp_canonical by done. cbn [shr_m]. destruct n as [|p|p]; [lia| |lia].
    destruct (Z.leb_spec E (1024 - 53)); [|done].
    cbn [valid_binary]. unfold bounded, canonical_mantissa. change (Zpos (digits2_pos p)) with (Zdigits2 (Zpos p)).
    apply andb_true_iff. by rewrite Z.eqb_eq, Z.leb_le.
Qed.

(** What [strtod] returns is a binary64. *)
Lemma dbl_of_dec_valid neg p k : valid_binary 53 1024 (dbl_of_dec neg p k) = true.
Proof.
  destruct (Z.lt_ge_cases 0 p) as [Hp|Hp]; [|by destruct p].
  destruct (dbl_of_dec_rounding neg p k Hp) as (ez & Hez & Hf & ->).
  apply round_aux_valid; [|apply Z.pow_pos_nonneg; lia|done].
  repeat apply Z.mul_nonneg_nonneg; try apply Z.pow_nonneg; lia.
Qed.
