(* ===== verification/Exceptions.v ===== *)
(** The exceptions the program throws and catches: a class and the text
    [what()] returns.  The constructors of the JSON library's exceptions build
    that text. *)

From S2P Require Import Prelude Decimal.

Local Open Scope string_scope.

Inductive exn_class :=
  (* nlohmann::json *)
  | json_parse_error (id : Z)
  | json_type_error (id : Z)
  | json_out_of_range (id : Z)
  | json_other_error (id : Z)
  (* the standard library, thrown by pqxx *)
  | std_invalid_argument
  (* pqxx *)
  | pqxx_failure
  | pqxx_broken_connection
  | pqxx_in_doubt_error
  | pqxx_usage_error
  | pqxx_internal_error
  | pqxx_conversion_error
  | pqxx_range_error
  | pqxx_argument_error
  | pqxx_statement_completion_unknown
  | pqxx_unexpected_rows
  | pqxx_sql_error (name : string).

#[export] Instance exn_class_eq_dec : EqDecision exn_class.
Proof. solve_decision. Defined.

Record exn := mk_exn { exn_kind : exn_class; what : string }.

(** The text up to the first NUL: what survives a [const char*]. *)
Fixpoint c_str (s : string) : string :=
  match s with
  | EmptyString => EmptyString
  | String c s' => if (byte_of c =? 0)%Z then EmptyString else String c (c_str s')
  end.

(** ** nlohmann::detail::exception *)

Definition exception_name (ename : string) (id : Z) : string :=
  "[json.exception." +:+ ename +:+ "." +:+ to_string id +:+ "] ".

(** [position_t] *)
Record position_t := mk_position {
  chars_read_total : Z;
  chars_read_current_line : Z;
  lines_read : Z;
}.

Definition position_string (pos : position_t) : string :=
  " at line " +:+ to_string (lines_read pos + 1) +:+
  ", column " +:+ to_string (chars_read_current_line pos).

Definition parse_error_create (id : Z) (pos : position_t) (what_arg : string) : exn :=
  mk_exn (json_parse_error id)
    (c_str (exception_name "parse_error" id +:+ "parse error" +:+
            position_string pos +:+ ": " +:+ what_arg)).

Definition type_error_create (id : Z) (what_arg : string) : exn :=
  mk_exn (json_type_error id) (c_str (exception_name "type_error" id +:+ what_arg)).

Definition out_of_range_create (id : Z) (what_arg : string) : exn :=
  mk_exn (json_out_of_range id) (c_str (exception_name "out_of_range" id +:+ what_arg)).

Lemma c_str_no_nul s :
  sforall (λ c, negb (byte_of c =? 0)%Z) s = true → c_str s = s.
Proof.
  induction s as [|c s IH]; [done|]. cbn. rewrite andb_true_iff.
  intros [Hc Hs]. b2p. destruct (byte_of c =? 0)%Z eqn:E; b2p; [done|].
  by rewrite IH.
Qed.

Lemma c_str_idem s : c_str (c_str s) = c_str s.
Proof.
  induction s as [|c s IH]; [done|]. cbn [c_str]. destruct (byte_of c =? 0)%Z eqn:E; [done|].
  cbn [c_str]. by rewrite E, IH.
Qed.

Example type_error_what :
  what (type_error_create 302 "type must be string, but is null") =
  "[json.exception.type_error.302] type must be string, but is null".
Proof. reflexivity. Qed.
