(* ===== verification/JsonValue.v ===== *)
(** [nlohmann::json] values: the alternatives of [value_t] the program
    creates, element access with [operator[]], [push_back], and the
    conversions [get<T>()].  Objects are [std::map]s from [std::string]. *)

From S2P Require Import Prelude Decimal StdMap Doubles Exceptions.

Local Open Scope string_scope.

(** [binary] and [discarded] values are never created: the program neither
    reads a binary format nor parses with exceptions disabled. *)
Unset Elimination Schemes.
Inductive json :=
  | JNull
  | JObject (fields : list (string * json))
  | JArray (items : list json)
  | JString (s : string)
  | JBool (b : bool)
  | JInteger (n : Z)     (* number_integer, [std::int64_t] *)
  | JUnsigned (n : Z)    (* number_unsigned, [std::uint64_t] *)
  | JFloat (d : double).
Set Elimination Schemes.

Section json_ind.
Context (P : json → Prop)
  (HNull : P JNull)
  (HObject : ∀ fs, Forall (λ p, P p.2) fs → P (JObject fs))
  (HArray : ∀ l, Forall P l → P (JArray l))
  (HString : ∀ s, P (JString s))
  (HBool : ∀ b, P (JBool b))
  (HInteger : ∀ n, P (JInteger n))
  (HUnsigned : ∀ n, P (JUnsigned n))
  (HFloat : ∀ d, P (JFloat d)).

Fixpoint json_nested_ind (j : json) : P j :=
  match j with
  | JNull => HNull
  | JObject fs => HObject fs
      ((fix go l : Forall (λ p, P p.2) l :=
        match l with
        | [] => List.Forall_nil _
        | p :: l' => List.Forall_cons _ _ _ (json_nested_ind p.2) (go l')
        end) fs)
  | JArray l => HArray l
      ((fix go l : Forall P l :=
        match l with
        | [] => List.Forall_nil _
        | x :: l' => List.Forall_cons _ _ _ (json_nested_ind x) (go l')
        end) l)
  | JString s => HString s
  | JBool b => HBool b
  | JInteger n => HInteger n
  | JUnsigned n => HUnsigned n
  | JFloat d => HFloat d
  end.
End json_ind.

Definition type_name (j : json) : string :=
  match j with
  | JNull => "null"
  | JObject _ => "object"
  | JArray _ => "array"
  | JString _ => "string"
  | JBool _ => "boolean"
  | JInteger _ | JUnsigned _ | JFloat _ => "number"
  end.

(** ** Element access *)

(** [j[key]] on a non-const value: a null value becomes an empty object, a
    missing key is added with a null value.  The result is the (possibly
    modified) object's fields. *)
Definition subscript_object (key : string) (j : json) : result exn (list (string * json)) :=
  match j with
  | JNull => Ok (om_emplace key JNull [])
  | JObject fs => Ok (om_emplace key JNull fs)
  | _ => Throw (type_error_create 305
      ("cannot use operator[] with a string argument with " +:+ type_name j))
  end.

(** Reading through the returned reference; the value itself may have gained
    the key. *)
Definition subscript_get (key : string) (j : json) : result exn (json * json) :=
  fs ← subscript_object key j;
  mret (JObject fs, default JNull (om_find key fs)).

(** [j[key] = v] *)
Definition subscript_set (key : string) (v : json) (j : json) : result exn json :=
  fs ← subscript_object key j;
  mret (JObject (om_assign key v fs)).

(** [push_back] *)
Definition push_back (v : json) (j : json) : result exn json :=
  match j with
  | JNull => Ok (JArray [v])
  | JArray l => Ok (JArray (l ++ [v]))
  | _ => Throw (type_error_create 308 ("cannot use push_back() with " +:+ type_name j))
  end.

(** ** Conversions *)

(** What a platform decides: the value of a conversion from [double] to [int]
    that is out of range (undefined behaviour in C++). *)
Class Platform := { ub_double_to_int : double → Z }.

Definition dbl_trunc (d : double) : option Z :=
  match d with
  | S754_zero _ => Some 0%Z
  | S754_finite s m e =>
      let a := (if (0 <=? e)%Z then Zpos m * 2 ^ e else Zpos m / 2 ^ (- e))%Z in
      Some (if s then - a else a)%Z
  | _ => None
  end.

Section conversions.
Context `{Platform}.

(** [static_cast<int>] of a [double]. *)
Definition int_of_double (d : double) : Z :=
  match dbl_trunc d with
  | Some z => if decide (in_s 32 z) then z else ub_double_to_int d
  | None => ub_double_to_int d
  end.

(** [get<int>()]: [from_json] for arithmetic types. *)
Definition get_int (j : json) : result exn Z :=
  match j with
  | JUnsigned n | JInteger n => Ok (wrap_s 32 n)
  | JFloat d => Ok (int_of_double d)
  | JBool b => Ok (if b then 1 else 0)%Z
  | _ => Throw (type_error_create 302 ("type must be number, but is " +:+ type_name j))
  end.
End conversions.

(** [get<double>()]: [get_arithmetic_value]. *)
Definition get_double (j : json) : result exn double :=
  match j with
  | JUnsigned n | JInteger n => Ok (dbl_of_Z n)
  | JFloat d => Ok d
  | _ => Throw (type_error_create 302 ("type must be number, but is " +:+ type_name j))
  end.

(** [get<std::string>()] *)
Definition get_string (j : json) : result exn string :=
  match j with
  | JString s => Ok s
  | _ => Throw (type_error_create 302 ("type must be string, but is " +:+ type_name j))
  end.

(** ** Well-formed values: objects are maps at every depth, and numbers are
    in the range of their type. *)

Fixpoint json_wf (j : json) : Prop :=
  match j with
  | JObject fs =>
      om_sorted fs ∧
      (fix go l := match l with [] => True | p :: l' => json_wf p.2 ∧ go l' end) fs
  | JArray l =>
      (fix go l := match l with [] => True | x :: l' => json_wf x ∧ go l' end) l
  | JInteger n => in_s 64 n
  | JUnsigned n => in_u 64 n
  | JFloat d => valid_binary 53 1024 d = true
  | _ => True
  end.

Lemma json_wf_object fs :
  json_wf (JObject fs) ↔ om_sorted fs ∧ Forall (λ p, json_wf p.2) fs.
Proof.
  cbn. apply and_iff_compat_l. induction fs as [|p fs IH]; cbn.
  { split; [constructor|done]. }
  rewrite IH. split; [intros [??]; by constructor|by inversion 1].
Qed.

Lemma json_wf_array l : json_wf (JArray l) ↔ Forall json_wf l.
Proof.
  cbn. induction l as [|x l IH]; cbn.
  { split; [constructor|done]. }
  rewrite IH. split; [intros [??]; by constructor|by inversion 1].
Qed.

Lemma Forall_om_assign {A} `{OrderedKey K} (P : A → Prop) k v (m : list (K * A)) :
  P v → Forall (λ p, P p.2) m → Forall (λ p, P p.2) (om_assign k v m).
Proof.
  intros Hv. induction 1 as [|[k' v'] m Hk Hm IH]; cbn.
  { by repeat constructor. }
  destruct (kltb k k'); [by repeat constructor|].
  destruct (kltb k' k); by constructor.
Qed.

Lemma subscript_object_wf key j fs :
  json_wf j → subscript_object key j = Ok fs →
  om_sorted fs ∧ Forall (λ p, json_wf p.2) fs.
Proof.
  intros Hj. destruct j; cbn [subscript_object]; try done; intros [= <-].
  - by repeat constructor.
  - apply json_wf_object in Hj as [Hs Hf]. split; [by auto with stdmap|].
    unfold om_emplace. case_match; [done|]. by apply Forall_om_assign.
Qed.

Lemma subscript_set_wf key v j j' :
  json_wf j → json_wf v → subscript_set key v j = Ok j' → json_wf j'.
Proof.
  unfold subscript_set. intros Hj Hv (fs & Hfs & [= <-])%result_bind_ok.
  apply (subscript_object_wf _ _ _ Hj) in Hfs as [Hs Hf].
  apply json_wf_object. split; [by auto with stdmap|]. by apply Forall_om_assign.
Qed.

(** [get<int>()] keeps the low 32 bits of an integer: values that fit are
    unchanged, others are silently reduced modulo [2^32]. *)
Lemma get_int_bounds `{Platform} j n :
  (∀ d, in_s 32 (ub_double_to_int d)) → get_int j = Ok n → in_s 32 n.
Proof.
  intros Hub. destruct j; cbn; intros [= <-].
  - by destruct b.
  - by apply wrap_s_range.
  - by apply wrap_s_range.
  - unfold int_of_double. repeat case_match; auto.
Qed.

Lemma get_int_exact `{Platform} n : in_s 32 n → get_int (JInteger n) = Ok n.
Proof. intros. cbn. by rewrite wrap_s_id. Qed.
