(* ===== verification/JsonLexer.v ===== *)
(** The lexer of the JSON library ([detail::lexer], include/nlohmann/json.hpp):
    a byte-level scanner over an input of which one byte can be put back.
    [scan] returns the next token; strings are unescaped into the token buffer
    and numbers are converted as they are read. *)

From S2P Require Import Prelude Decimal Doubles Exceptions.

Local Open Scope Z_scope.

Inductive token_type :=
  | uninitialized | literal_true | literal_false | literal_null
  | value_string | value_unsigned | value_integer | value_float
  | begin_array | begin_object | end_array | end_object
  | name_separator | value_separator | parse_error | end_of_input
  | literal_or_value.

#[export] Instance token_type_eq_dec : EqDecision token_type.
Proof. solve_decision. Defined.

Definition token_type_name (t : token_type) : string :=
  match t with
  | uninitialized => "<uninitialized>"
  | literal_true => "true literal"
  | literal_false => "false literal"
  | literal_null => "null literal"
  | value_string => "string literal"
  | value_unsigned | value_integer | value_float => "number literal"
  | begin_array => "'['"
  | begin_object => "'{'"
  | end_array => "']'"
  | end_object => "'}'"
  | name_separator => "':'"
  | value_separator => "','"
  | parse_error => "<parse error>"
  | end_of_input => "end of input"
  | literal_or_value => "'[', '{', or a literal"
  end%string.

(** ** State

    [current] is a [char_int_type]: a byte, or [-1] at the end of input.
    Comments are not ignored ([ignore_comments] is false in every call) and
    the decimal point is that of the "C" locale. *)
Record lexer := mk_lexer {
  ia : string;
  current : Z;
  next_unget : bool;
  position : position_t;
  token_string : string;
  token_buffer : string;
  error_message : string;
  value_integer_ : Z;
  value_unsigned_ : Z;
  value_float_ : double;
}.

Definition eof : Z := -1.

(** The lexer's constructor. *)
Definition lexer_init (input : string) : lexer :=
  mk_lexer input eof false (mk_position 0 0 0) "" "" "" 0 0 dbl_zero.

Definition set_error (msg : string) (st : lexer) : lexer :=
  mk_lexer (ia st) (current st) (next_unget st) (position st) (token_string st)
    (token_buffer st) msg (value_integer_ st) (value_unsigned_ st) (value_float_ st).
Definition set_buffer (buf : string) (st : lexer) : lexer :=
  mk_lexer (ia st) (current st) (next_unget st) (position st) (token_string st)
    buf (error_message st) (value_integer_ st) (value_unsigned_ st) (value_float_ st).
Definition set_token_string (ts : string) (st : lexer) : lexer :=
  mk_lexer (ia st) (current st) (next_unget st) (position st) ts
    (token_buffer st) (error_message st) (value_integer_ st) (value_unsigned_ st) (value_float_ st).
Definition set_value_integer (n : Z) (st : lexer) : lexer :=
  mk_lexer (ia st) (current st) (next_unget st) (position st) (token_string st)
    (token_buffer st) (error_message st) n (value_unsigned_ st) (value_float_ st).
Definition set_value_unsigned (n : Z) (st : lexer) : lexer :=
  mk_lexer (ia st) (current st) (next_unget st) (position st) (token_string st)
    (token_buffer st) (error_message st) (value_integer_ st) n (value_float_ st).
Definition set_value_float (d : double) (st : lexer) : lexer :=
  mk_lexer (ia st) (current st) (next_unget st) (position st) (token_string st)
    (token_buffer st) (error_message st) (value_integer_ st) (value_unsigned_ st) d.

(** ** Input management *)

(** [to_char_type] of a [char_int_type]. *)
Definition to_char (c : Z) : ascii := char_of (c `mod` 256).

(** [ia.get_character()] *)
Definition get_character (input : string) : Z * string :=
  match input with
  | EmptyString => (eof, EmptyString)
  | String c rest => (byte_of c, rest)
  end.

Definition reset (st : lexer) : lexer :=
  set_token_string (String (to_char (current st)) EmptyString) (set_buffer "" st).

Definition get (st : lexer) : lexer :=
  let pos := position st in
  let pos := mk_position (chars_read_total pos + 1) (chars_read_current_line pos + 1)
                         (lines_read pos) in
  let '(cur, rest) :=
    if next_unget st then (current st, ia st) else get_character (ia st) in
  let ts := if cur =? eof then token_string st else snoc (token_string st) (to_char cur) in
  let pos := if cur =? 10
             then mk_position (chars_read_total pos) 0 (lines_read pos + 1) else pos in
  mk_lexer rest cur false pos ts (token_buffer st) (error_message st)
    (value_integer_ st) (value_unsigned_ st) (value_float_ st).

Fixpoint pop_back (s : string) : string :=
  match s with
  | EmptyString => EmptyString
  | String _ EmptyString => EmptyString
  | String c s' => String c (pop_back s')
  end.

Definition unget (st : lexer) : lexer :=
  let pos := position st in
  let total := chars_read_total pos - 1 in
  let pos :=
    if chars_read_current_line pos =? 0
    then mk_position total 0
           (if 0 <? lines_read pos then lines_read pos - 1 else lines_read pos)
    else mk_position total (chars_read_current_line pos - 1) (lines_read pos) in
  let ts := if current st =? eof then token_string st else pop_back (token_string st) in
  mk_lexer (ia st) (current st) true pos ts (token_buffer st) (error_message st)
    (value_integer_ st) (value_unsigned_ st) (value_float_ st).

(** [add(c)] *)
Definition add (c : Z) (st : lexer) : lexer :=
  set_buffer (snoc (token_buffer st) (to_char c)) st.

(** ** Strings *)

(** One hexadecimal digit, as [get_codepoint] converts it. *)
Definition hex_value (c : Z) : option Z :=
  if (48 <=? c) && (c <=? 57) then Some (c - 48)
  else if (65 <=? c) && (c <=? 70) then Some (c - 55)
  else if (97 <=? c) && (c <=? 102) then Some (c - 87)
  else None.

Fixpoint get_codepoint_from (factors : list Z) (codepoint : Z) (st : lexer) : Z * lexer :=
  match factors with
  | [] => (codepoint, st)
  | factor :: factors' =>
      let st := get st in
      match hex_value (current st) with
      | Some h => get_codepoint_from factors' (codepoint + Z.shiftl h factor) st
      | None => (-1, st)
      end
  end.
Definition get_codepoint (st : lexer) : Z * lexer := get_codepoint_from [12; 8; 4; 0] 0 st.

Fixpoint bytes_in_range (ranges : list (Z * Z)) (st : lexer) : bool * lexer :=
  match ranges with
  | [] => (true, st)
  | (lo, hi) :: ranges' =>
      let st := get st in
      if (lo <=? current st) && (current st <=? hi)
      then bytes_in_range ranges' (add (current st) st)
      else (false, set_error "invalid string: ill-formed UTF-8 byte" st)
  end.
Definition next_byte_in_range (ranges : list (Z * Z)) (st : lexer) : bool * lexer :=
  bytes_in_range ranges (add (current st) st).

(** Messages for the control characters 0x00 to 0x1F. *)
Definition control_messages : list string := [
  "invalid string: control character U+0000 (NUL) must be escaped to \u0000";
  "invalid string: control character U+0001 (SOH) must be escaped to \u0001";
  "invalid string: control character U+0002 (STX) must be escaped to \u0002";
  "invalid string: control character U+0003 (ETX) must be escaped to \u0003";
  "invalid string: control character U+0004 (EOT) must be escaped to \u0004";
  "invalid string: control character U+0005 (ENQ) must be escaped to \u0005";
  "invalid string: control character U+0006 (ACK) must be escaped to \u0006";
  "invalid string: control character U+0007 (BEL) must be escaped to \u0007";
  "invalid string: control character U+0008 (BS) must be escaped to \u0008 or \b";
  "invalid string: control character U+0009 (HT) must be escaped to \u0009 or \t";
  "invalid string: control character U+000A (LF) must be escaped to \u000A or \n";
  "invalid string: control character U+000B (VT) must be escaped to \u000B";
  "invalid string: control character U+000C (FF) must be escaped to \u000C or \f";
  "invalid string: control character U+000D (CR) must be escaped to \u000D or \r";
  "invalid string: control character U+000E (SO) must be escaped to \u000E";
  "invalid string: control character U+000F (SI) must be escaped to \u000F";
  "invalid string: control character U+0010 (DLE) must be escaped to \u0010";
  "invalid string: control character U+0011 (DC1) must be escaped to \u0011";
  "invalid string: control character U+0012 (DC2) must be escaped to \u0012";
  "invalid string: control character U+0013 (DC3) must be escaped to \u0013";
  "invalid string: control character U+0014 (DC4) must be escaped to \u0014";
  "invalid string: control character U+0015 (NAK) must be escaped to \u0015";
  "invalid string: control character U+0016 (SYN) must be escaped to \u0016";
  "invalid string: control character U+0017 (ETB) must be escaped to \u0017";
  "invalid string: control character U+0018 (CAN) must be escaped to \u0018";
  "invalid string: control character U+0019 (EM) must be escaped to \u0019";
  "invalid string: control character U+001A (SUB) must be escaped to \u001A";
  "invalid string: control character U+001B (ESC) must be escaped to \u001B";
  "invalid string: control character U+001C (FS) must be escaped to \u001C";
  "invalid string: control character U+001D (GS) must be escaped to \u001D";
  "invalid string: control character U+001E (RS) must be escaped to \u001E";
  "invalid string: control character U+001F (US) must be escaped to \u001F"
  ]%string.
Definition control_message (c : Z) : string :=
  default EmptyString (control_messages !! Z.to_nat c).

(** A code point is translated into bytes. *)
Definition add_codepoint (cp : Z) (st : lexer) : lexer :=
  if cp <? 128 then add cp st
  else if cp <=? 2047 then
    add (Z.lor 128 (Z.land cp 63)) (add (Z.lor 192 (Z.shiftr cp 6)) st)
  else if cp <=? 65535 then
    add (Z.lor 128 (Z.land cp 63))
      (add (Z.lor 128 (Z.land (Z.shiftr cp 6) 63))
        (add (Z.lor 224 (Z.shiftr cp 12)) st))
  else
    add (Z.lor 128 (Z.land cp 63))
      (add (Z.lor 128 (Z.land (Z.shiftr cp 6) 63))
        (add (Z.lor 128 (Z.land (Z.shiftr cp 12) 63))
          (add (Z.lor 240 (Z.shiftr cp 18)) st))).

Definition msg_hex : string := "invalid string: '\u' must be followed by 4 hex digits".
Definition msg_low : string :=
  "invalid string: surrogate U+D800..U+DBFF must be followed by U+DC00..U+DFFF".
Definition msg_high : string :=
  "invalid string: surrogate U+DC00..U+DFFF must follow U+D800..U+DBFF".

(** [get() == '\\' && get() == 'u'], short-circuiting. *)
Definition get_backslash_u (st : lexer) : bool * lexer :=
  let st := get st in
  if current st =? 92 then let st := get st in (current st =? 117, st) else (false, st).

(** The escape [\uXXXX], after the [u]: true, or false on an error. *)
Definition scan_unicode_escape (st : lexer) : bool * lexer :=
  let '(codepoint1, st) := get_codepoint st in
  if codepoint1 =? -1 then (false, set_error msg_hex st)
  else if (55296 <=? codepoint1) && (codepoint1 <=? 56319) then
    let '(next_escape, st) := get_backslash_u st in
    if next_escape then
      let '(codepoint2, st) := get_codepoint st in
      if codepoint2 =? -1 then (false, set_error msg_hex st)
      else if (56320 <=? codepoint2) && (codepoint2 <=? 57343) then
        (true, add_codepoint (Z.shiftl codepoint1 10 + codepoint2 - 56613888) st)
      else (false, set_error msg_low st)
    else (false, set_error msg_low st)
  else if (56320 <=? codepoint1) && (codepoint1 <=? 57343) then
    (false, set_error msg_high st)
  else (true, add_codepoint codepoint1 st).

(** The character after a backslash. *)
Definition scan_escape (st : lexer) : bool * lexer :=
  let st := get st in
  let c := current st in
  if c =? 34 then (true, add 34 st)
  else if c =? 92 then (true, add 92 st)
  else if c =? 47 then (true, add 47 st)
  else if c =? 98 then (true, add 8 st)
  else if c =? 102 then (true, add 12 st)
  else if c =? 110 then (true, add 10 st)
  else if c =? 114 then (true, add 13 st)
  else if c =? 116 then (true, add 9 st)
  else if c =? 117 then scan_unicode_escape st
  else (false, set_error "invalid string: forbidden character after backslash" st).

(** The continuation bytes a UTF-8 lead byte requires; [None] for the bytes
    80..C1 and F5..FF, which cannot start a sequence. *)
Definition utf8_ranges (c : Z) : option (list (Z * Z)) :=
  if (194 <=? c) && (c <=? 223) then Some [(128, 191)]
  else if c =? 224 then Some [(160, 191); (128, 191)]
  else if (225 <=? c) && (c <=? 236) || (238 <=? c) && (c <=? 239)
    then Some [(128, 191); (128, 191)]
  else if c =? 237 then Some [(128, 159); (128, 191)]
  else if c =? 240 then Some [(144, 191); (128, 191); (128, 191)]
  else if (241 <=? c) && (c <=? 243) then Some [(128, 191); (128, 191); (128, 191)]
  else if c =? 244 then Some [(128, 143); (128, 191); (128, 191)]
  else None.

(** The loop of [scan_string], which has no bound of its own: [None] when the
    fuel is used up, here and in every loop and function below.  That it never
    is used up is a theorem ([parser_parse_total]). *)
Fixpoint scan_string_loop (fuel : nat) (st : lexer) : option (token_type * lexer) :=
  match fuel with
  | O => None
  | S fuel' =>
      let st := get st in
      let c := current st in
      if c =? eof then
        Some (parse_error, set_error "invalid string: missing closing quote" st)
      else if c =? 34 then Some (value_string, st)
      else if c =? 92 then
        let '(ok, st) := scan_escape st in
        if ok then scan_string_loop fuel' st else Some (parse_error, st)
      else if c <=? 31 then Some (parse_error, set_error (control_message c) st)
      else if c <=? 127 then scan_string_loop fuel' (add c st)
      else
        match utf8_ranges c with
        | Some ranges =>
            let '(ok, st) := next_byte_in_range ranges st in
            if ok then scan_string_loop fuel' st else Some (parse_error, st)
        | None => Some (parse_error, set_error "invalid string: ill-formed UTF-8 byte" st)
        end
  end.

(** Every iteration reads a byte: the bytes left, and one end of input. *)
Definition input_fuel (st : lexer) : nat := S (S (String.length (ia st))).

Definition scan_string (st : lexer) : option (token_type * lexer) :=
  let st := reset st in scan_string_loop (input_fuel st) st.

(** ** Numbers *)

(** One state per label of [scan_number]. *)
Inductive num_state :=
  | NumMinus | NumZero | NumAny1 | NumDecimal1 | NumDecimal2
  | NumExponent | NumSign | NumAny2.

Inductive num_next := NumGoto (s : num_state) | NumDone | NumError (msg : string).

Definition is_digit_int (c : Z) : bool := (48 <=? c) && (c <=? 57).

(** The type recorded when a label is entered. *)
Definition num_enter (s : num_state) (ty : token_type) : token_type :=
  match s with
  | NumMinus => value_integer
  | NumDecimal1 | NumExponent => value_float
  | _ => ty
  end.

(** The switch of each label on the character read. *)
Definition num_transition (s : num_state) (c : Z) : num_next :=
  match s with
  | NumMinus =>
      if c =? 48 then NumGoto NumZero
      else if is_digit_int c then NumGoto NumAny1
      else NumError "invalid number; expected digit after '-'"
  | NumZero =>
      if c =? 46 then NumGoto NumDecimal1
      else if (c =? 101) || (c =? 69) then NumGoto NumExponent
      else NumDone
  | NumAny1 =>
      if is_digit_int c then NumGoto NumAny1
      else if c =? 46 then NumGoto NumDecimal1
      else if (c =? 101) || (c =? 69) then NumGoto NumExponent
      else NumDone
  | NumDecimal1 =>
      if is_digit_int c then NumGoto NumDecimal2
      else NumError "invalid number; expected digit after '.'"
  | NumDecimal2 =>
      if is_digit_int c then NumGoto NumDecimal2
      else if (c =? 101) || (c =? 69) then NumGoto NumExponent
      else NumDone
  | NumExponent =>
      if (c =? 43) || (c =? 45) then NumGoto NumSign
      else if is_digit_int c then NumGoto NumAny2
      else NumError "invalid number; expected '+', '-', or digit after exponent"
  | NumSign =>
      if is_digit_int c then NumGoto NumAny2
      else NumError "invalid number; expected digit after exponent sign"
  | NumAny2 =>
      if is_digit_int c then NumGoto NumAny2 else NumDone
  end.

(** *** Conversion of the collected text (C library) *)

(** The longest prefix of digits, and the rest. *)
Fixpoint span_digits (s : string) : string * string :=
  match s with
  | String c s' =>
      if is_digit c then let '(d, r) := span_digits s' in (String c d, r)
      else (EmptyString, s)
  | EmptyString => (EmptyString, EmptyString)
  end.

(** An optional minus sign. *)
Definition split_sign (s : string) : bool * string :=
  match s with
  | String c s' => if byte_of c =? 45 then (true, s') else (false, s)
  | EmptyString => (false, s)
  end.

(** [strtoull] (base 10) on a text of digits; [None] is [ERANGE]. *)
Definition strtoull (s : string) : option Z :=
  let n := dec_value (span_digits s).1 in
  if n <? 2 ^ 64 then Some n else None.

(** [strtoll] (base 10). *)
Definition strtoll (s : string) : option Z :=
  let '(neg, t) := split_sign s in
  let n := dec_value (span_digits t).1 in
  let n := if neg then - n else n in
  if (- 2 ^ 63 <=? n) && (n <? 2 ^ 63) then Some n else None.

(** The exponent part [e[+-]digits] of a decimal text. *)
Definition read_exponent (s : string) : Z :=
  match s with
  | String c s' =>
      if (byte_of c =? 101) || (byte_of c =? 69) then
        match s' with
        | String d s'' =>
            if byte_of d =? 45 then - dec_value (span_digits s'').1
            else if byte_of d =? 43 then dec_value (span_digits s'').1
            else dec_value (span_digits s').1
        | EmptyString => 0
        end
      else 0
  | EmptyString => 0
  end.

(** [strtod] on the text of a JSON number. *)
Definition strtod (s : string) : double :=
  let '(neg, t) := split_sign s in
  let '(int_part, t) := span_digits t in
  let '(frac_part, t) :=
    match t with
    | String c t' => if byte_of c =? 46 then span_digits t' else (EmptyString, t)
    | EmptyString => (EmptyString, t)
    end in
  dbl_of_dec neg (dec_value (int_part +:+ frac_part))
    (read_exponent t - Z.of_nat (String.length frac_part)).

(** The code after [scan_number_done]. *)
Definition scan_number_done (ty : token_type) (st : lexer) : token_type * lexer :=
  let st := unget st in
  let as_float := (value_float, set_value_float (strtod (token_buffer st)) st) in
  match ty with
  | value_unsigned =>
      match strtoull (token_buffer st) with
      | Some x => (value_unsigned, set_value_unsigned x st)
      | None => as_float
      end
  | value_integer =>
      match strtoll (token_buffer st) with
      | Some x => (value_integer, set_value_integer x st)
      | None => as_float
      end
  | _ => as_float
  end.

Fixpoint scan_number_loop (fuel : nat) (s : num_state) (ty : token_type)
    (st : lexer) : option (token_type * lexer) :=
  match fuel with
  | O => None
  | S fuel' =>
      let ty := num_enter s ty in
      let st := get st in
      match num_transition s (current st) with
      | NumGoto s' => scan_number_loop fuel' s' ty (add (current st) st)
      | NumDone => Some (scan_number_done ty st)
      | NumError msg => Some (parse_error, set_error msg st)
      end
  end.

(** Called with [current] a minus sign or a digit. *)
Definition scan_number (st : lexer) : option (token_type * lexer) :=
  let st := reset st in
  let s := if current st =? 45 then NumMinus
           else if current st =? 48 then NumZero else NumAny1 in
  scan_number_loop (input_fuel st) s value_unsigned (add (current st) st).

(** ** Literals and the scanner *)

(** The characters after the first one of a literal. *)
Fixpoint scan_literal (literal : string) (return_type : token_type) (st : lexer)
    : token_type * lexer :=
  match literal with
  | EmptyString => (return_type, st)
  | String c literal' =>
      let st := get st in
      if byte_of (to_char (current st)) =? byte_of c
      then scan_literal literal' return_type st
      else (parse_error, set_error "invalid literal" st)
  end.

Definition skip_bom (st : lexer) : bool * lexer :=
  let st := get st in
  if current st =? 239 then
    let st := get st in
    if current st =? 187 then let st := get st in (current st =? 191, st)
    else (false, st)
  else (true, unget st).

Definition is_whitespace (c : Z) : bool :=
  (c =? 32) || (c =? 9) || (c =? 10) || (c =? 13).

Fixpoint skip_whitespace_loop (fuel : nat) (st : lexer) : option lexer :=
  match fuel with
  | O => None
  | S fuel' =>
      let st := get st in
      if is_whitespace (current st) then skip_whitespace_loop fuel' st else Some st
  end.
Definition skip_whitespace (st : lexer) : option lexer :=
  skip_whitespace_loop (input_fuel st) st.

(** The switch of [scan] on the first character of a token. *)
Definition scan_token (st : lexer) : option (token_type * lexer) :=
  let c := current st in
  if c =? 91 then Some (begin_array, st)
  else if c =? 93 then Some (end_array, st)
  else if c =? 123 then Some (begin_object, st)
  else if c =? 125 then Some (end_object, st)
  else if c =? 58 then Some (name_separator, st)
  else if c =? 44 then Some (value_separator, st)
  else if c =? 116 then Some (scan_literal "rue" literal_true st)
  else if c =? 102 then Some (scan_literal "alse" literal_false st)
  else if c =? 110 then Some (scan_literal "ull" literal_null st)
  else if c =? 34 then scan_string st
  else if (c =? 45) || is_digit_int c then scan_number st
  else if (c =? 0) || (c =? eof) then Some (end_of_input, st)
  else Some (parse_error, set_error "invalid literal" st).

Definition scan (st : lexer) : option (token_type * lexer) :=
  let '(bom_ok, st) :=
    if chars_read_total (position st) =? 0 then skip_bom st else (true, st) in
  if bom_ok then st ← skip_whitespace st; scan_token st
  else Some (parse_error, set_error "invalid BOM; must be 0xEF 0xBB 0xBF if given" st).

(** The text of the last token for error messages: control characters are
    shown as <U+XXXX>. *)
Definition hex_digit_upper (d : Z) : ascii :=
  if d <? 10 then char_of (48 + d) else char_of (55 + d).
Definition hex4_upper (n : Z) : string :=
  String (hex_digit_upper ((n / 4096) `mod` 16)) (String (hex_digit_upper ((n / 256) `mod` 16))
    (String (hex_digit_upper ((n / 16) `mod` 16)) (String (hex_digit_upper (n `mod` 16)) EmptyString))).

Example hex4_upper_example : hex4_upper 31 = "001F"%string.
Proof. reflexivity. Qed.

Fixpoint escape_control (s : string) : string :=
  match s with
  | EmptyString => EmptyString
  | String c s' =>
      (if byte_of c <=? 31
       then ("<U+" +:+ hex4_upper (byte_of c) +:+ ">")%string
       else String c EmptyString) +:+ escape_control s'
  end.
Definition get_token_string (st : lexer) : string := escape_control (token_string st).

(** ** Reading whole inputs *)

(** The tokens of an input up to the end or an error. *)
Fixpoint scan_all (fuel : nat) (st : lexer) : option (list token_type) :=
  match fuel with
  | O => None
  | S fuel' =>
      '(t, st) ← scan st;
      match t with
      | end_of_input | parse_error | uninitialized => Some [t]
      | _ => ts ← scan_all fuel' st; Some (t :: ts)
      end
  end.

Example scan_all_example :
  scan_all 20 (lexer_init (bq "{ `a`: [1, -2, 3.5e1, true], `b\u00e9`:null}")) =
  Some [begin_object; value_string; name_separator; begin_array; value_unsigned;
   value_separator; value_integer; value_separator; value_float; value_separator;
   literal_true; end_array; value_separator; value_string; name_separator;
   literal_null; end_object; end_of_input].
Proof. by vm_compute. Qed.
