(* ===== verification/JsonParser.v ===== *)
(** The parser of the JSON library ([detail::parser], include/nlohmann/json.hpp):
    the token-driven loop [sax_parse_internal] with its stack of open
    containers, and [json_sax_dom_parser], the handler that builds the value.

    The handler holds pointers into the value under construction; a pointer is
    a path from the root. *)

From S2P Require Import Prelude Decimal StdMap Doubles Exceptions JsonValue JsonLexer.

Local Open Scope string_scope.

(** ** Pointers into a value *)

Inductive step := Key (k : string) | Idx (i : nat).
Abbreviation path := (list step).

(** The value a pointer refers to. *)
Fixpoint json_at (p : path) (j : json) : option json :=
  match p with
  | [] => Some j
  | Key k :: p' =>
      match j with JObject fs => om_find k fs ≫= json_at p' | _ => None end
  | Idx i :: p' =>
      match j with JArray l => l !! i ≫= json_at p' | _ => None end
  end.

(** Mutation through a pointer. *)
Fixpoint json_update (p : path) (f : json → json) (j : json) : json :=
  match p with
  | [] => f j
  | Key k :: p' =>
      match j with JObject fs => JObject (om_update k (json_update p' f) fs) | _ => j end
  | Idx i :: p' =>
      match j with JArray l => JArray (alter (json_update p' f) i l) | _ => j end
  end.

(** ** json_sax_dom_parser *)

(** [ref_stack] has the innermost container first. *)
Record builder := mk_builder {
  root : json;
  ref_stack : list path;
  object_element : path;
}.

(** The handler's constructor, on a default-constructed (null) value. *)
Definition builder_init : builder := mk_builder JNull [] [].

Definition array_append (v : json) (j : json) : json :=
  match j with JArray l => JArray (l ++ [v])%list | _ => j end.

Definition object_emplace_null (k : string) (j : json) : json :=
  match j with JObject fs => JObject (om_emplace k JNull fs) | _ => j end.

(** [handle_value]: the value goes to the root, to the end of the innermost
    array, or to the element of the last key; the pointer to it is returned. *)
Definition handle_value (v : json) (b : builder) : path * builder :=
  match ref_stack b with
  | [] => ([], mk_builder v (ref_stack b) (object_element b))
  | p :: _ =>
      match json_at p (root b) with
      | Some (JArray l) =>
          ((p ++ [Idx (length l)])%list,
           mk_builder (json_update p (array_append v) (root b)) (ref_stack b) (object_element b))
      | _ =>
          (object_element b,
           mk_builder (json_update (object_element b) (λ _, v) (root b))
             (ref_stack b) (object_element b))
      end
  end.

Definition sax_value (v : json) (b : builder) : builder := (handle_value v b).2.

Definition sax_start (container : json) (b : builder) : builder :=
  let '(p, b) := handle_value container b in
  mk_builder (root b) (p :: ref_stack b) (object_element b).
Definition sax_start_object : builder → builder := sax_start (JObject []).
Definition sax_start_array : builder → builder := sax_start (JArray []).

Definition sax_key (k : string) (b : builder) : builder :=
  match ref_stack b with
  | p :: _ => mk_builder (json_update p (object_emplace_null k) (root b)) (ref_stack b)
                (p ++ [Key k])%list
  | [] => b
  end.

(** [end_object] and [end_array]. *)
Definition sax_end (b : builder) : builder :=
  mk_builder (root b) (tail (ref_stack b)) (object_element b).

(** ** parser *)

Record parser := mk_parser { m_lexer : lexer; last_token : token_type }.

(** [None]: the scanner never comes to an end. *)
Definition get_token (p : parser) : option parser :=
  '(t, l) ← scan (m_lexer p); Some (mk_parser l t).

(** The parser's constructor reads the first token. *)
Definition parser_init (input : string) : option parser :=
  get_token (mk_parser (lexer_init input) uninitialized).

Definition exception_message (expected : token_type) (context : string) (p : parser) : string :=
  "syntax error " +:+
  (if is_empty context then "" else "while parsing " +:+ context +:+ " ") +:+
  "- " +:+
  (if decide (last_token p = parse_error)
   then error_message (m_lexer p) +:+ "; last read: '" +:+
        get_token_string (m_lexer p) +:+ "'"
   else "unexpected " +:+ token_type_name (last_token p)) +:+
  (if decide (expected = uninitialized) then ""
   else "; expected " +:+ token_type_name expected).

Definition syntax_error (expected : token_type) (context : string) (p : parser) : exn :=
  parse_error_create 101 (position (m_lexer p)) (exception_message expected context p).

(** What one pass through a part of the loop does: [continue] (with the new
    value of [skip_to_state_evaluation]), go on after a complete value,
    [return true], throw, or hang in the scanner. *)
Inductive flow :=
  | Continue (skip : bool) (states : list bool) (p : parser) (b : builder)
  | ValueDone (states : list bool) (p : parser) (b : builder)
  | Return (p : parser) (b : builder)
  | Raise (e : exn)
  | Hang.

Definition next_token (p : parser) (k : parser → flow) : flow :=
  match get_token p with Some p => k p | None => Hang end.

(** The key of an object element and the separator after it: [get_token] has
    already returned the key's token. *)
Definition parse_key (states : list bool) (p : parser) (b : builder) : flow :=
  if decide (last_token p = value_string) then
    let b := sax_key (token_buffer (m_lexer p)) b in
    next_token p (λ p,
    if decide (last_token p = name_separator)
    then next_token p (λ p, Continue false states p b)
    else Raise (syntax_error name_separator "object separator" p))
  else Raise (syntax_error value_string "object key" p).

(** The switch on [last_token]. *)
Definition parse_value (states : list bool) (p : parser) (b : builder) : flow :=
  match last_token p with
  | begin_object =>
      let b := sax_start_object b in
      next_token p (λ p,
      if decide (last_token p = end_object) then ValueDone states p (sax_end b)
      else parse_key (false :: states) p b)
  | begin_array =>
      let b := sax_start_array b in
      next_token p (λ p,
      if decide (last_token p = end_array) then ValueDone states p (sax_end b)
      else Continue false (true :: states) p b)
  | value_float =>
      let res := value_float_ (m_lexer p) in
      if dbl_isfinite res then ValueDone states p (sax_value (JFloat res) b)
      else Raise (out_of_range_create 406
             ("number overflow parsing '" +:+ get_token_string (m_lexer p) +:+ "'"))
  | literal_false => ValueDone states p (sax_value (JBool false) b)
  | literal_null => ValueDone states p (sax_value JNull b)
  | literal_true => ValueDone states p (sax_value (JBool true) b)
  | value_integer => ValueDone states p (sax_value (JInteger (value_integer_ (m_lexer p))) b)
  | value_string => ValueDone states p (sax_value (JString (token_buffer (m_lexer p))) b)
  | value_unsigned => ValueDone states p (sax_value (JUnsigned (value_unsigned_ (m_lexer p))) b)
  | parse_error => Raise (syntax_error uninitialized "value" p)
  | end_of_input =>
      if (chars_read_total (position (m_lexer p)) =? 1)%Z
      then Raise (parse_error_create 101 (position (m_lexer p))
             "attempting to parse an empty input; check that your input string or stream contains the expected JSON")
      else Raise (syntax_error literal_or_value "value" p)
  | uninitialized | end_array | end_object | name_separator | value_separator
  | literal_or_value => Raise (syntax_error literal_or_value "value" p)
  end.

(** The code after a complete value: what follows it in its container. *)
Definition evaluate_state (states : list bool) (p : parser) (b : builder) : flow :=
  match states with
  | [] => Return p b
  | true :: outer =>
      next_token p (λ p,
      if decide (last_token p = value_separator) then next_token p (λ p, Continue false states p b)
      else if decide (last_token p = end_array) then Continue true outer p (sax_end b)
      else Raise (syntax_error end_array "array" p))
  | false :: outer =>
      next_token p (λ p,
      if decide (last_token p = value_separator) then next_token p (λ p, parse_key states p b)
      else if decide (last_token p = end_object) then Continue true outer p (sax_end b)
      else Raise (syntax_error end_object "object" p))
  end.

(** One iteration of the loop. *)
Definition sax_iteration (skip : bool) (states : list bool) (p : parser) (b : builder) : flow :=
  if skip then evaluate_state states p b
  else match parse_value states p b with
       | ValueDone states p b => evaluate_state states p b
       | f => f
       end.

Fixpoint sax_loop (fuel : nat) (skip : bool) (states : list bool) (p : parser) (b : builder)
    : option (result exn (parser * builder)) :=
  match fuel with
  | O => None
  | S fuel' =>
      match sax_iteration skip states p b with
      | Continue skip states p b => sax_loop fuel' skip states p b
      | Return p b => Some (Ok (p, b))
      | Raise e => Some (Throw e)
      | Hang | ValueDone _ _ _ => None
      end
  end.

(** Every iteration reads at least one token, and a token at least one byte. *)
Definition parse_fuel (input : string) : nat := S (S (String.length input)).

Definition sax_parse_internal (input : string) (p : parser) (b : builder) :=
  sax_loop (parse_fuel input) false [] p b.

(** [parser::parse] *)
Definition parser_parse (strict : bool) (input : string) : option (result exn json) :=
  p ← parser_init input;
  r ← sax_parse_internal input p builder_init;
  match r with
  | Throw e => Some (Throw e)
  | Ok (p, b) =>
      if strict then
        p ← get_token p;
        Some (if decide (last_token p = end_of_input) then Ok (root b)
              else Throw (syntax_error end_of_input "value" p))
      else Some (Ok (root b))
  end.

(** [json::parse] and [operator>>(std::istream&, json&)].  The loop never
    runs out of fuel ([parser_parse_total]), so the [None] case is not reached. *)
Definition out_of_fuel : exn := mk_exn pqxx_internal_error "out of fuel".
Definition json_parse (input : string) : result exn json :=
  default (Throw out_of_fuel) (parser_parse true input).
Definition json_read (input : string) : result exn json :=
  default (Throw out_of_fuel) (parser_parse false input).

Example json_parse_example :
  json_parse (bq "{ `b`: [1, {`x`: -2}, []], `a`: `q\u00e9`, `b`: {}}") =
  Ok (JObject [("a", JString ("q" +:+ String "195" (String "169" EmptyString)));
               ("b", JObject [])]).
Proof. by vm_compute. Qed.

Example json_parse_error_example :
  match json_parse (bq "{`a`,}") with
  | Throw e => what e
  | Ok _ => ""
  end = "[json.exception.parse_error.101] parse error at line 1, column 5: syntax error while parsing object separator - unexpected ','; expected ':'".
Proof. by vm_compute. Qed.
