(* ===== verification/JsonDtoa.v ===== *)
(** Floating-point output of the JSON library ([detail::dtoa_impl] and
    [detail::to_chars], include/nlohmann/json.hpp): the Grisu2 algorithm on
    64-bit integers, translated operation by operation. *)

From S2P Require Import Prelude Decimal Doubles.

Local Open Scope Z_scope.

(** ** diyfp: f * 2^e with a 64-bit significand *)

Record diyfp := mk_diyfp { fp_f : Z; fp_e : Z }.

Definition u64 (z : Z) : Z := wrap_u 64 z.

Definition diyfp_sub (x y : diyfp) : diyfp := mk_diyfp (u64 (fp_f x - fp_f y)) (fp_e x).

(** The rounded upper 64 bits of the product, from 32-bit halves. *)
Definition diyfp_mul (x y : diyfp) : diyfp :=
  let u_lo := Z.land (fp_f x) 0xffffffff in
  let u_hi := Z.shiftr (fp_f x) 32 in
  let v_lo := Z.land (fp_f y) 0xffffffff in
  let v_hi := Z.shiftr (fp_f y) 32 in
  let p0 := u64 (u_lo * v_lo) in
  let p1 := u64 (u_lo * v_hi) in
  let p2 := u64 (u_hi * v_lo) in
  let p3 := u64 (u_hi * v_hi) in
  let p0_hi := Z.shiftr p0 32 in
  let p1_lo := Z.land p1 0xffffffff in
  let p1_hi := Z.shiftr p1 32 in
  let p2_lo := Z.land p2 0xffffffff in
  let p2_hi := Z.shiftr p2 32 in
  let Q := u64 (p0_hi + p1_lo + p2_lo) in
  let Q := u64 (Q + Z.shiftl 1 (64 - 32 - 1)) in
  let h := u64 (p3 + p2_hi + p1_hi + Z.shiftr Q 32) in
  mk_diyfp h (fp_e x + fp_e y + 64).

(** [while ((x.f >> 63) == 0) { x.f <<= 1; x.e--; }]: at most 63 rounds for a
    non-zero significand. *)
Fixpoint diyfp_normalize_loop (fuel : nat) (x : diyfp) : diyfp :=
  match fuel with
  | O => x
  | S fuel' =>
      if Z.shiftr (fp_f x) 63 =? 0
      then diyfp_normalize_loop fuel' (mk_diyfp (u64 (Z.shiftl (fp_f x) 1)) (fp_e x - 1))
      else x
  end.
Definition diyfp_normalize (x : diyfp) : diyfp := diyfp_normalize_loop 64 x.

Definition diyfp_normalize_to (x : diyfp) (target_exponent : Z) : diyfp :=
  mk_diyfp (u64 (Z.shiftl (fp_f x) (fp_e x - target_exponent))) target_exponent.

Record boundaries := mk_boundaries { bd_w : diyfp; bd_minus : diyfp; bd_plus : diyfp }.

(** The fields [E] and [F] of the encoding of a positive finite double. *)
Definition ieee_fields (m : positive) (e : Z) : Z * Z :=
  if Zpos m <? 2 ^ 52 then (0, Zpos m) else (e + 1075, Zpos m - 2 ^ 52).

Definition compute_boundaries (m : positive) (e : Z) : boundaries :=
  let '(E, F) := ieee_fields m e in
  let is_denormal := E =? 0 in
  let v := if is_denormal then mk_diyfp F (1 - 1075)
           else mk_diyfp (F + 2 ^ 52) (E - 1075) in
  let lower_boundary_is_closer := (F =? 0) && (1 <? E) in
  let m_plus := mk_diyfp (2 * fp_f v + 1) (fp_e v - 1) in
  let m_minus := if lower_boundary_is_closer
                 then mk_diyfp (4 * fp_f v - 1) (fp_e v - 2)
                 else mk_diyfp (2 * fp_f v - 1) (fp_e v - 1) in
  let w_plus := diyfp_normalize m_plus in
  let w_minus := diyfp_normalize_to m_minus (fp_e w_plus) in
  mk_boundaries (diyfp_normalize v) w_minus w_plus.

(** ** Cached powers of ten *)

Record cached_power := mk_cached { cp_f : Z; cp_e : Z; cp_k : Z }.

Definition kCachedPowers : list cached_power := [
  mk_cached 0xab70fe17c79ac6ca (-1060) (-300);
  mk_cached 0xff77b1fcbebcdc4f (-1034) (-292);
  mk_cached 0xbe5691ef416bd60c (-1007) (-284);
  mk_cached 0x8dd01fad907ffc3c (-980) (-276);
  mk_cached 0xd3515c2831559a83 (-954) (-268);
  mk_cached 0x9d71ac8fada6c9b5 (-927) (-260);
  mk_cached 0xea9c227723ee8bcb (-901) (-252);
  mk_cached 0xaecc49914078536d (-874) (-244);
  mk_cached 0x823c12795db6ce57 (-847) (-236);
  mk_cached 0xc21094364dfb5637 (-821) (-228);
  mk_cached 0x9096ea6f3848984f (-794) (-220);
  mk_cached 0xd77485cb25823ac7 (-768) (-212);
  mk_cached 0xa086cfcd97bf97f4 (-741) (-204);
  mk_cached 0xef340a98172aace5 (-715) (-196);
  mk_cached 0xb23867fb2a35b28e (-688) (-188);
  mk_cached 0x84c8d4dfd2c63f3b (-661) (-180);
  mk_cached 0xc5dd44271ad3cdba (-635) (-172);
  mk_cached 0x936b9fcebb25c996 (-608) (-164);
  mk_cached 0xdbac6c247d62a584 (-582) (-156);
  mk_cached 0xa3ab66580d5fdaf6 (-555) (-148);
  mk_cached 0xf3e2f893dec3f126 (-529) (-140);
  mk_cached 0xb5b5ada8aaff80b8 (-502) (-132);
  mk_cached 0x87625f056c7c4a8b (-475) (-124);
  mk_cached 0xc9bcff6034c13053 (-449) (-116);
  mk_cached 0x964e858c91ba2655 (-422) (-108);
  mk_cached 0xdff9772470297ebd (-396) (-100);
  mk_cached 0xa6dfbd9fb8e5b88f (-369) (-92);
  mk_cached 0xf8a95fcf88747d94 (-343) (-84);
  mk_cached 0xb94470938fa89bcf (-316) (-76);
  mk_cached 0x8a08f0f8bf0f156b (-289) (-68);
  mk_cached 0xcdb02555653131b6 (-263) (-60);
  mk_cached 0x993fe2c6d07b7fac (-236) (-52);
  mk_cached 0xe45c10c42a2b3b06 (-210) (-44);
  mk_cached 0xaa242499697392d3 (-183) (-36);
  mk_cached 0xfd87b5f28300ca0e (-157) (-28);
  mk_cached 0xbce5086492111aeb (-130) (-20);
  mk_cached 0x8cbccc096f5088cc (-103) (-12);
  mk_cached 0xd1b71758e219652c (-77) (-4);
  mk_cached 0x9c40000000000000 (-50) (4);
  mk_cached 0xe8d4a51000000000 (-24) (12);
  mk_cached 0xad78ebc5ac620000 (3) (20);
  mk_cached 0x813f3978f8940984 (30) (28);
  mk_cached 0xc097ce7bc90715b3 (56) (36);
  mk_cached 0x8f7e32ce7bea5c70 (83) (44);
  mk_cached 0xd5d238a4abe98068 (109) (52);
  mk_cached 0x9f4f2726179a2245 (136) (60);
  mk_cached 0xed63a231d4c4fb27 (162) (68);
  mk_cached 0xb0de65388cc8ada8 (189) (76);
  mk_cached 0x83c7088e1aab65db (216) (84);
  mk_cached 0xc45d1df942711d9a (242) (92);
  mk_cached 0x924d692ca61be758 (269) (100);
  mk_cached 0xda01ee641a708dea (295) (108);
  mk_cached 0xa26da3999aef774a (322) (116);
  mk_cached 0xf209787bb47d6b85 (348) (124);
  mk_cached 0xb454e4a179dd1877 (375) (132);
  mk_cached 0x865b86925b9bc5c2 (402) (140);
  mk_cached 0xc83553c5c8965d3d (428) (148);
  mk_cached 0x952ab45cfa97a0b3 (455) (156);
  mk_cached 0xde469fbd99a05fe3 (481) (164);
  mk_cached 0xa59bc234db398c25 (508) (172);
  mk_cached 0xf6c69a72a3989f5c (534) (180);
  mk_cached 0xb7dcbf5354e9bece (561) (188);
  mk_cached 0x88fcf317f22241e2 (588) (196);
  mk_cached 0xcc20ce9bd35c78a5 (614) (204);
  mk_cached 0x98165af37b2153df (641) (212);
  mk_cached 0xe2a0b5dc971f303a (667) (220);
  mk_cached 0xa8d9d1535ce3b396 (694) (228);
  mk_cached 0xfb9b7cd9a4a7443c (720) (236);
  mk_cached 0xbb764c4ca7a44410 (747) (244);
  mk_cached 0x8bab8eefb6409c1a (774) (252);
  mk_cached 0xd01fef10a657842c (800) (260);
  mk_cached 0x9b10a4e5e9913129 (827) (268);
  mk_cached 0xe7109bfba19c0c9d (853) (276);
  mk_cached 0xac2820d9623bf429 (880) (284);
  mk_cached 0x80444b5e7aa7cf85 (907) (292);
  mk_cached 0xbf21e44003acdd2d (933) (300);
  mk_cached 0x8e679c2f5e44ff8f (960) (308);
  mk_cached 0xd433179d9c8cb841 (986) (316);
  mk_cached 0x9e19db92b4e31ba9 (1013) (324)
].

(** Division of [int]s truncates towards zero. *)
Definition get_cached_power_for_binary_exponent (e : Z) : cached_power :=
  let f := -60 - e - 1 in
  let k := Z.quot (f * 78913) (2 ^ 18) + (if 0 <? f then 1 else 0) in
  let index := Z.quot (300 + k + (8 - 1)) 8 in
  nth (Z.to_nat index) kCachedPowers (mk_cached 0 0 0).

(** ** Digit generation *)

(** The number of digits of [n] and the power of ten of the first one. *)
Definition find_largest_pow10 (n : Z) : Z * Z :=
  if 1000000000 <=? n then (10, 1000000000)
  else if 100000000 <=? n then (9, 100000000)
  else if 10000000 <=? n then (8, 10000000)
  else if 1000000 <=? n then (7, 1000000)
  else if 100000 <=? n then (6, 100000)
  else if 10000 <=? n then (5, 10000)
  else if 1000 <=? n then (4, 1000)
  else if 100 <=? n then (3, 100)
  else if 10 <=? n then (2, 10)
  else (1, 1).

(** [buf[len - 1]--] *)
Fixpoint decrement_last (s : string) : string :=
  match s with
  | EmptyString => EmptyString
  | String c EmptyString => String (char_of (byte_of c - 1)) EmptyString
  | String c s' => String c (decrement_last s')
  end.

(** The loop stops at the latest when the last digit would pass '0'. *)
Fixpoint grisu2_round_loop (fuel : nat) (buf : string) (dist delta rest ten_k : Z) : string :=
  match fuel with
  | O => buf
  | S fuel' =>
      if (rest <? dist) && (ten_k <=? u64 (delta - rest)) &&
         ((u64 (rest + ten_k) <? dist) ||
          (u64 (u64 (rest + ten_k) - dist) <? u64 (dist - rest)))
      then grisu2_round_loop fuel' (decrement_last buf) dist delta (u64 (rest + ten_k)) ten_k
      else buf
  end.
Definition grisu2_round (buf : string) (dist delta rest ten_k : Z) : string :=
  grisu2_round_loop 10 buf dist delta rest ten_k.

(** The fractional digits ([for (;;)]): the digits appended, the final values
    of [delta], [dist] and [p2], and the number of digits. *)
Fixpoint grisu2_frac_loop (fuel : nat) (one_f one_e : Z) (buf : string)
    (p2 delta dist m : Z) : string * Z * Z * Z * Z :=
  match fuel with
  | O => (buf, p2, delta, dist, m)
  | S fuel' =>
      let p2 := u64 (p2 * 10) in
      let d := Z.shiftr p2 (- one_e) in
      let r := Z.land p2 (one_f - 1) in
      let buf := snoc buf (char_of (48 + d)) in
      let p2 := r in
      let m := m + 1 in
      let delta := u64 (delta * 10) in
      let dist := u64 (dist * 10) in
      if p2 <=? delta then (buf, p2, delta, dist, m)
      else grisu2_frac_loop fuel' one_f one_e buf p2 delta dist m
  end.

(** The integral digits ([while (n > 0)]), then the fractional ones. *)
Fixpoint grisu2_int_loop (fuel : nat) (one_f one_e : Z) (buf : string) (decimal_exponent : Z)
    (p1 p2 pow10 n delta dist : Z) : string * Z :=
  match fuel with
  | S fuel' =>
      let d := p1 / pow10 in
      let r := p1 `mod` pow10 in
      let buf := snoc buf (char_of (48 + d)) in
      let p1 := r in
      let n := n - 1 in
      let rest := u64 (Z.shiftl p1 (- one_e) + p2) in
      if rest <=? delta then
        let ten_n := u64 (Z.shiftl pow10 (- one_e)) in
        (grisu2_round buf dist delta rest ten_n, decimal_exponent + n)
      else grisu2_int_loop fuel' one_f one_e buf decimal_exponent p1 p2 (pow10 / 10) n delta dist
  | O =>
      let '(buf, p2, delta, dist, m) := grisu2_frac_loop 20 one_f one_e buf p2 delta dist 0 in
      (grisu2_round buf dist delta p2 one_f, decimal_exponent - m)
  end.

Definition grisu2_digit_gen (decimal_exponent : Z) (M_minus w M_plus : diyfp) : string * Z :=
  let delta := fp_f (diyfp_sub M_plus M_minus) in
  let dist := fp_f (diyfp_sub M_plus w) in
  let one_e := fp_e M_plus in
  let one_f := Z.shiftl 1 (- one_e) in
  let p1 := Z.shiftr (fp_f M_plus) (- one_e) in
  let p2 := Z.land (fp_f M_plus) (one_f - 1) in
  let '(k, pow10) := find_largest_pow10 p1 in
  grisu2_int_loop (Z.to_nat k) one_f one_e "" decimal_exponent p1 p2 pow10 k delta dist.

(** The digits and the decimal exponent of a positive finite double. *)
Definition grisu2 (m : positive) (e : Z) : string * Z :=
  let b := compute_boundaries m e in
  let cached := get_cached_power_for_binary_exponent (fp_e (bd_plus b)) in
  let c_minus_k := mk_diyfp (cp_f cached) (cp_e cached) in
  let w := diyfp_mul (bd_w b) c_minus_k in
  let w_minus := diyfp_mul (bd_minus b) c_minus_k in
  let w_plus := diyfp_mul (bd_plus b) c_minus_k in
  let M_minus := mk_diyfp (u64 (fp_f w_minus + 1)) (fp_e w_minus) in
  let M_plus := mk_diyfp (u64 (fp_f w_plus - 1)) (fp_e w_plus) in
  grisu2_digit_gen (- cp_k cached) M_minus w M_plus.

(** ** Formatting *)

Definition append_exponent (buf : string) (e : Z) : string :=
  let '(buf, k) := if e <? 0 then (snoc buf "-", - e) else (snoc buf "+", e) in
  if k <? 10 then snoc (snoc buf "0") (digit_char k)
  else if k <? 100 then snoc (snoc buf (digit_char (k / 10))) (digit_char (k `mod` 10))
  else snoc (snoc (snoc buf (digit_char (k / 100))) (digit_char (k `mod` 100 / 10)))
            (digit_char ((k `mod` 100) `mod` 10)).

Definition format_buffer (buf : string) (decimal_exponent min_exp max_exp : Z) : string :=
  let k := Z.of_nat (String.length buf) in
  let n := k + decimal_exponent in
  if (k <=? n) && (n <=? max_exp) then
    buf +:+ zeros (Z.to_nat (n - k)) +:+ ".0"
  else if (0 <? n) && (n <=? max_exp) then
    String.substring 0 (Z.to_nat n) buf +:+ "." +:+
    String.substring (Z.to_nat n) (Z.to_nat (k - n)) buf
  else if (min_exp <? n) && (n <=? 0) then
    "0." +:+ zeros (Z.to_nat (- n)) +:+ buf
  else if k =? 1 then append_exponent (snoc buf "e") (n - 1)
  else
    append_exponent
      (snoc (String.substring 0 1 buf +:+ "." +:+ String.substring 1 (Z.to_nat (k - 1)) buf) "e")
      (n - 1).

(** [to_chars] of a finite value. *)
Definition to_chars (d : double) : string :=
  match d with
  | S754_zero s => (if s then "-" else "")%string +:+ "0.0"
  | S754_finite s m e =>
      let '(buf, decimal_exponent) := grisu2 m e in
      (if s then "-" else "")%string +:+ format_buffer buf decimal_exponent (-4) 15
  | _ => ""
  end%string.

Example to_chars_examples :
  map to_chars [dbl_of_Z 100; dbl_of_dec false 15050 (-2); dbl_of_dec false 1 (-1);
                dbl_of_dec true 99999999 (-2); dbl_of_dec false 5 (-324);
                dbl_of_dec false 17976931348623157 292; dbl_of_dec false 3 (-1);
                dbl_of_dec false 12345 (-9); dbl_of_dec false 1 16] =
  ["100.0"; "150.5"; "0.1"; "-999999.99"; "5e-324"; "1.7976931348623157e+308"; "0.3";
   "1.2345e-05"; "1e+16"]%string.
Proof. by vm_compute. Qed.

(** ** The multiplication is the product rounded to its upper 64 bits, ties up *)

Lemma land_low32 z : Z.land z 0xffffffff = z `mod` 2 ^ 32.
Proof. change 0xffffffff with (Z.ones 32). by rewrite Z.land_ones. Qed.

Lemma shiftr32 z : Z.shiftr z 32 = z / 2 ^ 32.
Proof. by rewrite Z.shiftr_div_pow2. Qed.

Lemma div_32_range z : in_u 64 z → 0 ≤ z / 2 ^ 32 < 2 ^ 32.
Proof.
  intros [? ?]. split; [apply Z.div_pos; lia|]. apply Z.div_lt_upper_bound; lia.
Qed.

Lemma mul_32_range a b : 0 ≤ a < 2 ^ 32 → 0 ≤ b < 2 ^ 32 → 0 ≤ a * b ≤ (2 ^ 32 - 1) * (2 ^ 32 - 1).
Proof. intros. split; [lia|]. apply Z.mul_le_mono_nonneg; lia. Qed.

(** No intermediate of the 32-bit multiplication overflows. *)
Lemma diyfp_mul_no_wrap (a b c d : Z) :
  0 ≤ a < 2 ^ 32 → 0 ≤ b < 2 ^ 32 → 0 ≤ c < 2 ^ 32 → 0 ≤ d < 2 ^ 32 →
  u64 (a * c) = a * c ∧ u64 (a * d) = a * d ∧ u64 (b * c) = b * c ∧ u64 (b * d) = b * d.
Proof.
  intros Ha Hb Hc Hd.
  pose proof (mul_32_range a c Ha Hc). pose proof (mul_32_range a d Ha Hd).
  pose proof (mul_32_range b c Hb Hc). pose proof (mul_32_range b d Hb Hd).
  unfold u64. rewrite !wrap_u_id; [done|unfold in_u; lia..].
Qed.

(** The carry computation of [diyfp::mul], over the integers. *)
Lemma diyfp_carry p0 p1 p2 p3 :
  0 ≤ p0 → 0 ≤ p1 → 0 ≤ p2 → 0 ≤ p3 →
  p3 + p2 / 2 ^ 32 + p1 / 2 ^ 32 +
    (p0 / 2 ^ 32 + p1 `mod` 2 ^ 32 + p2 `mod` 2 ^ 32 + 2 ^ 31) / 2 ^ 32 =
  (p0 + 2 ^ 32 * (p1 + p2) + 2 ^ 64 * p3 + 2 ^ 63) / 2 ^ 64.
Proof.
  intros. change (2 ^ 64) with (2 ^ 32 * 2 ^ 32).
  rewrite <- Z.div_div by lia.
  replace (p0 + 2 ^ 32 * (p1 + p2) + 2 ^ 32 * 2 ^ 32 * p3 + 2 ^ 63)
    with (p0 + (p1 + p2 + 2 ^ 32 * p3 + 2 ^ 31) * 2 ^ 32) by lia.
  rewrite Z.div_add by lia.
  pose proof (Z.div_mod p1 (2 ^ 32) ltac:(lia)).
  pose proof (Z.div_mod p2 (2 ^ 32) ltac:(lia)).
  replace (p0 / 2 ^ 32 + (p1 + p2 + 2 ^ 32 * p3 + 2 ^ 31))
    with (p0 / 2 ^ 32 + p1 `mod` 2 ^ 32 + p2 `mod` 2 ^ 32 + 2 ^ 31 +
          (p3 + p2 / 2 ^ 32 + p1 / 2 ^ 32) * 2 ^ 32) by lia.
  rewrite Z.div_add by lia. lia.
Qed.

Lemma diyfp_mul_correct x y :
  in_u 64 (fp_f x) → in_u 64 (fp_f y) →
  diyfp_mul x y =
  mk_diyfp ((fp_f x * fp_f y + 2 ^ 63) / 2 ^ 64) (fp_e x + fp_e y + 64).
Proof.
  intros Hx Hy. unfold diyfp_mul. rewrite !land_low32, !shiftr32.
  pose proof (div_32_range _ Hx) as Hxh. pose proof (div_32_range _ Hy) as Hyh.
  pose proof (Z.mod_pos_bound (fp_f x) (2 ^ 32) ltac:(lia)) as Hxl.
  pose proof (Z.mod_pos_bound (fp_f y) (2 ^ 32) ltac:(lia)) as Hyl.
  pose proof (Z.div_mod (fp_f x) (2 ^ 32) ltac:(lia)) as Ex.
  pose proof (Z.div_mod (fp_f y) (2 ^ 32) ltac:(lia)) as Ey.
  set (a := fp_f x `mod` 2 ^ 32) in *. set (b := fp_f x / 2 ^ 32) in *.
  set (c := fp_f y `mod` 2 ^ 32) in *. set (d := fp_f y / 2 ^ 32) in *.
  destruct (diyfp_mul_no_wrap a b c d Hxl Hxh Hyl Hyh) as (-> & -> & -> & ->).
  pose proof (mul_32_range a c Hxl Hyl). pose proof (mul_32_range a d Hxl Hyh).
  pose proof (mul_32_range b c Hxh Hyl). pose proof (mul_32_range b d Hxh Hyh).
  assert (0 ≤ a * c / 2 ^ 32 < 2 ^ 32) by (apply div_32_range; unfold in_u; lia).
  pose proof (Z.mod_pos_bound (a * d) (2 ^ 32) ltac:(lia)).
  pose proof (Z.mod_pos_bound (b * c) (2 ^ 32) ltac:(lia)).
  change (Z.shiftl 1 (64 - 32 - 1)) with (2 ^ 31).
  unfold u64. rewrite (wrap_u_id 64 (a * c / 2 ^ 32 + _ + _)) by (unfold in_u; lia).
  rewrite (wrap_u_id 64 (_ + 2 ^ 31)) by (unfold in_u; lia).
  rewrite diyfp_carry by lia.
  assert (fp_f x * fp_f y = a * c + 2 ^ 32 * (a * d + b * c) + 2 ^ 64 * (b * d)) as ->.
  { rewrite Ex, Ey. change (2 ^ 64) with (2 ^ 32 * 2 ^ 32). lia. }
  rewrite wrap_u_id; [done|].
  unfold in_u. split; [apply Z.div_pos; lia|]. apply Z.div_lt_upper_bound; lia.
Qed.
