(* ===== verification/JsonGrisuDigits.v ===== *)
(** Digit generation in Grisu2 (json.hpp, [dtoa_impl::grisu2_digit_gen]): the
    digits written are those of a decimal number between the two scaled
    boundaries, whatever [dist] is. *)

From S2P Require Import Prelude Decimal Doubles JsonDtoa.

Local Open Scope Z_scope.

Lemma u64_id z : 0 <= z < 2 ^ 64 → u64 z = z.
Proof. intros Hz. unfold u64. apply wrap_u_id. exact Hz. Qed.

(** ** Texts of digits *)

(** A number written without leading zeros. *)
Definition numeral (s : string) : Prop :=
  sforall is_digit s = true ∧ match s with String c _ => digit_val c ≠ 0 | EmptyString => False end.

Lemma dec_value_snoc s c : dec_value (snoc s c) = 10 * dec_value s + digit_val c.
Proof. unfold dec_value, snoc. by rewrite dec_value_from_app. Qed.

Lemma digit_char_eq d : char_of (48 + d) = digit_char d.
Proof. done. Qed.

Lemma sforall_snoc P s c : sforall P (snoc s c) = sforall P s && P c.
Proof. unfold snoc. rewrite sforall_app. cbn. by rewrite andb_true_r. Qed.

Lemma numeral_snoc s d : 0 <= d < 10 → numeral s → numeral (snoc s (digit_char d)).
Proof.
  intros Hd [Hs Hc]. split; [by rewrite sforall_snoc, Hs, digit_char_is_digit|].
  by destruct s.
Qed.

Lemma numeral_one d : 0 < d < 10 → numeral (snoc EmptyString (digit_char d)).
Proof.
  intros Hd. unfold snoc. rewrite sapp_nil_l. split; cbn [sforall].
  - by rewrite digit_char_is_digit by lia.
  - rewrite digit_val_char; lia.
Qed.

Lemma decrement_last_snoc s c : decrement_last (snoc s c) = snoc s (char_of (byte_of c - 1)).
Proof.
  unfold snoc. induction s as [|a s IH]; [done|]. rewrite !sapp_cons. cbn [decrement_last].
  destruct (s +:+ String c EmptyString) eqn:E; [by destruct s|]. by rewrite IH.
Qed.

Lemma decrement_last_digit s d :
  0 < d < 10 → decrement_last (snoc s (digit_char d)) = snoc s (digit_char (d - 1)).
Proof.
  intros Hd. rewrite decrement_last_snoc. unfold digit_char. rewrite byte_of_char_of by lia.
  do 3 f_equal. lia.
Qed.

(** ** Rounding the last digit

    Each round takes one from the last digit and adds [ten_k] to what is
    missing from the upper boundary, which stays at most [delta]; as it would
    exceed [delta] without the last digit, that digit never passes one. *)
Lemma round_loop_spec fuel s d dist delta rest ten_k :
  0 < d < 10 → 0 <= rest <= delta → delta < 2 ^ 64 → 0 < ten_k → delta < rest + d * ten_k →
  ∃ j, 0 <= j < d ∧ rest + j * ten_k <= delta ∧
    grisu2_round_loop fuel (snoc s (digit_char d)) dist delta rest ten_k = snoc s (digit_char (d - j)).
Proof.
  intros Hd Hr Hdelta Ht Hlast. revert d rest Hd Hr Hlast.
  induction fuel as [|fuel IH]; intros d rest Hd Hr Hlast; cbn [grisu2_round_loop].
  { exists 0. rewrite Z.sub_0_r. split; [lia|]. split; [lia|done]. }
  destruct (_ && _ && _) eqn:Hg; [|exists 0; rewrite Z.sub_0_r; split; [lia|]; split; [lia|done]].
  apply andb_true_iff in Hg as [Hg _]. b2p.
  match goal with H : ten_k <= _ |- _ => rewrite u64_id in H by lia end.
  rewrite decrement_last_digit by lia. rewrite u64_id by lia.
  destruct (IH (d - 1) (rest + ten_k)) as (j & Hj & Hsum & ->); [nia|lia|nia|].
  exists (j + 1). split; [lia|]. split; [lia|]. do 2 f_equal. lia.
Qed.

Lemma grisu2_round_spec s d dist delta rest ten_k :
  0 < d < 10 → 0 <= rest <= delta → delta < 2 ^ 64 → 0 < ten_k → delta < rest + d * ten_k →
  s = EmptyString ∨ numeral s →
  let buf := grisu2_round (snoc s (digit_char d)) dist delta rest ten_k in
  ∃ j, 0 <= j ∧ rest + j * ten_k <= delta ∧ numeral buf ∧
    dec_value buf = dec_value (snoc s (digit_char d)) - j.
Proof.
  intros Hd Hr Hdelta Ht Hlast Hs. unfold grisu2_round.
  destruct (round_loop_spec 10 s d dist delta rest ten_k) as (j & Hj & Hsum & ->); [done..|].
  exists j. split; [lia|]. split; [done|]. split.
  - destruct Hs as [->|Hs]; [apply numeral_one|apply numeral_snoc; [|done]]; lia.
  - rewrite !dec_value_snoc, !digit_val_char by lia. lia.
Qed.

(** The fuel of the rounding loop is never used up: more makes no difference. *)
Lemma round_loop_fuel f f' s d dist delta rest ten_k :
  0 < d < 10 → d <= Z.of_nat f → d <= Z.of_nat f' →
  0 <= rest <= delta → delta < 2 ^ 64 → 0 < ten_k → delta < rest + d * ten_k →
  grisu2_round_loop f (snoc s (digit_char d)) dist delta rest ten_k =
  grisu2_round_loop f' (snoc s (digit_char d)) dist delta rest ten_k.
Proof.
  intros Hd Hf Hf' Hr Hdelta Ht Hlast. revert f' d rest Hd Hf Hf' Hr Hlast.
  induction f as [|f IH]; intros [|f'] d rest Hd Hf Hf' Hr Hlast; try lia. cbn [grisu2_round_loop].
  destruct (_ && _ && _) eqn:Hg; [|done].
  apply andb_true_iff in Hg as [Hg _]. b2p.
  match goal with H : ten_k <= _ |- _ => rewrite u64_id in H by lia end.
  rewrite decrement_last_digit, u64_id by lia. apply IH; nia.
Qed.

(** ** The loops over digits *)

Lemma two_s s : 32 <= s <= 60 → 2 ^ 32 <= 2 ^ s <= 2 ^ 60.
Proof. intros Hs. split; apply Z.pow_le_mono_r; lia. Qed.

Section digits.
(** The scaled boundaries, [s] bits behind the point. *)
Context (lo hi s : Z).
Context (Hs : 32 <= s <= 60) (Hlo : 0 < lo) (Hhi : lo < hi < 2 ^ 64).
Let delta : Z := hi - lo.

(** [buf * 10^k] lies between the boundaries. *)
Definition digits_within (buf : string) (k : Z) : Prop :=
  numeral buf ∧
  lo * 10 ^ Z.max (- k) 0 <= dec_value buf * 10 ^ Z.max k 0 * 2 ^ s <= hi * 10 ^ Z.max (- k) 0.

(** The fractional loop stops behind a digit that is not zero, as soon as the
    rest is at most [delta]. *)
Definition frac_stop (r : string * Z * Z * Z * Z) : Prop :=
  let '(buf, p2, delta', dist, m) := r in
  ∃ b d, buf = snoc b (digit_char d) ∧ 0 < d < 10 ∧ numeral b ∧
    0 <= p2 <= delta' ∧ p2 < 2 ^ s ∧ delta' < p2 + d * 2 ^ s ∧ 0 < m ∧
    delta' = delta * 10 ^ m ∧ hi * 10 ^ m = dec_value buf * 2 ^ s + p2.

Lemma frac_loop_spec fuel buf p2 delta' dist m :
  0 <= m → numeral buf → 0 <= p2 < 2 ^ s → 0 < delta' < p2 → delta' = delta * 10 ^ m →
  hi * 10 ^ m = dec_value buf * 2 ^ s + p2 → 2 ^ s <= delta' * 10 ^ Z.of_nat fuel →
  frac_stop (grisu2_frac_loop fuel (2 ^ s) (- s) buf p2 delta' dist m).
Proof.
  pose proof (two_s s Hs) as H2s. revert buf p2 delta' dist m.
  induction fuel as [|fuel IH]; intros buf p2 delta' dist m Hm Hbuf Hp2 Hd Hdelta Hval Hfuel; [cbn in Hfuel; lia|].
  cbn [grisu2_frac_loop]. cbv zeta. rewrite Z.opp_involutive, (u64_id (p2 * 10)), (u64_id (delta' * 10)) by lia.
  rewrite Z.shiftr_div_pow2 by lia.
  assert (Z.land (p2 * 10) (2 ^ s - 1) = (p2 * 10) mod 2 ^ s) as ->.
  { rewrite <- Z.land_ones by lia. f_equal. rewrite Z.ones_equiv. lia. }
  rewrite digit_char_eq. set (d := p2 * 10 / 2 ^ s). set (r := (p2 * 10) mod 2 ^ s).
  pose proof (Z.div_mod (p2 * 10) (2 ^ s) ltac:(lia)) as Edm. fold d r in Edm.
  pose proof (Z.mod_pos_bound (p2 * 10) (2 ^ s) ltac:(lia)) as Hr. fold r in Hr.
  assert (0 <= d < 10) by nia.
  assert (10 ^ (m + 1) = 10 ^ m * 10) as E10 by (rewrite Z.pow_add_r by lia; lia).
  assert (hi * 10 ^ (m + 1) = dec_value (snoc buf (digit_char d)) * 2 ^ s + r).
  { rewrite dec_value_snoc, digit_val_char, E10 by lia. nia. }
  destruct (Z.leb_spec r (delta' * 10)).
  - exists buf, d. split; [done|]. split; [nia|]. do 3 (split; [lia || done|]). split; [nia|]. split; [lia|].
    split; [|done]. rewrite E10. lia.
  - apply IH; [lia|apply numeral_snoc; [lia|done]|lia|lia|rewrite E10; lia|done|].
    rewrite Nat2Z.inj_succ, Z.pow_succ_r in Hfuel by lia. lia.
Qed.

Lemma int_loop_spec fuel buf de p1 p2 dist buf' k :
  let n := Z.of_nat fuel in
  0 <= p1 < 10 ^ n → 0 <= p2 < 2 ^ s →
  hi = dec_value buf * 10 ^ n * 2 ^ s + p1 * 2 ^ s + p2 → delta < p1 * 2 ^ s + p2 →
  numeral buf ∨ buf = EmptyString ∧ 10 ^ (n - 1) <= p1 ∧ 0 < n →
  grisu2_int_loop fuel (2 ^ s) (- s) buf de p1 p2 (10 ^ n / 10) n delta dist = (buf', k) →
  digits_within buf' (k - de).
Proof.
  cbv zeta. pose proof (two_s s Hs) as H2s. revert buf p1.
  induction fuel as [|fuel IH]; intros buf p1 Hp1 Hp2 Hval Hdelta Hbuf.
  - destruct Hbuf as [Hbuf|(_ & _ & Hn)]; [|lia]. cbn [grisu2_int_loop Z.of_nat Z.pow] in *.
    assert (p1 = 0) as -> by (cbn in Hp1; lia).
    pose proof (frac_loop_spec 20 buf p2 delta dist 0) as Hf.
    destruct (grisu2_frac_loop _ _ _ _ _ _ _ _) as [[[[bf q] df] tf] m].
    destruct Hf as (b & d & -> & Hd & Hb & Hq & Hqs & Hlast & Hm & -> & Hv);
      [lia|done|lia|unfold delta in *; lia|lia|rewrite Z.pow_0_r in *; lia|unfold delta; lia|].
    destruct (grisu2_round_spec b d tf (delta * 10 ^ m) q (2 ^ s)) as (j & Hj & Hsum & Hnum & Hdec);
      [done..|nia|lia|done|by right|].
    intros [= <- <-]. split; [done|].
    replace (de - m - de) with (- m) by lia. rewrite Z.opp_involutive, Z.max_l, Z.max_r by lia.
    rewrite Hdec, Z.pow_0_r, Hv. unfold delta in *. lia.
  - cbn [grisu2_int_loop]. cbv zeta. rewrite digit_char_eq, Z.opp_involutive.
    set (n := Z.of_nat fuel) in *. rewrite Nat2Z.inj_succ in *. fold n in Hp1, Hval, Hbuf |- *.
    replace (Z.succ n - 1) with n in * by lia.
    assert (0 < 10 ^ n) as Hten by (apply Z.pow_pos_nonneg; lia).
    rewrite Z.pow_succ_r in * by lia. rewrite (Z.mul_comm 10 (10 ^ n)), Z.div_mul by lia.
    rewrite !Z.shiftl_mul_pow2 by lia.
    set (d := p1 / 10 ^ n). set (r := p1 mod 10 ^ n).
    pose proof (Z.div_mod p1 (10 ^ n) ltac:(lia)) as Edm. fold d r in Edm.
    pose proof (Z.mod_pos_bound p1 (10 ^ n) Hten) as Hr. fold r in Hr.
    assert (0 <= d < 10) by nia.
    assert (hi = dec_value (snoc buf (digit_char d)) * 10 ^ n * 2 ^ s + r * 2 ^ s + p2) as Hval'.
    { rewrite dec_value_snoc, digit_val_char by lia. nia. }
    assert (0 <= dec_value buf) as Hpos.
    { destruct Hbuf as [[Hb _]|[-> _]]; [by apply dec_value_from_nonneg|done]. }
    assert (0 <= r * 2 ^ s + p2 <= hi) as Hrest by nia.
    rewrite (u64_id (r * 2 ^ s + p2)) by lia. intros Hres.
    destruct (Z.leb_spec (r * 2 ^ s + p2) (hi - lo)) as [Hle|Hgt].
    + assert (0 < d) by (unfold delta in *; nia).
      assert (0 < 10 ^ n * 2 ^ s <= hi) as Hten' by nia.
      fold delta in Hres, Hle. rewrite (proj2 (Z.leb_le _ _) Hle), (u64_id (10 ^ n * 2 ^ s)) in Hres by lia.
      destruct (grisu2_round_spec buf d dist delta (r * 2 ^ s + p2) (10 ^ n * 2 ^ s)) as (j & Hj & Hsum & Hnum & Hdec);
        [lia|lia|unfold delta; lia|lia|nia|tauto|].
      injection Hres as <- <-. split; [done|]. replace (de + n - de) with n by lia.
      rewrite Z.max_r, Z.max_l, Hdec by lia. unfold delta in *. rewrite Z.pow_0_r. lia.
    + fold delta in Hgt. rewrite (proj2 (Z.leb_gt _ _) Hgt) in Hres.
      revert Hres. apply IH; [lia|done|lia|lia|]. left.
      destruct Hbuf as [Hbuf|(-> & Hfirst & _)]; [apply numeral_snoc; [lia|done]|apply numeral_one; nia].
Qed.
End digits.

(** ** The first digit *)

Lemma find_largest_pow10_spec n :
  0 < n < 10 ^ 10 →
  ∃ k, find_largest_pow10 n = (Z.of_nat k, 10 ^ Z.of_nat k / 10) ∧ 0 < Z.of_nat k ∧
    10 ^ (Z.of_nat k - 1) <= n < 10 ^ Z.of_nat k.
Proof.
  intros Hn. unfold find_largest_pow10.
  repeat match goal with
  | |- context [if ?c <=? n then (?k, ?c) else _] =>
      destruct (Z.leb_spec c n);
        [exists (Z.to_nat k); rewrite Z2Nat.id by lia; split; [reflexivity|lia]|]
  end.
  exists 1%nat. split; [reflexivity|]. change (Z.of_nat 1) with 1. lia.
Qed.

(** ** Digit generation *)

Lemma grisu2_digit_gen_spec lo hi s de M_minus w M_plus buf k :
  32 <= s <= 60 → 0 < lo → lo < hi < 2 ^ 64 → 2 ^ 60 <= hi →
  fp_f M_minus = lo → fp_f M_plus = hi → fp_e M_plus = - s →
  grisu2_digit_gen de M_minus w M_plus = (buf, k) →
  digits_within lo hi s buf (k - de).
Proof.
  intros Hs Hlo Hhi H60 El Eh Ee. unfold grisu2_digit_gen, diyfp_sub. cbn [fp_f].
  rewrite El, Eh, Ee, Z.opp_involutive, Z.shiftr_div_pow2, Z.shiftl_mul_pow2, Z.mul_1_l by lia.
  assert (Z.land hi (2 ^ s - 1) = hi mod 2 ^ s) as ->.
  { rewrite <- Z.land_ones by lia. f_equal. rewrite Z.ones_equiv. lia. }
  rewrite (u64_id (hi - lo)) by lia. pose proof (two_s _ Hs) as H2s.
  pose proof (Z.div_mod hi (2 ^ s) ltac:(lia)) as Edm.
  pose proof (Z.mod_pos_bound hi (2 ^ s) ltac:(lia)) as Hr.
  destruct (find_largest_pow10_spec (hi / 2 ^ s)) as (n & -> & Hn & Hp); [nia|].
  rewrite Nat2Z.id. apply (int_loop_spec lo hi s Hs Hlo Hhi); [lia|lia| | |right].
  - cbn [dec_value dec_value_from]. lia.
  - lia.
  - split; [done|]. lia.
Qed.
