(* ===== verification/JsonGrisu.v ===== *)
(** Grisu2 is correct (json.hpp, [dtoa_impl]): the decimal number it produces
    for a binary64 lies strictly inside the rounding interval, so that the
    text is read back as the same binary64.

    The 64-bit computations are compared with the exact rational values: a
    cached power is the power of ten rounded, a product is rounded once more,
    and moving both boundaries inwards by one unit makes up for both. *)

From Stdlib Require Import QArith Qpower Qabs Lqa.
From S2P Require Import Prelude Decimal Doubles FloatRound JsonDtoa JsonGrisuDigits.

Local Open Scope Z_scope.

(** ** Boundaries *)

Lemma normalize_loop_spec fuel f e :
  0 < f < 2 ^ 64 → 2 ^ 63 <= f * 2 ^ Z.of_nat fuel →
  ∃ s, 0 <= s ∧ diyfp_normalize_loop fuel (mk_diyfp f e) = mk_diyfp (f * 2 ^ s) (e - s) ∧
    2 ^ 63 <= f * 2 ^ s < 2 ^ 64.
Proof.
  revert f e. induction fuel as [|fuel IH]; intros f e Hf Hfuel.
  - exists 0. cbn [Z.of_nat] in *. rewrite Z.pow_0_r, Z.mul_1_r, Z.sub_0_r in *.
    split; [lia|]. split; [done|lia].
  - cbn [diyfp_normalize_loop fp_f fp_e]. rewrite Z.shiftr_div_pow2 by lia.
    destruct (Z.eqb_spec (f / 2 ^ 63) 0) as [E|E].
    + apply Z.div_small_iff in E; [|lia].
      rewrite Z.shiftl_mul_pow2, Z.pow_1_r, u64_id by lia.
      rewrite Nat2Z.inj_succ, Z.pow_succ_r in Hfuel by lia.
      destruct (IH (f * 2) (e - 1)) as (s & Hs & -> & Hb); [lia|lia|].
      exists (s + 1). rewrite Z.pow_add_r, Z.pow_1_r by lia. split; [lia|].
      split; [f_equal; lia|lia].
    + exists 0. rewrite Z.pow_0_r, Z.mul_1_r, Z.sub_0_r. split; [lia|]. split; [done|].
      assert (f / 2 ^ 63 <> 0 → 2 ^ 63 <= f) as Hge; [|split; [auto|lia]].
      intros Hn. destruct (Z.lt_ge_cases f (2 ^ 63)); [|done]. by rewrite Z.div_small in Hn by lia.
Qed.

(** The boundaries of [m * 2^e], as multiples of [2^(e - 1 - s)]. *)
Definition lower_boundary (m : positive) (e s : Z) : Z :=
  if (Zpos m =? 2 ^ 52) && (-1074 <? e) then (4 * Zpos m - 1) * 2 ^ (s - 1) else (2 * Zpos m - 1) * 2 ^ s.

Lemma lower_boundary_lt m e s :
  1 <= s → 0 < lower_boundary m e s ∧ lower_boundary m e s + 2 ^ s <= (2 * Zpos m + 1) * 2 ^ s.
Proof.
  intros Hs. unfold lower_boundary.
  assert (2 ^ s = 2 * 2 ^ (s - 1)) as E by (rewrite <- Z.pow_succ_r by lia; f_equal; lia).
  assert (0 < 2 ^ (s - 1)) by (apply Z.pow_pos_nonneg; lia). rewrite E.
  pose proof (Pos2Z.is_pos m). destruct (_ && _); split; nia.
Qed.

Lemma compute_boundaries_spec m e :
  bounded 53 1024 m e = true →
  ∃ s, 10 <= s <= 62 ∧
    bd_plus (compute_boundaries m e) = mk_diyfp ((2 * Zpos m + 1) * 2 ^ s) (e - 1 - s) ∧
    bd_minus (compute_boundaries m e) = mk_diyfp (lower_boundary m e s) (e - 1 - s) ∧
    2 ^ 63 <= (2 * Zpos m + 1) * 2 ^ s < 2 ^ 64.
Proof.
  intros Hm. destruct (bounded_inv m e Hm) as (He & Hm53 & Hnorm & _).
  unfold compute_boundaries, diyfp_normalize.
  set (E := if Zpos m <? 2 ^ 52 then 0 else e + 1075).
  set (F := if Zpos m <? 2 ^ 52 then Zpos m else Zpos m - 2 ^ 52).
  assert (ieee_fields m e = (E, F)) as -> by (unfold ieee_fields, E, F; by case_match).
  assert ((if E =? 0 then mk_diyfp F (1 - 1075) else mk_diyfp (F + 2 ^ 52) (E - 1075)) = mk_diyfp (Zpos m) e) as ->.
  { unfold E, F. destruct (Z.ltb_spec (Zpos m) (2 ^ 52)).
    - rewrite Z.eqb_refl. f_equal. lia.
    - rewrite (proj2 (Z.eqb_neq _ _)) by lia. f_equal; lia. }
  assert (((F =? 0) && (1 <? E)) = ((Zpos m =? 2 ^ 52) && (-1074 <? e))) as ->.
  { unfold E, F. destruct (Z.ltb_spec (Zpos m) (2 ^ 52)).
    - rewrite (proj2 (Z.eqb_neq (Zpos m) 0)), (proj2 (Z.eqb_neq (Zpos m) (2 ^ 52))) by lia. done.
    - f_equal; apply eq_true_iff_eq; rewrite ?Z.eqb_eq, ?Z.ltb_lt; lia. }
  cbn [fp_f fp_e bd_plus bd_minus].
  destruct (normalize_loop_spec 64 (2 * Zpos m + 1) (e - 1)) as (s & Hs & -> & Hb); [lia|lia|].
  assert (s <= 62) as Hs62.
  { destruct (Z.le_gt_cases s 62); [done|].
    assert (2 ^ 63 <= 2 ^ s) by (apply Z.pow_le_mono_r; lia). lia. }
  assert (10 <= s) as Hs10.
  { destruct (Z.le_gt_cases 10 s); [done|].
    assert (2 ^ s <= 2 ^ 9) by (apply Z.pow_le_mono_r; lia). nia. }
  exists s. split; [lia|]. split; [done|]. split; [|done].
  pose proof (lower_boundary_lt m e s ltac:(lia)) as [Hl1 Hl2].
  assert (0 < 2 ^ s) by (apply Z.pow_pos_nonneg; lia).
  unfold diyfp_normalize_to. cbn [fp_e].
  revert Hl1 Hl2. unfold lower_boundary. destruct (_ && _); intros Hl1 Hl2; cbn [fp_f fp_e];
    rewrite Z.shiftl_mul_pow2 by lia; f_equal.
  - replace (e - 2 - (e - 1 - s)) with (s - 1) by lia. apply u64_id. lia.
  - replace (e - 1 - (e - 1 - s)) with s by lia. apply u64_id. lia.
Qed.

(** ** Powers over the rationals *)

Lemma inject_pow b n : 0 <= n → (inject_Z (b ^ n) == inject_Z b ^ n)%Q.
Proof. intros Hn. by rewrite Zpower_Qpower. Qed.

Lemma inject_pos z : 0 < z → (0 < inject_Z z)%Q.
Proof. change 0%Q with (inject_Z 0). by rewrite <- Zlt_Qlt. Qed.

Lemma Qpow_pos (b : Z) n : 0 < b → (0 < inject_Z b ^ n)%Q.
Proof. intros Hb. apply Qpower_0_lt. by apply inject_pos. Qed.

Lemma Qpow_add (b : Z) n k : 0 < b → (inject_Z b ^ (n + k) == inject_Z b ^ n * inject_Z b ^ k)%Q.
Proof.
  intros Hb. apply Qpower_plus. intros Hz. pose proof (inject_pos b Hb). lra.
Qed.

Lemma Qpow_sub (b : Z) n k : 0 < b → (inject_Z b ^ n == inject_Z b ^ (n - k) * inject_Z b ^ k)%Q.
Proof. intros Hb. rewrite <- Qpow_add by done. apply eq_subrelation; [exact _|]. f_equal. lia. Qed.

Abbreviation two := (inject_Z 2).
Abbreviation ten := (inject_Z 10).

(** ** Cached powers of ten *)

#[export] Instance cached_power_eq_dec : EqDecision cached_power.
Proof. solve_decision. Defined.

Definition power_ok (c : cached_power) : bool :=
  (2 ^ 63 <=? cp_f c) && (cp_f c <? 2 ^ 64) &&
  Qle_bool (Qabs (inject_Z (cp_f c) * two ^ cp_e c - ten ^ cp_k c)) (two ^ (cp_e c - 1)).

Lemma powers_ok : forallb power_ok kCachedPowers = true.
Proof. vm_compute. reflexivity. Qed.

(** The power chosen for an exponent scales it into [-60, -32]. *)
Definition index_ok (e : Z) : bool :=
  let c := get_cached_power_for_binary_exponent e in
  bool_decide (c ∈ kCachedPowers) && (-60 <=? e + cp_e c + 64) && (e + cp_e c + 64 <=? -32).

Lemma indices_ok : forallb (λ n, index_ok (Z.of_nat n - 1137)) (seq 0 2098) = true.
Proof. vm_compute. reflexivity. Qed.

Lemma cached_power_spec e :
  -1137 <= e <= 960 →
  let c := get_cached_power_for_binary_exponent e in
  2 ^ 63 <= cp_f c < 2 ^ 64 ∧ -60 <= e + cp_e c + 64 <= -32 ∧
  (Qabs (inject_Z (cp_f c) * two ^ cp_e c - ten ^ cp_k c) <= two ^ (cp_e c - 1))%Q.
Proof.
  intros He c. pose proof (proj1 (forallb_forall _ _) indices_ok (Z.to_nat (e + 1137))) as Hi.
  rewrite in_seq in Hi. specialize (Hi ltac:(lia)). rewrite Z2Nat.id in Hi by lia.
  replace (e + 1137 - 1137) with e in Hi by lia. unfold index_ok in Hi. fold c in Hi.
  apply andb_true_iff in Hi as [Hi Hhi]. apply andb_true_iff in Hi as [Hin Hlo]. b2p.
  apply bool_decide_eq_true, list_elem_of_In in Hin.
  pose proof (proj1 (forallb_forall _ _) powers_ok c Hin) as Hp. unfold power_ok in Hp.
  apply andb_true_iff in Hp as [Hp Hq]. b2p.
  split; [lia|]. split; [lia|]. by apply Qle_bool_iff.
Qed.

(** ** The scaled boundaries *)

(** A product with a cached power is off by less than one unit. *)
Lemma scaled_product f e c :
  0 < f < 2 ^ 64 →
  (Qabs (inject_Z (cp_f c) * two ^ cp_e c - ten ^ cp_k c) <= two ^ (cp_e c - 1))%Q →
  let M := (f * cp_f c + 2 ^ 63) / 2 ^ 64 in
  (inject_Z (M - 1) * two ^ (e + cp_e c + 64) < inject_Z f * two ^ e * ten ^ cp_k c)%Q ∧
  (inject_Z f * two ^ e * ten ^ cp_k c < inject_Z (M + 1) * two ^ (e + cp_e c + 64))%Q.
Proof.
  intros Hf Hc M. apply Qabs_Qle_condition in Hc as [Hc1 Hc2].
  pose proof (Z.div_mod (f * cp_f c + 2 ^ 63) (2 ^ 64) ltac:(lia)) as Edm. fold M in Edm.
  pose proof (Z.mod_pos_bound (f * cp_f c + 2 ^ 63) (2 ^ 64) ltac:(lia)) as Hmod.
  assert (M * 2 ^ 64 <= f * cp_f c + 2 ^ 63) as HM1 by lia.
  assert (f * cp_f c + 2 ^ 63 < M * 2 ^ 64 + 2 ^ 64) as HM2 by lia.
  rewrite Zle_Qle in HM1. rewrite Zlt_Qlt in HM2.
  rewrite !inject_Z_plus, !inject_Z_mult in HM1. rewrite !inject_Z_plus, !inject_Z_mult in HM2.
  assert (inject_Z f < inject_Z (2 ^ 64))%Q as Hf2 by (rewrite <- Zlt_Qlt; lia).
  assert (0 < inject_Z f)%Q as Hf1 by (apply inject_pos; lia).
  change (M - 1) with (M + -1). rewrite !inject_Z_plus, !Qpow_add by lia.
  pose proof (Qpow_add 2 (cp_e c) (-1) ltac:(lia)) as E1.
  change (cp_e c + -1) with (cp_e c - 1) in E1. rewrite E1 in Hc1, Hc2. clear E1.
  change (two ^ (-1))%Q with (1 # 2)%Q in *. change (two ^ 64)%Q with (inject_Z (2 ^ 64)).
  change (inject_Z (-1)) with (-1)%Q. change (inject_Z 1) with 1%Q.
  pose proof (Qpow_pos 2 e ltac:(lia)) as Hu1. pose proof (Qpow_pos 2 (cp_e c) ltac:(lia)) as Hu2.
  set (F := inject_Z f) in *. set (C := inject_Z (cp_f c)) in *. set (a := (two ^ e)%Q) in *.
  set (b := (two ^ cp_e c)%Q) in *. set (t := (ten ^ cp_k c)%Q) in *. set (q := inject_Z M) in *.
  change (inject_Z (2 ^ 63)) with (9223372036854775808 # 1)%Q in *.
  change (inject_Z (2 ^ 64)) with (18446744073709551616 # 1)%Q in *.
  (* the four products the bounds are made of *)
  assert (q * (18446744073709551616 # 1) * b <= (F * C + (9223372036854775808 # 1)) * b)%Q as P1 by (apply Qmult_le_compat_r; lra).
  assert ((F * C + (9223372036854775808 # 1)) * b < (q * (18446744073709551616 # 1) + (18446744073709551616 # 1)) * b)%Q as P2 by (apply Qmult_lt_compat_r; lra).
  assert (F * (C * b - t) <= F * (b * (1 # 2)))%Q as P3 by (apply Qmult_le_l; lra).
  assert (F * (- (b * (1 # 2))) <= F * (C * b - t))%Q as P4 by (apply Qmult_le_l; lra).
  assert (F * b < (18446744073709551616 # 1) * b)%Q as P5 by (apply Qmult_lt_compat_r; lra).
  assert ((q + -1) * (b * (18446744073709551616 # 1)) < F * t)%Q as G1 by lra.
  assert (F * t < (q + 1) * (b * (18446744073709551616 # 1)))%Q as G2 by lra.
  apply (Qmult_lt_l _ _ a Hu1) in G1. apply (Qmult_lt_l _ _ a Hu1) in G2.
  split; lra.
Qed.

(** ** From the rationals back to the integers *)

Lemma ten_split k : (inject_Z (10 ^ Z.max k 0) == ten ^ k * inject_Z (10 ^ Z.max (- k) 0))%Q.
Proof.
  rewrite !inject_pow, <- Qpow_add by lia. apply eq_subrelation; [exact _|]. f_equal. lia.
Qed.

(** Both sides of a comparison in quarters of [2^e], as integers. *)
Lemma quarters_scaled a e k :
  -1074 <= e →
  (inject_Z (a * (2 ^ (e + 1074) * 10 ^ Z.max (- k) 0)) ==
   inject_Z a * two ^ (e - 2) * (two ^ 1076 * inject_Z (10 ^ Z.max (- k) 0)))%Q.
Proof.
  intros He. rewrite !inject_Z_mult, (inject_pow 2) by lia.
  replace (e + 1074) with (e - 2 + 1076) by lia. rewrite (Qpow_add 2) by lia. ring.
Qed.

Lemma decimal_scaled D k :
  (inject_Z (4 * (D * 10 ^ Z.max k 0 * 2 ^ 1074)) ==
   inject_Z D * ten ^ k * (two ^ 1076 * inject_Z (10 ^ Z.max (- k) 0)))%Q.
Proof.
  rewrite !inject_Z_mult, ten_split.
  assert (two ^ 1076 == inject_Z 4 * inject_Z (2 ^ 1074))%Q as ->; [|ring].
  rewrite (inject_pow 2) by lia. change 1076 with (2 + 1074). by rewrite (Qpow_add 2) by lia.
Qed.

Lemma scale_pos k : (0 < two ^ 1076 * inject_Z (10 ^ Z.max (- k) 0))%Q.
Proof. apply Qmult_lt_0_compat; [by apply Qpow_pos|]. apply inject_pos, Z.pow_pos_nonneg; lia. Qed.

Lemma above_quarters a e D k :
  -1074 <= e → (inject_Z a * two ^ (e - 2) < inject_Z D * ten ^ k)%Q →
  a * (2 ^ (e + 1074) * 10 ^ Z.max (- k) 0) < 4 * (D * 10 ^ Z.max k 0 * 2 ^ 1074).
Proof.
  intros He Hlt. rewrite Zlt_Qlt, quarters_scaled, decimal_scaled by done.
  by apply Qmult_lt_r; [apply scale_pos|].
Qed.

Lemma below_quarters a e D k :
  -1074 <= e → (inject_Z D * ten ^ k < inject_Z a * two ^ (e - 2))%Q →
  4 * (D * 10 ^ Z.max k 0 * 2 ^ 1074) < a * (2 ^ (e + 1074) * 10 ^ Z.max (- k) 0).
Proof.
  intros He Hlt. rewrite Zlt_Qlt, quarters_scaled, decimal_scaled by done.
  by apply Qmult_lt_r; [apply scale_pos|].
Qed.

(** The boundaries in quarters of [2^e]. *)
Lemma upper_quarters m e s :
  1 <= s →
  (inject_Z ((2 * Zpos m + 1) * 2 ^ s) * two ^ (e - 1 - s) == inject_Z (4 * Zpos m + 2) * two ^ (e - 2))%Q.
Proof.
  intros Hs. replace (4 * Zpos m + 2) with ((2 * Zpos m + 1) * 2 ^ 1) by lia.
  rewrite !inject_Z_mult, !(inject_pow 2), <- !Qmult_assoc, <- !(Qpow_add 2) by lia.
  apply eq_subrelation; [exact _|]. do 2 f_equal. lia.
Qed.

Definition lower_quarters (m : positive) (e : Z) : Z :=
  if (Zpos m =? 2 ^ 52) && (-1074 <? e) then 4 * Zpos m - 1 else 4 * Zpos m - 2.

Lemma lower_boundary_quarters m e s :
  1 <= s →
  (inject_Z (lower_boundary m e s) * two ^ (e - 1 - s) == inject_Z (lower_quarters m e) * two ^ (e - 2))%Q.
Proof.
  intros Hs. unfold lower_boundary, lower_quarters. destruct (_ && _).
  2: replace (4 * Zpos m - 2) with ((2 * Zpos m - 1) * 2 ^ 1) by lia.
  all: rewrite !inject_Z_mult, !(inject_pow 2), <- !Qmult_assoc, <- !(Qpow_add 2) by lia;
    apply eq_subrelation; [exact _|]; do 2 f_equal; lia.
Qed.

Lemma decimal_rounds_to_intro m e D k :
  -1074 <= e → 
  (inject_Z (lower_quarters m e) * two ^ (e - 2) < inject_Z D * ten ^ k)%Q →
  (inject_Z D * ten ^ k < inject_Z (4 * Zpos m + 2) * two ^ (e - 2))%Q →
  decimal_rounds_to m e D k.
Proof.
  intros He Hlo Hhi. apply (above_quarters _ _ _ _ He) in Hlo. apply (below_quarters _ _ _ _ He) in Hhi.
  unfold decimal_rounds_to, rounds_to. unfold lower_quarters in Hlo.
  set (w := 2 ^ (e + 1074) * 10 ^ Z.max (- k) 0) in *.
  assert (0 < w) by (apply Z.mul_pos_pos; apply Z.pow_pos_nonneg; lia).
  split; [split; [destruct (_ && _)|]; lia|]. intros E52 He'.
  by rewrite (proj2 (Z.eqb_eq _ _) E52), (proj2 (Z.ltb_lt _ _) He') in Hlo.
Qed.

(** ** The result *)

(** From the digits between the moved boundaries to the value between the
    exact ones. *)
Lemma unscale lo hi s D kappa c (Tlo Thi : Q) :
  0 <= s →
  lo * 10 ^ Z.max (- kappa) 0 <= D * 10 ^ Z.max kappa 0 * 2 ^ s <= hi * 10 ^ Z.max (- kappa) 0 →
  (Tlo * ten ^ c < inject_Z lo * two ^ (- s))%Q → (inject_Z hi * two ^ (- s) < Thi * ten ^ c)%Q →
  (Tlo < inject_Z D * ten ^ (kappa - c))%Q ∧ (inject_Z D * ten ^ (kappa - c) < Thi)%Q.
Proof.
  intros Hs [H1 H2] Hlo Hhi. rewrite Zle_Qle in H1, H2.
  rewrite !inject_Z_mult, (ten_split kappa), (inject_pow 2) in H1, H2 by lia.
  set (n := inject_Z (10 ^ Z.max (- kappa) 0)) in *.
  assert (0 < n)%Q as Hn by (apply inject_pos, Z.pow_pos_nonneg; lia).
  pose proof (Qpow_pos 2 (- s) ltac:(lia)) as Hu. pose proof (Qpow_pos 10 c ltac:(lia)) as Ht.
  assert (two ^ s * two ^ (- s) == 1)%Q as Es.
  { rewrite <- Qpow_add by lia. by replace (s + - s) with 0 by lia. }
  rewrite (Qpow_sub 10 kappa c) in H1, H2 by lia. set (x := (inject_Z D * ten ^ (kappa - c))%Q).
  set (t := (ten ^ c)%Q) in *. set (v := (two ^ (- s))%Q) in *. set (w := (two ^ s)%Q) in *.
  apply (Qmult_le_compat_r _ _ v) in H1, H2; [|lra..].
  assert (x * t * n == inject_Z D * (ten ^ (kappa - c) * t * n) * w * v)%Q as Ex.
  { transitivity (x * t * n * (w * v))%Q; [rewrite Es|unfold x]; ring. }
  assert (inject_Z lo * v * n <= x * t * n)%Q as L1 by (rewrite Ex; lra).
  assert (x * t * n <= inject_Z hi * v * n)%Q as L2 by (rewrite Ex; lra).
  apply (proj1 (Qmult_le_r _ _ _ Hn)) in L1, L2.
  split; apply (proj1 (Qmult_lt_r _ _ t Ht)); lra.
Qed.

(** Moving the boundaries by one does not wrap, and leaves room between them. *)
Lemma scaled_bounds f_lo f_hi c :
  0 < f_lo → 2 ^ 63 <= f_hi < 2 ^ 64 → f_lo + 2 ^ 10 <= f_hi → 2 ^ 63 <= c < 2 ^ 64 →
  let lo := (f_lo * c + 2 ^ 63) / 2 ^ 64 in
  let hi := (f_hi * c + 2 ^ 63) / 2 ^ 64 in
  0 <= lo ∧ lo + 2 < hi ∧ 2 ^ 62 <= hi < 2 ^ 64.
Proof.
  intros Hlo Hhi Hgap Hc lo hi. split; [apply Z.div_pos; lia|].
  pose proof (Z.div_mod (f_lo * c + 2 ^ 63) (2 ^ 64) ltac:(lia)) as E1. fold lo in E1.
  pose proof (Z.div_mod (f_hi * c + 2 ^ 63) (2 ^ 64) ltac:(lia)) as E2. fold hi in E2.
  pose proof (Z.mod_pos_bound (f_lo * c + 2 ^ 63) (2 ^ 64) ltac:(lia)).
  pose proof (Z.mod_pos_bound (f_hi * c + 2 ^ 63) (2 ^ 64) ltac:(lia)).
  assert (2 ^ 63 * 2 ^ 63 <= f_hi * c <= (2 ^ 64 - 1) * (2 ^ 64 - 1)) by nia.
  assert (f_lo * c + 2 ^ 10 * 2 ^ 63 <= f_hi * c) by nia. lia.
Qed.

(** The digits and the exponent Grisu2 finds are a number in the rounding
    interval. *)
Lemma grisu2_interval m e buf k :
  bounded 53 1024 m e = true → grisu2 m e = (buf, k) →
  numeral buf ∧ decimal_rounds_to m e (dec_value buf) k.
Proof.
  intros Hm. destruct (bounded_inv m e Hm) as (He & _).
  destruct (compute_boundaries_spec m e Hm) as (s & Hs & Eplus & Eminus & Hf).
  pose proof (lower_boundary_lt m e s ltac:(lia)) as [Hl1 Hl2].
  assert (2 ^ 10 <= 2 ^ s) as H2s by (apply Z.pow_le_mono_r; lia).
  unfold grisu2. rewrite Eplus, Eminus. cbn [fp_e].
  destruct (cached_power_spec (e - 1 - s) ltac:(lia)) as (Hc & Hrange & Hpow).
  set (c := get_cached_power_for_binary_exponent (e - 1 - s)) in *. cbv zeta.
  rewrite !(diyfp_mul_correct (mk_diyfp _ _)) by (unfold in_u; cbn [fp_f]; lia). cbn [fp_f fp_e].
  destruct (scaled_bounds _ _ (cp_f c) Hl1 Hf ltac:(lia) Hc) as (Hlo & Hgap & Hhi).
  pose proof (scaled_product (lower_boundary m e s) (e - 1 - s) c ltac:(lia) Hpow) as [_ Slo].
  pose proof (scaled_product ((2 * Zpos m + 1) * 2 ^ s) (e - 1 - s) c ltac:(lia) Hpow) as [Shi _].
  cbv zeta in Slo, Shi.
  set (lo := (lower_boundary m e s * cp_f c + 2 ^ 63) / 2 ^ 64) in *.
  set (hi := ((2 * Zpos m + 1) * 2 ^ s * cp_f c + 2 ^ 63) / 2 ^ 64) in *.
  intros Hgen. rewrite !u64_id in Hgen by lia.
  apply (grisu2_digit_gen_spec (lo + 1) (hi - 1) (- (e - 1 - s + cp_e c + 64))) in Hgen
    as [Hnum Hwithin]; [|lia|lia|lia|lia|done|done|cbn; lia].
  split; [done|].
  destruct (unscale (lo + 1) (hi - 1) (- (e - 1 - s + cp_e c + 64)) (dec_value buf) (k - - cp_k c) (cp_k c)
    (inject_Z (lower_quarters m e) * two ^ (e - 2)) (inject_Z (4 * Zpos m + 2) * two ^ (e - 2)))
    as [Hlow Hupp]; [lia|done| | |].
  - rewrite Z.opp_involutive, <- (lower_boundary_quarters m e s) by lia. done.
  - rewrite Z.opp_involutive, <- (upper_quarters m e s) by lia. done.
  - replace (k - - cp_k c - cp_k c) with k in Hlow, Hupp by lia. apply decimal_rounds_to_intro; [lia|done..].
Qed.

Lemma dec_value_from_bounds a s :
  sforall is_digit s = true →
  a * 10 ^ Z.of_nat (String.length s) <= dec_value_from a s < (a + 1) * 10 ^ Z.of_nat (String.length s).
Proof.
  revert a. induction s as [|c s IH]; intros a; cbn [sforall dec_value_from String.length]; [cbn; lia|].
  intros [Hc Hs]%andb_true_iff. pose proof (digit_val_range c Hc).
  rewrite Nat2Z.inj_succ, Z.pow_succ_r by lia. specialize (IH (10 * a + digit_val c) Hs).
  assert (0 < 10 ^ Z.of_nat (String.length s)) by (apply Z.pow_pos_nonneg; lia). nia.
Qed.

Lemma numeral_bounds s :
  numeral s → 10 ^ (Z.of_nat (String.length s) - 1) <= dec_value s < 10 ^ Z.of_nat (String.length s).
Proof.
  intros [Hd Hc]. destruct s as [|c s]; [done|]. cbn [sforall] in Hd. apply andb_true_iff in Hd as [Hc1 Hd].
  pose proof (digit_val_range c Hc1) as Hr. cbn [String.length].
  replace (Z.of_nat (S (String.length s)) - 1) with (Z.of_nat (String.length s)) by lia.
  rewrite Nat2Z.inj_succ. unfold dec_value. cbn [dec_value_from]. rewrite Z.mul_0_r, Z.add_0_l.
  pose proof (dec_value_from_bounds (digit_val c) s Hd) as Hb.
  assert (0 < 10 ^ Z.of_nat (String.length s)) by (apply Z.pow_pos_nonneg; lia).
  rewrite Z.pow_succ_r by lia. nia.
Qed.

(** Reading the digits back gives the number. *)
Lemma grisu2_reads_back neg m e buf k :
  bounded 53 1024 m e = true → grisu2 m e = (buf, k) →
  dbl_of_dec neg (dec_value buf) k = S754_finite neg m e.
Proof.
  intros Hm Hg. destruct (grisu2_interval m e buf k Hm Hg) as [Hnum Hr].
  apply dbl_of_dec_nearest; [done| |done].
  pose proof (numeral_bounds buf Hnum) as [Hlo _].
  destruct buf as [|c buf]; [by destruct Hnum|]. cbn [String.length] in Hlo.
  assert (0 < 10 ^ (Z.of_nat (S (String.length buf)) - 1)) by (apply Z.pow_pos_nonneg; lia). lia.
Qed.

(** The exponent of the first digit has at most three digits. *)
Lemma grisu2_magnitude m e buf k :
  bounded 53 1024 m e = true → grisu2 m e = (buf, k) →
  -400 < Z.of_nat (String.length buf) + k <= 400.
Proof.
  intros Hm Hg. destruct (grisu2_interval m e buf k Hm Hg) as [Hnum [[Hlo Hhi] _]].
  destruct (bounded_inv m e Hm) as (He & Hm53 & _).
  pose proof (numeral_bounds buf Hnum) as [Hd1 Hd2].
  assert (1 <= Z.of_nat (String.length buf)) as Hlen by (destruct buf; [by destruct Hnum|cbn; lia]).
  set (l := Z.of_nat (String.length buf)) in *. set (D := dec_value buf) in *.
  set (a := Z.max k 0) in *. set (b := Z.max (- k) 0) in *.
  assert (0 < 10 ^ a) by (apply Z.pow_pos_nonneg; lia).
  assert (0 < 10 ^ b) by (apply Z.pow_pos_nonneg; lia).
  assert (1 <= 2 ^ (e + 1074) <= 2 ^ 2045) as He2.
  { split; [|apply Z.pow_le_mono_r; lia]. assert (0 < 2 ^ (e + 1074)) by (apply Z.pow_pos_nonneg; lia). lia. }
  assert (2 ^ 1074 < 10 ^ 399) as H400 by (vm_compute; reflexivity).
  assert (2 ^ 54 * 2 ^ 2045 <= 10 ^ 400 * 2 ^ 1074) as H400' by (vm_compute; discriminate).
  split.
  - assert (10 ^ b < 10 ^ (400 + l + a)) as Hlt.
    { rewrite !Z.pow_add_r by lia. nia. }
    apply Z.pow_lt_mono_r_iff in Hlt; lia.
  - assert (10 ^ (l - 1 + a) < 10 ^ (400 + b)) as Hlt.
    { rewrite !Z.pow_add_r by lia. nia. }
    apply Z.pow_lt_mono_r_iff in Hlt; lia.
Qed.
