(* ===== verification/JsonDump.v ===== *)
(** The serializer of the JSON library ([detail::serializer],
    include/nlohmann/json.hpp) as [json::dump()] calls it: no pretty printing,
    no ASCII escaping, strict error handling. *)

From S2P Require Import Prelude Decimal StdMap Doubles Exceptions JsonValue JsonDtoa.

Local Open Scope Z_scope.

(** ** UTF-8 decoding *)

Definition utf8d : list Z := [
  0; 0; 0; 0; 0; 0; 0; 0; 0; 0; 0; 0; 0; 0; 0; 0; 0; 0; 0; 0; 0; 0; 0; 0; 0; 0; 0; 0; 0; 0; 0; 0;
  0; 0; 0; 0; 0; 0; 0; 0; 0; 0; 0; 0; 0; 0; 0; 0; 0; 0; 0; 0; 0; 0; 0; 0; 0; 0; 0; 0; 0; 0; 0; 0;
  0; 0; 0; 0; 0; 0; 0; 0; 0; 0; 0; 0; 0; 0; 0; 0; 0; 0; 0; 0; 0; 0; 0; 0; 0; 0; 0; 0; 0; 0; 0; 0;
  0; 0; 0; 0; 0; 0; 0; 0; 0; 0; 0; 0; 0; 0; 0; 0; 0; 0; 0; 0; 0; 0; 0; 0; 0; 0; 0; 0; 0; 0; 0; 0;
  1; 1; 1; 1; 1; 1; 1; 1; 1; 1; 1; 1; 1; 1; 1; 1; 9; 9; 9; 9; 9; 9; 9; 9; 9; 9; 9; 9; 9; 9; 9; 9;
  7; 7; 7; 7; 7; 7; 7; 7; 7; 7; 7; 7; 7; 7; 7; 7; 7; 7; 7; 7; 7; 7; 7; 7; 7; 7; 7; 7; 7; 7; 7; 7;
  8; 8; 2; 2; 2; 2; 2; 2; 2; 2; 2; 2; 2; 2; 2; 2; 2; 2; 2; 2; 2; 2; 2; 2; 2; 2; 2; 2; 2; 2; 2; 2;
  10; 3; 3; 3; 3; 3; 3; 3; 3; 3; 3; 3; 3; 4; 3; 3;
  11; 6; 6; 6; 5; 8; 8; 8; 8; 8; 8; 8; 8; 8; 8; 8;
  0; 1; 2; 3; 5; 8; 7; 1; 1; 1; 4; 6; 1; 1; 1; 1;
  1; 1; 1; 1; 1; 1; 1; 1; 1; 1; 1; 1; 1; 1; 1; 1; 1; 0; 1; 1; 1; 1; 1; 0; 1; 0; 1; 1; 1; 1; 1; 1;
  1; 2; 1; 1; 1; 1; 1; 2; 1; 2; 1; 1; 1; 1; 1; 1; 1; 1; 1; 1; 1; 1; 1; 2; 1; 1; 1; 1; 1; 1; 1; 1;
  1; 2; 1; 1; 1; 1; 1; 1; 1; 2; 1; 1; 1; 1; 1; 1; 1; 1; 1; 1; 1; 1; 1; 3; 1; 3; 1; 1; 1; 1; 1; 1;
  1; 3; 1; 1; 1; 1; 1; 3; 1; 3; 1; 1; 1; 1; 1; 1; 1; 3; 1; 1; 1; 1; 1; 1; 1; 1; 1; 1; 1; 1; 1; 1
].

Definition UTF8_ACCEPT : Z := 0.
Definition UTF8_REJECT : Z := 1.

(** [decode]: the new state and code point. *)
Definition decode (state codep byte : Z) : Z * Z :=
  let type := nth (Z.to_nat byte) utf8d 0 in
  let codep := if state =? UTF8_ACCEPT
               then Z.land (Z.shiftr 0xff type) byte
               else wrap_u 32 (Z.lor (Z.land byte 0x3f) (Z.shiftl codep 6)) in
  let index := 256 + state * 16 + type in
  (nth (Z.to_nat index) utf8d 0, codep).

(** ** Strings *)

Definition hex_digit_lower (d : Z) : ascii :=
  if d <? 10 then char_of (48 + d) else char_of (87 + d).

(** "\u%04x" of a code point below 0x20. *)
Definition escape_u (n : Z) : string :=
  "\u" +:+ String (hex_digit_lower ((n / 4096) `mod` 16))
    (String (hex_digit_lower ((n / 256) `mod` 16))
      (String (hex_digit_lower ((n / 16) `mod` 16))
        (String (hex_digit_lower (n `mod` 16)) EmptyString))).

Example escape_u_example : escape_u 31 = "\u001f"%string.
Proof. reflexivity. Qed.

(** Two uppercase hexadecimal digits. *)
Definition nibble_to_hex (d : Z) : ascii :=
  if d <? 10 then char_of (48 + d) else char_of (55 + d).
Definition hex_bytes (byte : Z) : string :=
  String (nibble_to_hex (byte / 16)) (String (nibble_to_hex (byte `mod` 16)) EmptyString).

(** What is written when byte [c] completes code point [codepoint]. *)
Definition escape_codepoint (codepoint : Z) (c : ascii) : string :=
  if codepoint =? 0x08 then "\b"
  else if codepoint =? 0x09 then "\t"
  else if codepoint =? 0x0a then "\n"
  else if codepoint =? 0x0c then "\f"
  else if codepoint =? 0x0d then "\r"
  else if codepoint =? 0x22 then String "\" DQ
  else if codepoint =? 0x5c then "\\"
  else if codepoint <=? 0x1f then escape_u codepoint
  else String c EmptyString.

(** The loop of [dump_escaped] from byte index [i]; the buffer it fills is
    flushed to the output before it can overflow, so the model appends to the
    output directly.  [last] is the last byte seen. *)
Fixpoint dump_escaped_loop (s : string) (i state codepoint : Z) (last : Z) (out : string)
    : result exn string :=
  match s with
  | EmptyString =>
      if state =? UTF8_ACCEPT then Ok out
      else Throw (type_error_create 316
             ("incomplete UTF-8 string; last byte: 0x" +:+ hex_bytes last))
  | String c s' =>
      let byte := byte_of c in
      let '(state, codepoint) := decode state codepoint byte in
      if state =? UTF8_ACCEPT then
        dump_escaped_loop s' (i + 1) state codepoint byte
          (out +:+ escape_codepoint codepoint c)
      else if state =? UTF8_REJECT then
        Throw (type_error_create 316
          ("invalid UTF-8 byte at index " +:+ to_string i +:+ ": 0x" +:+ hex_bytes byte))
      else dump_escaped_loop s' (i + 1) state codepoint byte (snoc out c)
  end.
Definition dump_escaped (s : string) : result exn string :=
  dump_escaped_loop s 0 UTF8_ACCEPT 0 0 EmptyString.

(** ** Integers *)

(** [digits_to_99[i]] *)
Definition digits_to_99 (i : Z) : ascii * ascii := (digit_char (i / 10), digit_char (i `mod` 10)).

(** The buffer is filled from its end, two digits at a time. *)
Fixpoint dump_digits (fuel : nat) (abs_value : Z) (buf : string) : string :=
  match fuel with
  | O => buf
  | S fuel' =>
      if 100 <=? abs_value then
        let '(hi, lo) := digits_to_99 (abs_value `mod` 100) in
        dump_digits fuel' (abs_value / 100) (String hi (String lo buf))
      else if 10 <=? abs_value then
        let '(hi, lo) := digits_to_99 abs_value in String hi (String lo buf)
      else String (digit_char abs_value) buf
  end.

(** [remove_sign]: [-(x + 1)] then [+ 1], in [uint64_t]. *)
Definition remove_sign (x : Z) : Z := wrap_u 64 (wrap_u 64 (- (x + 1)) + 1).

Definition dump_integer (x : Z) : string :=
  if x =? 0 then "0"
  else if x <? 0 then String "-" (dump_digits 10 (remove_sign x) EmptyString)
  else dump_digits 10 x EmptyString.

(** [dump_float] *)
Definition dump_float (d : double) : string :=
  if dbl_isfinite d then to_chars d else "null".

(** ** Values *)

Definition dump_string (s : string) : result exn string :=
  e ← dump_escaped s; mret (DQ +:+ e +:+ DQ).

Fixpoint json_dump (j : json) : result exn string :=
  match j with
  | JObject [] => Ok "{}"%string
  | JObject fs =>
      body ← (fix fields (l : list (string * json)) : result exn string :=
        match l with
        | [] => Ok EmptyString
        | (k, v) :: l' =>
            key ← dump_string k;
            val ← json_dump v;
            rest ← fields l';
            mret (key +:+ ":" +:+ val +:+ (if l' is [] then "" else ",")%string +:+ rest)
        end) fs;
      mret ("{" +:+ body +:+ "}")
  | JArray [] => Ok "[]"%string
  | JArray l =>
      body ← (fix items (l : list json) : result exn string :=
        match l with
        | [] => Ok EmptyString
        | v :: l' =>
            val ← json_dump v;
            rest ← items l';
            mret (val +:+ (if l' is [] then "" else ",")%string +:+ rest)
        end) l;
      mret ("[" +:+ body +:+ "]")
  | JString s => dump_string s
  | JBool b => Ok (if b then "true" else "false")%string
  | JInteger n => Ok (dump_integer n)
  | JUnsigned n => Ok (dump_integer n)
  | JFloat d => Ok (dump_float d)
  | JNull => Ok "null"%string
  end.

Example json_dump_example :
  json_dump (JObject [("a", JArray [JInteger (-12); JFloat (dbl_of_dec false 5 (-1)); JNull]);
                      ("k", JString (String "010" (bq "`x\")))]) =
  Ok (bq "{`a`:[-12,0.5,null],`k`:`\n\`x\\`}").
Proof. by vm_compute. Qed.

Example json_dump_invalid :
  match json_dump (JString (String "a" (String "255" EmptyString))) with
  | Throw e => what e = "[json.exception.type_error.316] invalid UTF-8 byte at index 1: 0xFF"%string
  | Ok _ => False
  end.
Proof. by vm_compute. Qed.
