(* ===== verification/JsonPointer.v ===== *)
(** JSON pointers (RFC 6901): the text of a pointer taken apart into reference
    tokens and put together again, and the ways to follow one: [at], which
    checks, [operator[]], which creates what is missing, and [contains].

    A reference into a document is the [path] to the value
    ([JsonParser.json_at], [json_update]). *)

From S2P Require Import Prelude Decimal StdMap Exceptions JsonValue JsonParser.

Local Open Scope string_scope.
Local Open Scope list_scope.

(** ** Escapes *)

Section replace.
Context (f t : string).

(** The loop of [replace_substring], with the result of the last [find]. *)
Fixpoint replace_loop (fuel : nat) (s : string) (pos : option nat) : string :=
  match fuel, pos with
  | S fuel', Some pos =>
      let s := substring 0 pos s +:+ t +:+ substring (pos + String.length f) (String.length s) s in
      replace_loop fuel' s (String.index (pos + String.length t) f s)
  | _, _ => s
  end.

Definition replace_substring (s : string) : string :=
  replace_loop (S (String.length s)) s (String.index 0 f s).
End replace.

Definition escape (s : string) : string :=
  replace_substring "/" "~1" (replace_substring "~" "~0" s).

Definition unescape (s : string) : string :=
  replace_substring "~0" "~" (replace_substring "~1" "/" s).

(** ** The tokens *)

(** [parse_error::create] with a byte, zero if there is none. *)
Definition parse_error_at (id : Z) (byte : Z) (what_arg : string) : exn :=
  mk_exn (json_parse_error id)
    (c_str (exception_name "parse_error" id +:+ "parse error" +:+
            (if (byte =? 0)%Z then EmptyString else " at byte " +:+ to_string byte) +:+ ": " +:+ what_arg)).

(** Every [~] is followed by [0] or [1]. *)
Fixpoint properly_escaped (token : string) : bool :=
  match token with
  | EmptyString => true
  | String c rest =>
      (if Ascii.eqb c "~" then
         match rest with
         | String d _ => Ascii.eqb d "0" || Ascii.eqb d "1"
         | EmptyString => false
         end
       else true) && properly_escaped rest
  end.

(** The loop of [split]: [start] is the beginning of the next token. *)
Fixpoint split_loop (fuel : nat) (reference_string : string) (start : nat) : result exn (list string) :=
  match fuel with
  | O => Ok []
  | S fuel' =>
      let slash := String.index start "/" reference_string in
      let end_ := default (String.length reference_string) slash in
      let reference_token := substring start (end_ - start) reference_string in
      if properly_escaped reference_token then
        rest ← (match slash with
                | Some slash => split_loop fuel' reference_string (slash + 1)
                | None => Ok []
                end);
        mret (unescape reference_token :: rest)
      else Throw (parse_error_at 108 0 "escape character '~' must be followed with '0' or '1'")
  end.

Definition split (reference_string : string) : result exn (list string) :=
  match reference_string with
  | EmptyString => Ok []
  | String c _ =>
      if Ascii.eqb c "/" then split_loop (String.length reference_string) reference_string 1
      else Throw (parse_error_at 107 1
             ("JSON pointer must be empty or begin with '/' - was: '" +:+ reference_string +:+ "'"))
  end.

(** [json_pointer]: its reference tokens. *)
Definition json_pointer : Type := list string.

(** [json_pointer::to_string] *)
Definition pointer_string (ptr : json_pointer) : string :=
  fold_left (λ a b, a +:+ "/" +:+ escape b) ptr EmptyString.

Definition no_parent : exn := out_of_range_create 405 "JSON pointer has no parent".

Definition pointer_top (ptr : json_pointer) : result exn json_pointer :=
  match ptr with [] => Throw no_parent | token :: _ => Ok [token] end.
Definition pointer_back (ptr : json_pointer) : result exn string :=
  match list.last ptr with None => Throw no_parent | Some token => Ok token end.
Definition pointer_pop_back (ptr : json_pointer) : result exn json_pointer :=
  match ptr with [] => Throw no_parent | _ => Ok (removelast ptr) end.
Definition parent_pointer (ptr : json_pointer) : json_pointer := removelast ptr.

(** ** Array indices *)

(** The digits [strtoull] reads; [array_index] calls it with a text that begins
    with a digit or has a single character, so it meets no sign or space in
    front of a digit. *)
Fixpoint leading_digits (s : string) : string :=
  match s with
  | String c s' => if is_digit c then String c (leading_digits s') else EmptyString
  | EmptyString => EmptyString
  end.

Definition first_is (p : ascii → bool) (s : string) : bool :=
  match s with String c _ => p c | EmptyString => false end.

Definition array_index (s : string) : result exn Z :=
  let long := (1 <? String.length s)%nat in
  if long && first_is (Ascii.eqb "0") s then
    Throw (parse_error_at 106 0 ("array index '" +:+ s +:+ "' must not begin with '0'"))
  else if long && negb (first_is (λ c, (49 <=? byte_of c)%Z && (byte_of c <=? 57)%Z) s) then
    Throw (parse_error_at 109 0 ("array index '" +:+ s +:+ "' is not a number"))
  else
    let digits := leading_digits s in
    let res := dec_value digits in
    if is_empty digits || (2 ^ 64 - 1 <? res)%Z || negb (String.length digits =? String.length s)%nat then
      Throw (out_of_range_create 404 ("unresolved reference token '" +:+ s +:+ "'"))
    else if (2 ^ 64 - 1 <=? res)%Z then
      Throw (out_of_range_create 410 ("array index " +:+ s +:+ " exceeds size_type"))
    else Ok res.

(** ** Following a pointer *)

Definition unresolved (token : string) : exn :=
  out_of_range_create 404 ("unresolved reference token '" +:+ token +:+ "'").
Definition index_out_of_range (idx : Z) : exn :=
  out_of_range_create 401 ("array index " +:+ to_string idx +:+ " is out of range").
Definition dash_out_of_range (l : list json) : exn :=
  out_of_range_create 402 ("array index '-' (" +:+ to_string (Z.of_nat (length l)) +:+ ") is out of range").

Definition in_array (idx : Z) (l : list json) : bool := (idx <? Z.of_nat (length l))%Z.

(** [at] of one token: the value and the step to it. *)
Definition at_token (token : string) (j : json) : result exn (step * json) :=
  match j with
  | JObject fs =>
      match om_find token fs with
      | Some v => Ok (Key token, v)
      | None => Throw (out_of_range_create 403 ("key '" +:+ token +:+ "' not found"))
      end
  | JArray l =>
      if String.eqb token "-" then Throw (dash_out_of_range l)
      else
        idx ← array_index token;
        match l !! Z.to_nat idx with
        | Some v => Ok (Idx (Z.to_nat idx), v)
        | None => Throw (index_out_of_range idx)
        end
  | _ => Throw (unresolved token)
  end.

(** [get_checked]: the reference. *)
Fixpoint get_checked (ptr : json_pointer) (j : json) : result exn path :=
  match ptr with
  | [] => Ok []
  | token :: ptr' =>
      '(s, v) ← at_token token j;
      p ← get_checked ptr' v;
      mret (s :: p)
  end.

(** [j.at(ptr)] *)
Definition at_pointer (ptr : json_pointer) (j : json) : result exn json :=
  p ← get_checked ptr j;
  mret (default JNull (json_at p j)).

(** [j.at(ptr) = v] *)
Definition at_assign (ptr : json_pointer) (v : json) (j : json) : result exn json :=
  p ← get_checked ptr j;
  mret (json_update p (λ _, v) j).

(** [operator[]] with an index on an array: filled up with nulls. *)
Definition subscript_array (idx : nat) (l : list json) : list json :=
  l ++ replicate (S idx - length l) JNull.

(** A null value becomes what the token can be used on. *)
Definition null_container (token : string) (j : json) : json :=
  match j with
  | JNull => if sforall is_digit token || String.eqb token "-" then JArray [] else JObject []
  | _ => j
  end.

(** One step of [get_unchecked]: the step, and the value after the subscript. *)
Definition unchecked_token (token : string) (j : json) : result exn (step * json) :=
  match j with
  | JObject fs => Ok (Key token, JObject (om_emplace token JNull fs))
  | JArray l =>
      idx ← (if String.eqb token "-" then Ok (Z.of_nat (length l)) else array_index token);
      mret (Idx (Z.to_nat idx), JArray (subscript_array (Z.to_nat idx) l))
  | _ => Throw (unresolved token)
  end.

(** [get_unchecked] on a value that may be changed: the reference, and the
    value with all that was created, also when a token throws. *)
Fixpoint get_unchecked (ptr : json_pointer) (j : json) : result exn path * json :=
  match ptr with
  | [] => (Ok [], j)
  | token :: ptr' =>
      let j := null_container token j in
      match unchecked_token token j with
      | Throw e => (Throw e, j)
      | Ok (s, j) =>
          let '(r, v) := get_unchecked ptr' (default JNull (json_at [s] j)) in
          (cons s <$> r, json_update [s] (λ _, v) j)
      end
  end.

(** [j[ptr] = v] *)
Definition subscript_assign (ptr : json_pointer) (v : json) (j : json) : result exn unit * json :=
  match get_unchecked ptr j with
  | (Ok p, j) => (Ok tt, json_update p (λ _, v) j)
  | (Throw e, j) => (Throw e, j)
  end.

(** [contains] *)
Definition plausible_index (token : string) : bool :=
  match token with
  | EmptyString => true
  | String c EmptyString => is_digit c
  | String c rest => (49 <=? byte_of c)%Z && (byte_of c <=? 57)%Z && sforall is_digit rest
  end.

Fixpoint contains (ptr : json_pointer) (j : json) : result exn bool :=
  match ptr with
  | [] => Ok true
  | token :: ptr' =>
      match j with
      | JObject fs =>
          match om_find token fs with Some v => contains ptr' v | None => Ok false end
      | JArray l =>
          if String.eqb token "-" || negb (plausible_index token) then Ok false
          else
            idx ← array_index token;
            match l !! Z.to_nat idx with Some v => contains ptr' v | None => Ok false end
      | _ => Ok false
      end
  end.

Example pointers :
  split "/a~1b//m~0n/0" = Ok ["a/b"; EmptyString; "m~n"; "0"] ∧
  pointer_string ["a/b"; EmptyString; "m~n"; "0"] = "/a~1b//m~0n/0" ∧
  map (λ s, is_ok (split s)) ["/"; "a"; "/~"; "/~2"; EmptyString] = [true; false; false; false; true] ∧
  map (λ s, is_ok (array_index s)) ["0"; "10"; "01"; "+1"; EmptyString; "-"; "18446744073709551615"] =
    [true; true; false; false; false; false; false] ∧
  subscript_assign ["a"; "1"; "-"] (JBool true) JNull =
    (Ok tt, JObject [("a", JArray [JNull; JArray [JBool true]])]) ∧
  at_pointer ["a"; "0"] (JObject [("a", JArray [JString "x"])]) = Ok (JString "x").
Proof. vm_compute. repeat split; reflexivity. Qed.
