(* ===== verification/JsonPatch.v ===== *)
(** Comparison of JSON values, JSON Patch (RFC 6902): applying one and computing
    one from two values, and JSON Merge Patch (RFC 7396). *)

From S2P Require Import Prelude Decimal StdMap Doubles Exceptions JsonValue JsonParser JsonDump JsonPointer.

Local Open Scope string_scope.
Local Open Scope list_scope.

(** ** [operator==] *)

Definition dbl_eqb : double → double → bool := SFeqb.

(** Numbers of different types are compared after a conversion; an unsigned
    number is converted to the signed type.  A NaN is not equal to itself. *)
Fixpoint json_eq (lhs rhs : json) : bool :=
  match lhs, rhs with
  | JArray l, JArray m =>
      (fix go l m :=
         match l, m with
         | [], [] => true
         | x :: l', y :: m' => json_eq x y && go l' m'
         | _, _ => false
         end) l m
  | JObject fs, JObject gs =>
      (fix go fs gs :=
         match fs, gs with
         | [], [] => true
         | p :: fs', q :: gs' => (String.eqb p.1 q.1 && json_eq p.2 q.2) && go fs' gs'
         | _, _ => false
         end) fs gs
  | JNull, JNull => true
  | JString s, JString t => String.eqb s t
  | JBool a, JBool b => Bool.eqb a b
  | JInteger n, JInteger m => (n =? m)%Z
  | JUnsigned n, JUnsigned m => (n =? m)%Z
  | JFloat d, JFloat e => dbl_eqb d e
  | JInteger n, JFloat e => dbl_eqb (dbl_of_Z n) e
  | JFloat d, JInteger m => dbl_eqb d (dbl_of_Z m)
  | JUnsigned n, JFloat e => dbl_eqb (dbl_of_Z n) e
  | JFloat d, JUnsigned m => dbl_eqb d (dbl_of_Z m)
  | JUnsigned n, JInteger m => (wrap_s 64 n =? m)%Z
  | JInteger n, JUnsigned m => (n =? wrap_s 64 m)%Z
  | _, _ => false
  end.

(** ** [patch_inplace] *)

Inductive patch_operations := op_add | op_remove | op_replace | op_move | op_copy | op_test | op_invalid.

Definition get_op (op : string) : patch_operations :=
  if String.eqb op "add" then op_add
  else if String.eqb op "remove" then op_remove
  else if String.eqb op "replace" then op_replace
  else if String.eqb op "move" then op_move
  else if String.eqb op "copy" then op_copy
  else if String.eqb op "test" then op_test
  else op_invalid.

(** What [operation_add] does to the parent.  For a primitive parent there is
    only an assertion, which the release build leaves out. *)
Definition add_child (last_path : string) (val parent : json) : result exn json :=
  match parent with
  | JNull | JObject _ => subscript_set last_path val parent
  | JArray l =>
      if String.eqb last_path "-" then push_back val parent
      else
        idx ← array_index last_path;
        if (Z.of_nat (length l) <? idx)%Z then Throw (index_out_of_range idx)
        else Ok (JArray (take (Z.to_nat idx) l ++ val :: drop (Z.to_nat idx) l))
  | _ => Ok parent
  end.

(** The parent of a pointer and the last token. *)
Definition split_parent (ptr : json_pointer) : result exn (string * json_pointer) :=
  last_path ← pointer_back ptr;
  ptr ← pointer_pop_back ptr;
  mret (last_path, ptr).

Definition change_at (ptr : json_pointer) (f : json → result exn json) (result : json) : Prelude.result exn json :=
  p ← get_checked ptr result;
  parent ← f (default JNull (json_at p result));
  mret (json_update p (λ _, parent) result).

Definition operation_add (ptr : json_pointer) (val result : json) : Prelude.result exn json :=
  match ptr with
  | [] => Ok val
  | _ =>
      top_pointer ← pointer_top ptr;
      _ ← (if decide (top_pointer = ptr) then Ok [] else get_checked top_pointer result);
      '(last_path, ptr) ← split_parent ptr;
      change_at ptr (add_child last_path val) result
  end.

(** What [operation_remove] does to the parent: a parent without children is
    left alone. *)
Definition remove_child (last_path : string) (parent : json) : result exn json :=
  match parent with
  | JObject fs =>
      match om_find last_path fs with
      | Some _ => Ok (JObject (om_erase last_path fs))
      | None => Throw (out_of_range_create 403 ("key '" +:+ last_path +:+ "' not found"))
      end
  | JArray l =>
      idx ← array_index last_path;
      if in_array idx l then Ok (JArray (take (Z.to_nat idx) l ++ drop (S (Z.to_nat idx)) l))
      else Throw (index_out_of_range idx)
  | _ => Ok parent
  end.

Definition operation_remove (ptr : json_pointer) (result : json) : Prelude.result exn json :=
  '(last_path, ptr) ← split_parent ptr;
  change_at ptr (remove_child last_path) result.

(** A member of an operation. *)
Definition get_value (op member : string) (string_type : bool) (val : list (string * json)) : result exn json :=
  let error_msg := if String.eqb op "op" then "operation" else "operation '" +:+ op +:+ "'" in
  match om_find member val with
  | None => Throw (parse_error_at 105 0 (error_msg +:+ " must have member '" +:+ member +:+ "'"))
  | Some v =>
      if string_type && negb (if v is JString _ then true else false)
      then Throw (parse_error_at 105 0 (error_msg +:+ " must have string member '" +:+ member +:+ "'"))
      else Ok v
  end.

Definition get_text (op member : string) (val : list (string * json)) : result exn string :=
  v ← get_value op member true val; get_string v.

Definition not_operations : exn := parse_error_at 104 0 "JSON patch must be an array of objects".

(** The document is changed in place: what was done before an exception stays. *)
Definition in_place (r : result exn json) (result : json) : Prelude.result exn unit * json :=
  match r with Ok j => (Ok tt, j) | Throw e => (Throw e, result) end.

(** "test"; of the two operands of [==] the document's is evaluated first here,
    which matters only when both throw. *)
Definition operation_test (ptr : json_pointer) (val : list (string * json)) (result : json)
    : Prelude.result exn json :=
  success ←
    match (a ← at_pointer ptr result; v ← get_value "test" "value" false val; mret (json_eq a v)) with
    | Ok success => Ok success
    | Throw e => if exn_kind e is json_out_of_range _ then Ok false else Throw e
    end;
  if success : bool then Ok result
  else
    text ← json_dump (JObject val);
    Throw (mk_exn (json_other_error 501)
             (c_str (exception_name "other_error" 501 +:+ "unsuccessful: " +:+ text))).

Definition patch_operation (op : string) (ptr : json_pointer) (val : list (string * json)) (result : json)
    : Prelude.result exn unit * json :=
  match get_op op with
  | op_add => in_place (v ← get_value "add" "value" false val; operation_add ptr v result) result
  | op_remove => in_place (operation_remove ptr result) result
  | op_replace => in_place (v ← get_value "replace" "value" false val; at_assign ptr v result) result
  | op_move =>
      match (from_path ← get_text "move" "from" val; from_ptr ← split from_path;
             v ← at_pointer from_ptr result; removed ← operation_remove from_ptr result; mret (v, removed)) with
      | Ok (v, removed) => in_place (operation_add ptr v removed) removed
      | Throw e => (Throw e, result)
      end
  | op_copy =>
      in_place (from_path ← get_text "copy" "from" val; from_ptr ← split from_path;
                v ← at_pointer from_ptr result; operation_add ptr v result) result
  | op_test => in_place (operation_test ptr val result) result
  | op_invalid =>
      (Throw (parse_error_at 105 0 ("operation value '" +:+ op +:+ "' is invalid")), result)
  end.

(** One element of the patch. *)
Definition patch_step (val result : json) : Prelude.result exn unit * json :=
  match val with
  | JObject fs =>
      match (op ← get_text "op" "op" fs; path ← get_text op "path" fs; ptr ← split path; mret (op, ptr)) with
      | Ok (op, ptr) => patch_operation op ptr fs result
      | Throw e => (Throw e, result)
      end
  | _ => (Throw not_operations, result)
  end.

Fixpoint patch_steps (vals : list json) (result : json) : Prelude.result exn unit * json :=
  match vals with
  | [] => (Ok tt, result)
  | val :: vals' =>
      match patch_step val result with
      | (Ok _, result) => patch_steps vals' result
      | (Throw e, result) => (Throw e, result)
      end
  end.

Definition patch_inplace (json_patch result : json) : Prelude.result exn unit * json :=
  match json_patch with
  | JArray vals => patch_steps vals result
  | _ => (Throw not_operations, result)
  end.

(** [patch]: on a copy. *)
Definition patch (json_patch j : json) : result exn json :=
  let '(r, result) := patch_inplace json_patch j in
  _ ← r; mret result.

(** ** [diff] *)

Definition same_type (a b : json) : bool :=
  match a, b with
  | JNull, JNull | JObject _, JObject _ | JArray _, JArray _ | JString _, JString _
  | JBool _, JBool _ | JInteger _, JInteger _ | JUnsigned _, JUnsigned _ | JFloat _, JFloat _ => true
  | _, _ => false
  end.

Definition replace_op (path : string) (target : json) : json :=
  JObject [("op", JString "replace"); ("path", JString path); ("value", target)].
Definition remove_op (path : string) : json :=
  JObject [("op", JString "remove"); ("path", JString path)].
Definition add_op (path : string) (value : json) : json :=
  JObject [("op", JString "add"); ("path", JString path); ("value", value)].

Definition index_path (path : string) (i : nat) : string := path +:+ "/" +:+ to_string (Z.of_nat i).
Definition key_path (path key : string) : string := path +:+ "/" +:+ escape key.

(** The elements that only the source has are removed from the last to the
    first, because each is inserted in front of the ones before. *)
Fixpoint remove_rest (path : string) (i : nat) (rest : list json) : list json :=
  match rest with
  | [] => []
  | _ :: rest' => remove_rest path (S i) rest' ++ [remove_op (index_path path i)]
  end.

(** The second pass over an object: the keys that only the target has. *)
Definition added_keys (path : string) (source target : list (string * json)) : list json :=
  flat_map (λ p, match om_find p.1 source with
                 | None => [add_op (key_path path p.1) p.2]
                 | Some _ => []
                 end) target.

Fixpoint diff (source target : json) (path : string) : list json :=
  if json_eq source target then []
  else if negb (same_type source target) then [replace_op path target]
  else
    match source, target with
    | JArray l, JArray m =>
        (fix common (i : nat) (l m : list json) : list json :=
           match l, m with
           | x :: l', y :: m' => diff x y (index_path path i) ++ common (S i) l' m'
           | [], m => map (add_op (path +:+ "/-")) m
           | l, [] => remove_rest path i l
           end) 0%nat l m
    | JObject fs, JObject gs =>
        (fix first_pass (l : list (string * json)) : list json :=
           match l with
           | [] => []
           | p :: l' =>
               (match om_find p.1 gs with
                | Some w => diff p.2 w (key_path path p.1)
                | None => [remove_op (key_path path p.1)]
                end) ++ first_pass l'
           end) fs ++ added_keys path fs gs
    | _, _ => [replace_op path target]
    end.

(** [basic_json::diff(source, target)] *)
Definition diff_json (source target : json) : json := JArray (diff source target EmptyString).

(** ** [merge_patch] *)

Definition is_null (j : json) : bool := match j with JNull => true | _ => false end.

Fixpoint merge_patch (apply_patch j : json) : json :=
  match apply_patch with
  | JObject ps =>
      JObject
        ((fix go (ps fs : list (string * json)) : list (string * json) :=
            match ps with
            | [] => fs
            | p :: ps' =>
                go ps'
                  (if is_null p.2 then om_erase p.1 fs
                   else om_update p.1 (merge_patch p.2) (om_emplace p.1 JNull fs))
            end) ps (if j is JObject fs then fs else []))
  | _ => apply_patch
  end.

Example patches :
  let source := JObject [("a", JArray [JUnsigned 1; JUnsigned 2; JUnsigned 3]); ("b", JNull); ("c/d", JBool true)] in
  let target := JObject [("a", JArray [JUnsigned 1; JString "x"]); ("c/d", JBool false); ("e", JArray [])] in
  diff_json source target =
    JArray [replace_op "/a/1" (JString "x"); remove_op "/a/2"; remove_op "/b";
            replace_op "/c~1d" (JBool false); add_op "/e" (JArray [])] ∧
  patch (diff_json source target) source = Ok target ∧
  merge_patch (JObject [("a", JNull); ("b", JObject [("x", JUnsigned 1); ("y", JNull)])]) source =
    JObject [("b", JObject [("x", JUnsigned 1)]); ("c/d", JBool true)].
Proof. vm_compute. repeat split; reflexivity. Qed.
