(* ===== verification/JsonLexerFacts.v ===== *)
(** The scanner terminates: every token other than the end of input and an
    error consumes at least one byte, and the fuel of each loop is enough. *)

From S2P Require Import Prelude Decimal Doubles FloatRound Exceptions JsonLexer.

Local Open Scope Z_scope.

(** Bytes left to read: those of the input and the one put back. *)
Definition left_of (st : lexer) : nat :=
  String.length (ia st) + (if next_unget st && negb (current st =? eof) then 1 else 0).

(** ** One byte *)

Lemma left_setters :
  (∀ m st, left_of (set_error m st) = left_of st) ∧
  (∀ c st, left_of (add c st) = left_of st) ∧
  (∀ st, left_of (reset st) = left_of st) ∧
  (∀ n st, left_of (set_value_integer n st) = left_of st) ∧
  (∀ n st, left_of (set_value_unsigned n st) = left_of st) ∧
  (∀ d st, left_of (set_value_float d st) = left_of st).
Proof. done. Qed.

(** [get] consumes a byte or is at the end. *)
Lemma get_left st :
  next_unget (get st) = false ∧
  ((current (get st) = eof ∧ left_of (get st) = left_of st) ∨
   (current (get st) ≠ eof ∧ left_of st = S (left_of (get st)))).
Proof.
  unfold get, left_of. destruct (next_unget st).
  - cbn. split; [done|]. destruct (Z.eqb_spec (current st) eof); cbn; [left|right]; split; auto; lia.
  - destruct (ia st) as [|c s]; cbn; [split; [done|left; split; [done|lia]]|].
    split; [done|]. right. pose proof (byte_of_range c). unfold eof. split; lia.
Qed.

Lemma get_unget st : left_of (unget (get st)) = left_of st.
Proof.
  unfold unget, get, left_of. destruct (next_unget st); [done|].
  destruct (ia st) as [|c s]; cbn; [done|].
  pose proof (byte_of_range c). destruct (Z.eqb_spec (byte_of c) eof); unfold eof in *; cbn; lia.
Qed.

(** Programs that only consume. *)
Definition shrinks (st st' : lexer) : Prop :=
  (left_of st' ≤ left_of st)%nat ∧ next_unget st' = false.

Lemma shrinks_trans a b c : shrinks a b → shrinks b c → shrinks a c.
Proof. intros [H1 _] [H2 H]. split; [lia|done]. Qed.

Lemma shrinks_get st : shrinks st (get st).
Proof. destruct (get_left st) as [H [[_ Hl]|[_ Hl]]]; (split; [lia|done]). Qed.

Lemma shrinks_refl st : next_unget st = false → shrinks st st.
Proof. by split. Qed.

(** ** Strings *)

Lemma get_codepoint_shrinks fs cp st :
  next_unget st = false → shrinks st (get_codepoint_from fs cp st).2.
Proof.
  revert cp st. induction fs as [|f fs IH]; intros cp st Hn; cbn; [by apply shrinks_refl|].
  pose proof (shrinks_get st) as Hg. destruct (hex_value _); [|done].
  eapply shrinks_trans; [exact Hg|]. apply IH, Hg.
Qed.

Lemma bytes_in_range_shrinks rs st :
  next_unget st = false → shrinks st (bytes_in_range rs st).2.
Proof.
  revert st. induction rs as [|[lo hi] rs IH]; intros st Hn; cbn; [by apply shrinks_refl|].
  pose proof (shrinks_get st) as Hg. destruct (_ && _); [|exact Hg].
  eapply shrinks_trans; [|apply IH; apply Hg]. exact Hg.
Qed.

Lemma add_codepoint_shrinks cp st : next_unget st = false → shrinks st (add_codepoint cp st).
Proof. intros Hn. unfold add_codepoint. by repeat case_match. Qed.

Lemma get_backslash_u_shrinks st : shrinks st (get_backslash_u st).2.
Proof.
  unfold get_backslash_u. pose proof (shrinks_get st) as Hg. destruct (_ =? 92); [|exact Hg].
  eapply shrinks_trans; [exact Hg|apply shrinks_get].
Qed.

Lemma scan_unicode_escape_shrinks st :
  next_unget st = false → shrinks st (scan_unicode_escape st).2.
Proof.
  intros Hn. unfold scan_unicode_escape, get_codepoint.
  pose proof (get_codepoint_shrinks [12; 8; 4; 0] 0 st Hn) as H1.
  destruct (get_codepoint_from _ _ st) as [cp1 st1]. cbn [snd] in H1.
  destruct (cp1 =? -1); [exact H1|]. destruct (_ && _).
  - pose proof (get_backslash_u_shrinks st1) as H2.
    destruct (get_backslash_u st1) as [[] st2]; cbn [snd] in H2;
      [|exact (shrinks_trans _ _ _ H1 H2)].
    pose proof (get_codepoint_shrinks [12; 8; 4; 0] 0 st2 (proj2 H2)) as H3.
    destruct (get_codepoint_from _ _ st2) as [cp2 st3]. cbn [snd] in H3.
    pose proof (shrinks_trans _ _ _ H1 (shrinks_trans _ _ _ H2 H3)) as H.
    destruct (cp2 =? -1); [exact H|]. destruct (_ && _); [|exact H].
    eapply shrinks_trans; [exact H|]. apply add_codepoint_shrinks, H.
  - destruct (_ && _); [exact H1|].
    eapply shrinks_trans; [exact H1|]. apply add_codepoint_shrinks, H1.
Qed.

Lemma scan_escape_shrinks st : shrinks st (scan_escape st).2.
Proof.
  unfold scan_escape. cbv zeta. pose proof (shrinks_get st) as Hg.
  repeat (case_match; [exact Hg || (eapply shrinks_trans; [exact Hg|apply scan_unicode_escape_shrinks, Hg])|]).
  exact Hg.
Qed.

(** What a scanning function returns: a token the lexer really has, and no
    more to read than before. *)
Definition scanned_token (n : nat) (r : token_type * lexer) : Prop :=
  r.1 ≠ uninitialized ∧ r.1 ≠ literal_or_value ∧ (left_of r.2 ≤ n)%nat.
Definition scanned (n : nat) (r : option (token_type * lexer)) : Prop :=
  ∃ r', r = Some r' ∧ scanned_token n r'.

Lemma scanned_weaken n m r : (n ≤ m)%nat → scanned n r → scanned m r.
Proof. intros Hle (r' & -> & ? & ? & ?). exists r'. repeat split; [done..|lia]. Qed.

Lemma scanned_some n r : scanned_token n r → scanned n (Some r).
Proof. intros Hr. by exists r. Qed.

Lemma scan_string_loop_scanned fuel st :
  (left_of st < fuel)%nat → scanned (left_of st) (scan_string_loop fuel st).
Proof.
  revert st. induction fuel as [|fuel IH]; intros st Hf; [lia|]. cbn [scan_string_loop]. cbv zeta.
  destruct (get_left st) as [Hn Hg].
  assert (Hle : (left_of (get st) ≤ left_of st)%nat) by (destruct Hg as [[]|[]]; lia).
  destruct (Z.eqb_spec (current (get st)) eof) as [He|He]; [by (apply scanned_some; repeat split)|].
  destruct Hg as [[? _]|[_ Hl]]; [done|].
  assert (Hrec : ∀ st', shrinks (get st) st' → scanned (left_of st) (scan_string_loop fuel st')).
  { intros st' [Hs _]. eapply scanned_weaken; [|apply IH]; lia. }
  destruct (_ =? 34); [by (apply scanned_some; repeat split)|].
  destruct (_ =? 92).
  { pose proof (scan_escape_shrinks (get st)) as Hs.
    destruct (scan_escape (get st)) as [[] st']; [by apply Hrec|].
    destruct Hs as [Hs _]. cbn [snd] in Hs. apply scanned_some. repeat split; try done. cbn. lia. }
  destruct (_ <=? 31); [by (apply scanned_some; repeat split)|].
  destruct (_ <=? 127); [by apply Hrec|].
  destruct (utf8_ranges _) as [rs|]; [|by (apply scanned_some; repeat split)].
  unfold next_byte_in_range.
  pose proof (bytes_in_range_shrinks rs (add (current (get st)) (get st)) Hn) as Hs.
  destruct (bytes_in_range _ _) as [[] st']; [by apply Hrec|].
  destruct Hs as [Hs _]. cbn [snd] in Hs. change (left_of (add _ _)) with (left_of (get st)) in Hs.
  apply scanned_some. repeat split; try done. cbn. lia.
Qed.

(** ** Numbers *)

Lemma num_transition_eof s s' : num_transition s eof ≠ NumGoto s'.
Proof. by destruct s. Qed.

Lemma scan_number_done_scanned ty st :
  scanned_token (left_of st) (scan_number_done ty (get st)).
Proof.
  pose proof (get_unget st) as Hl. unfold scan_number_done. cbv zeta.
  repeat case_match; (repeat split; [done..|]); cbn [snd];
    change (left_of (set_value_unsigned _ ?s)) with (left_of s);
    change (left_of (set_value_integer _ ?s)) with (left_of s);
    change (left_of (set_value_float _ ?s)) with (left_of s); lia.
Qed.

Lemma scan_number_loop_scanned fuel s ty st :
  next_unget st = false → (left_of st < fuel)%nat →
  scanned (left_of st) (scan_number_loop fuel s ty st).
Proof.
  revert s ty st. induction fuel as [|fuel IH]; intros s ty st Hn Hf; [lia|].
  cbn [scan_number_loop]. cbv zeta. destruct (get_left st) as [Hn' Hg].
  destruct (num_transition s (current (get st))) as [s'| |msg] eqn:Et.
  - destruct Hg as [[He _]|[_ Hl]]; [by rewrite He in Et; apply num_transition_eof in Et|].
    eapply scanned_weaken; [|apply IH]; [|done|];
      change (left_of (add _ _)) with (left_of (get st)); lia.
  - by apply scanned_some, scan_number_done_scanned.
  - apply scanned_some. repeat split; [done..|]. cbn [snd]. change (left_of (set_error _ _)) with (left_of (get st)).
    destruct Hg as [[]|[]]; lia.
Qed.

(** ** The scanner *)

Lemma left_of_read st : next_unget st = false → left_of st = String.length (ia st).
Proof. intros Hn. unfold left_of. rewrite Hn. cbn. lia. Qed.

Lemma scan_literal_scanned lit t st :
  t ≠ uninitialized → t ≠ literal_or_value → scanned_token (left_of st) (scan_literal lit t st).
Proof.
  intros Ht1 Ht2. revert st. induction lit as [|c lit IH]; intros st; cbn; [by repeat split|].
  destruct (shrinks_get st) as [Hg _]. case_match; [destruct (IH (get st)) as (? & ? & ?); repeat split; [done..|lia]|].
  repeat split; [done..|]. exact Hg.
Qed.

Lemma scan_token_scanned st : next_unget st = false → scanned (left_of st) (scan_token st).
Proof.
  intros Hn. pose proof (left_of_read st Hn) as Hl. unfold scan_token. cbv zeta.
  repeat (case_match; [first [by (apply scanned_some; repeat split) | by apply scanned_some, scan_literal_scanned | idtac]|]);
    [| |by (apply scanned_some; repeat split)].
  - unfold scan_string. cbv zeta. apply (scan_string_loop_scanned _ (reset st)).
    unfold input_fuel. change (left_of (reset st)) with (left_of st).
    change (ia (reset st)) with (ia st). lia.
  - unfold scan_number. cbv zeta. set (st1 := add _ (reset st)).
    apply (scan_number_loop_scanned _ _ _ st1); [done|]. change (left_of st1) with (left_of st).
    unfold input_fuel. change (ia (reset st)) with (ia st). lia.
Qed.

Lemma is_whitespace_eof : is_whitespace eof = false.
Proof. done. Qed.

(** Whitespace is skipped up to a byte that is none, or the end. *)
Lemma skip_whitespace_loop_spec fuel st :
  (left_of st < fuel)%nat →
  ∃ st', skip_whitespace_loop fuel st = Some st' ∧
  next_unget st' = false ∧ is_whitespace (current st') = false ∧
  ((current st' = eof ∧ left_of st' ≤ left_of st)%nat ∨ (left_of st' < left_of st)%nat).
Proof.
  revert st. induction fuel as [|fuel IH]; intros st Hf; [lia|]. cbn [skip_whitespace_loop]. cbv zeta.
  destruct (get_left st) as [Hn Hg]. destruct (is_whitespace (current (get st))) eqn:Ew.
  - destruct Hg as [[He _]|[_ Hl]]; [by rewrite He in Ew|].
    destruct (IH (get st)) as (st' & E & H1 & H2 & H3); [lia|].
    exists st'. split; [done|]. split; [done|]. split; [done|].
    destruct H3 as [[]|]; [left; split; [done|lia]|right; lia].
  - exists (get st). split; [done|]. split; [done|]. split; [done|]. destruct Hg as [[]|[]]; [left; split; [done|lia]|right; lia].
Qed.

Lemma input_fuel_left st : (left_of st < input_fuel st)%nat.
Proof. unfold left_of, input_fuel. case_match; lia. Qed.

Lemma skip_bom_left st :
  (left_of (skip_bom st).2 ≤ left_of st)%nat.
Proof.
  unfold skip_bom. cbv zeta. pose proof (shrinks_get st) as H1.
  pose proof (shrinks_trans _ _ _ H1 (shrinks_get (get st))) as H2.
  pose proof (shrinks_trans _ _ _ H2 (shrinks_get (get (get st)))) as H3.
  repeat case_match; cbn [snd]; [apply H3|apply H2|by rewrite get_unget].
Qed.

(** Every token consumes input, except the last. *)
Definition final_token (t : token_type) : bool :=
  match t with end_of_input | parse_error => true | _ => false end.

Lemma scan_progress st :
  ∃ t st', scan st = Some (t, st') ∧
  t ≠ uninitialized ∧ t ≠ literal_or_value ∧ (left_of st' ≤ left_of st)%nat ∧
  (final_token t = false → (left_of st' < left_of st)%nat).
Proof.
  unfold scan.
  set (r := if chars_read_total (position st) =? 0 then skip_bom st else (true, st)).
  assert (Hbom : (left_of r.2 ≤ left_of st)%nat).
  { unfold r. destruct (_ =? 0); [apply skip_bom_left|done]. }
  destruct r as [ok st1]. cbn [snd] in Hbom.
  destruct ok; [|eexists _, _; split; [reflexivity|]; by repeat split].
  destruct (skip_whitespace_loop_spec _ _ (input_fuel_left st1)) as (st2 & E2 & Hn & _ & Hw).
  unfold skip_whitespace. rewrite E2. cbn [mbind option_bind].
  destruct (scan_token_scanned _ Hn) as ([t st'] & E & Ht1 & Ht2 & Hl).
  exists t, st'. split; [done|]. cbn [fst snd] in *. split; [done|]. split; [done|].
  destruct Hw as [[He Hw]|Hw]; (split; [lia|]); [|intros _; lia].
  intros Hf. unfold scan_token in E. rewrite He in E. cbn in E. by injection E as <- <-.
Qed.

(** ** The values of number tokens *)

Lemma span_digits_digits s : sforall is_digit (span_digits s).1 = true.
Proof.
  induction s as [|c s IH]; [done|]. cbn [span_digits]. destruct (is_digit c) eqn:Hc; [|done].
  destruct (span_digits s) as [d r]. cbn in *. by rewrite Hc.
Qed.

Lemma strtoull_range s n : strtoull s = Some n → in_u 64 n.
Proof.
  unfold strtoull. cbv zeta. pose proof (dec_value_from_nonneg 0 _ ltac:(lia) (span_digits_digits s)) as Hd.
  fold (dec_value (span_digits s).1) in Hd. case_match; [|done]. intros [= <-]. unfold in_u. b2p. lia.
Qed.

Lemma strtoll_range s n : strtoll s = Some n → in_s 64 n.
Proof.
  unfold strtoll. destruct (split_sign s) as [neg t]. cbv zeta. case_match; [|done].
  intros [= <-]. unfold in_s. b2p. lia.
Qed.

(** The number a token carries is in the range of its type. *)
Definition in_token_range (r : token_type * lexer) : Prop :=
  match r.1 with
  | value_integer => in_s 64 (value_integer_ r.2)
  | value_unsigned => in_u 64 (value_unsigned_ r.2)
  | value_float => valid_binary 53 1024 (value_float_ r.2) = true
  | _ => True
  end.

Abbreviation ranged r := (∀ r', r = Some r' → in_token_range r').

Lemma ranged_some r : in_token_range r → ranged (Some r).
Proof. by intros Hr r' [= <-]. Qed.

Lemma scan_string_loop_range fuel st : ranged (scan_string_loop fuel st).
Proof.
  revert st. induction fuel as [|fuel IH]; intros st; [done|]. cbn [scan_string_loop]. cbv zeta.
  destruct (_ =? eof); [by apply ranged_some|]. destruct (_ =? 34); [by apply ranged_some|].
  destruct (_ =? 92); [destruct (scan_escape _) as [[] ?]; [apply IH|by apply ranged_some]|].
  destruct (_ <=? 31); [by apply ranged_some|]. destruct (_ <=? 127); [apply IH|].
  destruct (utf8_ranges _) as [rs|]; [|by apply ranged_some].
  destruct (next_byte_in_range _ _) as [[] ?]; [apply IH|by apply ranged_some].
Qed.

Lemma strtod_valid s : valid_binary 53 1024 (strtod s) = true.
Proof. unfold strtod. repeat case_match; apply dbl_of_dec_valid. Qed.

Lemma scan_number_done_range ty st : in_token_range (scan_number_done ty st).
Proof.
  unfold scan_number_done. cbv zeta. destruct ty; try apply strtod_valid.
  - destruct (strtoull _) eqn:E; [by apply strtoull_range in E|apply strtod_valid].
  - destruct (strtoll _) eqn:E; [by apply strtoll_range in E|apply strtod_valid].
Qed.

Lemma scan_number_loop_range fuel s ty st : ranged (scan_number_loop fuel s ty st).
Proof.
  revert s ty st. induction fuel as [|fuel IH]; intros s ty st; [done|]. cbn [scan_number_loop].
  cbv zeta. destruct (num_transition _ _); [apply IH|by apply ranged_some, scan_number_done_range|by apply ranged_some].
Qed.

Lemma scan_literal_range lit t st :
  (∀ st', in_token_range (t, st')) → in_token_range (scan_literal lit t st).
Proof.
  intros Ht. revert st. induction lit as [|c lit IH]; intros st; [apply Ht|]. cbn [scan_literal].
  cbv zeta. destruct (_ =? _); [apply IH|done].
Qed.

Lemma scan_token_range st : ranged (scan_token st).
Proof.
  unfold scan_token. cbv zeta.
  repeat (case_match; [first [by apply ranged_some | by apply ranged_some, scan_literal_range
    | apply scan_string_loop_range | apply scan_number_loop_range]|]). by apply ranged_some.
Qed.

Lemma scan_range st : ranged (scan st).
Proof.
  unfold scan. destruct (if chars_read_total (position st) =? 0 then skip_bom st else (true, st)) as [[] st1];
    [|by apply ranged_some].
  destruct (skip_whitespace st1) as [st2|]; [apply scan_token_range|done].
Qed.
