(* ===== verification/JsonParserFacts.v ===== *)
(** The parser terminates on every input: each pass through its loop consumes
    a token, so the fuel is never exhausted. *)

From S2P Require Import Prelude Decimal StdMap Doubles Exceptions JsonValue JsonLexer.
From S2P Require Import JsonLexerFacts JsonParser.

(** What is left to do: the bytes, and the token at hand. *)
Definition measure (p : parser) : nat :=
  left_of (m_lexer p) + (if final_token (last_token p) then 0 else 1).

Lemma measure_get_token p : ∃ p', get_token p = Some p' ∧ measure p' ≤ left_of (m_lexer p).
Proof.
  unfold measure, get_token. destruct (scan_progress (m_lexer p)) as (t & l & -> & _ & _ & Hl & Hf).
  exists (mk_parser l t). split; [done|]. cbn. destruct (final_token t); [lia|].
  specialize (Hf eq_refl). lia.
Qed.

(** So there always is a next token. *)
Definition token_after (p : parser) : parser := default p (get_token p).

Lemma get_token_after p : get_token p = Some (token_after p).
Proof. unfold token_after. by destruct (measure_get_token p) as (p' & -> & _). Qed.
Lemma next_token_after p k : next_token p k = k (token_after p).
Proof. unfold next_token. by rewrite get_token_after. Qed.

Lemma left_le_measure p : left_of (m_lexer p) ≤ measure p.
Proof. unfold measure. lia. Qed.

Lemma left_lt_measure p : final_token (last_token p) = false → left_of (m_lexer p) < measure p.
Proof. unfold measure. intros ->. lia. Qed.

(** The next token is there, and nothing is read twice. *)
Lemma next_token_ind (P : flow → Prop) p k :
  (∀ p', measure p' ≤ left_of (m_lexer p) → left_of (m_lexer p') ≤ left_of (m_lexer p) → P (k p')) →
  P (next_token p k).
Proof.
  intros Hk. unfold next_token. destruct (measure_get_token p) as (p' & -> & Hm).
  pose proof (left_le_measure p'). apply Hk; lia.
Qed.

(** A pass goes on only after consuming something, and is at a closing bracket
    when it skips to the evaluation of the state; it never hangs. *)
Definition proceeds (p : parser) (f : flow) : Prop :=
  match f with
  | Continue skip _ p' _ =>
      measure p' < measure p ∧ (skip = true → final_token (last_token p') = false)
  | ValueDone _ _ _ | Hang => False
  | _ => True
  end.

Lemma parse_key_proceeds states p b p0 :
  left_of (m_lexer p) < measure p0 → proceeds p0 (parse_key states p b).
Proof.
  intros Hp. unfold parse_key. case_decide; [|done]. cbv zeta. apply next_token_ind. intros p1 Hm Hl.
  case_decide; [|done]. apply next_token_ind. intros p2 Hm2 _. split; [lia|done].
Qed.

Lemma evaluate_state_proceeds states p b p0 :
  left_of (m_lexer p) < measure p0 → proceeds p0 (evaluate_state states p b).
Proof.
  intros Hp. unfold evaluate_state. destruct states as [|[] outer]; [done|..];
    apply next_token_ind; intros p1 Hm Hl.
  - case_decide; [apply next_token_ind; intros p2 Hm2 _; split; [lia|done]|].
    case_decide as Hd; [|done]. split; [lia|]. by rewrite Hd.
  - case_decide; [apply next_token_ind; intros p2 Hm2 Hl2; apply parse_key_proceeds; lia|].
    case_decide as Hd; [|done]. split; [lia|]. by rewrite Hd.
Qed.

(** A value begins with a token that is not the last. *)
Definition value_step (states : list bool) (p : parser) (f : flow) : Prop :=
  match f with
  | ValueDone _ p' _ => left_of (m_lexer p') < measure p
  | f => proceeds p f
  end.

Lemma proceeds_value_step states p f : proceeds p f → value_step states p f.
Proof. by destruct f. Qed.

Lemma parse_value_steps states p b : value_step states p (parse_value states p b).
Proof.
  assert (Hlt : final_token (last_token p) = false → left_of (m_lexer p) < measure p)
    by apply left_lt_measure.
  unfold parse_value. destruct (last_token p) eqn:Et; try done;
    try (specialize (Hlt eq_refl); try exact Hlt); cbv zeta.
  - destruct (dbl_isfinite _); [exact Hlt|done].
  - apply next_token_ind. intros p1 Hm Hl. case_decide; [cbn; lia|]. split; [lia|done].
  - apply next_token_ind. intros p1 Hm Hl. case_decide; [cbn; lia|].
    apply proceeds_value_step, parse_key_proceeds. lia.
  - by case_match.
Qed.

Lemma sax_iteration_proceeds skip states p b :
  (skip = true → final_token (last_token p) = false) →
  proceeds p (sax_iteration skip states p b).
Proof.
  intros Hskip. unfold sax_iteration. destruct skip.
  { apply evaluate_state_proceeds, left_lt_measure, Hskip. done. }
  pose proof (parse_value_steps states p b) as Hv.
  destruct (parse_value states p b); try exact Hv. by apply evaluate_state_proceeds.
Qed.

Lemma sax_loop_total fuel skip states p b :
  measure p < fuel → (skip = true → final_token (last_token p) = false) →
  is_Some (sax_loop fuel skip states p b).
Proof.
  revert skip states p b. induction fuel as [|fuel IH]; intros skip states p b Hf Hs; [lia|].
  cbn. pose proof (sax_iteration_proceeds skip states p b Hs) as Hp.
  destruct (sax_iteration skip states p b) as [skip' states' p' b'| | | |]; [|done|eauto..|done].
  destruct Hp as [Hlt Hs']. apply IH; [lia|done].
Qed.

(** C16. The parser terminates on every input: it returns a value or throws.
    No loop of it, of the parser as of the scanner below it (strings, numbers,
    whitespace), runs more often than there are bytes to read. *)
Theorem parser_parse_total strict input : ∃ r, parser_parse strict input = Some r.
Proof.
  unfold parser_parse. destruct (measure_get_token (mk_parser (lexer_init input) uninitialized))
    as (p & Ep & Hm). unfold parser_init. rewrite Ep. cbn [mbind option_bind].
  change (left_of _) with (String.length input + 0) in Hm.
  destruct (sax_loop_total (parse_fuel input) false [] p builder_init) as [r Hr];
    [unfold parse_fuel; lia|done|].
  unfold sax_parse_internal. rewrite Hr. cbn [mbind option_bind].
  destruct r as [[p1 b]|e]; [|by eexists]. destruct strict; [|by eexists].
  destruct (measure_get_token p1) as (p2 & -> & _). by eexists.
Qed.
