(* ===== verification/JsonUtf8.v ===== *)
(** UTF-8 in the JSON library: the table-driven decoder of the serializer and
    the byte ranges of the lexer describe the same set of strings, the lexer
    only produces strings of that set, and so every parsed value can be
    written again. *)

From S2P Require Import Prelude Decimal StdMap Doubles Exceptions JsonValue JsonLexer.
From S2P Require Import JsonParser JsonDtoa JsonDump.

Local Open Scope Z_scope.

(** ** Well-formed strings

    The sequences of the Unicode standard (table 3-7): an ASCII byte, or a lead
    byte followed by continuation bytes in the ranges it allows. *)
Fixpoint tail_of (ranges : list (Z * Z)) (tail : string) : Prop :=
  match ranges, tail with
  | [], EmptyString => True
  | (lo, hi) :: ranges', String c tail' => lo <= byte_of c <= hi ∧ tail_of ranges' tail'
  | _, _ => False
  end.

Inductive utf8 : string → Prop :=
  | utf8_empty : utf8 EmptyString
  | utf8_ascii c s : byte_of c <= 127 → utf8 s → utf8 (String c s)
  | utf8_multi c ranges tail s :
      utf8_ranges (byte_of c) = Some ranges → tail_of ranges tail → utf8 s →
      utf8 (String c (tail +:+ s)).

(** ** The decoder as an automaton *)

Definition dfa_step (state : Z) (c : ascii) : Z := (decode state 0 (byte_of c)).1.
Fixpoint dfa (state : Z) (s : string) : Z :=
  match s with
  | EmptyString => state
  | String c s' => dfa (dfa_step state c) s'
  end.

Lemma dfa_app state s t : dfa state (s +:+ t) = dfa (dfa state s) t.
Proof. revert state. induction s as [|c s IH]; intros state; [done|]. apply IH. Qed.

Lemma dfa_snoc state s c : dfa state (snoc s c) = dfa_step (dfa state s) c.
Proof. revert state. induction s as [|d s IH]; intros state; [done|]. apply IH. Qed.

Lemma decode_state state codep byte : (decode state codep byte).1 = (decode state 0 byte).1.
Proof. done. Qed.

(** All bytes, for checks by computation. *)
Lemma all_bytes (P : ascii → bool) : forallb P all_chars = true → ∀ c, P c = true.
Proof. intros Hall c. apply (proj1 (forallb_forall P all_chars) Hall), list_elem_of_In, all_chars_complete. Qed.

Lemma reject_absorbs c : dfa_step UTF8_REJECT c = UTF8_REJECT.
Proof.
  apply Z.eqb_eq. revert c. apply all_bytes. vm_compute. reflexivity.
Qed.
Lemma dfa_reject s : dfa UTF8_REJECT s = UTF8_REJECT.
Proof. induction s as [|c s IH]; [done|]. cbn [dfa]. by rewrite reject_absorbs. Qed.

(** The serializer accepts what the automaton accepts. *)
Lemma dump_escaped_loop_ok s i state codep last out :
  is_ok (dump_escaped_loop s i state codep last out) = (dfa state s =? UTF8_ACCEPT).
Proof.
  revert i state codep last out. induction s as [|c s IH]; intros i state codep last out;
    cbn [dump_escaped_loop dfa].
  { by destruct (state =? UTF8_ACCEPT). }
  unfold dfa_step. rewrite <-(decode_state state codep). cbv zeta.
  destruct (decode state codep (byte_of c)) as [state' codep']. cbn [fst].
  destruct (state' =? UTF8_ACCEPT) eqn:E0; [apply IH|].
  destruct (Z.eqb_spec state' UTF8_REJECT) as [->|]; [by rewrite dfa_reject|apply IH].
Qed.

Lemma dump_escaped_ok s : is_ok (dump_escaped s) = (dfa UTF8_ACCEPT s =? UTF8_ACCEPT).
Proof. apply dump_escaped_loop_ok. Qed.

(** *** The automaton and the ranges *)

Definition in_range (lo hi : Z) (c : ascii) : bool := (lo <=? byte_of c) && (byte_of c <=? hi).

(** From [state], the bytes of each range lead on to one state and the others
    to rejection, and the last state is accepting. *)
Fixpoint follows (state : Z) (ranges : list (Z * Z)) : bool :=
  match ranges with
  | [] => state =? UTF8_ACCEPT
  | (lo, hi) :: ranges' =>
      let next := dfa_step state (char_of lo) in
      negb (state =? UTF8_ACCEPT) &&
      forallb (λ c, dfa_step state c =? (if in_range lo hi c then next else UTF8_REJECT)) all_chars &&
      follows next ranges'
  end.

(** The three kinds of lead bytes. *)
Definition lead_ok (c : ascii) : bool :=
  if byte_of c <=? 127 then dfa_step UTF8_ACCEPT c =? UTF8_ACCEPT
  else match utf8_ranges (byte_of c) with
       | Some ranges => follows (dfa_step UTF8_ACCEPT c) ranges
       | None => dfa_step UTF8_ACCEPT c =? UTF8_REJECT
       end.
Lemma leads_ok c : lead_ok c = true.
Proof. revert c. apply all_bytes. vm_compute. reflexivity. Qed.

Lemma ascii_step c : byte_of c <= 127 → dfa_step UTF8_ACCEPT c = UTF8_ACCEPT.
Proof.
  intros Hc. pose proof (leads_ok c) as Hl. unfold lead_ok in Hl.
  apply Z.leb_le in Hc. rewrite Hc in Hl. by apply Z.eqb_eq.
Qed.

Lemma ranges_not_ascii b ranges : utf8_ranges b = Some ranges → 127 < b.
Proof.
  unfold utf8_ranges. intros Hr. destruct (Z_lt_le_dec 127 b) as [|Hb]; [done|].
  repeat case_match; b2p; try lia; done.
Qed.

Lemma multi_follows c ranges :
  utf8_ranges (byte_of c) = Some ranges → follows (dfa_step UTF8_ACCEPT c) ranges = true.
Proof.
  intros Hr. pose proof (leads_ok c) as Hl. unfold lead_ok in Hl.
  pose proof (ranges_not_ascii _ _ Hr) as Hb. apply Z.leb_gt in Hb. by rewrite Hb, Hr in Hl.
Qed.

Lemma follows_cons state lo hi ranges :
  follows state ((lo, hi) :: ranges) = true →
  state ≠ UTF8_ACCEPT ∧
  ∃ next, follows next ranges = true ∧
    ∀ c, dfa_step state c = if in_range lo hi c then next else UTF8_REJECT.
Proof.
  cbn [follows]. cbv zeta. rewrite !andb_true_iff, negb_true_iff, Z.eqb_neq.
  intros [[Hs Hall] Hf]. split; [done|]. eexists; split; [exact Hf|].
  intros c. apply Z.eqb_eq. exact (all_bytes _ Hall c).
Qed.

Lemma follows_tail state ranges tail :
  follows state ranges = true → tail_of ranges tail → dfa state tail = UTF8_ACCEPT.
Proof.
  revert state tail. induction ranges as [|[lo hi] ranges IH]; intros state tail Hf Ht.
  { destruct tail; [|done]. by apply Z.eqb_eq. }
  destruct tail as [|c tail]; [done|]. destruct Ht as [Hc Ht].
  apply follows_cons in Hf as (_ & next & Hf & Hstep). cbn [dfa]. rewrite Hstep.
  replace (in_range lo hi c) with true; [by apply IH|].
  symmetry. unfold in_range. rewrite andb_true_iff, !Z.leb_le. lia.
Qed.

Lemma accepted_tail state ranges s :
  follows state ranges = true → dfa state s = UTF8_ACCEPT →
  ∃ tail rest, s = tail +:+ rest ∧ tail_of ranges tail ∧ dfa UTF8_ACCEPT rest = UTF8_ACCEPT.
Proof.
  revert state s. induction ranges as [|[lo hi] ranges IH]; intros state s Hf Ha.
  { apply Z.eqb_eq in Hf as ->. by exists EmptyString, s. }
  apply follows_cons in Hf as (Hs & next & Hf & Hstep).
  destruct s as [|c s]; [done|]. cbn [dfa] in Ha. rewrite Hstep in Ha.
  destruct (in_range lo hi c) eqn:Hc; [|by rewrite dfa_reject in Ha].
  destruct (IH _ _ Hf Ha) as (tail & rest & -> & Ht & Hr).
  exists (String c tail), rest. split; [done|]. split; [|done]. split; [|done].
  unfold in_range in Hc. rewrite andb_true_iff, !Z.leb_le in Hc. lia.
Qed.

Lemma utf8_dfa s : utf8 s → dfa UTF8_ACCEPT s = UTF8_ACCEPT.
Proof.
  induction 1 as [|c s Hc _ IH|c ranges tail s Hr Ht _ IH]; [done|..]; cbn [dfa].
  - by rewrite ascii_step.
  - by rewrite dfa_app, (follows_tail _ _ _ (multi_follows _ _ Hr) Ht).
Qed.

Lemma dfa_utf8 s : dfa UTF8_ACCEPT s = UTF8_ACCEPT → utf8 s.
Proof.
  remember (String.length s) as n eqn:Hn. revert s Hn.
  induction (lt_wf n) as [n _ IH]; intros s -> Ha. destruct s as [|c s]; [constructor|].
  cbn [dfa] in Ha. destruct (Z_le_gt_dec (byte_of c) 127) as [Hc|Hc].
  - rewrite ascii_step in Ha by done. apply utf8_ascii; [done|]. eapply IH; [|reflexivity|done]. cbn. lia.
  - pose proof (leads_ok c) as Hl. unfold lead_ok in Hl.
    replace (byte_of c <=? 127) with false in Hl by (symmetry; apply Z.leb_gt; lia).
    destruct (utf8_ranges (byte_of c)) as [ranges|] eqn:Hr.
    + destruct (accepted_tail _ _ _ Hl Ha) as (tail & rest & -> & Ht & Hrest).
      eapply utf8_multi; [done..|]. eapply IH; [|reflexivity|done].
      cbn. rewrite slength_app. lia.
    + apply Z.eqb_eq in Hl. by rewrite Hl, dfa_reject in Ha.
Qed.

(** C17. The serializer writes a string exactly when it is well-formed UTF-8,
    by the same byte ranges the lexer checks; otherwise it throws. *)
Theorem dump_escaped_utf8 s : (∃ text, dump_escaped s = Ok text) ↔ utf8 s.
Proof.
  pose proof (dump_escaped_ok s) as Hok. split.
  - intros [text Ht]. rewrite Ht in Hok. apply dfa_utf8. symmetry in Hok. by apply Z.eqb_eq in Hok.
  - intros Hu. rewrite (utf8_dfa s Hu) in Hok. destruct (dump_escaped s) as [text|]; [by exists text|done].
Qed.
