(* ===== verification/JsonScanUtf8.v ===== *)
(** Every string the lexer returns is well-formed UTF-8, escapes included, so
    every parsed value can be written again. *)

From S2P Require Import Prelude Decimal StdMap Doubles Exceptions JsonValue JsonLexer.
From S2P Require Import JsonLexerFacts JsonParser JsonDtoa JsonDump JsonUtf8.

Local Open Scope Z_scope.

(** The token buffer, as far as it is filled. *)
Definition state_of (st : lexer) : Z := dfa UTF8_ACCEPT (token_buffer st).
Abbreviation valid st := (state_of st = UTF8_ACCEPT).

Lemma to_char_byte c : 0 <= c < 256 → byte_of (to_char c) = c.
Proof. intros Hc. unfold to_char. rewrite Z.mod_small by lia. by apply byte_of_char_of. Qed.

Lemma state_add c st : state_of (add c st) = dfa_step (state_of st) (to_char c).
Proof. unfold state_of, add. cbn. apply dfa_snoc. Qed.

Lemma state_get st : state_of (get st) = state_of st.
Proof. unfold get. by destruct (if next_unget st then _ else _). Qed.

Lemma add_ascii c st : 0 <= c <= 127 → valid st → valid (add c st).
Proof.
  intros Hc Hv. rewrite state_add, Hv. apply ascii_step. rewrite to_char_byte; lia.
Qed.

(** ** Code points *)

Lemma lor_tag tag width :
  forallb (λ n, Z.lor tag (Z.of_nat n) =? tag + Z.of_nat n) (seq 0 (Z.to_nat width)) = true →
  ∀ x, 0 <= x < width → Z.lor tag x = tag + x.
Proof.
  intros Hall x Hx. pose proof (proj1 (forallb_forall _ _) Hall (Z.to_nat x)) as Hb.
  cbv beta in Hb. rewrite Z2Nat.id in Hb by lia. apply Z.eqb_eq, Hb, in_seq. lia.
Qed.
Lemma lor_128 x : 0 <= x < 64 → Z.lor 128 x = 128 + x.
Proof. apply lor_tag. vm_compute. reflexivity. Qed.
Lemma lor_192 x : 0 <= x < 32 → Z.lor 192 x = 192 + x.
Proof. apply lor_tag. vm_compute. reflexivity. Qed.
Lemma lor_224 x : 0 <= x < 16 → Z.lor 224 x = 224 + x.
Proof. apply lor_tag. vm_compute. reflexivity. Qed.
Lemma lor_240 x : 0 <= x < 8 → Z.lor 240 x = 240 + x.
Proof. apply lor_tag. vm_compute. reflexivity. Qed.

Lemma land_63 x : 0 <= x → Z.land x 63 = x mod 64.
Proof. intros Hx. change 63 with (Z.ones 6). by rewrite Z.land_ones. Qed.
Lemma cont_byte x : 0 <= x → Z.lor 128 (Z.land x 63) = 128 + x mod 64.
Proof. intros Hx. rewrite land_63 by done. apply lor_128. apply Z.mod_pos_bound. lia. Qed.
Lemma shiftr_div x n : 0 <= n → Z.shiftr x n = x / 2 ^ n.
Proof. intros. by apply Z.shiftr_div_pow2. Qed.

(** Adding the bytes of a whole sequence. *)
Fixpoint add_all (cs : list Z) (st : lexer) : lexer :=
  match cs with [] => st | c :: cs' => add_all cs' (add c st) end.

Fixpoint in_ranges (ranges : list (Z * Z)) (cs : list Z) : Prop :=
  match ranges, cs with
  | [], [] => True
  | (lo, hi) :: ranges', c :: cs' => lo <= c <= hi ∧ 0 <= c < 256 ∧ in_ranges ranges' cs'
  | _, _ => False
  end.

Lemma add_all_follows ranges cs st :
  follows (state_of st) ranges = true → in_ranges ranges cs → valid (add_all cs st).
Proof.
  revert cs st. induction ranges as [|[lo hi] ranges IH]; intros cs st Hf Hin.
  { destruct cs; [|done]. by apply Z.eqb_eq. }
  destruct cs as [|c cs]; [done|]. destruct Hin as (Hc & Hb & Hin).
  apply follows_cons in Hf as (_ & next & Hf & Hstep). cbn [add_all]. apply IH; [|done].
  rewrite state_add, Hstep.
  replace (in_range lo hi (to_char c)) with true; [done|].
  symmetry. unfold in_range. rewrite to_char_byte, andb_true_iff, !Z.leb_le by lia. lia.
Qed.

Lemma add_sequence c cs ranges st :
  0 <= c < 256 → utf8_ranges c = Some ranges → in_ranges ranges cs → valid st →
  valid (add_all (c :: cs) st).
Proof.
  intros Hc Hr Hin Hv. cbn [add_all]. apply (add_all_follows ranges); [|done].
  rewrite state_add, Hv. apply multi_follows. by rewrite to_char_byte.
Qed.

Lemma ranges_2 c : 194 <= c <= 223 → utf8_ranges c = Some [(128, 191)].
Proof. intros Hc. unfold utf8_ranges. by replace ((194 <=? c) && (c <=? 223)) with true by lia. Qed.
Lemma ranges_3 c :
  225 <= c <= 239 → c ≠ 237 → utf8_ranges c = Some [(128, 191); (128, 191)].
Proof.
  intros Hc Hn. unfold utf8_ranges.
  replace ((194 <=? c) && (c <=? 223)) with false by lia. replace (c =? 224) with false by lia.
  by replace ((225 <=? c) && (c <=? 236) || (238 <=? c) && (c <=? 239)) with true by lia.
Qed.
Lemma ranges_4 c : 241 <= c <= 243 → utf8_ranges c = Some [(128, 191); (128, 191); (128, 191)].
Proof.
  intros Hc. unfold utf8_ranges.
  replace ((194 <=? c) && (c <=? 223)) with false by lia. replace (c =? 224) with false by lia.
  replace ((225 <=? c) && (c <=? 236) || (238 <=? c) && (c <=? 239)) with false by lia.
  replace (c =? 237) with false by lia. replace (c =? 240) with false by lia.
  by replace ((241 <=? c) && (c <=? 243)) with true by lia.
Qed.

(** A scalar value: a code point that is no surrogate. *)
Definition scalar (cp : Z) : Prop := 0 <= cp <= 1114111 ∧ ¬ 55296 <= cp <= 57343.

Lemma add_codepoint_valid cp st : scalar cp → valid st → valid (add_codepoint cp st).
Proof.
  intros [Hcp Hs] Hv. unfold add_codepoint. rewrite !shiftr_div by lia.
  change (2 ^ 6) with 64. change (2 ^ 12) with 4096. change (2 ^ 18) with 262144.
  destruct (Z.ltb_spec cp 128); [apply add_ascii; [lia|done]|].
  rewrite !cont_byte by (try apply Z.div_pos; lia).
  pose proof (Z.mod_pos_bound cp 64 ltac:(lia)) as H0.
  pose proof (Z.mod_pos_bound (cp / 64) 64 ltac:(lia)) as H1.
  pose proof (Z.mod_pos_bound (cp / 4096) 64 ltac:(lia)) as H2.
  destruct (Z.leb_spec cp 2047).
  { assert (2 <= cp / 64 <= 31) by (split; [apply Z.div_le_lower_bound|apply Z.lt_succ_r, Z.div_lt_upper_bound]; lia).
    rewrite lor_192 by lia. apply (add_sequence _ [_] [(128, 191)]); [lia|apply ranges_2; lia| |done].
    cbn. lia. }
  assert (E1 : (cp / 64) / 64 = cp / 4096) by (rewrite Z.div_div by lia; done).
  pose proof (Z.div_mod (cp / 64) 64 ltac:(lia)) as D1. rewrite E1 in D1.
  pose proof (Z.div_mod cp 64 ltac:(lia)) as D0.
  destruct (Z.leb_spec cp 65535).
  { assert (0 <= cp / 4096 <= 15) by (split; [apply Z.div_pos|apply Z.lt_succ_r, Z.div_lt_upper_bound]; lia).
    rewrite lor_224 by lia.
    destruct (decide (cp / 4096 = 0)) as [E|]; [rewrite E in *|destruct (decide (cp / 4096 = 13)) as [E|]; [rewrite E in *|]].
    - apply (add_sequence _ [_; _] [(160, 191); (128, 191)]); [lia|done| |done]. cbn. lia.
    - apply (add_sequence _ [_; _] [(128, 159); (128, 191)]); [lia|done| |done]. cbn. lia.
    - apply (add_sequence _ [_; _] [(128, 191); (128, 191)]); [lia|apply ranges_3; lia| |done]. cbn. lia. }
  assert (E2 : (cp / 4096) / 64 = cp / 262144) by (rewrite Z.div_div by lia; done).
  pose proof (Z.div_mod (cp / 4096) 64 ltac:(lia)) as D2. rewrite E2 in D2.
  assert (0 <= cp / 262144 <= 4) by (split; [apply Z.div_pos|apply Z.lt_succ_r, Z.div_lt_upper_bound]; lia).
  rewrite lor_240 by lia.
  destruct (decide (cp / 262144 = 0)) as [E|]; [rewrite E in *|destruct (decide (cp / 262144 = 4)) as [E|]; [rewrite E in *|]].
  - apply (add_sequence _ [_; _; _] [(144, 191); (128, 191); (128, 191)]); [lia|done| |done]. cbn. lia.
  - apply (add_sequence _ [_; _; _] [(128, 143); (128, 191); (128, 191)]); [lia|done| |done]. cbn. lia.
  - apply (add_sequence _ [_; _; _] [(128, 191); (128, 191); (128, 191)]); [lia|apply ranges_4; lia| |done]. cbn. lia.
Qed.

(** ** Escapes *)

Lemma hex_value_range c h : hex_value c = Some h → 0 <= h <= 15.
Proof. unfold hex_value. repeat case_match; intros [= <-]; lia. Qed.

Lemma get_codepoint_keeps fs cp st : state_of (get_codepoint_from fs cp st).2 = state_of st.
Proof.
  revert cp st. induction fs as [|f fs IH]; intros cp st; [done|]. cbn [get_codepoint_from].
  cbv zeta. destruct (hex_value _); [by rewrite IH, state_get|]. cbn. apply state_get.
Qed.

(** A code point of four hexadecimal digits, or [-1]. *)
Lemma get_codepoint_range st cp st' :
  get_codepoint st = (cp, st') → cp = -1 ∨ 0 <= cp <= 65535.
Proof.
  unfold get_codepoint. cbn [get_codepoint_from]. cbv zeta.
  destruct (hex_value (current (get st))) as [h1|] eqn:E1; [|intros [= <- <-]; auto].
  destruct (hex_value (current (get (get st)))) as [h2|] eqn:E2; [|intros [= <- <-]; auto].
  destruct (hex_value (current (get (get (get st))))) as [h3|] eqn:E3; [|intros [= <- <-]; auto].
  destruct (hex_value (current (get (get (get (get st)))))) as [h4|] eqn:E4; [|intros [= <- <-]; auto].
  intros [= <- <-]. right. rewrite !Z.shiftl_mul_pow2 by lia.
  apply hex_value_range in E1, E2, E3, E4. lia.
Qed.

Lemma get_codepoint_state st cp st' : get_codepoint st = (cp, st') → state_of st' = state_of st.
Proof. intros E. pose proof (get_codepoint_keeps [12; 8; 4; 0] 0 st) as Hk. unfold get_codepoint in E. by rewrite E in Hk. Qed.

Lemma scan_unicode_escape_valid st st' :
  valid st → scan_unicode_escape st = (true, st') → valid st'.
Proof.
  intros Hv. unfold scan_unicode_escape.
  destruct (get_codepoint st) as [cp1 st1] eqn:E1.
  pose proof (get_codepoint_state _ _ _ E1) as S1. apply get_codepoint_range in E1.
  rewrite Hv in S1. destruct (Z.eqb_spec cp1 (-1)) as [|Hne1]; [done|].
  destruct ((55296 <=? cp1) && (cp1 <=? 56319)) eqn:Eh.
  - unfold get_backslash_u. cbv zeta.
    destruct (current (get st1) =? 92); [|done].
    destruct (current (get (get st1)) =? 117); [|done].
    destruct (get_codepoint (get (get st1))) as [cp2 st2] eqn:E2.
    pose proof (get_codepoint_state _ _ _ E2) as S2. rewrite !state_get, S1 in S2.
    destruct (cp2 =? -1); [done|].
    destruct ((56320 <=? cp2) && (cp2 <=? 57343)) eqn:El; [|done]. intros [= <-].
    apply add_codepoint_valid; [|done]. rewrite Z.shiftl_mul_pow2 by lia. change (2 ^ 10) with 1024.
    unfold scalar. b2p. lia.
  - destruct ((56320 <=? cp1) && (cp1 <=? 57343)) eqn:El; [done|]. intros [= <-].
    apply add_codepoint_valid; [|done]. unfold scalar. split; [lia|]. intros Hs. b2p. lia.
Qed.

Lemma scan_escape_valid st st' : valid st → scan_escape st = (true, st') → valid st'.
Proof.
  intros Hv. assert (Hg : valid (get st)) by (by rewrite state_get).
  unfold scan_escape. cbv zeta.
  repeat (case_match; [first [intros [= <-]; apply add_ascii; [lia|exact Hg]
                             |by apply scan_unicode_escape_valid]|]).
  done.
Qed.

(** ** Strings *)

Lemma get_current st : -1 <= current st < 256 → -1 <= current (get st) < 256.
Proof.
  intros Hc. unfold get. destruct (next_unget st); [exact Hc|]. destruct (ia st) as [|c s]; cbn.
  - unfold eof. lia.
  - pose proof (byte_of_range c). lia.
Qed.

(** The last byte read stays a byte or the end of input. *)
Definition byte_or_eof (st : lexer) : Prop := -1 <= current st < 256.

Lemma add_codepoint_current cp st : current (add_codepoint cp st) = current st.
Proof. unfold add_codepoint. by repeat case_match. Qed.

Lemma get_codepoint_current fs cp st :
  byte_or_eof st → byte_or_eof (get_codepoint_from fs cp st).2.
Proof.
  revert cp st. induction fs as [|f fs IH]; intros cp st Hc; [done|]. cbn [get_codepoint_from].
  cbv zeta. destruct (hex_value _); [apply IH|]; by apply get_current.
Qed.

Lemma scan_unicode_escape_current st : byte_or_eof st → byte_or_eof (scan_unicode_escape st).2.
Proof.
  intros Hc. unfold scan_unicode_escape, get_codepoint.
  pose proof (get_codepoint_current [12; 8; 4; 0] 0 st Hc) as H1.
  destruct (get_codepoint_from _ _ st) as [cp1 st1]. cbn [snd] in H1.
  destruct (cp1 =? -1); [done|]. destruct (_ && _).
  - unfold get_backslash_u. cbv zeta. pose proof (get_current _ H1) as H2.
    pose proof (get_current _ H2) as H3.
    destruct (current (get st1) =? 92); [|done].
    destruct (current (get (get st1)) =? 117); [|done].
    pose proof (get_codepoint_current [12; 8; 4; 0] 0 _ H3) as H4.
    destruct (get_codepoint_from _ _ (get (get st1))) as [cp2 st2]. cbn [snd] in H4.
    destruct (cp2 =? -1); [done|]. destruct (_ && _); [|done]. unfold byte_or_eof. cbn [snd].
    by rewrite add_codepoint_current.
  - destruct (_ && _); [done|]. unfold byte_or_eof. cbn [snd]. by rewrite add_codepoint_current.
Qed.

Lemma scan_escape_current st : byte_or_eof st → byte_or_eof (scan_escape st).2.
Proof.
  intros Hc. pose proof (get_current _ Hc) as Hg. unfold scan_escape. cbv zeta.
  repeat (case_match; [first [exact Hg|by apply scan_unicode_escape_current]|]). exact Hg.
Qed.

Lemma bytes_in_range_current ranges st : byte_or_eof st → byte_or_eof (bytes_in_range ranges st).2.
Proof.
  revert st. induction ranges as [|[lo hi] ranges IH]; intros st Hc; [done|].
  cbn [bytes_in_range]. cbv zeta. pose proof (get_current _ Hc) as Hg.
  destruct (_ && _); [by apply IH|exact Hg].
Qed.

Lemma bytes_in_range_valid ranges st st' :
  follows (state_of st) ranges = true → bytes_in_range ranges st = (true, st') →
  -1 <= current st < 256 → (∀ lo hi, In (lo, hi) ranges → 0 <= lo) → valid st'.
Proof.
  revert st. induction ranges as [|[lo hi] ranges IH]; intros st Hf E Hc Hlo.
  { injection E as <-. by apply Z.eqb_eq. }
  cbn [bytes_in_range] in E. cbv zeta in E.
  destruct ((lo <=? _) && _) eqn:Er; [|done].
  apply follows_cons in Hf as (_ & next & Hf & Hstep).
  pose proof (get_current st Hc) as Hg. pose proof (Hlo lo hi (or_introl eq_refl)) as H0.
  pose proof Er as Er'. rewrite andb_true_iff, !Z.leb_le in Er'.
  refine (IH _ _ E Hg _); [|intros l h Hin; apply (Hlo l h); by right].
  rewrite state_add, state_get, Hstep.
  unfold in_range. rewrite to_char_byte by lia. by rewrite Er.
Qed.

Lemma utf8_ranges_nonneg c ranges lo hi :
  utf8_ranges c = Some ranges → In (lo, hi) ranges → 0 <= lo.
Proof.
  unfold utf8_ranges. intros Hr Hin.
  repeat case_match; simplify_eq; cbn in Hin; intuition; simplify_eq; lia.
Qed.

Lemma scan_string_loop_valid fuel st st' :
  valid st → -1 <= current st < 256 →
  scan_string_loop fuel st = Some (value_string, st') → valid st'.
Proof.
  revert st. induction fuel as [|fuel IH]; intros st Hv Hc; cbn [scan_string_loop]; [done|].
  cbv zeta. pose proof (get_current st Hc) as Hg.
  assert (Hv' : valid (get st)) by (by rewrite state_get).
  destruct (Z.eqb_spec (current (get st)) eof) as [|Hne]; [done|]. unfold eof in Hne.
  destruct (_ =? 34); [by intros [= <-]|].
  destruct (_ =? 92).
  { destruct (scan_escape (get st)) as [[] st1] eqn:Ee; [|done]. apply IH.
    - by apply (scan_escape_valid (get st)).
    - pose proof (scan_escape_current (get st) Hg) as Hs. by rewrite Ee in Hs. }
  destruct (_ <=? 31); [done|].
  destruct (Z.leb_spec (current (get st)) 127).
  { apply IH; [|exact Hg]. apply add_ascii; [lia|done]. }
  destruct (utf8_ranges _) as [ranges|] eqn:Er; [|done].
  unfold next_byte_in_range. destruct (bytes_in_range _ _) as [[] st1] eqn:Eb; [|done].
  apply IH.
  - refine (bytes_in_range_valid ranges _ _ _ Eb Hg _).
    + rewrite state_add, Hv'. apply multi_follows. by rewrite to_char_byte by lia.
    + intros lo hi. by apply (utf8_ranges_nonneg _ _ lo hi Er).
  - pose proof (bytes_in_range_current ranges (add (current (get st)) (get st)) Hg) as Hs.
    by rewrite Eb in Hs.
Qed.

(** ** Tokens *)

(** A string token holds well-formed text. *)
Lemma scan_string_valid st st' :
  -1 <= current st < 256 → scan_string st = Some (value_string, st') → valid st'.
Proof.
  intros Hc. unfold scan_string. cbv zeta. by apply (scan_string_loop_valid _ (reset st)).
Qed.

Lemma scan_literal_token lit t st st' :
  t ≠ value_string → scan_literal lit t st ≠ (value_string, st').
Proof.
  intros Ht. revert st. induction lit as [|c lit IH]; intros st; cbn [scan_literal]; [congruence|].
  cbv zeta. destruct (_ =? _); [apply IH|done].
Qed.

Lemma scan_number_done_token ty st st' : scan_number_done ty st ≠ (value_string, st').
Proof. unfold scan_number_done. cbv zeta. repeat case_match; done. Qed.

Lemma scan_number_loop_token fuel s ty st st' :
  scan_number_loop fuel s ty st ≠ Some (value_string, st').
Proof.
  revert s ty st. induction fuel as [|fuel IH]; intros s ty st; cbn [scan_number_loop]; [done|].
  cbv zeta. destruct (num_transition _ _); [apply IH|intros [= E]; by apply scan_number_done_token in E|done].
Qed.

Lemma scan_token_valid st st' :
  -1 <= current st < 256 → scan_token st = Some (value_string, st') → valid st'.
Proof.
  intros Hc E. unfold scan_token in E. cbv zeta in E.
  repeat (case_match; [first [done | by (apply (inj Some) in E; apply scan_literal_token in E) | by apply scan_string_valid in E
                             | by apply scan_number_loop_token in E]|]).
  done.
Qed.

(** Whatever a function of the scanner ends with, the last byte read is one. *)
Abbreviation ends_current r := (∀ t st', r = Some (t, st') → byte_or_eof st').

Lemma ends_some (r : token_type * lexer) : byte_or_eof r.2 → ends_current (Some r).
Proof. by intros Hr t st' [= ->]. Qed.

Lemma skip_whitespace_loop_current fuel st st' :
  byte_or_eof st → skip_whitespace_loop fuel st = Some st' → byte_or_eof st'.
Proof.
  revert st. induction fuel as [|fuel IH]; intros st Hc; cbn [skip_whitespace_loop]; [done|].
  cbv zeta. pose proof (get_current _ Hc). destruct (is_whitespace _); [by apply IH|by intros [= <-]].
Qed.

Lemma scan_literal_current lit t st : byte_or_eof st → byte_or_eof (scan_literal lit t st).2.
Proof.
  revert st. induction lit as [|c lit IH]; intros st Hc; cbn [scan_literal]; [done|].
  cbv zeta. pose proof (get_current _ Hc). destruct (_ =? _); [by apply IH|done].
Qed.

Lemma scan_number_done_current ty st : byte_or_eof st → byte_or_eof (scan_number_done ty st).2.
Proof. intros Hc. unfold scan_number_done. cbv zeta. by repeat case_match. Qed.

Lemma scan_number_loop_current fuel s ty st :
  byte_or_eof st → ends_current (scan_number_loop fuel s ty st).
Proof.
  revert s ty st. induction fuel as [|fuel IH]; intros s ty st Hc; cbn [scan_number_loop]; [done|].
  cbv zeta. pose proof (get_current _ Hc) as Hg.
  destruct (num_transition _ _); [by apply IH|by apply ends_some, scan_number_done_current|by apply ends_some].
Qed.

Lemma scan_string_loop_current fuel st :
  byte_or_eof st → ends_current (scan_string_loop fuel st).
Proof.
  revert st. induction fuel as [|fuel IH]; intros st Hc; cbn [scan_string_loop]; [done|].
  cbv zeta. pose proof (get_current _ Hc) as Hg.
  destruct (_ =? eof); [by apply ends_some|]. destruct (_ =? 34); [by apply ends_some|].
  destruct (_ =? 92).
  { pose proof (scan_escape_current (get st) Hg) as Hs.
    destruct (scan_escape (get st)) as [[] st1]; [by apply IH|by apply ends_some]. }
  destruct (_ <=? 31); [by apply ends_some|]. destruct (_ <=? 127); [by apply IH|].
  destruct (utf8_ranges _) as [ranges|]; [|by apply ends_some]. unfold next_byte_in_range.
  pose proof (bytes_in_range_current ranges (add (current (get st)) (get st)) Hg) as Hs.
  destruct (bytes_in_range _ _) as [[] st1]; [by apply IH|by apply ends_some].
Qed.

Lemma scan_token_current st : byte_or_eof st → ends_current (scan_token st).
Proof.
  intros Hc. unfold scan_token. cbv zeta.
  repeat (case_match; [first [by apply ends_some | by apply ends_some, scan_literal_current
    | by apply (scan_string_loop_current _ (reset st))
    | by apply (scan_number_loop_current _ _ _ (add (current st) (reset st)))]|]).
  by apply ends_some.
Qed.

Lemma scan_valid st t st' :
  byte_or_eof st → scan st = Some (t, st') → byte_or_eof st' ∧ (t = value_string → valid st').
Proof.
  intros Hc E. unfold scan in E.
  set (r := if chars_read_total (position st) =? 0 then skip_bom st else (true, st)) in E.
  assert (Hr : byte_or_eof r.2).
  { unfold r. destruct (_ =? 0); [|done]. unfold skip_bom. cbv zeta.
    pose proof (get_current _ Hc) as H1. pose proof (get_current _ H1) as H2.
    pose proof (get_current _ H2). by repeat case_match. }
  destruct r as [[] st1]; [|by injection E as <- <-]. cbn [snd] in Hr.
  destruct (skip_whitespace st1) as [st2|] eqn:Ew; [|done].
  apply (skip_whitespace_loop_current _ _ _ Hr) in Ew. cbn in E. split.
  - exact (scan_token_current _ Ew _ _ E).
  - intros ->. by apply (scan_token_valid st2).
Qed.
