(* ===== verification/JsonSpec.v ===== *)
(** Properties of the JSON library as the server uses it: every value the
    parser returns is well-formed and can be written again. *)

From S2P Require Import Prelude Decimal StdMap Doubles Exceptions JsonValue JsonLexer.
From S2P Require Import JsonLexerFacts JsonParser JsonParserFacts JsonDtoa JsonDump JsonUtf8.
From S2P Require Import JsonScanUtf8.

(** ** Values whose texts are well-formed *)

Definition utf8_ok (s : string) : Prop := dfa UTF8_ACCEPT s = UTF8_ACCEPT.

Fixpoint json_utf8 (j : json) : Prop :=
  match j with
  | JString s => utf8_ok s
  | JObject fs =>
      (fix go l := match l with [] => True | p :: l' => (utf8_ok p.1 ∧ json_utf8 p.2) ∧ go l' end) fs
  | JArray l => (fix go l := match l with [] => True | x :: l' => json_utf8 x ∧ go l' end) l
  | _ => True
  end.

Lemma json_utf8_object fs :
  json_utf8 (JObject fs) ↔ Forall (λ p, utf8_ok p.1 ∧ json_utf8 p.2) fs.
Proof.
  cbn. induction fs as [|p fs IH]; cbn; [split; [constructor|done]|].
  rewrite IH. split; [intros [??]; by constructor|by inversion 1].
Qed.
Lemma json_utf8_array l : json_utf8 (JArray l) ↔ Forall json_utf8 l.
Proof.
  cbn. induction l as [|x l IH]; cbn; [split; [constructor|done]|].
  rewrite IH. split; [intros [??]; by constructor|by inversion 1].
Qed.

(** ** Writing them *)

(** The two loops of [dump]. *)
Definition dump_fields : list (string * json) → result exn string :=
  fix fields (l : list (string * json)) : result exn string :=
    match l with
    | [] => Ok EmptyString
    | (k, v) :: l' =>
        key ← dump_string k;
        val ← json_dump v;
        rest ← fields l';
        mret (key +:+ ":" +:+ val +:+ (if l' is [] then "" else ",")%string +:+ rest)
    end.
Definition dump_items : list json → result exn string :=
  fix items (l : list json) : result exn string :=
    match l with
    | [] => Ok EmptyString
    | v :: l' =>
        val ← json_dump v;
        rest ← items l';
        mret (val +:+ (if l' is [] then "" else ",")%string +:+ rest)
    end.

Lemma json_dump_object p fs :
  json_dump (JObject (p :: fs)) = (body ← dump_fields (p :: fs); mret ("{" +:+ body +:+ "}")).
Proof. reflexivity. Qed.
Lemma json_dump_array x l :
  json_dump (JArray (x :: l)) = (body ← dump_items (x :: l); mret ("[" +:+ body +:+ "]")).
Proof. reflexivity. Qed.

(** The serializer throws one exception only: a text is not UTF-8. *)
Definition not_utf8 (e : exn) : Prop := exn_kind e = json_type_error 316.

Lemma dump_escaped_loop_throws s i state cp last out e :
  dump_escaped_loop s i state cp last out = Throw e → not_utf8 e.
Proof.
  revert i state cp last out. induction s as [|c s IH]; intros i state cp last out; cbn [dump_escaped_loop].
  - destruct (_ =? _)%Z; [done|]. by intros [= <-].
  - cbv zeta. destruct (decode _ _ _) as [st cp']. destruct (st =? _)%Z; [apply IH|].
    destruct (st =? _)%Z; [by intros [= <-]|apply IH].
Qed.

(** A value is written, or the exception is thrown, as its texts are UTF-8. *)
Definition dumps (ok : Prop) (r : result exn string) : Prop :=
  match r with Ok _ => ok | Throw e => ¬ ok ∧ not_utf8 e end.

Lemma dump_string_dumps s : dumps (utf8_ok s) (dump_string s).
Proof.
  pose proof (dump_escaped_ok s) as Hok. unfold dump_string, utf8_ok in *.
  destruct (dump_escaped s) as [t|e] eqn:E; cbn in *; symmetry in Hok.
  - by apply Z.eqb_eq.
  - split; [by apply Z.eqb_neq|]. by eapply dump_escaped_loop_throws.
Qed.

Lemma dumps_then (P Q : Prop) (r : result exn string) (k : string → result exn string) :
  dumps P r → (∀ a, r = Ok a → dumps Q (k a)) → dumps (P ∧ Q) (r ≫= k).
Proof.
  intros Hr Hk. destruct r as [a|e]; cbn; [|destruct Hr; split; [tauto|done]].
  specialize (Hk a eq_refl). unfold dumps in *. destruct (k a); [done|]. tauto.
Qed.

Lemma dumps_iff (P Q : Prop) r : (P ↔ Q) → dumps P r → dumps Q r.
Proof. intros HPQ. unfold dumps. destruct r; tauto. Qed.

Lemma dumps_mret (P : Prop) (r : result exn string) f : dumps P r → dumps P (t ← r; mret (f t)).
Proof. by destruct r. Qed.

Lemma json_dump_dumps j : dumps (json_utf8 j) (json_dump j).
Proof.
  induction j as [|fs IH|l IH|s|b|n|n|d] using json_nested_ind; try done.
  - assert (Hbody : dumps (json_utf8 (JObject fs)) (dump_fields fs)).
    { induction IH as [|[k v] fs IHv _ IHr]; [done|]. cbn in IHv, IHr |- *. fold dump_fields in IHr |- *.
      eapply dumps_iff; [apply and_assoc|].
      apply dumps_then; [apply dump_string_dumps|]. intros key _.
      apply dumps_then; [exact IHv|]. intros val _. by apply dumps_mret. }
    destruct fs as [|p fs]; [done|]. rewrite json_dump_object. by apply dumps_mret.
  - assert (Hbody : dumps (json_utf8 (JArray l)) (dump_items l)).
    { induction IH as [|v l IHv _ IHr]; [done|]. cbn in IHv, IHr |- *. fold dump_items in IHr |- *.
      apply dumps_then; [exact IHv|]. intros val _. by apply dumps_mret. }
    destruct l as [|x l]; [done|]. rewrite json_dump_array. by apply dumps_mret.
  - apply dump_string_dumps.
Qed.

Lemma json_dump_ok j : json_utf8 j → ∃ text, json_dump j = Ok text.
Proof.
  intros Hj. pose proof (json_dump_dumps j) as Hd. destruct (json_dump j) as [text|e]; [by exists text|].
  by destruct Hd.
Qed.

(** ** Building them *)

Lemma Forall_om_assign_pair {K V} `{OrderedKey K} (P : K * V → Prop) k v (m : list (K * V)) :
  P (k, v) → Forall P m → Forall P (om_assign k v m).
Proof.
  intros Hv. induction 1 as [|[k' v'] m Hk Hm IH]; cbn; [by repeat constructor|].
  destruct (kltb k k') eqn:E1; [by repeat constructor|].
  destruct (kltb k' k) eqn:E2; [by constructor|].
  rewrite <-(kltb_total _ _ E1 E2). by constructor.
Qed.

Lemma om_find_Forall {K V} `{OrderedKey K} (P : K * V → Prop) k v (m : list (K * V)) :
  Forall P m → om_find k m = Some v → P (k, v).
Proof.
  induction 1 as [|[k' v'] m Hk Hm IH]; cbn; [done|].
  destruct (kltb k k') eqn:E1; [done|]. destruct (kltb k' k) eqn:E2; [done|].
  intros [= <-]. by rewrite (kltb_total _ _ E1 E2).
Qed.

(** What the builder keeps: well-formed values with well-formed texts. *)
Definition json_good (j : json) : Prop := json_utf8 j ∧ json_wf j.

Lemma json_good_object fs :
  json_good (JObject fs) ↔ om_sorted fs ∧ Forall (λ p, utf8_ok p.1 ∧ json_good p.2) fs.
Proof.
  unfold json_good. rewrite json_utf8_object, json_wf_object, !List.Forall_forall. naive_solver.
Qed.
Lemma json_good_array l : json_good (JArray l) ↔ Forall json_good l.
Proof.
  unfold json_good. rewrite json_utf8_array, json_wf_array, !List.Forall_forall. naive_solver.
Qed.

Lemma object_emplace_null_good k j : utf8_ok k → json_good j → json_good (object_emplace_null k j).
Proof.
  intros Hk Hj. destruct j; try done. apply json_good_object in Hj as [Hs Hj]. apply json_good_object.
  split; [by apply om_emplace_sorted|]. unfold om_emplace. case_match; [done|].
  by apply Forall_om_assign_pair.
Qed.

Lemma array_append_good v j : json_good v → json_good j → json_good (array_append v j).
Proof.
  intros Hv Hj. destruct j; try done. apply json_good_array in Hj. apply json_good_array.
  apply Forall_app. split; [done|by constructor].
Qed.

Lemma json_update_good p f j :
  (∀ j, json_good j → json_good (f j)) → json_good j → json_good (json_update p f j).
Proof.
  intros Hf. revert j. induction p as [|s p IH]; intros j Hj; [by apply Hf|].
  destruct s as [k|i], j as [|fields|items| | | | |]; try done; cbn [json_update].
  - apply json_good_object in Hj as [Hs Hj]. apply json_good_object.
    split; [by apply om_update_sorted|].
    unfold om_update. destruct (om_find k fields) as [v|] eqn:Ev; [|done].
    destruct (om_find_Forall _ _ _ _ Hj Ev) as [Hk Hv].
    apply Forall_om_assign_pair; [|done]. split; [done|]. by apply IH.
  - apply json_good_array in Hj. apply json_good_array. by apply Forall_alter; [|intros; apply IH].
Qed.

Lemma handle_value_good v b :
  json_good v → json_good (root b) → json_good (root (handle_value v b).2).
Proof.
  intros Hv Hb. unfold handle_value. destruct (ref_stack b) as [|p ?]; [done|].
  repeat case_match; cbn; (apply json_update_good; [|done]); intros j' Hj'; auto using array_append_good.
Qed.

Lemma sax_start_good c b : json_good c → json_good (root b) → json_good (root (sax_start c b)).
Proof.
  intros Hc Hb. unfold sax_start. pose proof (handle_value_good c b Hc Hb) as Hh.
  by destruct (handle_value c b).
Qed.

Lemma sax_key_good k b : utf8_ok k → json_good (root b) → json_good (root (sax_key k b)).
Proof.
  intros Hk Hb. unfold sax_key. destruct (ref_stack b) as [|p ?]; [done|]. cbn.
  apply json_update_good; [|done]. intros j. by apply object_emplace_null_good.
Qed.

(** ** The parser *)

Definition parser_ok (p : parser) : Prop :=
  byte_or_eof (m_lexer p) ∧ (last_token p = value_string → utf8_ok (token_buffer (m_lexer p))) ∧
  in_token_range (last_token p, m_lexer p).

Lemma get_token_ok p p' : byte_or_eof (m_lexer p) → get_token p = Some p' → parser_ok p'.
Proof.
  intros Hc. unfold get_token. destruct (scan (m_lexer p)) as [[t l]|] eqn:E; [|done].
  intros [= <-]. pose proof (scan_range (m_lexer p) _ E) as Hr.
  by apply (scan_valid _ _ _ Hc) in E as [? ?].
Qed.

Definition flow_ok (f : flow) : Prop :=
  match f with
  | Continue _ _ p b | ValueDone _ p b | Return p b => parser_ok p ∧ json_good (root b)
  | Raise _ | Hang => True
  end.

Lemma next_token_ok p k :
  parser_ok p → (∀ p', parser_ok p' → flow_ok (k p')) → flow_ok (next_token p k).
Proof.
  intros [Hc _] Hk. unfold next_token. destruct (get_token p) as [p'|] eqn:E; [|done].
  by apply Hk, (get_token_ok p).
Qed.

Create HintDb json_ok.
Hint Resolve handle_value_good sax_start_good sax_key_good : json_ok.

Lemma parse_key_ok states p b :
  parser_ok p → json_good (root b) → flow_ok (parse_key states p b).
Proof.
  intros Hp Hb. unfold parse_key. case_decide as Ht; [|done]. cbv zeta.
  apply next_token_ok; [done|]. intros p1 Hp1. case_decide; [|done].
  apply next_token_ok; [done|]. intros p2 Hp2.
  split; [done|]. destruct Hp as (_ & Hv & _). auto with json_ok.
Qed.
Hint Resolve parse_key_ok : json_ok.

Lemma evaluate_state_ok states p b :
  parser_ok p → json_good (root b) → flow_ok (evaluate_state states p b).
Proof.
  intros Hp Hb. unfold evaluate_state. destruct states as [|[] outer]; [done|..]; 
    apply next_token_ok; try done; intros p1 Hp1;
    (case_decide; [apply next_token_ok; [done|]; intros p2 Hp2|case_decide; [|done]]);
    try (split; auto with json_ok); auto with json_ok.
Qed.
Hint Resolve evaluate_state_ok : json_ok.

Lemma parse_value_ok states p b :
  parser_ok p → json_good (root b) → flow_ok (parse_value states p b).
Proof.
  intros Hp Hb. pose proof (proj2 (proj2 Hp)) as Hr. unfold parse_value.
  destruct (last_token p) eqn:Et; try done;
    try (split; [done|apply handle_value_good; [by split|exact Hb]]); cbv zeta.
  - split; [done|]. apply handle_value_good; [|done]. split; [|done]. by apply Hp.
  - destruct (dbl_isfinite _); [|done]. split; [done|]. apply handle_value_good; [by split|done].
  - assert (Hs : json_good (root (sax_start_array b))) by by apply sax_start_good.
    apply next_token_ok; [done|]. intros p1 Hp1. case_decide; split; auto with json_ok.
  - assert (Hs : json_good (root (sax_start_object b))) by (by apply sax_start_good; [split|]).
    apply next_token_ok; [done|]. intros p1 Hp1.
    case_decide; [split; auto with json_ok|]. auto with json_ok.
  - by case_match.
Qed.

Lemma sax_iteration_ok skip states p b :
  parser_ok p → json_good (root b) → flow_ok (sax_iteration skip states p b).
Proof.
  intros Hp Hb. unfold sax_iteration. destruct skip; [auto with json_ok|].
  pose proof (parse_value_ok states p b Hp Hb) as Hv.
  destruct (parse_value states p b) as [| |states' p'| |]; try exact Hv.
  destruct Hv. auto with json_ok.
Qed.

Lemma sax_loop_ok fuel skip states p b p' b' :
  parser_ok p → json_good (root b) → sax_loop fuel skip states p b = Some (Ok (p', b')) →
  parser_ok p' ∧ json_good (root b').
Proof.
  revert skip states p b. induction fuel as [|fuel IH]; intros skip states p b Hp Hb; cbn; [done|].
  pose proof (sax_iteration_ok skip states p b Hp Hb) as Hf.
  destruct (sax_iteration skip states p b); [|done| |done|done].
  - destruct Hf. by apply IH.
  - intros [= <- <-]. exact Hf.
Qed.

Lemma parser_parse_good strict text j : parser_parse strict text = Some (Ok j) → json_good j.
Proof.
  unfold parser_parse, sax_parse_internal, parser_init.
  destruct (get_token (mk_parser _ _)) as [p0|] eqn:E0; [|done]. cbn [mbind option_bind].
  apply get_token_ok in E0; [|unfold byte_or_eof; cbn; unfold eof; lia].
  destruct (sax_loop (parse_fuel text) false [] p0 builder_init) as [[[p b]|e]|] eqn:E; cbn; [|done..].
  apply sax_loop_ok in E as [Hp Hb]; [|done|by split].
  destruct strict; [|by intros [= <-]]. destruct (get_token p); cbn; [|done].
  case_decide; [|done]. by intros [= <-].
Qed.

Lemma json_parse_good text j : json_parse text = Ok j → json_good j.
Proof.
  unfold json_parse. destruct (parser_parse true text) as [r|] eqn:E; [|done].
  cbn. intros ->. by apply parser_parse_good in E.
Qed.

(** C18. Every value the parser returns, from any input, is well-formed (keys
    unique and in order, integers in the range of their type) and can be
    written again: the lexer accepts and produces only well-formed UTF-8,
    escapes included. *)
Theorem parsed_values_dump text j :
  json_parse text = Ok j → json_wf j ∧ ∃ out, json_dump j = Ok out.
Proof. intros [Hu Hwf]%json_parse_good. split; [done|]. by apply json_dump_ok. Qed.

Lemma parsed_values_dump_witness :
  let j := JArray [JInteger (-9223372036854775808);
                   JString (String "195" (String "169" EmptyString))] in
  json_wf j ∧ ∃ out, json_dump j = Ok out.
Proof.
  apply (parsed_values_dump (bq "[-9223372036854775808,`\u00e9`]")). vm_compute. reflexivity.
Defined.
