(* ===== verification/JsonTokens.v ===== *)
(** The lexer on the text the serializer writes: every token [dump()] writes
    is read back as the token it was written for, with its value. *)

From S2P Require Import Prelude Decimal StdMap Doubles Exceptions JsonValue JsonLexer.
From S2P Require Import JsonLexerFacts JsonParser JsonDtoa JsonDump JsonUtf8 JsonScanUtf8.

Local Open Scope Z_scope.

(** ** The bytes still to be read *)

(** Between tokens a byte, or the end of input, may have been put back. *)
Definition reads (st : lexer) (s : string) : Prop :=
  if next_unget st
  then (current st = eof ∧ ia st = EmptyString ∧ s = EmptyString) ∨
       (∃ c, current st = byte_of c ∧ s = String c (ia st))
  else ia st = s.

(** Inside a token: the bytes left and the token buffer. *)
Definition looks (st : lexer) (s buf : string) : Prop :=
  next_unget st = false ∧ ia st = s ∧ token_buffer st = buf.

Lemma looks_reads st s buf : looks st s buf → reads st s.
Proof. unfold reads. by intros (-> & ? & _). Qed.

Lemma get_reads c s st :
  reads st (String c s) → current (get st) = byte_of c ∧ looks (get st) s (token_buffer st).
Proof.
  unfold reads, get, looks. destruct (next_unget st).
  - intros [(_ & _ & ?)|(d & Hc & [= -> ->])]; [done|]. done.
  - intros ->. done.
Qed.

Lemma get_reads_nil st :
  reads st EmptyString → current (get st) = eof ∧ looks (get st) EmptyString (token_buffer st).
Proof.
  unfold reads, get, looks. destruct (next_unget st).
  - intros [(? & ? & _)|(d & _ & ?)]; done.
  - intros ->. done.
Qed.

Lemma get_looks c s buf st :
  looks st (String c s) buf → current (get st) = byte_of c ∧ looks (get st) s buf.
Proof.
  intros Hl. destruct (get_reads c s st (looks_reads _ _ _ Hl)) as [Hc (H1 & H2 & H3)].
  destruct Hl as (_ & _ & Hb). repeat split; congruence.
Qed.

Lemma unget_reads c s buf st :
  looks st s buf → current st = byte_of c →
  reads (unget st) (String c s) ∧ token_buffer (unget st) = buf.
Proof.
  intros (_ & <- & <-) Hc. split; [|done]. unfold reads, unget. cbn. right. eauto.
Qed.

Lemma unget_reads_nil buf st :
  looks st EmptyString buf → current st = eof →
  reads (unget st) EmptyString ∧ token_buffer (unget st) = buf.
Proof. intros (_ & Hi & <-) Hc. split; [|done]. unfold reads, unget. cbn. by left. Qed.

Lemma add_looks c s buf st :
  looks st s buf → looks (add (byte_of c) st) s (snoc buf c).
Proof.
  intros (H1 & H2 & H3). unfold looks, add. cbn. rewrite H3. repeat split; [done|done|].
  f_equal. unfold to_char. rewrite Z.mod_small by apply byte_of_range. apply char_of_byte_of.
Qed.

(** ** Where a token starts *)

Lemma skip_bom_reads st s :
  reads st s → (∀ c s', s = String c s' → byte_of c ≠ 239) →
  ∃ st', skip_bom st = (true, st') ∧ reads st' s.
Proof.
  intros Hr Hn. unfold skip_bom. cbv zeta. exists (unget (get st)). destruct s as [|c s].
  - destruct (get_reads_nil _ Hr) as [Hc Hl]. rewrite Hc. cbn [Z.eqb].
    split; [done|]. by apply (unget_reads_nil _ _ Hl).
  - destruct (get_reads _ _ _ Hr) as [Hc Hl]. rewrite Hc.
    destruct (Z.eqb_spec (byte_of c) 239) as [E|_]; [by destruct (Hn c s eq_refl)|].
    split; [done|]. by apply (unget_reads _ _ _ _ Hl).
Qed.

Definition token_start (c : ascii) : bool :=
  negb (is_whitespace (byte_of c)) && negb (byte_of c =? 239).

Lemma scan_reads st c s :
  reads st (String c s) → token_start c = true →
  ∃ st' buf, scan st = scan_token st' ∧ current st' = byte_of c ∧ looks st' s buf.
Proof.
  intros Hr [Hw Hb]%andb_true_iff. unfold scan.
  assert (∃ st1, (if chars_read_total (position st) =? 0 then skip_bom st else (true, st)) = (true, st1)
    ∧ reads st1 (String c s)) as (st1 & -> & Hr1).
  { destruct (_ =? 0); [|by exists st]. apply skip_bom_reads; [done|].
    intros ? ? [= <- <-] E. by rewrite E in Hb. }
  destruct (get_reads _ _ _ Hr1) as [Hc Hl]. unfold skip_whitespace, input_fuel.
  cbn [skip_whitespace_loop]. cbv zeta. rewrite Hc. apply negb_true_iff in Hw. rewrite Hw. eauto.
Qed.

Lemma scan_end st :
  reads st EmptyString → ∃ st', scan st = Some (end_of_input, st').
Proof.
  intros Hr. unfold scan.
  assert (∃ st1, (if chars_read_total (position st) =? 0 then skip_bom st else (true, st)) = (true, st1)
    ∧ reads st1 EmptyString) as (st1 & -> & Hr1).
  { destruct (_ =? 0); [|by exists st]. by apply skip_bom_reads. }
  destruct (get_reads_nil _ Hr1) as [Hc Hl]. unfold skip_whitespace, input_fuel.
  cbn [skip_whitespace_loop]. cbv zeta. rewrite Hc. cbn [is_whitespace].
  change (is_whitespace eof) with false. exists (get st1). cbn [mbind option_bind]. unfold scan_token. by rewrite Hc.
Qed.

(** ** Punctuation and literals *)

Definition punctuation (c : ascii) : option token_type :=
  let b := byte_of c in
  if b =? 91 then Some begin_array else if b =? 93 then Some end_array
  else if b =? 123 then Some begin_object else if b =? 125 then Some end_object
  else if b =? 58 then Some name_separator else if b =? 44 then Some value_separator
  else None.

Lemma punctuation_start c t : punctuation c = Some t → token_start c = true.
Proof.
  unfold punctuation, token_start, is_whitespace. cbv zeta. intros Hp.
  repeat case_match; b2p; try done; lia.
Qed.

Lemma scan_punctuation c t s st :
  punctuation c = Some t → reads st (String c s) →
  ∃ st', scan st = Some (t, st') ∧ reads st' s.
Proof.
  intros Hp Hr. destruct (scan_reads _ _ _ Hr (punctuation_start _ _ Hp)) as (st' & buf & -> & Hc & Hl).
  exists st'. split; [|by eapply looks_reads]. unfold scan_token. cbv zeta. rewrite Hc.
  unfold punctuation in Hp. cbv zeta in Hp. repeat case_match; by simplify_eq.
Qed.

Lemma scan_literal_looks lit t s buf st :
  looks st (lit +:+ s) buf → ∃ st', scan_literal lit t st = (t, st') ∧ looks st' s buf.
Proof.
  revert st. induction lit as [|c lit IH]; intros st Hl; cbn [scan_literal]; [by exists st|].
  rewrite sapp_cons in Hl. apply get_looks in Hl as [Hc Hl]. cbv zeta.
  rewrite Hc, to_char_byte, Z.eqb_refl by apply byte_of_range. by apply IH.
Qed.

Lemma keyword_reads c lit t s st :
  (∀ st', current st' = byte_of c → scan_token st' = Some (scan_literal lit t st')) →
  token_start c = true → reads st (String c lit +:+ s) →
  ∃ st', scan st = Some (t, st') ∧ reads st' s.
Proof.
  intros Hk Hc Hr. destruct (scan_reads _ _ _ Hr Hc) as (st1 & buf & -> & Hc1 & Hl).
  rewrite (Hk _ Hc1). destruct (scan_literal_looks lit t _ _ _ Hl) as (st2 & E & Hl2).
  exists st2. rewrite E. split; [done|by eapply looks_reads].
Qed.

Definition literal_token (text : string) : option token_type :=
  (if String.eqb text "true" then Some literal_true
   else if String.eqb text "false" then Some literal_false
   else if String.eqb text "null" then Some literal_null else None)%string.

Lemma scan_keyword text t s st :
  literal_token text = Some t → reads st (text +:+ s) →
  ∃ st', scan st = Some (t, st') ∧ reads st' s.
Proof.
  intros Ht Hr. unfold literal_token in Ht.
  destruct (String.eqb_spec text "true") as [->|_]; [injection Ht as <-; apply (keyword_reads "t" "rue"); [|done..]; intros st1 H1; unfold scan_token; by rewrite H1|].
  destruct (String.eqb_spec text "false") as [->|_]; [injection Ht as <-; apply (keyword_reads "f" "alse"); [|done..]; intros st1 H1; unfold scan_token; by rewrite H1|].
  destruct (String.eqb_spec text "null") as [->|_]; [injection Ht as <-; apply (keyword_reads "n" "ull"); [|done..]; intros st1 H1; unfold scan_token; by rewrite H1|done].
Qed.

(** ** Strings

    What the serializer writes for a well-formed string, and that the lexer
    reads it back. *)

(** *** ASCII characters *)

Lemma ascii_decode c cp :
  byte_of c <= 127 → decode UTF8_ACCEPT cp (byte_of c) = (UTF8_ACCEPT, byte_of c).
Proof.
  intros Hc.
  pose proof (all_bytes (λ c, negb (byte_of c <=? 127) ||
    (((decode UTF8_ACCEPT 0 (byte_of c)).1 =? UTF8_ACCEPT) &&
     ((decode UTF8_ACCEPT 0 (byte_of c)).2 =? byte_of c))) ltac:(vm_compute; reflexivity) c) as Ha.
  apply orb_true_iff in Ha as [Ha|Ha]; [b2p; lia|].
  change (decode UTF8_ACCEPT cp (byte_of c)) with (decode UTF8_ACCEPT 0 (byte_of c)).
  destruct (decode UTF8_ACCEPT 0 (byte_of c)) as [s' cp']. cbn [fst snd] in Ha. b2p. congruence.
Qed.

(** *** Longer sequences *)

Lemma lor_shift_6 x cp : 0 <= x < 64 → 0 <= cp → Z.lor x (Z.shiftl cp 6) = cp * 64 + x.
Proof.
  intros Hx Hcp. pose proof (Z.add_lor_land x (Z.shiftl cp 6)) as Hadd.
  assert (Z.land x (Z.shiftl cp 6) = 0) as Hl.
  { apply Z.bits_inj'. intros n Hn. rewrite Z.land_spec, Z.bits_0. destruct (Z_lt_le_dec n 6).
    - rewrite Z.shiftl_spec_low by done. apply andb_false_r.
    - rewrite <-(Z.mod_small x (2 ^ 6)) by (change (2 ^ 6) with 64; lia).
      by rewrite Z.mod_pow2_bits_high by lia. }
  rewrite Hl, Z.shiftl_mul_pow2 in Hadd by lia. rewrite Z.shiftl_mul_pow2 by lia.
  change (2 ^ 6) with 64 in *. lia.
Qed.

(** Enough of the code point has been read that it cannot end up below 0x80,
    nor wrap. *)
Definition codepoint_ok (cp : Z) (ranges : list (Z * Z)) : bool :=
  (0 <=? cp) && ((cp + 1) * 64 ^ Z.of_nat (length ranges) <=? 2 ^ 26) &&
  forallb (λ r, (128 <=? r.1) && (r.2 <=? 191)) ranges &&
  match ranges with
  | [] => 128 <=? cp
  | [_] => 2 <=? cp
  | (lo, _) :: _ => (1 <=? cp) || (130 <=? lo)
  end.

Lemma lead_codepoint c ranges :
  utf8_ranges (byte_of c) = Some ranges →
  codepoint_ok (decode UTF8_ACCEPT 0 (byte_of c)).2 ranges = true.
Proof.
  intros Hr.
  pose proof (all_bytes (λ c, match utf8_ranges (byte_of c) with
    | Some ranges => codepoint_ok (decode UTF8_ACCEPT 0 (byte_of c)).2 ranges
    | None => true end) ltac:(vm_compute; reflexivity) c) as Ha. cbv beta in Ha. by rewrite Hr in Ha.
Qed.

Lemma next_codepoint state cp lo hi ranges c :
  state ≠ UTF8_ACCEPT → codepoint_ok cp ((lo, hi) :: ranges) = true → lo <= byte_of c <= hi →
  codepoint_ok (decode state cp (byte_of c)).2 ranges = true.
Proof.
  intros Hs Hok Hc. unfold codepoint_ok in Hok. rewrite !andb_true_iff in Hok.
  destruct Hok as [[[H0 Hw] Hr] Hm]. cbn [forallb fst snd] in Hr. b2p.
  cbn [length] in Hw. rewrite Nat2Z.inj_succ, Z.pow_succ_r in Hw by lia.
  unfold decode. cbv zeta. apply Z.eqb_neq in Hs. rewrite Hs. cbn [snd].
  assert (Z.land (byte_of c) 63 = byte_of c - 128) as ->.
  { rewrite land_63 by lia. symmetry. apply Z.mod_unique with 2; lia. }
  rewrite lor_shift_6 by lia.
  pose proof (Z.pow_pos_nonneg 64 (Z.of_nat (length ranges)) ltac:(lia) ltac:(lia)) as Hp.
  assert (cp * 64 < 2 ^ 26) by nia.
  rewrite wrap_u_id by (unfold in_u; lia).
  unfold codepoint_ok. rewrite !andb_true_iff, !Z.leb_le. repeat split; [lia|nia|done|].
  destruct ranges as [|[lo1 hi1] [|r2 ranges]]; b2p; [apply Z.leb_le; lia| |].
  - apply orb_true_iff in Hm as [Hm|Hm]; b2p; apply Z.leb_le; lia.
  - apply orb_true_iff. left. apply orb_true_iff in Hm as [Hm|Hm]; b2p; apply Z.leb_le; lia.
Qed.

Lemma escape_above cp c : 128 <= cp → escape_codepoint cp c = String c EmptyString.
Proof. intros Hcp. unfold escape_codepoint. repeat (case_match; b2p; [lia|]). done. Qed.

(** The bytes after a lead byte are written as they are. *)
Lemma dump_tail ranges tail s i state cp last out :
  ranges ≠ [] → follows state ranges = true → tail_of ranges tail → codepoint_ok cp ranges = true →
  ∃ i' cp' last', dump_escaped_loop (tail +:+ s) i state cp last out =
    dump_escaped_loop s i' UTF8_ACCEPT cp' last' (out +:+ tail).
Proof.
  revert tail i state cp last out. induction ranges as [|[lo hi] ranges IH];
    intros tail i state cp last out Hne Hf Ht Hok; [done|].
  destruct tail as [|c tail]; [done|]. destruct Ht as [Hc Ht].
  destruct (follows_cons _ _ _ _ Hf) as (Hs & next & Hf' & Hstep).
  pose proof (next_codepoint _ _ _ _ _ _ Hs Hok Hc) as Hok'. rewrite sapp_cons.
  cbn [dump_escaped_loop]. cbv zeta. specialize (Hstep c). unfold dfa_step in Hstep.
  rewrite <-(decode_state state cp) in Hstep.
  replace (in_range lo hi c) with true in Hstep
    by (symmetry; unfold in_range; rewrite andb_true_iff, !Z.leb_le; lia).
  destruct (decode state cp (byte_of c)) as [state' cp']. cbn [fst snd] in *. subst state'.
  change (String c tail) with (String c EmptyString +:+ tail). rewrite sapp_assoc.
  destruct ranges as [|r ranges].
  - apply Z.eqb_eq in Hf' as ->. destruct tail as [|]; [|done]. cbn [UTF8_ACCEPT Z.eqb].
    rewrite escape_above, sapp_nil_r, sapp_nil_l by (unfold codepoint_ok in Hok'; rewrite !andb_true_iff, !Z.leb_le in Hok'; lia).
    by eexists _, _, _.
  - destruct (Z.eqb_spec next UTF8_ACCEPT) as [->|_].
    { destruct r as [??]. by apply follows_cons in Hf' as (? & _). }
    destruct (Z.eqb_spec next UTF8_REJECT) as [->|_].
    { by pose proof (follows_tail _ _ _ Hf' Ht) as Hr; rewrite dfa_reject in Hr. }
    destruct (IH tail (i + 1) next cp' (byte_of c) (snoc out c)) as (i2 & cp2 & last2 & E); [done..|].
    exists i2, cp2, last2. rewrite E, snoc_app. done.
Qed.

(** *** Reading the sequences back *)

Lemma bytes_in_range_looks ranges tail s buf st :
  looks st (tail +:+ s) buf → tail_of ranges tail →
  ∃ st', bytes_in_range ranges st = (true, st') ∧ looks st' s (buf +:+ tail).
Proof.
  revert tail buf st. induction ranges as [|[lo hi] ranges IH]; intros tail buf st Hl Ht;
    (destruct tail as [|c tail]; [try done|try done]).
  { exists st. split; [done|]. by rewrite sapp_nil_r. }
  destruct Ht as [Hc Ht]. rewrite sapp_cons in Hl. apply get_looks in Hl as [Hg Hl].
  cbn [bytes_in_range]. cbv zeta. rewrite Hg.
  replace ((lo <=? byte_of c) && (byte_of c <=? hi)) with true by lia.
  destruct (IH tail (snoc buf c) (add (byte_of c) (get st)) (add_looks _ _ _ _ Hl) Ht) as (st' & E & Hl').
  exists st'. split; [done|]. by rewrite snoc_app in Hl'.
Qed.

Lemma hex_digit_value d : 0 <= d < 16 → hex_value (byte_of (hex_digit_lower d)) = Some d.
Proof.
  intros Hd. rewrite <-(Z2Nat.id d) by lia. assert (Hn : (Z.to_nat d < 16)%nat) by lia.
  generalize dependent (Z.to_nat d). clear. intros n Hn.
  do 16 (destruct n as [|n]; [reflexivity|]). lia.
Qed.

Lemma hex_step c h s buf st :
  looks st (String c s) buf → hex_value (byte_of c) = Some h →
  hex_value (current (get st)) = Some h ∧ looks (get st) s buf.
Proof. intros [Hc Hl]%get_looks Hh. by rewrite Hc. Qed.

Lemma get_codepoint_looks n s buf st :
  0 <= n < 32 → looks st (String "0" (String "0" (String (hex_digit_lower (n / 16 mod 16))
    (String (hex_digit_lower (n mod 16)) s)))) buf →
  ∃ st', get_codepoint st = (n, st') ∧ looks st' s buf.
Proof.
  intros Hn Hl. pose proof (Z.mod_pos_bound (n / 16) 16 ltac:(lia)).
  pose proof (Z.mod_pos_bound n 16 ltac:(lia)).
  unfold get_codepoint. cbn [get_codepoint_from]. cbv zeta.
  destruct (hex_step _ _ _ _ _ Hl eq_refl) as [-> Hl1].
  destruct (hex_step _ _ _ _ _ Hl1 eq_refl) as [-> Hl2].
  destruct (hex_step _ _ _ _ _ Hl2 (hex_digit_value (n / 16 mod 16) ltac:(lia))) as [-> Hl3].
  destruct (hex_step _ _ _ _ _ Hl3 (hex_digit_value (n mod 16) ltac:(lia))) as [-> Hl4].
  eexists; split; [|exact Hl4]. f_equal. rewrite !Z.shiftl_mul_pow2 by lia.
  change (2 ^ 4) with 16. change (2 ^ 12) with 4096. change (2 ^ 8) with 256. change (2 ^ 0) with 1.
  rewrite (Z.mod_small (n / 16) 16) by (split; [apply Z.div_pos; lia|apply Z.div_lt_upper_bound; lia]).
  pose proof (Z.div_mod n 16 ltac:(lia)). change (byte_of "0") with 48. lia.
Qed.

(** One ASCII character, as the serializer writes it. *)
Definition ascii_text (c : ascii) : string := escape_codepoint (byte_of c) c.

(** A backslash and one more character. *)
Lemma scan_short_escape fuel c d s buf st :
  (∀ st1, current (get st1) = byte_of d → scan_escape st1 = (true, add (byte_of c) (get st1))) →
  looks st (String "\" (String d s)) buf →
  ∃ st', scan_string_loop (S fuel) st = scan_string_loop fuel st' ∧ looks st' s (snoc buf c).
Proof.
  intros He Hl. apply get_looks in Hl as [Hb Hl]. apply get_looks in Hl as [Hd Hl].
  exists (add (byte_of c) (get (get st))). split; [|by apply add_looks].
  cbn [scan_string_loop]. cbv zeta. by rewrite Hb, (He _ Hd).
Qed.

Lemma unicode_escape_small n st st' :
  get_codepoint st = (n, st') → 0 <= n < 128 → scan_unicode_escape st = (true, add n st').
Proof.
  intros E Hn. unfold scan_unicode_escape. rewrite E.
  replace (n =? -1) with false by lia. replace ((55296 <=? n) && (n <=? 56319)) with false by lia.
  replace ((56320 <=? n) && (n <=? 57343)) with false by lia.
  unfold add_codepoint. by replace (n <? 128) with true by lia.
Qed.

Lemma scan_u_escape fuel c s buf st :
  byte_of c < 32 → looks st (escape_u (byte_of c) +:+ s) buf →
  ∃ st', scan_string_loop (S fuel) st = scan_string_loop fuel st' ∧ looks st' s (snoc buf c).
Proof.
  intros Hc Hl. pose proof (byte_of_range c) as Hr. unfold escape_u in Hl.
  rewrite (Z.div_small _ 4096), (Z.div_small _ 256) in Hl by lia.
  cbn [append] in Hl. apply get_looks in Hl as [Hb Hl]. apply get_looks in Hl as [Hu Hl].
  destruct (get_codepoint_looks (byte_of c) s buf (get (get st)) ltac:(lia) Hl) as (st2 & Eg & Hl2).
  exists (add (byte_of c) st2). split; [|by apply add_looks].
  cbn [scan_string_loop]. cbv zeta. rewrite Hb. unfold scan_escape. cbv zeta. rewrite Hu.
  by rewrite (unicode_escape_small _ _ _ Eg) by lia.
Qed.

Lemma scan_ascii fuel c s buf st :
  byte_of c <= 127 → looks st (ascii_text c +:+ s) buf →
  ∃ st', scan_string_loop (S fuel) st = scan_string_loop fuel st' ∧ looks st' s (snoc buf c).
Proof.
  intros Hc Hl. unfold ascii_text, escape_codepoint in Hl.
  repeat (let Eb := fresh "Eb" in destruct (_ =? _) eqn:Eb in Hl;
    [b2p; cbn [append] in Hl; refine (scan_short_escape _ _ _ _ _ _ _ Hl); intros st1 H1;
     unfold scan_escape; cbv zeta; rewrite H1, Eb; reflexivity|]). b2p.
  destruct (Z.leb_spec (byte_of c) 31) as [Hu|Hu]; [apply scan_u_escape; [lia|done]|].
  cbn [append] in Hl. apply get_looks in Hl as [Hg Hl]. exists (add (byte_of c) (get st)).
  split; [|by apply add_looks]. cbn [scan_string_loop]. cbv zeta. rewrite Hg.
  pose proof (byte_of_range c). replace (byte_of c =? eof) with false by (unfold eof; lia).
  replace (byte_of c =? 34) with false by lia. replace (byte_of c =? 92) with false by lia.
  replace (byte_of c <=? 31) with false by lia. by replace (byte_of c <=? 127) with true by lia.
Qed.

Lemma ascii_text_length c : (0 < String.length (ascii_text c))%nat.
Proof.
  apply Nat.ltb_lt. revert c. apply all_bytes. vm_compute. reflexivity.
Qed.

(** *** A lead byte and what follows it *)

Lemma dump_multi c ranges tail s i cp last out :
  utf8_ranges (byte_of c) = Some ranges → tail_of ranges tail →
  ∃ i' cp' last', dump_escaped_loop (String c (tail +:+ s)) i UTF8_ACCEPT cp last out =
    dump_escaped_loop s i' UTF8_ACCEPT cp' last' (out +:+ String c tail).
Proof.
  intros Hr Ht. pose proof (multi_follows _ _ Hr) as Hf. pose proof (lead_codepoint _ _ Hr) as Hok.
  assert (Hne : ranges ≠ []) by (intros ->; unfold utf8_ranges in Hr; repeat case_match; done).
  cbn [dump_escaped_loop]. cbv zeta.
  change (decode UTF8_ACCEPT cp (byte_of c)) with (decode UTF8_ACCEPT 0 (byte_of c)).
  unfold dfa_step in Hf. destruct (decode UTF8_ACCEPT 0 (byte_of c)) as [state cp'].
  cbn [fst snd] in *. destruct (Z.eqb_spec state UTF8_ACCEPT) as [->|_].
  { destruct ranges as [|[??] ?]; [done|]. by apply follows_cons in Hf as (? & _). }
  destruct (Z.eqb_spec state UTF8_REJECT) as [->|_].
  { by pose proof (follows_tail _ _ _ Hf Ht) as Hd; rewrite dfa_reject in Hd. }
  destruct (dump_tail ranges tail s (i + 1) state cp' (byte_of c) (snoc out c))
    as (i2 & cp2 & last2 & E); [done..|].
  exists i2, cp2, last2. by rewrite E, snoc_app.
Qed.

Lemma scan_multi fuel c ranges tail s buf st :
  utf8_ranges (byte_of c) = Some ranges → tail_of ranges tail →
  looks st (String c (tail +:+ s)) buf →
  ∃ st', scan_string_loop (S fuel) st = scan_string_loop fuel st' ∧
    looks st' s (buf +:+ String c tail).
Proof.
  intros Hr Ht Hl. pose proof (ranges_not_ascii _ _ Hr) as Hc. apply get_looks in Hl as [Hg Hl].
  destruct (bytes_in_range_looks ranges tail s _ _ (add_looks c _ _ _ Hl) Ht) as (st' & E & Hl').
  exists st'. rewrite snoc_app in Hl'. split; [|done].
  cbn [scan_string_loop]. cbv zeta. rewrite Hg.
  replace (byte_of c =? eof) with false by (unfold eof; lia).
  replace (byte_of c =? 34) with false by lia. replace (byte_of c =? 92) with false by lia.
  replace (byte_of c <=? 31) with false by lia. replace (byte_of c <=? 127) with false by lia.
  unfold next_byte_in_range. by rewrite Hr, Hg, E.
Qed.

(** A whole string: what is written, and that it is read back. *)
Lemma string_text s :
  utf8 s → ∃ e,
    (∀ i cp last out, dump_escaped_loop s i UTF8_ACCEPT cp last out = Ok (out +:+ e)) ∧
    (∀ fuel rest buf st, (String.length e < fuel)%nat → looks st (e +:+ DQ +:+ rest) buf →
       ∃ st', scan_string_loop fuel st = Some (value_string, st') ∧ looks st' rest (buf +:+ s)).
Proof.
  induction 1 as [|c s Hc _ (e & Hd & Hs)|c ranges tail s Hr Ht _ (e & Hd & Hs)].
  - exists EmptyString. split; [intros; by rewrite sapp_nil_r|].
    intros [|fuel] rest buf st Hf Hl; [cbn in Hf; lia|]. cbn [append DQ] in Hl.
    apply get_looks in Hl as [Hg Hl]. exists (get st). rewrite sapp_nil_r. split; [|done].
    cbn [scan_string_loop]. cbv zeta. by rewrite Hg.
  - exists (ascii_text c +:+ e). split.
    + intros i cp last out. cbn [dump_escaped_loop]. cbv zeta. rewrite ascii_decode by done.
      cbn [UTF8_ACCEPT Z.eqb]. by rewrite Hd, sapp_assoc.
    + intros [|fuel] rest buf st Hf Hl; [lia|]. rewrite <-sapp_assoc in Hl.
      destruct (scan_ascii fuel _ _ _ _ Hc Hl) as (st1 & -> & Hl1).
      destruct (Hs fuel rest _ _ ltac:(rewrite slength_app in Hf; pose proof (ascii_text_length c); lia) Hl1) as (st2 & E & Hl2).
      exists st2. split; [done|]. by rewrite snoc_app in Hl2.
  - exists (String c tail +:+ e). split.
    + intros i cp last out. destruct (dump_multi c ranges tail s i cp last out Hr Ht) as (i' & cp' & l' & ->).
      by rewrite Hd, sapp_assoc.
    + intros [|fuel] rest buf st Hf Hl; [lia|]. rewrite sapp_cons, sapp_cons, <-sapp_assoc in Hl.
      destruct (scan_multi fuel _ _ _ _ _ _ Hr Ht Hl) as (st1 & -> & Hl1).
      destruct (Hs fuel rest _ _ ltac:(rewrite slength_app in Hf; cbn in Hf; lia) Hl1) as (st2 & E & Hl2).
      exists st2. split; [done|]. by rewrite <-sapp_assoc, sapp_cons in Hl2.
Qed.

Lemma scan_dumped_string s text rest st :
  dump_string s = Ok text → reads st (text +:+ rest) →
  ∃ st', scan st = Some (value_string, st') ∧ token_buffer st' = s ∧ reads st' rest.
Proof.
  unfold dump_string. intros (e & Hd & [= <-])%result_bind_ok Hr.
  assert (Hu : utf8 s) by (apply dump_escaped_utf8; eauto).
  destruct (string_text s Hu) as (e' & He & Hs). unfold dump_escaped in Hd. rewrite He in Hd.
  injection Hd as <-. rewrite sapp_nil_l in Hr. cbn [append DQ] in Hr.
  destruct (scan_reads _ _ _ Hr eq_refl) as (st1 & buf & -> & Hc & Hl).
  rewrite <-sapp_assoc in Hl. unfold scan_token. cbv zeta. rewrite Hc.
  change (scan_string st1) with (scan_string_loop (input_fuel (reset st1)) (reset st1)).
  assert (Hl0 : looks (reset st1) (e' +:+ DQ +:+ rest) EmptyString) by (destruct Hl as (?&?&?); done).
  destruct (Hs (input_fuel (reset st1)) rest _ _ ltac:(destruct Hl0 as (_ & Hi & _); unfold input_fuel;
    rewrite Hi, slength_app; lia) Hl0) as (st2 & E & Hl2).
  exists st2. split; [exact E|]. split; [by destruct Hl2 as (_ & _ & ->)|by eapply looks_reads].
Qed.

(** ** Integers *)

(** [dump_integer] writes two digits at a time what [std::to_string] writes. *)
Lemma dump_digits_text fuel x buf :
  0 <= x < 100 ^ Z.of_nat fuel → (0 < fuel)%nat → dump_digits fuel x buf = dec_nonneg x +:+ buf.
Proof.
  revert x buf. induction fuel as [|f IH]; intros x buf Hx Hf; [lia|]. cbn [dump_digits].
  rewrite Nat2Z.inj_succ, Z.pow_succ_r in Hx by lia. unfold digits_to_99.
  destruct (Z.leb_spec 100 x).
  - assert (1 <= x / 100) by (apply Z.div_le_lower_bound; lia).
    assert (x / 100 < 100 ^ Z.of_nat f) by (apply Z.div_lt_upper_bound; lia).
    rewrite IH; [|lia|destruct f; cbn in *; lia].
    rewrite (dec_nonneg_step x), (dec_nonneg_step (x / 10)) by (try apply Z.div_le_lower_bound; lia).
    rewrite Z.div_div, <-!sapp_assoc by lia. change (10 * 10) with 100.
    assert (x mod 100 / 10 = (x / 10) mod 10) as ->.
    { change 100 with (10 * 10). rewrite Z.rem_mul_r by lia.
      rewrite Z.add_comm, (Z.mul_comm 10), Z.div_add_l by lia.
      rewrite (Z.div_small (x mod 10)) by (apply Z.mod_pos_bound; lia). lia. }
    assert ((x mod 100) mod 10 = x mod 10) as ->.
    { change 100 with (10 * 10). rewrite Z.rem_mul_r by lia.
      rewrite Z.add_comm, (Z.mul_comm 10), Z.add_comm, Z.mod_add by lia. apply Z.mod_mod. lia. }
    done.
  - destruct (Z.leb_spec 10 x).
    + rewrite dec_nonneg_step by lia. rewrite dec_nonneg_small; [done|].
      split; [apply Z.div_pos; lia|apply Z.div_lt_upper_bound; lia].
    + by rewrite dec_nonneg_small by lia.
Qed.

Lemma dump_integer_text n : - 2 ^ 63 <= n < 2 ^ 64 → dump_integer n = to_string n.
Proof.
  intros Hn. unfold dump_integer, to_string.
  assert (Hp : 2 ^ 64 < 100 ^ Z.of_nat 10) by (vm_compute; reflexivity).
  destruct (Z.eqb_spec n 0) as [->|Hz]; [done|]. destruct (Z.ltb_spec n 0).
  - f_equal. replace (remove_sign n) with (- n).
    + rewrite dump_digits_text by lia. apply sapp_nil_r.
    + unfold remove_sign. rewrite (wrap_u_id 64 (- (n + 1))) by (unfold in_u; lia).
      rewrite wrap_u_id by (unfold in_u; lia). lia.
  - rewrite dump_digits_text by lia. apply sapp_nil_r.
Qed.

(** *** The number automaton on a text *)

(** The type of the number a text is, if it is one: the run of [scan_number]
    from the state entered after the first character. *)
Fixpoint number_run (s : num_state) (ty : token_type) (text : string) : option token_type :=
  match text with
  | EmptyString => match num_transition s eof with NumDone => Some (num_enter s ty) | _ => None end
  | String c text' =>
      match num_transition s (byte_of c) with
      | NumGoto s' => number_run s' (num_enter s ty) text'
      | _ => None
      end
  end.

Definition number_first (c : ascii) : num_state :=
  if byte_of c =? 45 then NumMinus else if byte_of c =? 48 then NumZero else NumAny1.

Definition number_type (text : string) : option token_type :=
  match text with
  | String c text' =>
      if (byte_of c =? 45) || is_digit_int (byte_of c)
      then number_run (number_first c) value_unsigned text' else None
  | EmptyString => None
  end.

(** What may follow a value in the serializer's output. *)
Definition delimited (rest : string) : bool :=
  match rest with
  | EmptyString => true
  | String c _ => (byte_of c =? 44) || (byte_of c =? 93) || (byte_of c =? 125)
  end.

Lemma transition_delimiter s c rest :
  delimited (String c rest) = true → num_transition s (byte_of c) = num_transition s eof.
Proof.
  cbn [delimited]. intros Hd. unfold num_transition, is_digit_int, eof.
  apply orb_true_iff in Hd as [[Hd|Hd]%orb_true_iff|Hd]; apply Z.eqb_eq in Hd; rewrite Hd; by destruct s.
Qed.

Lemma scan_number_text fuel s ty text rest buf st t :
  number_run s ty text = Some t → delimited rest = true → looks st (text +:+ rest) buf →
  (String.length text < fuel)%nat →
  ∃ st', scan_number_loop fuel s ty st = Some (scan_number_done t st') ∧
    reads (unget st') rest ∧ token_buffer (unget st') = buf +:+ text.
Proof.
  revert s ty text buf st. induction fuel as [|fuel IH]; intros s ty text buf st Hr Hd Hl Hf; [lia|].
  cbn [scan_number_loop]. cbv zeta. destruct text as [|c text]; cbn [number_run] in Hr.
  - rewrite sapp_nil_l in Hl. rewrite sapp_nil_r. exists (get st). destruct rest as [|c rest].
    + destruct (get_reads_nil _ (looks_reads _ _ _ Hl)) as [Hc Hl']. rewrite Hc.
      destruct (num_transition s eof); simplify_eq. split; [done|].
      destruct Hl as (_ & _ & <-). by apply unget_reads_nil.
    + apply get_looks in Hl as [Hc Hl]. rewrite Hc, (transition_delimiter s c rest Hd).
      destruct (num_transition s eof); simplify_eq. split; [done|]. by apply unget_reads.
  - rewrite sapp_cons in Hl. apply get_looks in Hl as [Hc Hl]. rewrite Hc.
    destruct (num_transition s (byte_of c)) as [s'| |]; [|done..].
    destruct (IH s' _ text (snoc buf c) (add (byte_of c) (get st)) Hr Hd) as (st' & E & Hr' & Hb).
    { by apply add_looks. } { cbn in Hf. lia. }
    exists st'. by rewrite snoc_app in Hb.
Qed.

Lemma scan_number_token text ty rest st :
  number_type text = Some ty → delimited rest = true → reads st (text +:+ rest) →
  ∃ st', scan st = Some (scan_number_done ty st') ∧ reads (unget st') rest ∧
    token_buffer (unget st') = text.
Proof.
  intros Ht Hd Hr. destruct text as [|c text]; [done|]. cbn [number_type] in Ht.
  destruct ((byte_of c =? 45) || is_digit_int (byte_of c)) eqn:Hc; [|done]. rewrite sapp_cons in Hr.
  assert (Hb : byte_of c = 45 ∨ 48 <= byte_of c <= 57)
    by (unfold is_digit_int in Hc; apply orb_true_iff in Hc as [Hc|Hc]; b2p; lia).
  assert (token_start c = true) as Hs.
  { unfold token_start, is_whitespace. rewrite andb_true_iff, !negb_true_iff, !orb_false_iff, !Z.eqb_neq. lia. }
  destruct (scan_reads _ _ _ Hr Hs) as (st1 & buf & -> & Hc1 & Hl1).
  set (st2 := add (byte_of c) (reset st1)).
  assert (Hl2 : looks st2 (text +:+ rest) (String c EmptyString)).
  { apply (add_looks c _ EmptyString (reset st1)). by destruct Hl1 as (?&?&?). }
  assert (scan_token st1 = scan_number_loop (input_fuel (reset st1)) (number_first c) value_unsigned st2) as ->.
  { unfold scan_token. cbv zeta. rewrite Hc1. unfold scan_number. cbv zeta.
    change (current (reset st1)) with (current st1). rewrite Hc1, Hc.
    do 10 (match goal with |- context [byte_of c =? ?n] =>
      replace (byte_of c =? n) with false by lia end). reflexivity. }
  destruct (scan_number_text (input_fuel (reset st1)) (number_first c) value_unsigned text rest _ st2 ty Ht Hd Hl2)
    as (st' & E & Hr' & Hb').
  { destruct Hl1 as (_ & Hi & _). unfold input_fuel. change (ia (reset st1)) with (ia st1).
    rewrite Hi, slength_app. lia. }
  by exists st'.
Qed.

(** *** The texts of integers *)

Lemma number_run_digits ty text :
  sforall is_digit text = true → number_run NumAny1 ty text = Some ty.
Proof.
  induction text as [|c text IH]; [done|]. cbn [sforall number_run]. intros [Hc Hs]%andb_true_iff.
  cbn [num_transition]. change (is_digit_int (byte_of c)) with (is_digit c). rewrite Hc. by apply IH.
Qed.

Lemma number_run_positive s ty n :
  s = NumMinus → 0 < n → number_run s ty (dec_nonneg n) = Some value_integer.
Proof.
  intros -> Hn. destruct (dec_nonneg_head n Hn) as (c & t & E & Hc & Hv).
  pose proof (dec_nonneg_digits n ltac:(lia)) as Hd. rewrite E in *.
  cbn [sforall] in Hd. apply andb_true_iff in Hd as [_ Hd]. cbn [number_run num_transition].
  unfold digit_val in Hv. replace (byte_of c =? 48) with false by lia.
  change (is_digit_int (byte_of c)) with (is_digit c). rewrite Hc. by apply number_run_digits.
Qed.

Lemma number_type_unsigned n : 0 <= n → number_type (dec_nonneg n) = Some value_unsigned.
Proof.
  intros Hn. destruct (Z.eq_dec n 0) as [->|]; [reflexivity|].
  destruct (dec_nonneg_head n ltac:(lia)) as (c & t & E & Hc & Hv).
  pose proof (dec_nonneg_digits n ltac:(lia)) as Hd. rewrite E in *.
  cbn [sforall] in Hd. apply andb_true_iff in Hd as [_ Hd]. cbn [number_type].
  change (is_digit_int (byte_of c)) with (is_digit c). rewrite Hc, orb_true_r.
  unfold digit_val in Hv. unfold number_first. unfold is_digit in Hc. b2p.
  replace (byte_of c =? 45) with false by lia. replace (byte_of c =? 48) with false by lia.
  by apply number_run_digits.
Qed.

Lemma number_type_integer n : 0 < n → number_type (String "-" (dec_nonneg n)) = Some value_integer.
Proof. intros Hn. by apply number_run_positive. Qed.

Lemma span_digits_all s : sforall is_digit s = true → span_digits s = (s, EmptyString).
Proof.
  induction s as [|c s IH]; [done|]. cbn [sforall span_digits]. intros [-> Hs]%andb_true_iff.
  by rewrite IH.
Qed.

Lemma strtoull_text n : 0 <= n < 2 ^ 64 → strtoull (dec_nonneg n) = Some n.
Proof.
  intros Hn. unfold strtoull. cbv zeta. rewrite span_digits_all by (apply dec_nonneg_digits; lia).
  cbn [fst]. rewrite dec_value_nonneg by lia. by replace (n <? 2 ^ 64) with true by lia.
Qed.

Lemma strtoll_text n : 0 < n <= 2 ^ 63 → strtoll (String "-" (dec_nonneg n)) = Some (- n).
Proof.
  intros Hn. unfold strtoll. cbn [split_sign]. change (byte_of "-" =? 45) with true. cbv iota.
  rewrite span_digits_all by (apply dec_nonneg_digits; lia).
  cbn [fst]. rewrite dec_value_nonneg by lia.
  by replace ((- 2 ^ 63 <=? - n) && (- n <? 2 ^ 63)) with true by lia.
Qed.

Lemma scan_unsigned n rest st :
  0 <= n < 2 ^ 64 → delimited rest = true → reads st (dump_integer n +:+ rest) →
  ∃ st', scan st = Some (value_unsigned, st') ∧ value_unsigned_ st' = n ∧ reads st' rest.
Proof.
  intros Hn Hd Hr. rewrite dump_integer_text in Hr by lia. unfold to_string in Hr.
  replace (n <? 0) with false in Hr by lia.
  destruct (scan_number_token _ _ _ _ (number_type_unsigned n ltac:(lia)) Hd Hr) as (st1 & -> & Hr1 & Hb).
  unfold scan_number_done. cbv zeta. rewrite Hb, strtoull_text by lia.
  eexists; split; [reflexivity|]. split; [reflexivity|exact Hr1].
Qed.

Lemma scan_integer n rest st :
  - 2 ^ 63 <= n < 0 → delimited rest = true → reads st (dump_integer n +:+ rest) →
  ∃ st', scan st = Some (value_integer, st') ∧ value_integer_ st' = n ∧ reads st' rest.
Proof.
  intros Hn Hd Hr. rewrite dump_integer_text in Hr by lia. unfold to_string in Hr.
  replace (n <? 0) with true in Hr by lia.
  destruct (scan_number_token _ _ _ _ (number_type_integer (- n) ltac:(lia)) Hd Hr) as (st1 & -> & Hr1 & Hb).
  unfold scan_number_done. cbv zeta. rewrite Hb, strtoll_text by lia.
  eexists; split; [reflexivity|]. split; [cbn; lia|exact Hr1].
Qed.

Lemma scan_float d rest st :
  number_type (to_chars d) = Some value_float → strtod (to_chars d) = d → delimited rest = true → reads st (to_chars d +:+ rest) →
  ∃ st', scan st = Some (value_float, st') ∧ value_float_ st' = d ∧ reads st' rest.
Proof.
  intros Ht Hf Hd Hr.
  destruct (scan_number_token _ _ _ _ Ht Hd Hr) as (st1 & -> & Hr1 & Hb).
  unfold scan_number_done. cbv zeta. rewrite Hb. eexists; split; [reflexivity|]. split; [exact Hf|exact Hr1].
Qed.
