(* ===== verification/JsonFloatText.v ===== *)
(** The texts of floating-point numbers: what [to_chars] writes is a number of
    the JSON grammar, and [strtod] reads it back as the number written. *)

From S2P Require Import Prelude Decimal Doubles FloatRound JsonLexer JsonDtoa JsonGrisuDigits.
From S2P Require Import JsonGrisu JsonTokens.

Local Open Scope Z_scope.

(** ** Digits in a text *)

Definition no_digit (s : string) : Prop :=
  match s with String c _ => is_digit c = false | EmptyString => True end.

Lemma span_digits_app d rest :
  sforall is_digit d = true → no_digit rest → span_digits (d +:+ rest) = (d, rest).
Proof.
  induction d as [|c d IH]; cbn [sforall].
  - intros _ Hr. rewrite sapp_nil_l. destruct rest as [|c rest]; [done|]. cbn in Hr |- *. by rewrite Hr.
  - intros [Hc Hd]%andb_true_iff Hr. rewrite sapp_cons. cbn. by rewrite Hc, IH.
Qed.

Lemma zeros_digits n : sforall is_digit (zeros n) = true.
Proof. induction n as [|n IH]; [done|]. cbn. exact IH. Qed.

Lemma dec_value_zeros_l n s : dec_value (zeros n +:+ s) = dec_value s.
Proof.
  unfold dec_value. rewrite dec_value_from_app. f_equal.
  induction n as [|n IH]; [done|]. exact IH.
Qed.

Lemma zeros_length n : String.length (zeros n) = n.
Proof. induction n as [|n IH]; [done|]. cbn. by rewrite IH. Qed.

Lemma zeros_app n m : zeros n +:+ zeros m = zeros (n + m).
Proof. induction n as [|n IH]; [done|]. cbn [zeros Nat.add]. by rewrite sapp_cons, IH. Qed.

Lemma dec_value_zeros_r s n : dec_value (s +:+ zeros n) = dec_value s * 10 ^ Z.of_nat n.
Proof.
  unfold dec_value. rewrite dec_value_from_app. generalize (dec_value_from 0 s). intros a. revert a.
  induction n as [|n IH]; intros a; [cbn; lia|]. cbn [zeros dec_value_from]. rewrite IH.
  rewrite Nat2Z.inj_succ, Z.pow_succ_r by lia. change (digit_val "0") with 0. lia.
Qed.

(** ** [strtod] *)

(** The sign of a number. *)
Definition sign_text (neg : bool) : string := if neg then "-" else "".

Lemma split_sign_text neg i rest :
  sforall is_digit i = true → i ≠ EmptyString →
  split_sign (sign_text neg +:+ i +:+ rest) = (neg, i +:+ rest).
Proof.
  intros Hi Hne. destruct neg; [done|]. change (sign_text false) with EmptyString. rewrite sapp_nil_l.
  destruct i as [|c i]; [done|].
  cbn [sforall] in Hi. apply andb_true_iff in Hi as [Hc _]. rewrite sapp_cons. cbn [split_sign].
  unfold is_digit in Hc. b2p. by replace (byte_of c =? 45) with false by lia.
Qed.

Lemma strtod_point neg i f rest :
  sforall is_digit i = true → i ≠ EmptyString → sforall is_digit f = true → no_digit rest →
  strtod (sign_text neg +:+ i +:+ String "." (f +:+ rest)) =
  dbl_of_dec neg (dec_value (i +:+ f)) (read_exponent rest - Z.of_nat (String.length f)).
Proof.
  intros Hi Hne Hf Hr. unfold strtod. rewrite split_sign_text, span_digits_app by done.
  change (byte_of "." =? 46) with true. cbv iota. by rewrite span_digits_app.
Qed.

(** An integral part followed by an exponent. *)
Lemma strtod_no_point neg i c rest :
  sforall is_digit i = true → i ≠ EmptyString → is_digit c = false → byte_of c ≠ 46 →
  strtod (sign_text neg +:+ i +:+ String c rest) =
  dbl_of_dec neg (dec_value i) (read_exponent (String c rest)).
Proof.
  intros Hi Hne Hc Hp. unfold strtod. rewrite split_sign_text, span_digits_app by done.
  rewrite (proj2 (Z.eqb_neq _ _) Hp). by rewrite sapp_nil_r, Z.sub_0_r.
Qed.

(** ** The grammar *)

Lemma number_run_app s ty d rest :
  s = NumAny1 ∨ s = NumDecimal2 ∨ s = NumAny2 → sforall is_digit d = true →
  number_run s ty (d +:+ rest) = number_run s ty rest.
Proof.
  intros Hs. induction d as [|c d IH]; cbn [sforall]; [done|]. intros [Hc Hd]%andb_true_iff.
  rewrite sapp_cons. cbn [number_run].
  assert (num_transition s (byte_of c) = NumGoto s) as ->.
  { change (is_digit c) with (is_digit_int (byte_of c)) in Hc.
    destruct Hs as [-> | [-> | ->]]; cbn [num_transition]; by rewrite Hc. }
  rewrite <- IH by done. by destruct Hs as [-> | [-> | ->]].
Qed.

(** The text of a nonempty numeral, or of a zero before a point. *)
Definition integral (i : string) : Prop := numeral i ∨ i = "0"%string.

Lemma numeral_nonempty i : numeral i → i ≠ EmptyString.
Proof. by intros [_ Hc] ->. Qed.

Lemma integral_digits i : integral i → sforall is_digit i = true ∧ i ≠ EmptyString.
Proof. intros [Hi| ->]; [|done]. split; [apply Hi|by apply numeral_nonempty]. Qed.

(** Before a point or an exponent the integral part is read off. *)
Lemma number_type_integral neg i c rest :
  integral i → byte_of c = 46 ∨ byte_of c = 101 →
  ∃ ty, number_type (sign_text neg +:+ i +:+ String c rest) =
        number_run (if byte_of c =? 46 then NumDecimal1 else NumExponent) ty rest.
Proof.
  intros Hi Hc.
  assert (∀ s ty, s = NumAny1 ∨ s = NumZero →
    number_run s ty (String c rest) =
    number_run (if byte_of c =? 46 then NumDecimal1 else NumExponent) (num_enter s ty) rest) as Hstep.
  { intros s ty Hs. cbn [number_run].
    assert (is_digit_int (byte_of c) = false) as Hd.
    { unfold is_digit_int. destruct Hc as [-> | ->]; reflexivity. }
    destruct Hs as [-> | ->]; cbn [num_transition]; rewrite ?Hd; destruct Hc as [-> | ->]; reflexivity. }
  destruct Hi as [[Hd Hh]| ->].
  - destruct i as [|h i]; [done|]. cbn [sforall] in Hd. apply andb_true_iff in Hd as [Hd1 Hd].
    assert (byte_of h ≠ 48 ∧ 48 <= byte_of h <= 57) as [Hh0 Hhd].
    { unfold digit_val in Hh. unfold is_digit in Hd1. b2p. lia. }
    rewrite sapp_cons. destruct neg.
    + exists value_integer. change (sign_text true) with "-"%string. rewrite sapp_cons, sapp_nil_l.
      cbn [number_type]. change (number_first "-") with NumMinus. change (byte_of "-" =? 45) with true. cbn [orb number_run].
      cbn [num_transition]. rewrite (proj2 (Z.eqb_neq _ _) Hh0).
      change (is_digit h) with (is_digit_int (byte_of h)) in Hd1. rewrite Hd1.
      rewrite number_run_app by (by left || done). apply (Hstep NumAny1). by left.
    + exists value_unsigned. change (sign_text false) with EmptyString. rewrite sapp_nil_l.
      cbn [number_type]. change (is_digit h) with (is_digit_int (byte_of h)) in Hd1. rewrite Hd1, orb_true_r.
      unfold number_first. rewrite (proj2 (Z.eqb_neq _ 45)), (proj2 (Z.eqb_neq _ _) Hh0) by lia.
      rewrite number_run_app by (by left || done). apply (Hstep NumAny1). by left.
  - destruct neg; [exists value_integer|exists value_unsigned]; apply (Hstep NumZero); by right.
Qed.

(** Digits behind a point, and then nothing or an exponent. *)
Lemma number_run_fraction ty f rest :
  sforall is_digit f = true → f ≠ EmptyString →
  number_run NumDecimal1 ty (f +:+ rest) = number_run NumDecimal2 value_float rest.
Proof.
  intros Hf Hne. destruct f as [|c f]; [done|]. cbn [sforall] in Hf. apply andb_true_iff in Hf as [Hc Hf].
  rewrite sapp_cons. cbn [number_run num_transition].
  change (is_digit c) with (is_digit_int (byte_of c)) in Hc. rewrite Hc.
  cbn [num_enter]. apply number_run_app; [auto|done].
Qed.

(** ** Exponents *)

Lemma append_exponent_text b e :
  -1000 < e < 1000 →
  ∃ sg ds, append_exponent (snoc b "e") e = b +:+ String "e" (String sg ds) ∧
    (byte_of sg = 43 ∨ byte_of sg = 45) ∧ sforall is_digit ds = true ∧ ds ≠ EmptyString ∧
    read_exponent (String "e" (String sg ds)) = e.
Proof.
  intros He. unfold append_exponent. set (sg := if e <? 0 then "-"%char else "+"%char).
  assert ((if e <? 0 then (snoc (snoc b "e") "-", - e) else (snoc (snoc b "e") "+", e)) =
          (snoc (snoc b "e") sg, Z.abs e)) as ->.
  { unfold sg. destruct (Z.ltb_spec e 0); f_equal; lia. }
  set (a := Z.abs e). assert (0 <= a < 1000) as Ha by lia.
  assert (∀ ds, sforall is_digit ds = true → ds ≠ EmptyString → dec_value ds = a →
    ∃ sg' ds', snoc (snoc b "e") sg +:+ ds = b +:+ String "e" (String sg' ds') ∧
      (byte_of sg' = 43 ∨ byte_of sg' = 45) ∧ sforall is_digit ds' = true ∧ ds' ≠ EmptyString ∧
      read_exponent (String "e" (String sg' ds')) = e) as Hds.
  { intros ds Hd Hne Hv. exists sg, ds. split; [by rewrite !snoc_app|].
    split; [unfold sg; destruct (e <? 0); [right|left]; reflexivity|]. split; [done|]. split; [done|].
    unfold read_exponent. change ((byte_of "e" =? 101) || (byte_of "e" =? 69)) with true. cbv iota.
    rewrite <- (sapp_nil_r ds), span_digits_app by done. cbn [fst].
    rewrite Hv. unfold sg, a. destruct (Z.ltb_spec e 0) as [Hneg|Hneg].
    - change (byte_of "-" =? 45) with true. cbv iota. lia.
    - change (byte_of "+" =? 45) with false. change (byte_of "+" =? 43) with true. cbv iota. lia. }
  assert (a < 10 ∨ 10 <= a < 100 ∨ 100 <= a) as [H1|[H2|H3]] by lia.
  - rewrite (proj2 (Z.ltb_lt _ _) H1).
    destruct (Hds (String "0" (String (digit_char a) EmptyString))) as (sg' & ds' & E & Hrest).
    + cbn [sforall]. by rewrite digit_char_is_digit by lia.
    + done.
    + unfold dec_value. cbn [dec_value_from]. rewrite digit_val_char by lia. change (digit_val "0") with 0. lia.
    + exists sg', ds'. split; [|done]. rewrite <- E. by rewrite <- !snoc_app, sapp_nil_r.
  - rewrite (proj2 (Z.ltb_ge a 10)), (proj2 (Z.ltb_lt a 100)) by lia.
    pose proof (Z.div_mod a 10 ltac:(lia)). pose proof (Z.mod_pos_bound a 10 ltac:(lia)).
    destruct (Hds (String (digit_char (a / 10)) (String (digit_char (a mod 10)) EmptyString))) as (sg' & ds' & E & Hrest).
    + cbn [sforall]. by rewrite !digit_char_is_digit by lia.
    + done.
    + unfold dec_value. cbn [dec_value_from]. rewrite !digit_val_char by lia. lia.
    + exists sg', ds'. split; [|done]. rewrite <- E. by rewrite <- !snoc_app, sapp_nil_r.
  - rewrite (proj2 (Z.ltb_ge a 10)), (proj2 (Z.ltb_ge a 100)) by lia.
    pose proof (Z.div_mod a 100 ltac:(lia)). pose proof (Z.mod_pos_bound a 100 ltac:(lia)).
    pose proof (Z.div_mod (a mod 100) 10 ltac:(lia)). pose proof (Z.mod_pos_bound (a mod 100) 10 ltac:(lia)).
    destruct (Hds (String (digit_char (a / 100)) (String (digit_char (a mod 100 / 10))
      (String (digit_char ((a mod 100) mod 10)) EmptyString)))) as (sg' & ds' & E & Hrest).
    + cbn [sforall]. by rewrite !digit_char_is_digit by lia.
    + done.
    + unfold dec_value. cbn [dec_value_from]. rewrite !digit_val_char by lia. lia.
    + exists sg', ds'. split; [|done]. rewrite <- E. by rewrite <- !snoc_app, sapp_nil_r.
Qed.

Lemma number_run_exponent s ty sg ds :
  s = NumExponent ∨ s = NumDecimal2 ∧ ty = value_float → byte_of sg = 43 ∨ byte_of sg = 45 →
  sforall is_digit ds = true → ds ≠ EmptyString →
  number_run s ty (match s with NumExponent => String sg ds | _ => String "e" (String sg ds) end) = Some value_float.
Proof.
  intros Hs Hsg Hd Hne.
  assert (number_run NumExponent ty (String sg ds) = Some value_float) as He.
  { cbn [number_run num_transition num_enter].
    assert ((byte_of sg =? 43) || (byte_of sg =? 45) = true) as -> by (by destruct Hsg as [-> | ->]).
    destruct ds as [|c ds]; [done|]. cbn [sforall] in Hd. apply andb_true_iff in Hd as [Hc Hd].
    cbn [number_run num_transition num_enter].
    change (is_digit c) with (is_digit_int (byte_of c)) in Hc. rewrite Hc.
    rewrite <- (sapp_nil_r ds), number_run_app by auto. reflexivity. }
  destruct Hs as [-> |[-> ->]]; [done|]. exact He.
Qed.

(** ** The texts of [format_buffer] *)

(** The number [m * 10^k] in the text is [D * 10^j]: equal, or written with a
    trailing zero. *)
Definition same_decimal (D j m k : Z) : Prop :=
  m = D ∧ k = j ∨ 0 <= j ∧ m = D * 10 ^ (j + 1) ∧ k = -1.

Lemma format_buffer_reads neg buf de :
  numeral buf → -400 < Z.of_nat (String.length buf) + de <= 400 →
  let text := sign_text neg +:+ format_buffer buf de (-4) 15 in
  number_type text = Some value_float ∧
  ∃ m k, strtod text = dbl_of_dec neg m k ∧ same_decimal (dec_value buf) de m k.
Proof.
  intros Hbuf Hn. pose proof (numeral_nonempty buf Hbuf) as Hne. destruct Hbuf as [Hd Hh].
  assert (numeral buf) as Hbuf by done.
  unfold format_buffer. set (k := Z.of_nat (String.length buf)) in *. set (n := k + de) in *.
  assert (1 <= k) as Hk by (unfold k; destruct buf; [done|cbn; lia]). cbv zeta.
  destruct ((k <=? n) && (n <=? 15)) eqn:E1; [|destruct ((0 <? n) && (n <=? 15)) eqn:E2;
    [|destruct ((-4 <? n) && (n <=? 0)) eqn:E3]].
  - (* digits, zeros, ".0" *)
    b2p. rewrite (sapp_assoc buf). set (i := buf +:+ zeros (Z.to_nat (n - k))).
    assert (numeral i) as Hi.
    { split; [by unfold i; rewrite sforall_app, Hd, zeros_digits|]. unfold i. by destruct buf. }
    change ".0"%string with (String "." ("0" +:+ EmptyString)). split.
    + destruct (number_type_integral neg i "." ("0" +:+ EmptyString)) as [ty ->]; [by left|by left|].
      change (byte_of "." =? 46) with true. cbv iota. by rewrite (number_run_fraction ty "0" EmptyString).
    + exists (dec_value (i +:+ "0")), (-1). rewrite strtod_point; [|apply Hi|by apply numeral_nonempty|done|done].
      split; [done|]. right. split; [lia|]. split; [|done].
      unfold i. rewrite <- sapp_assoc. change "0"%string with (zeros 1).
      rewrite zeros_app, dec_value_zeros_r. do 2 f_equal. lia.
  - (* a point inside the digits *)
    assert (n < k) as Hnk by (apply andb_false_iff in E1 as [E1|E1]; b2p; lia). b2p.
    set (i := String.substring 0 (Z.to_nat n) buf). set (f := String.substring (Z.to_nat n) (Z.to_nat (k - n)) buf).
    assert (buf = i +:+ f) as Ebuf.
    { unfold i, f. rewrite <- substring_split by lia.
      replace (Z.to_nat n + Z.to_nat (k - n))%nat with (String.length buf) by lia. by rewrite substring_all. }
    assert (String.length i = Z.to_nat n) as Hli by (apply substring_length; lia).
    assert (String.length f = Z.to_nat (k - n)) as Hlf by (apply substring_length; lia).
    assert (numeral i ∧ sforall is_digit f = true) as [Hi Hf].
    { rewrite Ebuf, sforall_app in Hd. apply andb_true_iff in Hd as [Hdi Hdf]. split; [|done]. split; [done|].
      rewrite Ebuf in Hh. destruct i; [cbn in Hli; lia|done]. }
    assert (f ≠ EmptyString) as Hfne by (intros E; rewrite E in Hlf; cbn in Hlf; lia).
    rewrite sapp_assoc. change ("." +:+ f)%string with (String "." f). rewrite <- sapp_assoc, <- (sapp_nil_r f).
    split.
    + destruct (number_type_integral neg i "." (f +:+ EmptyString)) as [ty ->]; [by left|by left|].
      change (byte_of "." =? 46) with true. cbv iota. by rewrite number_run_fraction.
    + exists (dec_value buf), de. rewrite strtod_point by (done || apply Hi || by apply numeral_nonempty).
      split; [|by left]. rewrite <- Ebuf. cbn [read_exponent]. f_equal. lia.
  - (* zeros behind the point *)
    b2p. set (f := zeros (Z.to_nat (- n)) +:+ buf).
    assert (sforall is_digit f = true) as Hf by (unfold f; by rewrite sforall_app, zeros_digits).
    assert (f ≠ EmptyString) as Hfne by (unfold f; by destruct (zeros _), buf).
    change ("0." +:+ f)%string with ("0" +:+ String "." f)%string. rewrite <- (sapp_nil_r f). split.
    + destruct (number_type_integral neg "0" "." (f +:+ EmptyString)) as [ty ->]; [by right|by left|].
      change (byte_of "." =? 46) with true. cbv iota. by rewrite number_run_fraction.
    + exists (dec_value buf), de. rewrite strtod_point by done. split; [|by left].
      change ("0"%string) with (zeros 1). rewrite dec_value_zeros_l. unfold f at 1. rewrite dec_value_zeros_l.
      cbn [read_exponent]. f_equal. unfold f. rewrite slength_app, zeros_length. lia.
  - destruct (append_exponent_text (if k =? 1 then buf else
      String.substring 0 1 buf +:+ "." +:+ String.substring 1 (Z.to_nat (k - 1)) buf) (n - 1))
      as (sg & ds & E & Hsg & Hds & Hdne & Hexp); [lia|].
    destruct (Z.eqb_spec k 1) as [Hk1|Hk1]; rewrite E; clear E.
    + (* one digit *)
      split.
      * destruct (number_type_integral neg buf "e" (String sg ds)) as [ty ->]; [by left|by right|].
        by apply (number_run_exponent NumExponent); [left|..].
      * exists (dec_value buf), de. rewrite strtod_no_point by done. split; [|by left]. rewrite Hexp. f_equal. lia.
    + (* several digits *)
      destruct buf as [|c f]; [done|].
      assert (String.substring 0 1 (String c f) = String c EmptyString) as -> by (by apply substring_one).
      assert (String.substring 1 (Z.to_nat (k - 1)) (String c f) = f) as ->.
      { cbn [String.substring]. rewrite <- (substring_all f) at 2. f_equal. cbn in k. lia. }
      assert (f ≠ EmptyString) as Hfne by (intros ->; cbn in k; lia).
      cbn [sforall] in Hd. apply andb_true_iff in Hd as [Hc Hf].
      assert (numeral (String c EmptyString)) as Hi by (split; [cbn [sforall]; by rewrite Hc|done]).
      rewrite <- !sapp_assoc. change ("." +:+ f +:+ String "e" (String sg ds))%string
        with (String "." (f +:+ String "e" (String sg ds))). split.
      * destruct (number_type_integral neg (String c EmptyString) "." (f +:+ String "e" (String sg ds))) as [ty ->];
          [by left|by left|].
        change (byte_of "." =? 46) with true. cbv iota. rewrite number_run_fraction by done.
        by apply (number_run_exponent NumDecimal2); [right|..].
      * exists (dec_value (String c f)), de. rewrite strtod_point by (done || apply Hi).
        split; [|by left]. rewrite Hexp. f_equal. cbn in k. lia.
Qed.

(** ** Reading back *)

(** A trailing zero does not change the number. *)
Lemma same_decimal_rounds mt e D j m k :
  same_decimal D j m k → decimal_rounds_to mt e D j → decimal_rounds_to mt e m k.
Proof.
  intros [[-> ->]|(Hj & -> & ->)]; [done|]. unfold decimal_rounds_to, rounds_to.
  change (Z.max (-1) 0) with 0. change (Z.max (- -1) 0) with 1.
  rewrite (Z.max_l j), (Z.max_r (- j)), (Z.pow_add_r 10 j 1), !Z.pow_0_r, Z.pow_1_r by lia.
  generalize (2 ^ (e + 1074)) (2 ^ 1074) (10 ^ j). intros w v t [[H1 H2] H3].
  split; [split; lia|]. intros E He. specialize (H3 E He). lia.
Qed.

Lemma numeral_positive s : numeral s → 0 < dec_value s.
Proof.
  intros Hs. pose proof (numeral_bounds s Hs) as [Hlo _]. pose proof (numeral_nonempty s Hs).
  destruct s as [|c s]; [done|]. cbn [String.length] in Hlo.
  assert (0 < 10 ^ (Z.of_nat (S (String.length s)) - 1)) by (apply Z.pow_pos_nonneg; lia). lia.
Qed.

Lemma same_decimal_positive D j m k : 0 < D → same_decimal D j m k → 0 < m.
Proof.
  intros HD [[-> _]|(Hj & -> & _)]; [done|]. apply Z.mul_pos_pos; [done|]. apply Z.pow_pos_nonneg; lia.
Qed.

(** C5. Every finite binary64 number is written as a number of the JSON grammar
    that [strtod] reads back as exactly that number, sign and zeros included:
    Grisu2's text always lies inside the rounding interval. *)
Theorem to_chars_round_trip d :
  dbl_isfinite d = true → valid_binary 53 1024 d = true →
  number_type (to_chars d) = Some value_float ∧ strtod (to_chars d) = d.
Proof.
  intros Hfin Hvalid. destruct d as [neg| | |neg m e]; try done.
  { destruct neg; split; reflexivity. }
  cbn [valid_binary] in Hvalid. cbn [to_chars]. destruct (grisu2 m e) as [buf k] eqn:Eg.
  destruct (grisu2_interval m e buf k Hvalid Eg) as [Hnum Hr].
  pose proof (grisu2_magnitude m e buf k Hvalid Eg) as Hmag.
  destruct (format_buffer_reads neg buf k Hnum Hmag) as [Ht (m' & k' & Hs & Hsame)].
  fold (sign_text neg). split; [exact Ht|]. rewrite Hs. apply dbl_of_dec_nearest; [done| |].
  - by eapply same_decimal_positive; [apply numeral_positive|].
  - by eapply same_decimal_rounds.
Qed.

Lemma to_chars_round_trip_witness :
  strtod "2.2250738585072014e-308" = S754_finite false 4503599627370496 (-1074) ∧
  number_type "2.2250738585072014e-308" = Some value_float.
Proof.
  destruct (to_chars_round_trip (S754_finite false 4503599627370496 (-1074))) as [Ht Hs];
    [reflexivity|vm_compute; reflexivity|].
  split; [exact Hs|exact Ht].
Defined.
