(* ===== verification/JsonRoundTrip.v ===== *)
(** Writing a value and parsing the text gives the value back: the parser on
    the serializer's output. *)

From S2P Require Import Prelude Decimal StdMap Doubles Exceptions JsonValue JsonLexer.
From S2P Require Import JsonLexerFacts JsonParser JsonParserFacts JsonDtoa JsonDump JsonUtf8.
From S2P Require Import JsonScanUtf8 JsonSpec JsonTokens JsonFloatText.

(** ** What is read back

    The text of a number does not tell its type: a nonnegative integer is read
    back as unsigned.  A float that is not finite is written as null. *)
Fixpoint reparse (j : json) : json :=
  match j with
  | JObject fs => JObject (map (λ p, (p.1, reparse p.2)) fs)
  | JArray l => JArray (map reparse l)
  | JInteger n => if (n <? 0)%Z then JInteger n else JUnsigned n
  | JFloat d => if dbl_isfinite d then JFloat d else JNull
  | j => j
  end.

(** ** The loop without fuel *)

Definition finishes (f : flow) (r : result exn (parser * builder)) : Prop :=
  match f with
  | Continue skip states p b => ∃ n, sax_loop n skip states p b = Some r
  | Return p b => r = Ok (p, b)
  | Raise e => r = Throw e
  | ValueDone _ _ _ | Hang => False
  end.

Lemma finishes_continue skip states p b r :
  finishes (sax_iteration skip states p b) r → finishes (Continue skip states p b) r.
Proof.
  intros Hf. cbn. destruct (sax_iteration skip states p b) as [skip' st' p' b'| |p' b'|e|] eqn:E; cbn in Hf.
  - destruct Hf as [n Hn]. exists (S n). cbn. by rewrite E.
  - done.
  - exists 1. cbn. by rewrite E, Hf.
  - exists 1. cbn. by rewrite E, Hf.
  - done.
Qed.

Lemma sax_loop_mono n m skip states p b r :
  n ≤ m → sax_loop n skip states p b = Some r → sax_loop m skip states p b = Some r.
Proof.
  revert m skip states p b. induction n as [|n IH]; intros [|m] skip states p b Hm; try done; [lia|].
  cbn. destruct (sax_iteration skip states p b); [|done..]. apply IH. lia.
Qed.

(** ** Where the next value goes *)

(** The next value given to the builder lands at [q], making [place v] the
    root; values there can be looked up and updated. *)
Record slotted (b : builder) (q : path) (place : json → json) : Prop := {
  slot_handle v : handle_value v b = (q, mk_builder (place v) (ref_stack b) (object_element b));
  slot_at v : json_at q (place v) = Some v;
  slot_update g v : json_update q g (place v) = place (g v);
}.
Arguments slot_handle {b q place}.
Arguments slot_at {b q place}.
Arguments slot_update {b q place}.

Lemma json_at_app p q j : json_at (p ++ q) j = json_at p j ≫= json_at q.
Proof.
  revert j. induction p as [|[k|i] p IH]; intros j; [done|..]; destruct j; try done; cbn.
  - destruct (om_find k fields); [apply IH|done].
  - destruct (items !! i); [apply IH|done].
Qed.

Lemma json_update_app p q g j : json_update (p ++ q) g j = json_update p (json_update q g) j.
Proof.
  revert j. induction p as [|[k|i] p IH]; intros j; [done|..]; destruct j; try done; cbn; f_equal.
  - unfold om_update. destruct (om_find k fields); [by rewrite IH|done].
  - apply list_alter_ext; [|done]. intros. apply IH.
Qed.

Lemma slotted_root b : ref_stack b = [] → slotted b [] id.
Proof. intros Hs. split; [|done..]. intros v. unfold handle_value. by rewrite Hs. Qed.

(** An open array with the items [l] so far. *)
Lemma slotted_array b q place l oe :
  slotted b q place →
  slotted (mk_builder (place (JArray l)) (q :: ref_stack b) oe) (q ++ [Idx (length l)])
    (λ v, place (JArray (l ++ [v]))).
Proof.
  intros Hs. split; intros.
  - unfold handle_value. cbn [ref_stack root object_element]. rewrite (slot_at Hs), (slot_update Hs). done.
  - rewrite json_at_app, (slot_at Hs). cbn. by rewrite list_lookup_middle.
  - rewrite json_update_app, (slot_update Hs). cbn. do 2 f_equal.
    by rewrite alter_app_r_alt, Nat.sub_diag by done.
Qed.

(** An open object after its key [k], which is behind those of [fs]. *)
Lemma slotted_object b q place fs k :
  slotted b q place → om_sorted (fs ++ [(k, JNull)]) →
  slotted (mk_builder (place (JObject (fs ++ [(k, JNull)]))) (q :: ref_stack b) (q ++ [Key k]))
    (q ++ [Key k]) (λ v, place (JObject (fs ++ [(k, v)]))).
Proof.
  intros Hs Hk.
  assert (Hsorted : ∀ v : json, om_sorted (fs ++ [(k, v)]))
    by (intros v; eapply om_sorted_keys; [|exact Hk]; by rewrite !fmap_app).
  assert (Hfind : ∀ v : json, om_find k (fs ++ [(k, v)]) = Some v).
  { intros v. apply om_find_in; [done|]. apply in_or_app. right. by left. }
  assert (Hup : ∀ g v, om_update k g (fs ++ [(k, v)]) = fs ++ [(k, g v)]).
  { intros g v. unfold om_update. rewrite Hfind. by apply om_assign_last. }
  split; intros.
  - unfold handle_value. cbn [ref_stack root object_element]. rewrite (slot_at Hs).
    rewrite json_update_app, (slot_update Hs). cbn. by rewrite Hup.
  - rewrite json_at_app, (slot_at Hs). cbn. by rewrite Hfind.
  - rewrite json_update_app, (slot_update Hs). cbn. by rewrite Hup.
Qed.

(** ** Tokens of the serializer's output *)

Lemma token_after_scan p t l : scan (m_lexer p) = Some (t, l) → token_after p = mk_parser l t.
Proof. unfold token_after, get_token. by intros ->. Qed.

Lemma next_punctuation c t s p :
  punctuation c = Some t → reads (m_lexer p) (String c s) →
  last_token (token_after p) = t ∧ reads (m_lexer (token_after p)) s.
Proof.
  intros Hp Hr. destruct (scan_punctuation _ _ _ _ Hp Hr) as (st & E & Hs).
  by rewrite (token_after_scan _ _ _ E).
Qed.

(** ** Values

    The parser, about to read the text of [j], gets to the end of that text
    with the value read back in its place, and goes on from there. *)
Definition value_parses (j : json) : Prop :=
  ∀ text rest states p0 b q place,
    json_dump j = Ok text → delimited rest = true → reads (m_lexer p0) (text +:+ rest) →
    slotted b q place →
    last_token (token_after p0) ≠ end_array ∧
    ∃ p' oe, reads (m_lexer p') rest ∧
      ∀ r, finishes (evaluate_state states p' (mk_builder (place (reparse j)) (ref_stack b) oe)) r →
        finishes (sax_iteration false states (token_after p0) b) r.

(** A value of one token. *)
Lemma token_parses j t l rest states p0 b q place :
  scan (m_lexer p0) = Some (t, l) → reads l rest → t ≠ end_array → slotted b q place →
  parse_value states (mk_parser l t) b = ValueDone states (mk_parser l t) (sax_value (reparse j) b) →
  last_token (token_after p0) ≠ end_array ∧
  ∃ p' oe, reads (m_lexer p') rest ∧
    ∀ r, finishes (evaluate_state states p' (mk_builder (place (reparse j)) (ref_stack b) oe)) r →
      finishes (sax_iteration false states (token_after p0) b) r.
Proof.
  intros E Hr Ht Hs Hv. rewrite (token_after_scan _ _ _ E). split; [done|].
  exists (mk_parser l t), (object_element b). split; [done|]. intros r Hf.
  unfold sax_iteration. rewrite Hv. unfold sax_value. by rewrite (slot_handle Hs).
Qed.

Lemma keyword_parses j text t :
  literal_token text = Some t → json_dump j = Ok text →
  (∀ states l b, parse_value states (mk_parser l t) b =
     ValueDone states (mk_parser l t) (sax_value (reparse j) b)) →
  value_parses j.
Proof.
  intros Ht Hd Hv text' rest states p0 b q place Hd' _ Hr Hs.
  rewrite Hd in Hd'. injection Hd' as <-.
  destruct (scan_keyword _ _ _ _ Ht Hr) as (l & E & Hl).
  apply (token_parses j t l rest states p0 b q place); [done|done| |done|done].
  unfold literal_token in Ht. intros ->. by repeat case_match.
Qed.

Lemma string_parses s : value_parses (JString s).
Proof.
  intros text rest states p0 b q place Hd _ Hr Hs.
  destruct (scan_dumped_string _ _ _ _ Hd Hr) as (l & E & Hb & Hl).
  apply (token_parses (JString s) value_string l rest states p0 b q place); [done..|].
  cbn. by rewrite Hb.
Qed.

Lemma unsigned_parses n text rest states p0 b q place :
  (0 <= n < 2 ^ 64)%Z → text = dump_integer n → delimited rest = true →
  reads (m_lexer p0) (text +:+ rest) → slotted b q place →
  last_token (token_after p0) ≠ end_array ∧
  ∃ p' oe, reads (m_lexer p') rest ∧
    ∀ r, finishes (evaluate_state states p' (mk_builder (place (JUnsigned n)) (ref_stack b) oe)) r →
      finishes (sax_iteration false states (token_after p0) b) r.
Proof.
  intros Hn -> Hd Hr Hs. destruct (scan_unsigned _ _ _ Hn Hd Hr) as (l & E & Hb & Hl).
  apply (token_parses (JUnsigned n) value_unsigned l rest states p0 b q place); [done..|].
  cbn. by rewrite Hb.
Qed.

Lemma integer_parses n : in_s 64 n → value_parses (JInteger n).
Proof.
  intros Hn text rest states p0 b q place [= <-] Hd Hr Hs. unfold in_s in Hn.
  destruct (Z.ltb_spec n 0) as [Hz|Hz].
  - destruct (scan_integer n _ _ ltac:(lia) Hd Hr) as (l & E & Hb & Hl).
    apply (token_parses (JInteger n) value_integer l rest states p0 b q place); [done..|].
    cbn. apply Z.ltb_lt in Hz. by rewrite Hb, Hz.
  - cbn [reparse]. replace (n <? 0)%Z with false by lia.
    apply (unsigned_parses n (dump_integer n) rest states p0 b q place); [lia|done..].
Qed.

Lemma float_parses d : valid_binary 53 1024 d = true → value_parses (JFloat d).
Proof.
  intros Hv. destruct (dbl_isfinite d) eqn:Ed.
  - intros text rest states p0 b q place Hd Hdel Hr Hs. cbn in Hd. unfold dump_float in Hd.
    rewrite Ed in Hd. injection Hd as <-. destruct (to_chars_round_trip d Ed Hv) as [Ht Hf].
    destruct (scan_float _ _ _ Ht Hf Hdel Hr) as (l & E & Hb & Hl).
    apply (token_parses (JFloat d) value_float l rest states p0 b q place); [done..|].
    cbn. by rewrite Hb, Ed.
  - apply (keyword_parses _ "null" literal_null); [done| |].
    + cbn. unfold dump_float. by rewrite Ed.
    + intros. cbn. by rewrite Ed.
Qed.

(** ** Arrays *)

Lemma dump_items_cons v l body :
  dump_items (v :: l) = Ok body →
  ∃ val rest, json_dump v = Ok val ∧ dump_items l = Ok rest ∧
    body = val +:+ (match l with [] => "" | _ => "," end)%string +:+ rest.
Proof.
  cbn. intros (val & Hv & (rest & Hr & [= <-])%result_bind_ok)%result_bind_ok.
  exists val, rest. auto.
Qed.

Lemma items_parse v l ds body rest states p0 b q place oe :
  Forall value_parses (v :: l) → slotted b q place → dump_items (v :: l) = Ok body →
  reads (m_lexer p0) (body +:+ "]" +:+ rest) →
  last_token (token_after p0) ≠ end_array ∧
  ∃ p' oe', reads (m_lexer p') rest ∧
    ∀ r, finishes (evaluate_state states p'
             (mk_builder (place (JArray (ds ++ map reparse (v :: l)))) (ref_stack b) oe')) r →
      finishes (sax_iteration false (true :: states) (token_after p0)
             (mk_builder (place (JArray ds)) (q :: ref_stack b) oe)) r.
Proof.
  revert v ds body p0 oe. induction l as [|w l IH]; intros v ds body p0 oe Hp Hs Hd Hr;
    inversion Hp as [|?? Hv Hl]; subst;
    apply dump_items_cons in Hd as (val & tail & Hdv & Hdt & ->);
    pose proof (slotted_array b q place ds oe Hs) as Hslot.
  - injection Hdt as <-. rewrite !sapp_nil_r in Hr.
    destruct (Hv val ("]" +:+ rest) (true :: states) p0 _ _ _ Hdv eq_refl Hr Hslot)
      as (Hne & p1 & oe1 & Hr1 & Hgo).
    split; [done|]. destruct (next_punctuation "]" end_array _ _ eq_refl Hr1) as [Ht1 Hr2].
    exists (token_after p1), oe1. split; [done|]. intros r Hf. apply Hgo.
    unfold evaluate_state. rewrite next_token_after, Ht1. cbn [decide]. apply finishes_continue. exact Hf.
  - rewrite <-!sapp_assoc in Hr.
    destruct (Hv val ("," +:+ tail +:+ "]" +:+ rest) (true :: states) p0 _ _ _ Hdv eq_refl Hr Hslot)
      as (Hne & p1 & oe1 & Hr1 & Hgo).
    split; [done|]. destruct (next_punctuation "," value_separator _ _ eq_refl Hr1) as [Ht1 Hr2].
    destruct (IH w (ds ++ [reparse v]) tail (token_after p1) oe1 Hl Hs Hdt Hr2)
      as (_ & p2 & oe2 & Hr3 & Hgo2).
    exists p2, oe2. split; [done|]. intros r Hf. apply Hgo.
    unfold evaluate_state. rewrite next_token_after, Ht1, decide_True, next_token_after by done. apply finishes_continue.
    apply Hgo2. by rewrite <-app_assoc.
Qed.

Lemma array_parses l : Forall value_parses l → value_parses (JArray l).
Proof.
  intros Hp text rest states p0 b q place Hd Hdel Hr Hs. destruct l as [|v l].
  - injection Hd as <-. destruct (next_punctuation "[" begin_array _ _ eq_refl Hr) as [Ht Hr1].
    destruct (next_punctuation "]" end_array _ _ eq_refl Hr1) as [Ht2 Hr2].
    rewrite Ht. split; [done|]. exists (token_after (token_after p0)), (object_element b).
    split; [done|]. intros r Hf. unfold sax_iteration, parse_value. rewrite Ht, next_token_after, Ht2.
    unfold sax_start_array, sax_start. by rewrite (slot_handle Hs).
  - rewrite json_dump_array in Hd. apply result_bind_ok in Hd as (body & Hd & [= <-]).
    rewrite <-!sapp_assoc in Hr.
    destruct (next_punctuation "[" begin_array _ _ eq_refl Hr) as [Ht Hr1].
    destruct (items_parse v l [] body rest states (token_after p0) b q place (object_element b) Hp Hs Hd Hr1)
      as (Hne & p1 & oe1 & Hr2 & Hgo).
    rewrite Ht. split; [done|]. exists p1, oe1. split; [done|]. intros r Hf. apply Hgo in Hf.
    unfold sax_iteration at 1, parse_value. rewrite Ht, next_token_after.
    rewrite decide_False by done. unfold sax_start_array, sax_start. rewrite (slot_handle Hs).
    by apply finishes_continue.
Qed.

(** ** Objects *)

Abbreviation reparse_field := (λ p : string * json, (p.1, reparse p.2)).

Lemma dump_fields_cons k v l body :
  dump_fields ((k, v) :: l) = Ok body →
  ∃ key val rest, dump_string k = Ok key ∧ json_dump v = Ok val ∧ dump_fields l = Ok rest ∧
    body = key +:+ ":" +:+ val +:+ (match l with [] => "" | _ => "," end)%string +:+ rest.
Proof.
  cbn [dump_fields].
  intros (key & Hk & (val & Hv & (rest & Hr & [= <-])%result_bind_ok)%result_bind_ok)%result_bind_ok.
  exists key, val, rest. auto.
Qed.

(** A key, its separator and its value. *)
Lemma field_parses k v ds key val more states p0 b q place oe :
  value_parses v → slotted b q place → om_sorted (ds ++ [(k, JNull)]) →
  dump_string k = Ok key → json_dump v = Ok val → delimited more = true →
  reads (m_lexer p0) (key +:+ ":" +:+ val +:+ more) →
  last_token (token_after p0) ≠ end_object ∧
  ∃ p' oe', reads (m_lexer p') more ∧
    ∀ r, finishes (evaluate_state (false :: states) p'
             (mk_builder (place (JObject (ds ++ [(k, reparse v)]))) (q :: ref_stack b) oe')) r →
      finishes (parse_key (false :: states) (token_after p0)
             (mk_builder (place (JObject ds)) (q :: ref_stack b) oe)) r.
Proof.
  intros Hv Hs Hk Hdk Hdv Hdel Hr. destruct (scan_dumped_string _ _ _ _ Hdk Hr) as (l & E & Hb & Hl).
  rewrite (token_after_scan _ _ _ E). split; [done|].
  destruct (next_punctuation ":" name_separator _ (mk_parser l value_string) eq_refl Hl) as [Ht Hr1].
  destruct (Hv val more (false :: states) _ _ _ _ Hdv Hdel Hr1 (slotted_object b q place ds k Hs Hk))
    as (_ & p1 & oe1 & Hr2 & Hgo).
  exists p1, oe1. split; [done|]. intros r Hf. apply Hgo in Hf.
  unfold parse_key. cbn [last_token m_lexer]. rewrite decide_True by done. cbv zeta.
  rewrite next_token_after, Ht, decide_True, next_token_after by done. apply finishes_continue. rewrite Hb.
  unfold sax_key. cbn [ref_stack root]. rewrite (slot_update Hs). cbn [object_emplace_null].
  unfold om_emplace. by rewrite (om_find_snoc_none k JNull), om_assign_snoc.
Qed.

Lemma sorted_key (ds l : list (string * json)) k v w :
  om_sorted (ds ++ (k, v) :: l) → om_sorted (ds ++ [(k, w)]).
Proof.
  rewrite cons_middle, app_assoc. intros [Hk _]%om_sorted_app.
  eapply om_sorted_keys; [|exact Hk]. by rewrite !fmap_app.
Qed.

Lemma fields_parse k v fs ds body rest states p0 b q place oe :
  Forall (λ p, value_parses p.2) ((k, v) :: fs) → slotted b q place →
  om_sorted (ds ++ map reparse_field ((k, v) :: fs)) → dump_fields ((k, v) :: fs) = Ok body →
  reads (m_lexer p0) (body +:+ "}" +:+ rest) →
  last_token (token_after p0) ≠ end_object ∧
  ∃ p' oe', reads (m_lexer p') rest ∧
    ∀ r, finishes (evaluate_state states p'
             (mk_builder (place (JObject (ds ++ map reparse_field ((k, v) :: fs)))) (ref_stack b) oe')) r →
      finishes (parse_key (false :: states) (token_after p0)
             (mk_builder (place (JObject ds)) (q :: ref_stack b) oe)) r.
Proof.
  revert k v ds body p0 oe. induction fs as [|[k2 v2] fs IH]; intros k v ds body p0 oe Hp Hs Hk Hd Hr;
    inversion Hp as [|?? Hv Hl]; subst; cbn [snd] in Hv;
    apply dump_fields_cons in Hd as (key & val & tail & Hdk & Hdv & Hdt & ->).
  all: pose proof (sorted_key ds _ k _ JNull Hk) as Hk1; rewrite <-!sapp_assoc in Hr.
  - injection Hdt as <-.
    destruct (field_parses k v ds key val ("}" +:+ rest) states p0 b q place oe Hv Hs Hk1 Hdk Hdv eq_refl Hr)
      as (Hne & p1 & oe1 & Hr1 & Hgo).
    split; [done|]. destruct (next_punctuation "}" end_object _ _ eq_refl Hr1) as [Ht1 Hr2].
    exists (token_after p1), oe1. split; [done|]. intros r Hf. apply Hgo.
    unfold evaluate_state. rewrite next_token_after, Ht1. cbn [decide]. apply finishes_continue. exact Hf.
  - destruct (field_parses k v ds key val ("," +:+ tail +:+ "}" +:+ rest) states p0 b q place oe
      Hv Hs Hk1 Hdk Hdv eq_refl Hr) as (Hne & p1 & oe1 & Hr1 & Hgo).
    split; [done|]. destruct (next_punctuation "," value_separator _ _ eq_refl Hr1) as [Ht1 Hr2].
    destruct (IH k2 v2 (ds ++ [(k, reparse v)]) tail (token_after p1) oe1 Hl Hs) as (_ & p2 & oe2 & Hr3 & Hgo2).
    { by rewrite <-app_assoc. } { done. } { done. }
    exists p2, oe2. split; [done|]. intros r Hf. apply Hgo.
    unfold evaluate_state. rewrite next_token_after, Ht1, decide_True, next_token_after by done.
    apply Hgo2. by rewrite <-app_assoc.
Qed.

Lemma object_parses fs :
  om_sorted fs → Forall (λ p, value_parses p.2) fs → value_parses (JObject fs).
Proof.
  intros Hk Hp text rest states p0 b q place Hd Hdel Hr Hs. destruct fs as [|[k v] fs].
  - injection Hd as <-. destruct (next_punctuation "{" begin_object _ _ eq_refl Hr) as [Ht Hr1].
    destruct (next_punctuation "}" end_object _ _ eq_refl Hr1) as [Ht2 Hr2].
    rewrite Ht. split; [done|]. exists (token_after (token_after p0)), (object_element b).
    split; [done|]. intros r Hf. unfold sax_iteration, parse_value. rewrite Ht, next_token_after, Ht2.
    unfold sax_start_object, sax_start. by rewrite (slot_handle Hs).
  - rewrite json_dump_object in Hd. apply result_bind_ok in Hd as (body & Hd & [= <-]).
    rewrite <-!sapp_assoc in Hr.
    destruct (next_punctuation "{" begin_object _ _ eq_refl Hr) as [Ht Hr1].
    destruct (fields_parse k v fs [] body rest states (token_after p0) b q place (object_element b) Hp Hs)
      as (Hne & p1 & oe1 & Hr2 & Hgo); [|done..|].
    { eapply om_sorted_keys; [|exact Hk]. cbn. f_equal. by rewrite <-list_fmap_compose. }
    rewrite Ht. split; [done|]. exists p1, oe1. split; [done|]. intros r Hf. apply Hgo in Hf.
    unfold sax_iteration, parse_value. rewrite Ht, next_token_after.
    rewrite decide_False by done. unfold sax_start_object, sax_start. rewrite (slot_handle Hs).
    cbn [root ref_stack object_element] in *. by destruct (parse_key _ _ _).
Qed.

(** ** Every value *)

Lemma json_parses j : json_wf j → value_parses j.
Proof.
  induction j as [|fs IH|l IH|s|b|n|n|d] using json_nested_ind; intros Hwf.
  - by apply (keyword_parses _ "null" literal_null).
  - apply json_wf_object in Hwf as [Hk Hwf]. apply object_parses; [done|]. rewrite List.Forall_forall in *. auto.
  - apply json_wf_array in Hwf. apply array_parses. rewrite List.Forall_forall in *. auto.
  - apply string_parses.
  - destruct b; [by apply (keyword_parses _ "true" literal_true)|by apply (keyword_parses _ "false" literal_false)].
  - by apply integer_parses.
  - intros text rest states p0 b q place [= <-] Hd Hr Hs. by apply (unsigned_parses n (dump_integer n) rest states p0 b q place).
  - by apply float_parses.
Qed.

(** What the serializer writes is read back. *)
Lemma dump_parses j text : json_wf j → json_dump j = Ok text → json_parse text = Ok (reparse j).
Proof.
  intros Hwf Hd. set (p0 := mk_parser (lexer_init text) uninitialized).
  assert (Hr : reads (m_lexer p0) (text +:+ EmptyString)) by by rewrite sapp_nil_r.
  destruct (json_parses j Hwf text EmptyString [] p0 builder_init [] id Hd eq_refl Hr
    (slotted_root builder_init eq_refl)) as (_ & p1 & oe & Hr1 & Hgo).
  specialize (Hgo _ eq_refl). apply finishes_continue in Hgo as [n Hn].
  unfold json_parse. destruct (parser_parse_total true text) as [r E]. rewrite E. cbn [default from_option id].
  unfold parser_parse, sax_parse_internal, parser_init in E. fold p0 in E.
  rewrite get_token_after in E. cbn [mbind option_bind] in E.
  destruct (sax_loop (parse_fuel text) false [] (token_after p0) builder_init) as [r'|] eqn:El; [|done].
  assert (r' = Ok (p1, mk_builder (reparse j) [] oe)) as ->.
  { apply (sax_loop_mono _ (n + parse_fuel text)) in El; [|lia].
    apply (sax_loop_mono _ (n + parse_fuel text)) in Hn; [|lia].
    rewrite El in Hn. by injection Hn as ->. }
  cbn [mbind option_bind] in E. destruct (scan_end _ Hr1) as [st Es].
  rewrite get_token_after, (token_after_scan _ _ _ Es) in E. by injection E as <-.
Qed.

(** Integers and unsigned integers, and infinities and null, are written alike. *)
Lemma dump_reparse j : json_dump (reparse j) = json_dump j.
Proof.
  induction j as [|fs IH|l IH|s|b|n|n|d] using json_nested_ind; try done.
  - assert (dump_fields (map (λ p, (p.1, reparse p.2)) fs) = dump_fields fs) as E.
    { induction IH as [|[k v] fs Hv _ IHfs]; [done|]. cbn in Hv |- *. fold dump_fields. rewrite Hv, IHfs.
      by destruct fs. }
    destruct fs as [|p fs]; [done|]. cbn [reparse]. cbn [map] in *. by rewrite !json_dump_object, E.
  - assert (dump_items (map reparse l) = dump_items l) as E.
    { induction IH as [|v l Hv _ IHl]; [done|]. cbn. fold dump_items. rewrite Hv, IHl. by destruct l. }
    destruct l as [|v l]; [done|]. cbn [reparse]. cbn [map] in *. by rewrite !json_dump_array, E.
  - cbn [reparse]. by destruct (n <? 0)%Z.
  - cbn [reparse]. destruct (dbl_isfinite d) eqn:Ed; [done|]. cbn. unfold dump_float. by rewrite Ed.
Qed.

(** C19. What the serializer writes, the parser reads back: for every
    well-formed value [json::parse(j.dump())] succeeds and returns [j], floats
    bit for bit, up to the type of nonnegative integers and the null written
    for infinities and NaN; and the value read is written as the same text. *)
Theorem dump_parse_round_trip j text :
  json_wf j → json_dump j = Ok text →
  json_parse text = Ok (reparse j) ∧ json_dump (reparse j) = Ok text.
Proof. intros Hwf Hd. split; [by apply dump_parses|]. by rewrite dump_reparse. Qed.

Lemma dump_parse_round_trip_witness :
  let j := JObject [("cost", JFloat (dbl_of_dec false 19999 (-2)));
                    ("ids", JArray [JInteger (-1); JInteger 7; JUnsigned 18446744073709551615; JNull]);
                    ("name", JString (String "031" (bq "`\Ã©")))] in
  json_parse (bq "{`cost`:199.99,`ids`:[-1,7,18446744073709551615,null],`name`:`\u001f\`\\Ã©`}") =
  Ok (reparse j).
Proof.
  intros j. apply (dump_parse_round_trip j).
  - cbn. unfold in_s, in_u. repeat split; first [lia|reflexivity|repeat constructor].
  - vm_compute. reflexivity.
Defined.

(** C20. Whatever text the parser accepts, the value can be written, and what
    is written is accepted and gives the value again (a minus zero as zero):
    parsing and writing once normalises a text, and from then on nothing
    changes. *)
Theorem parse_dump_parse text j :
  json_parse text = Ok j →
  ∃ out, json_dump j = Ok out ∧ json_parse out = Ok (reparse j) ∧ json_dump (reparse j) = Ok out.
Proof.
  intros [Hu Hwf]%json_parse_good. destruct (json_dump_ok j Hu) as [out Hd].
  exists out. split; [done|]. split; [by apply dump_parses|]. by rewrite dump_reparse.
Qed.

Lemma parse_dump_parse_witness :
  ∃ out, json_dump (JArray [JInteger 0; JFloat (dbl_of_dec false 1 (-1)); JUnsigned 7]) = Ok out ∧
    json_parse out = Ok (JArray [JUnsigned 0; JFloat (dbl_of_dec false 1 (-1)); JUnsigned 7]) ∧
    json_dump (JArray [JUnsigned 0; JFloat (dbl_of_dec false 1 (-1)); JUnsigned 7]) = Ok out.
Proof.
  apply (parse_dump_parse " [-0, 1e-1,7 ] "). vm_compute. reflexivity.
Defined.
