(* ===== verification/JsonPointerFacts.v ===== *)
(** JSON pointers: tokens and text correspond one to one; where a checked
    access leads, what it may change, and when [contains] agrees with it. *)

From S2P Require Import Prelude Decimal StdMap Exceptions JsonValue JsonParser JsonPointer.
From S2P Require Import JsonGrisuDigits JsonGrisu JsonFloatText JsonSpec JsonRoundTrip.

Local Open Scope string_scope.
Local Open Scope list_scope.
Local Open Scope nat_scope.

(** ** Positions in a text *)

Lemma index_skip (p f s : string) :
  String.index (String.length p) f (p +:+ s) = option_map (Nat.add (String.length p)) (String.index 0 f s).
Proof.
  induction p as [|c p IH].
  { rewrite sapp_nil_l. cbn [String.length]. by destruct (String.index 0 f s). }
  rewrite sapp_cons. cbn [String.length String.index]. rewrite IH. by destruct (String.index 0 f s).
Qed.

Lemma index_here (f s : string) : f ≠ EmptyString → String.prefix f s = true → String.index 0 f s = Some 0.
Proof. destruct s as [|c s]; [by destruct f|]. intros _ E. cbn [String.index]. by rewrite E. Qed.

Lemma index_later (f s : string) c :
  String.prefix f (String c s) = false → String.index 0 f (String c s) = option_map S (String.index 0 f s).
Proof. intros E. cbn [String.index]. rewrite E. by destruct (String.index 0 f s). Qed.

Lemma substring_front (p s : string) : substring 0 (String.length p) (p +:+ s) = p.
Proof. induction p as [|c p IH]; [by destruct s|]. by apply (f_equal (String c)). Qed.

Lemma substring_at (p s : string) m : substring (String.length p) m (p +:+ s) = substring 0 m s.
Proof. by induction p as [|c p IH]. Qed.

Lemma substring_rest (s : string) n : String.length s ≤ n → substring 0 n s = s.
Proof.
  revert n. induction s as [|c s IH]; intros [|n] Hn; cbn in *; try done; try lia.
  by rewrite IH by lia.
Qed.

(** ** Replacing *)

(** What replacing all occurrences from the left gives. *)
Inductive replaced (f t : string) : string → string → Prop :=
  | replaced_nil : replaced f t EmptyString EmptyString
  | replaced_skip c s s' :
      String.prefix f (String c s) = false → replaced f t s s' → replaced f t (String c s) (String c s')
  | replaced_take s s' : replaced f t s s' → replaced f t (f +:+ s) (t +:+ s').

Lemma replace_loop_spec f t s s' : f ≠ EmptyString → replaced f t s s' →
  ∀ done fuel, String.length s < fuel →
  replace_loop f t fuel (done +:+ s) (String.index (String.length done) f (done +:+ s)) = done +:+ s'.
Proof.
  intros Hf. induction 1 as [|c s s' Hc _ IH|s s' _ IH]; intros done fuel Hfuel.
  - rewrite index_skip. destruct f as [|x f]; [by destruct Hf|]. by destruct fuel.
  - replace (String.index (String.length done) f (done +:+ String c s))
      with (String.index (String.length (snoc done c)) f (snoc done c +:+ s)).
    + rewrite <-snoc_app, IH by (cbn in Hfuel; lia). by rewrite snoc_app.
    + rewrite snoc_app. unfold snoc at 1. rewrite slength_app, Nat.add_1_r.
      rewrite !index_skip. rewrite <-(snoc_app done c s) at 1.
      replace (S (String.length done)) with (String.length (snoc done c)) by (unfold snoc; rewrite slength_app; cbn; lia).
      rewrite index_skip, index_later by done. unfold snoc. rewrite slength_app.
      destruct (String.index 0 f s); cbn; [f_equal; lia|done].
  - rewrite index_skip, index_here by (done || apply prefix_app). cbn [option_map]. rewrite Nat.add_0_r.
    destruct fuel as [|fuel]; [lia|]. cbn [replace_loop]. rewrite slength_app in Hfuel.
    set (all := done +:+ f +:+ s).
    assert (E : substring 0 (String.length done) all +:+ t +:+
                  substring (String.length done + String.length f) (String.length all) all =
                (done +:+ t) +:+ s).
    { unfold all. rewrite substring_front, <-sapp_assoc. do 2 f_equal.
      rewrite sapp_assoc, <-slength_app, substring_at.
      apply substring_rest. rewrite !slength_app. lia. }
    rewrite E, <-slength_app, IH, sapp_assoc; [done|]. destruct f; [by destruct Hf|]. cbn in Hfuel. lia.
Qed.

Lemma replace_substring_spec f t s s' :
  f ≠ EmptyString → replaced f t s s' → replace_substring f t s = s'.
Proof. intros Hf Hr. apply (replace_loop_spec f t s s' Hf Hr EmptyString). lia. Qed.

(** ** Escapes *)

Definition escape_char (c : ascii) : string :=
  if Ascii.eqb c "~" then "~0" else if Ascii.eqb c "/" then "~1" else String c EmptyString.
Definition tilde_char (c : ascii) : string :=
  if Ascii.eqb c "~" then "~0" else String c EmptyString.
Fixpoint each (f : ascii → string) (s : string) : string :=
  match s with EmptyString => EmptyString | String c s' => f c +:+ each f s' end.

(** One character at a time. *)
Lemma prefix_one (x c : ascii) s : String.prefix (String x EmptyString) (String c s) = Ascii.eqb x c.
Proof.
  cbn. destruct (ascii_dec x c) as [->|Hn]; [by destruct s; rewrite Ascii.eqb_refl|].
  symmetry. by apply Ascii.eqb_neq.
Qed.

Lemma prefix_two (x y c : ascii) s :
  String.prefix (String x (String y EmptyString)) (String c s) =
  Ascii.eqb x c && match s with String d _ => Ascii.eqb y d | EmptyString => false end.
Proof.
  cbn [String.prefix]. destruct (ascii_dec x c) as [->|Hn].
  - rewrite Ascii.eqb_refl. destruct s as [|d s]; [done|]. apply prefix_one.
  - by rewrite (proj2 (Ascii.eqb_neq _ _) Hn).
Qed.

Lemma escape_each s : escape s = each escape_char s.
Proof.
  unfold escape. rewrite (replace_substring_spec "~" "~0" s (each tilde_char s)); [|done|].
  - apply replace_substring_spec; [done|]. induction s as [|c s IH]; [constructor|].
    cbn [each]. unfold tilde_char at 1, escape_char at 1.
    destruct (Ascii.eqb_spec c "~") as [->|Hc].
    + apply replaced_skip; [by rewrite prefix_one|]. by apply replaced_skip; [rewrite prefix_one|].
    + destruct (Ascii.eqb_spec c "/") as [->|Hs]; [by apply (replaced_take "/" "~1")|].
      apply (replaced_skip _ _ c); [|done]. rewrite prefix_one, Ascii.eqb_sym. by apply Ascii.eqb_neq.
  - induction s as [|c s IH]; [constructor|]. cbn [each]. unfold tilde_char at 1.
    destruct (Ascii.eqb_spec c "~") as [->|Hc]; [by apply (replaced_take "~" "~0")|].
    apply (replaced_skip _ _ c); [|done]. rewrite prefix_one, Ascii.eqb_sym. by apply Ascii.eqb_neq.
Qed.

(** Characters that come out of [escape]. *)
Lemma escape_char_cases c :
  (c = "~"%char ∧ escape_char c = "~0") ∨ (c = "/"%char ∧ escape_char c = "~1") ∨
  (c ≠ "~"%char ∧ c ≠ "/"%char ∧ escape_char c = String c EmptyString).
Proof.
  unfold escape_char. destruct (Ascii.eqb_spec c "~") as [->|Ht]; [by auto|].
  destruct (Ascii.eqb_spec c "/") as [->|Hs]; auto.
Qed.

(** A token that is properly escaped and has no slash is the escaped text of
    what it is unescaped to. *)
Definition no_slash (s : string) : bool := sforall (λ c, negb (Ascii.eqb c "/")) s.

Lemma escape_no_slash s : no_slash (escape s) = true.
Proof.
  rewrite escape_each. unfold no_slash. induction s as [|c s IH]; [done|]. cbn [each]. rewrite sforall_app, IH, andb_true_r.
  destruct (escape_char_cases c) as [[-> ->]|[[-> ->]|(_ & Hs & ->)]]; [done..|].
  cbn [sforall]. by rewrite (proj2 (Ascii.eqb_neq _ _) Hs).
Qed.

Lemma escape_proper s : properly_escaped (escape s) = true.
Proof.
  rewrite escape_each. induction s as [|c s IH]; [done|]. cbn [each].
  destruct (escape_char_cases c) as [[-> ->]|[[-> ->]|(Ht & _ & ->)]]; [done..|].
  rewrite sapp_cons, sapp_nil_l. cbn [properly_escaped]. by rewrite (proj2 (Ascii.eqb_neq _ _) Ht).
Qed.

(** The texts that [escape] can produce, with what they stand for. *)
Inductive escaped : string → string → Prop :=
  | escaped_nil : escaped EmptyString EmptyString
  | escaped_char c e s : escaped e s → escaped (escape_char c +:+ e) (String c s).

Lemma escaped_each s : escaped (each escape_char s) s.
Proof. induction s as [|c s IH]; by constructor. Qed.
Lemma escaped_inv e s : escaped e s → e = each escape_char s.
Proof. by induction 1 as [|c e s _ ->]. Qed.

Lemma proper_escaped n e :
  String.length e ≤ n → properly_escaped e = true → no_slash e = true → ∃ s, escaped e s.
Proof.
  revert e. induction n as [|n IH]; intros [|c e] Hn He Hs; try (cbn in Hn; lia); try by exists EmptyString; constructor.
  cbn [String.length] in Hn. cbn [properly_escaped] in He. unfold no_slash in Hs. cbn [sforall] in Hs. fold (no_slash e) in Hs.
  apply andb_true_iff in He as [Hc He], Hs as [Hcs Hs].
  revert Hc. destruct (Ascii.eqb_spec c "~") as [->|Ht]; intros Hc.
  - destruct e as [|d e]; [done|].
    cbn [properly_escaped] in He. unfold no_slash in Hs. cbn [sforall] in Hs. fold (no_slash e) in Hs. apply andb_true_iff in He as [_ He], Hs as [_ Hs].
    destruct (IH e) as [s Hes]; [cbn in Hn; lia|done..|].
    apply orb_true_iff in Hc as [Hd|Hd]; apply Ascii.eqb_eq in Hd as ->.
    + exists (String "~" s). by apply (escaped_char "~").
    + exists (String "/" s). by apply (escaped_char "/").
  - destruct (IH e) as [s Hes]; [lia|done..|]. exists (String c s).
    apply negb_true_iff, Ascii.eqb_neq in Hcs.
    replace (String c e) with (escape_char c +:+ e); [by constructor|].
    destruct (escape_char_cases c) as [[-> _]|[[-> _]|(_ & _ & ->)]]; done.
Qed.

Lemma unescape_escaped e s : escaped e s → unescape e = s.
Proof.
  intros He. unfold unescape. rewrite (replace_substring_spec "~1" "/" e (each tilde_char s)); [|done|].
  - apply replace_substring_spec; [done|]. clear. induction s as [|c s IH]; [constructor|].
    cbn [each]. unfold tilde_char at 1. destruct (Ascii.eqb_spec c "~") as [->|Hc].
    { by apply (replaced_take "~0" "~"). }
    apply replaced_skip; [|done]. by rewrite prefix_two, Ascii.eqb_sym, (proj2 (Ascii.eqb_neq _ _) Hc).
  - induction He as [|c e s _ IH]; [constructor|]. cbn [each]. unfold tilde_char at 1.
    destruct (escape_char_cases c) as [[-> ->]|[[-> ->]|(Ht & Hs & ->)]].
    + apply replaced_skip; [by rewrite prefix_two|]. by apply replaced_skip; [rewrite prefix_two|].
    + by apply (replaced_take "~1" "/").
    + rewrite (proj2 (Ascii.eqb_neq _ _) Ht). apply replaced_skip; [|done].
      by rewrite prefix_two, Ascii.eqb_sym, (proj2 (Ascii.eqb_neq _ _) Ht).
Qed.

Lemma unescape_escape_token s : unescape (escape s) = s.
Proof. rewrite escape_each. apply unescape_escaped, escaped_each. Qed.

Lemma escape_unescape e : properly_escaped e = true → no_slash e = true → escape (unescape e) = e.
Proof.
  intros Hp Hs. destruct (proper_escaped _ e (le_n _) Hp Hs) as [s He].
  rewrite (unescape_escaped _ _ He), escape_each. symmetry. by apply escaped_inv.
Qed.

(** ** Taking a pointer apart *)

Lemma index_no_slash (p s : string) :
  no_slash s = true → String.index (String.length p) "/" (p +:+ s) = None.
Proof.
  intros Hs. rewrite index_skip.
  assert (E : String.index 0 "/" s = None); [|by rewrite E]. induction s as [|c s IH]; [done|].
  cbn in Hs. apply andb_true_iff in Hs as [Hc Hs]. rewrite index_later; [by rewrite IH|].
  rewrite prefix_one, Ascii.eqb_sym. by apply negb_true_iff.
Qed.

Lemma index_slash (p a s : string) :
  no_slash a = true → String.index (String.length p) "/" (p +:+ a +:+ String "/" s) = Some (String.length p + String.length a).
Proof.
  intros Ha. rewrite index_skip.
  assert (E : String.index 0 "/" (a +:+ String "/" s) = Some (String.length a)); [|by rewrite E].
  induction a as [|c a IH]; [by destruct s|].
  cbn in Ha. apply andb_true_iff in Ha as [Hc Ha]. rewrite sapp_cons, index_later; [by rewrite IH|].
  rewrite prefix_one, Ascii.eqb_sym. by apply negb_true_iff.
Qed.

(** The text of the tokens behind the first slash. *)
Fixpoint tokens_text (tokens : list string) : string :=
  match tokens with
  | [] => EmptyString
  | [e] => e
  | e :: tokens' => e +:+ String "/" (tokens_text tokens')
  end.

Definition well_escaped (e : string) : Prop := properly_escaped e = true ∧ no_slash e = true.

Lemma split_loop_tokens es : es ≠ [] → Forall well_escaped es → ∀ p fuel,
  length es ≤ fuel →
  split_loop fuel (p +:+ tokens_text es) (String.length p) = Ok (map unescape es).
Proof.
  intros Hne Hes. induction Hes as [|e es [Hp Hs] Hes IH]; [done|]. intros p fuel Hfuel.
  destruct fuel as [|fuel]; [cbn in Hfuel; lia|]. cbn [split_loop].
  destruct es as [|e' es].
  - cbn [tokens_text]. rewrite index_no_slash by done. cbn [default from_option id].
    rewrite substring_at, substring_rest.
    + by rewrite Hp.
    + rewrite slength_app. lia.
  - change (tokens_text (e :: e' :: es)) with (e +:+ String "/" (tokens_text (e' :: es))).
    set (rest := tokens_text (e' :: es)) in *. rewrite index_slash by done. cbn [default from_option id].
    replace (String.length p + String.length e - String.length p) with (String.length e) by lia.
    rewrite substring_at, substring_front, Hp.
    specialize (IH ltac:(done) (p +:+ e +:+ "/") fuel ltac:(cbn in *; lia)).
    rewrite !slength_app in IH. cbn [String.length] in IH.
    replace (p +:+ e +:+ String "/" rest) with ((p +:+ e +:+ "/") +:+ rest) by (by rewrite <-!sapp_assoc).
    rewrite <-Nat.add_assoc, IH. done.
Qed.

(** Every text is the text of its tokens. *)
Lemma text_tokens s : ∃ es, es ≠ [] ∧ s = tokens_text es ∧ Forall (λ e, no_slash e = true) es.
Proof.
  induction s as [|c s (es & Hne & -> & Hes)].
  { exists [EmptyString]. by repeat constructor. }
  destruct (Ascii.eqb_spec c "/") as [->|Hc].
  - exists (EmptyString :: es). split; [done|]. split; [by destruct es|by constructor].
  - destruct Hes as [|e es He Hes]; [done|]. exists (String c e :: es). split; [done|].
    split; [by destruct es|]. constructor; [|done]. cbn. by rewrite (proj2 (Ascii.eqb_neq _ _) Hc).
Qed.

Lemma split_loop_inv es : es ≠ [] → Forall (λ e, no_slash e = true) es → ∀ p fuel tokens,
  length es ≤ fuel →
  split_loop fuel (p +:+ tokens_text es) (String.length p) = Ok tokens →
  Forall well_escaped es ∧ tokens = map unescape es.
Proof.
  intros Hne Hes. induction Hes as [|e es Hs Hes IH]; [done|]. intros p fuel tokens Hfuel.
  destruct fuel as [|fuel]; [cbn in Hfuel; lia|]. cbn [split_loop].
  destruct es as [|e' es].
  - cbn [tokens_text]. rewrite index_no_slash by done. cbn [default from_option id].
    rewrite substring_at, substring_rest by (rewrite slength_app; lia).
    destruct (properly_escaped e) eqn:Hp; [|done]. intros [= <-]. by repeat constructor.
  - change (tokens_text (e :: e' :: es)) with (e +:+ String "/" (tokens_text (e' :: es))).
    set (rest := tokens_text (e' :: es)) in *. rewrite index_slash by done. cbn [default from_option id].
    replace (String.length p + String.length e - String.length p) with (String.length e) by lia.
    rewrite substring_at, substring_front.
    destruct (properly_escaped e) eqn:Hp; [|done].
    specialize (IH ltac:(done) (p +:+ e +:+ "/") fuel).
    rewrite !slength_app in IH. cbn [String.length] in IH.
    replace (p +:+ e +:+ String "/" rest) with ((p +:+ e +:+ "/") +:+ rest) by (by rewrite <-!sapp_assoc).
    rewrite <-Nat.add_assoc. intros (tokens' & Ht & [= <-])%result_bind_ok.
    destruct (IH tokens' ltac:(cbn in *; lia) Ht) as [Hw ->]. split; [by constructor|done].
Qed.

Lemma tokens_text_length es : length es ≤ S (String.length (tokens_text es)).
Proof.
  induction es as [|e [|e' es] IH]; cbn [length]; [lia..|].
  change (tokens_text (e :: e' :: es)) with (e +:+ String "/" (tokens_text (e' :: es))).
  rewrite slength_app. cbn [String.length length] in *. lia.
Qed.

Lemma pointer_string_tokens ptr :
  ptr ≠ [] → pointer_string ptr = String "/" (tokens_text (map escape ptr)).
Proof.
  unfold pointer_string.
  assert (H : ∀ ptr a, ptr ≠ [] → fold_left (λ a b, a +:+ "/" +:+ escape b) ptr a = a +:+ String "/" (tokens_text (map escape ptr))).
  { clear ptr. induction ptr as [|t ptr IH]; intros a Hne; [done|]. cbn [fold_left].
    destruct ptr as [|t' ptr]; [done|]. rewrite IH by done. rewrite <-!sapp_assoc. done. }
  intros Hne. by rewrite (H ptr EmptyString Hne).
Qed.

Lemma split_pointer_string ptr : split (pointer_string ptr) = Ok ptr.
Proof.
  destruct ptr as [|t ptr]; [done|]. rewrite pointer_string_tokens by done.
  set (es := map escape (t :: ptr)). unfold split. cbn [Ascii.eqb].
  change (String "/" (tokens_text es)) with ("/" +:+ tokens_text es).
  change (Ascii.eqb "/" "/") with true. cbv iota.
  change 1 with (String.length "/"). rewrite split_loop_tokens.
  - unfold es. rewrite map_map. f_equal. rewrite <-(map_id (t :: ptr)) at 2. apply map_ext, unescape_escape_token.
  - done.
  - apply List.Forall_map, List.Forall_forall. intros x _. split; [apply escape_proper|apply escape_no_slash].
  - rewrite slength_app. cbn [String.length]. apply tokens_text_length.
Qed.

Lemma pointer_string_split s ptr : split s = Ok ptr → pointer_string ptr = s.
Proof.
  destruct s as [|c s]; [by intros [= <-]|]. unfold split.
  destruct (Ascii.eqb_spec c "/") as [->|_]; [|done].
  destruct (text_tokens s) as (es & Hne & -> & Hes). intros Hs.
  change (String "/" (tokens_text es)) with ("/" +:+ tokens_text es) in Hs.
  change 1 with (String.length "/") in Hs.
  apply split_loop_inv in Hs as [Hw ->]; [|done..|rewrite slength_app; apply tokens_text_length].
  rewrite pointer_string_tokens by (by destruct es). f_equal. f_equal.
  rewrite map_map. rewrite <-(map_id es) at 2. apply map_ext_in. intros e He.
  rewrite List.Forall_forall in Hw. destruct (Hw e He) as [Hp Hn]. by apply escape_unescape.
Qed.

(** ** Indices *)

Lemma leading_digits_all s : sforall is_digit s = true → leading_digits s = s.
Proof.
  induction s as [|c s IH]; [done|]. cbn. intros [Hc Hs]%andb_true_iff. by rewrite Hc, IH.
Qed.

(** The text [std::to_string] gives for an index is that index. *)
Lemma array_index_to_string n :
  (0 ≤ n < 2 ^ 64 - 1)%Z → array_index (to_string n) = Ok n.
Proof.
  intros Hn. destruct (Z.eqb_spec n 0) as [->|H0]; [done|].
  unfold to_string. rewrite (proj2 (Z.ltb_ge n 0)) by lia. unfold array_index.
  rewrite leading_digits_all, dec_value_nonneg by (apply dec_nonneg_digits || idtac; lia).
  destruct (dec_nonneg_head n ltac:(lia)) as (c & s & -> & Hc & Hz). cbn [first_is is_empty].
  unfold is_digit in Hc. unfold digit_val in Hz. b2p.
  assert (E0 : Ascii.eqb "0" c = false).
  { apply Ascii.eqb_neq. intros <-. by apply Hz. }
  rewrite E0, andb_false_r, Nat.eqb_refl. cbn [negb orb].
  replace (49 <=? byte_of c)%Z with true by (symmetry; apply Z.leb_le; lia).
  replace (byte_of c <=? 57)%Z with true by (symmetry; apply Z.leb_le; lia).
  cbn [andb negb]. rewrite andb_false_r.
  replace (2 ^ 64 - 1 <? n)%Z with false by (symmetry; apply Z.ltb_ge; lia).
  by replace (2 ^ 64 - 1 <=? n)%Z with false by (symmetry; apply Z.leb_gt; lia).
Qed.

Lemma leading_digits_length s :
  String.length (leading_digits s) = String.length s → sforall is_digit s = true.
Proof.
  induction s as [|c s IH]; [done|]. cbn. destruct (is_digit c); [|done]. intros [= Hs]. by apply IH.
Qed.

(** An index is written with digits, without a superfluous zero. *)
Lemma array_index_plausible s n : array_index s = Ok n → s ≠ "-" ∧ plausible_index s = true ∧ (0 ≤ n)%Z.
Proof.
  unfold array_index. destruct (_ && _); [done|]. destruct ((1 <? String.length s) && _) eqn:Efirst; [done|].
  destruct (is_empty _ || _ || _) eqn:Edigits; [done|]. destruct (_ <=? _)%Z; [done|]. intros [= <-].
  apply orb_false_iff in Edigits as [_ Hl]. apply negb_false_iff, Nat.eqb_eq in Hl.
  apply leading_digits_length in Hl. rewrite (leading_digits_all _ Hl).
  split; [by intros ->|]. split; [|by apply dec_value_from_nonneg].
  destruct s as [|c [|d s]]; [done|..].
  - cbn in Hl |- *. by rewrite andb_true_r in Hl.
  - cbn [plausible_index]. cbn [String.length Nat.ltb Nat.leb first_is andb] in Efirst.
    apply negb_false_iff in Efirst. rewrite Efirst. cbn [sforall] in Hl. apply andb_true_iff in Hl as [_ Hl]. exact Hl.
Qed.

(** The only texts that look like an index and are none: the empty one and
    those beyond the range, which throw [out_of_range]. *)
Lemma array_index_implausible s e :
  plausible_index s = true → array_index s = Throw e → ∃ id, exn_kind e = json_out_of_range id.
Proof.
  intros Hp. unfold array_index. destruct ((1 <? String.length s) && first_is (Ascii.eqb "0") s) eqn:E0.
  { exfalso. apply andb_true_iff in E0 as [Hl H0]. destruct s as [|c [|d s]]; [done..|].
    cbn [first_is] in H0. apply Ascii.eqb_eq in H0 as <-. done. }
  destruct ((1 <? String.length s) && negb _) eqn:E1.
  { exfalso. apply andb_true_iff in E1 as [Hl H1]. destruct s as [|c [|d s]]; [done..|].
    cbn [plausible_index first_is] in *. apply andb_true_iff in Hp as [Hp _]. by rewrite Hp in H1. }
  destruct (_ || _); [intros [= <-]; by eexists|]. destruct (_ <=? _)%Z; [intros [= <-]; by eexists|done].
Qed.

(** ** References *)

Lemma at_token_step token j s v : at_token token j = Ok (s, v) → json_at [s] j = Some v.
Proof.
  destruct j as [|fs|l| | | | |]; cbn [at_token]; try done.
  - destruct (om_find token fs) as [w|] eqn:E; [|done]. intros [= <- <-]. cbn. by rewrite E.
  - destruct (String.eqb token "-"); [done|]. intros (idx & _ & Hv)%result_bind_ok.
    destruct (l !! Z.to_nat idx) as [w|] eqn:E; [|done]. injection Hv as <- <-. cbn. by rewrite E.
Qed.

Lemma get_checked_at ptr j p : get_checked ptr j = Ok p → ∃ v, json_at p j = Some v.
Proof.
  revert j p. induction ptr as [|token ptr IH]; intros j p; [intros [= <-]; by exists j|].
  intros ([s v] & Hs & (q & Hq & [= <-])%result_bind_ok)%result_bind_ok.
  apply at_token_step in Hs. destruct (IH _ _ Hq) as [w Hw]. exists w.
  change (s :: q) with ([s] ++ q). by rewrite json_at_app, Hs.
Qed.

Lemma get_checked_app a b j p v q :
  get_checked a j = Ok p → json_at p j = Some v → get_checked b v = Ok q → get_checked (a ++ b) j = Ok (p ++ q).
Proof.
  revert j p. induction a as [|token a IH]; intros j p.
  { intros [= <-] [= ->]. done. }
  intros ([s w] & Hs & (p' & Hp & [= <-])%result_bind_ok)%result_bind_ok Hv Hq.
  change (s :: p') with ([s] ++ p') in Hv. rewrite json_at_app, (at_token_step _ _ _ _ Hs) in Hv.
  cbn [app get_checked]. rewrite Hs. cbn [mbind result_bind]. by rewrite (IH w p' Hp Hv Hq).
Qed.

Lemma json_at_update p f j : json_at p (json_update p f j) = f <$> json_at p j.
Proof.
  revert j. induction p as [|[k|i] p IH]; intros j; [done|..]; destruct j as [|fs|l| | | | |]; try done; cbn.
  - rewrite om_find_update_eq. destruct (om_find k fs) as [v|]; [apply IH|done].
  - rewrite list_lookup_alter_eq. destruct (l !! i) as [v|]; [apply IH|done].
Qed.

Lemma om_assign_assign `{OrderedKey K} {V} (k : K) (a b : V) m : om_assign k a (om_assign k b m) = om_assign k a m.
Proof.
  induction m as [|[k' v] m IH]; cbn.
  { by rewrite kltb_irrefl. }
  destruct (kltb k k') eqn:E1; cbn; [by rewrite kltb_irrefl|].
  destruct (kltb k' k) eqn:E2; cbn; rewrite ?E1, ?E2, ?kltb_irrefl; [by rewrite IH|done].
Qed.

Lemma json_update_update p f g j : json_update p f (json_update p g j) = json_update p (λ v, f (g v)) j.
Proof.
  revert j. induction p as [|[k|i] p IH]; intros j; [done|..]; destruct j as [|fs|l| | | | |]; try done; cbn.
  - f_equal. unfold om_update. destruct (om_find k fs) as [v|] eqn:E; [|by rewrite E].
    by rewrite om_find_assign_eq, om_assign_assign, IH.
  - f_equal. rewrite list_alter_alter_eq. apply list_alter_ext; [|done]. intros x _. apply IH.
Qed.

Lemma at_token_update token j s v f :
  at_token token j = Ok (s, v) → at_token token (json_update [s] f j) = Ok (s, f v).
Proof.
  destruct j as [|fs|l| | | | |]; cbn [at_token]; try done.
  - destruct (om_find token fs) as [w|] eqn:E; [|done]. intros [= <- <-]. cbn. by rewrite om_find_update_eq, E.
  - destruct (String.eqb token "-") eqn:Ed; [done|]. intros (idx & Hidx & Hv)%result_bind_ok.
    destruct (l !! Z.to_nat idx) as [w|] eqn:E; [|done]. injection Hv as <- <-.
    cbn. by rewrite Ed, Hidx; cbn; rewrite list_lookup_alter_eq, E.
Qed.

Lemma get_checked_update ptr j p f : get_checked ptr j = Ok p → get_checked ptr (json_update p f j) = Ok p.
Proof.
  revert j p. induction ptr as [|token ptr IH]; intros j p; [by intros [= <-]|].
  intros ([s v] & Hs & (q & Hq & [= <-])%result_bind_ok)%result_bind_ok.
  change (json_update (s :: q) f j) with (json_update ([s] ++ q) f j). rewrite json_update_app.
  cbn [get_checked]. rewrite (at_token_update _ _ _ _ _ Hs). cbn [mbind result_bind].
  by rewrite (IH _ _ Hq).
Qed.

(** ** Assignment through a pointer *)

Lemma dec_value_from_inj a b x y :
  sforall is_digit a = true → sforall is_digit b = true → String.length a = String.length b →
  dec_value_from x a = dec_value_from y b → x = y ∧ a = b.
Proof.
  revert b x y. induction a as [|c a IH]; intros [|d b] x y Ha Hb Hl; try done.
  cbn [sforall] in Ha, Hb. apply andb_true_iff in Ha as [Hc Ha], Hb as [Hd Hb].
  cbn [dec_value_from]. intros E. apply IH in E as [E ->]; [|done..|by injection Hl].
  pose proof (digit_val_range c Hc). pose proof (digit_val_range d Hd).
  assert (Ed : digit_val c = digit_val d) by lia. split; [lia|].
  by rewrite <-(digit_char_val c Hc), Ed, (digit_char_val d Hd).
Qed.

Lemma at_pointer_cons token ptr j :
  at_pointer (token :: ptr) j = '(_, v) ← at_token token j; at_pointer ptr v.
Proof.
  unfold at_pointer. cbn [get_checked]. destruct (at_token token j) as [[s v]|e] eqn:E; [|done].
  cbn [mbind result_bind]. destruct (get_checked ptr v) as [p|e]; [|done]. cbn [mbind result_bind mret result_ret].
  do 2 f_equal. change (s :: p) with ([s] ++ p). by rewrite json_at_app, (at_token_step _ _ _ _ E).
Qed.

(** The digits of an index: a numeral, or zero. *)
Lemma array_index_digits s n :
  array_index s = Ok n → (numeral s ∧ (0 < n)%Z ∨ s = "0" ∧ n = 0%Z) ∧ dec_value s = n.
Proof.
  intros Hi. destruct (array_index_plausible s n Hi) as (_ & Hp & _). revert Hi. unfold array_index.
  destruct (_ && _); [done|]. destruct (_ && _); [done|]. destruct (_ || _ || _) eqn:E; [done|].
  destruct (_ <=? _)%Z; [done|]. intros [= Hn]. apply orb_false_iff in E as [E El]. apply orb_false_iff in E as [E _].
  apply negb_false_iff, Nat.eqb_eq in El. apply leading_digits_length in El.
  rewrite (leading_digits_all s El) in Hn, E. split; [|done].
  destruct s as [|c s]; [done|].
  destruct (Z.eqb_spec (digit_val c) 0) as [Ec|Ec].
  - right. pose proof El as Hc. cbn [sforall] in Hc. apply andb_true_iff in Hc as [Hc _].
    assert (Hc0 : c = "0"%char) by (by rewrite <-(digit_char_val c Hc), Ec). subst c.
    destruct s as [|d s]; [by subst n|done].
  - left. assert (Hnum : numeral (String c s)) by (by split). split; [done|].
    pose proof (numeral_positive _ Hnum). lia.
Qed.

Lemma array_index_inj a b n : array_index a = Ok n → array_index b = Ok n → a = b.
Proof.
  intros Ha Hb. apply array_index_digits in Ha as [Ha Hva], Hb as [Hb Hvb].
  destruct Ha as [[Ha Hpa]|[-> Hza]], Hb as [[Hb Hpb]|[-> Hzb]]; try lia; [|done].
  pose proof (numeral_bounds _ Ha) as Hla. pose proof (numeral_bounds _ Hb) as Hlb.
  rewrite Hva in Hla. rewrite Hvb in Hlb.
  assert (Hl : String.length a = String.length b).
  { assert (Hab : (Z.of_nat (String.length a) - 1 < Z.of_nat (String.length b))%Z).
    { apply (Z.pow_lt_mono_r_iff 10); lia. }
    assert (Hba : (Z.of_nat (String.length b) - 1 < Z.of_nat (String.length a))%Z).
    { apply (Z.pow_lt_mono_r_iff 10); lia. }
    lia. }
  apply (dec_value_from_inj a b 0 0); [apply Ha|apply Hb|done|]. unfold dec_value in Hva, Hvb. congruence.
Qed.

(** A token leads to what another one leads to only if they are equal. *)
Lemma at_token_other a b j s v f :
  json_wf j → a ≠ b → at_token a j = Ok (s, v) → at_token b (json_update [s] f j) = at_token b j.
Proof.
  intros Hj Hne. destruct j as [|fs|l| | | | |]; cbn [at_token]; try done.
  - apply json_wf_object in Hj as [Hs _]. destruct (om_find a fs) as [w|] eqn:E; [|done]. intros [= <- <-].
    cbn [json_update at_token]. by rewrite om_find_update_ne.
  - destruct (String.eqb a "-"); [done|]. intros (idx & Hidx & Hv)%result_bind_ok.
    destruct (l !! Z.to_nat idx) as [w|] eqn:E; [|done]. injection Hv as <- <-.
    cbn [json_update at_token]. unfold dash_out_of_range. rewrite length_alter.
    destruct (String.eqb b "-"); [done|].
    destruct (array_index b) as [idx'|e] eqn:Eb; [|done]. cbn [mbind result_bind].
    assert (Z.to_nat idx' ≠ Z.to_nat idx).
    { apply array_index_plausible in Hidx as H1. apply array_index_plausible in Eb as H2.
      intros Heq. apply Hne, (array_index_inj _ _ idx); [done|]. rewrite Eb. f_equal. lia. }
    by rewrite list_lookup_alter_ne.
Qed.

Lemma at_token_wf token j s v : json_wf j → at_token token j = Ok (s, v) → json_wf v.
Proof.
  intros Hj Hat. apply at_token_step in Hat. destruct s as [k|i], j as [|fs|l| | | | |]; try done; cbn in Hat.
  - apply json_wf_object in Hj as [_ Hf]. destruct (om_find k fs) as [w|] eqn:E; [|done]. injection Hat as <-.
    by apply (om_find_Forall (λ p, json_wf p.2) k w fs).
  - apply json_wf_array in Hj. destruct (l !! i) as [w|] eqn:E; [|done]. injection Hat as <-.
    by apply (Forall_lookup_1 _ _ _ _ Hj E).
Qed.

Lemma at_pointer_other r : ∀ a p b q j path f,
  json_wf j → a ≠ b → get_checked (r ++ a :: p) j = Ok path →
  at_pointer (r ++ b :: q) (json_update path f j) = at_pointer (r ++ b :: q) j.
Proof.
  induction r as [|token r IH]; intros a p b q j path f Hj Hne; cbn [app];
    intros ([s v] & Hs & (path' & Hp & [= <-])%result_bind_ok)%result_bind_ok;
    change (json_update (s :: path') f j) with (json_update ([s] ++ path') f j);
    rewrite json_update_app, !at_pointer_cons.
  - by rewrite (at_token_other a b j s v).
  - rewrite (at_token_update _ _ _ _ _ Hs), Hs. cbn [mbind result_bind].
    apply (IH a p); [by eapply at_token_wf|done..].
Qed.

(** ** Properties *)

(** C30. Tokens and texts of pointers correspond one to one: the text of a pointer
    is taken apart into its tokens, and a text that is accepted is the text of
    the tokens it is taken apart into. *)
Theorem json_pointer_text :
  (∀ ptr, split (pointer_string ptr) = Ok ptr) ∧
  (∀ s ptr, split s = Ok ptr → pointer_string ptr = s).
Proof. split; [exact split_pointer_string|exact pointer_string_split]. Qed.

(** C31. Assignment through a pointer: what was assigned is what the pointer refers
    to afterwards, and a pointer that leaves the path of the assignment at some
    token reads the same value, or throws the same exception, as before. *)
Theorem json_pointer_assign ptr v j j' (Hj : json_wf j) (Hset : at_assign ptr v j = Ok j') :
  at_pointer ptr j' = Ok v ∧
  ∀ r a p b q, ptr = r ++ a :: p → a ≠ b → at_pointer (r ++ b :: q) j' = at_pointer (r ++ b :: q) j.
Proof.
  apply result_bind_ok in Hset as (path & Hp & [= <-]). split.
  - unfold at_pointer. rewrite (get_checked_update _ _ _ _ Hp). cbn [mbind result_bind].
    destruct (get_checked_at _ _ _ Hp) as [w Hw]. by rewrite json_at_update, Hw.
  - intros r a p b q -> Hne. by apply (at_pointer_other r a p b q j).
Qed.

Lemma json_pointer_assign_witness :
  let j := JObject [("a", JArray [JNull; JBool true]); ("b", JNull)] in
  let j' := JObject [("a", JArray [JString "x"; JBool true]); ("b", JNull)] in
  at_pointer ["a"; "0"] j' = Ok (JString "x") ∧ at_pointer ["a"; "1"] j' = at_pointer ["a"; "1"] j.
Proof.
  intros j j'. destruct (json_pointer_assign ["a"; "0"] (JString "x") j j') as [H1 H2].
  - repeat first [done | split | constructor].
  - reflexivity.
  - split; [exact H1|]. apply (H2 ["a"] "0" [] "1" []); [reflexivity|discriminate].
Defined.

Lemma contains_true ptr j : contains ptr j = Ok true ↔ is_ok (at_pointer ptr j) = true.
Proof.
  revert j. induction ptr as [|token ptr IH]; intros j; [done|]. rewrite at_pointer_cons. cbn [contains].
  destruct j as [|fs|l| | | | |]; cbn [at_token]; try done.
  - by destruct (om_find token fs) as [w|]; cbn [mbind result_bind].
  - destruct (String.eqb token "-"); [done|]. cbn [orb].
    destruct (array_index token) as [idx|e] eqn:E.
    + destruct (array_index_plausible _ _ E) as (_ & -> & _). cbn [negb mbind result_bind].
      by destruct (l !! Z.to_nat idx).
    + by destruct (plausible_index token).
Qed.

(** [contains] and [at]: [contains] is true exactly when [at] returns a value.
    It is no complete test, though: an empty token, or one with an index beyond
    the range, on an array makes it throw [out_of_range] instead of being
    false. *)
Theorem contains_at :
  (∀ ptr j, contains ptr j = Ok true ↔ is_ok (at_pointer ptr j) = true) ∧
  (∀ ptr j e, contains ptr j = Throw e → ∃ id, exn_kind e = json_out_of_range id) ∧
  (∀ l, contains [EmptyString] (JArray l) = Throw (unresolved EmptyString)).
Proof.
  split; [|split; [|done]].
  - exact contains_true.
  - intros ptr. induction ptr as [|token ptr IH]; intros j e; [done|]. cbn [contains].
    destruct j as [|fs|l| | | | |]; try done.
    + destruct (om_find token fs); [apply IH|done].
    + destruct (String.eqb token "-" || _) eqn:Ep; [done|]. apply orb_false_iff in Ep as [_ Ep].
      apply negb_false_iff in Ep. destruct (array_index token) as [idx|e'] eqn:E; cbn [mbind result_bind].
      * destruct (l !! Z.to_nat idx); [apply IH|done].
      * intros [= <-]. by apply (array_index_implausible token).
Qed.

(** ** [operator[]] *)

Lemma unchecked_token_at token j s j' :
  token ≠ "-" → unchecked_token token j = Ok (s, j') → ∃ w, at_token token j' = Ok (s, w).
Proof.
  intros Hne. destruct j as [|fs|l| | | | |]; cbn [unchecked_token]; try done.
  - intros [= <- <-]. eexists. cbn [at_token]. by rewrite om_find_emplace_eq.
  - apply String.eqb_neq in Hne. rewrite Hne. intros (idx & Hidx & [= <- <-])%result_bind_ok.
    cbn [at_token]. rewrite Hne, Hidx. cbn [mbind result_bind].
    destruct (subscript_array (Z.to_nat idx) l !! Z.to_nat idx) as [w|] eqn:E; [by exists w|].
    apply lookup_ge_None in E. unfold subscript_array in E. rewrite length_app, length_replicate in E. lia.
Qed.

Lemma get_unchecked_cons token ptr j :
  get_unchecked (token :: ptr) j =
  match unchecked_token token (null_container token j) with
  | Throw e => (Throw e, null_container token j)
  | Ok (s, j) =>
      let '(r, v) := get_unchecked ptr (default JNull (json_at [s] j)) in
      (cons s <$> r, json_update [s] (λ _, v) j)
  end.
Proof. reflexivity. Qed.

Lemma get_unchecked_checked ptr : ∀ j p j',
  Forall (λ token, token ≠ "-") ptr → get_unchecked ptr j = (Ok p, j') → get_checked ptr j' = Ok p.
Proof.
  induction ptr as [|token ptr IH]; intros j p j' Hd; [by intros [= <- _]|].
  inversion Hd as [|? ? Ht Hptr]; subst. rewrite get_unchecked_cons.
  destruct (unchecked_token token (null_container token j)) as [[s j2]|e] eqn:Eu; [|done].
  destruct (unchecked_token_at _ _ _ _ Ht Eu) as [w Hw]. rewrite (at_token_step _ _ _ _ Hw). cbn [default from_option id].
  destruct (get_unchecked ptr w) as [[q|e] v] eqn:Eg; [|done]. intros [= <- <-].
  pose proof (at_token_update _ _ _ _ (λ _, v) Hw) as Hu. cbn [json_update] in Hu.
  cbn [get_checked]. rewrite Hu. cbn [mbind result_bind]. by rewrite (IH w q v Hptr Eg).
Qed.

(** [j[ptr] = v] creates what is missing on the way: afterwards [at] finds the
    value, for a pointer without the token "-". *)
Theorem subscript_assign_reads ptr v j j'
    (Hdash : Forall (λ token, token ≠ "-") ptr) (Hset : subscript_assign ptr v j = (Ok tt, j')) :
  at_pointer ptr j' = Ok v ∧ contains ptr j' = Ok true.
Proof.
  unfold subscript_assign in Hset. destruct (get_unchecked ptr j) as [[p|e] j1] eqn:E; [|done].
  injection Hset as <-. apply (get_unchecked_checked _ _ _ _ Hdash) in E.
  assert (Hat : at_pointer ptr (json_update p (λ _, v) j1) = Ok v).
  { unfold at_pointer. rewrite (get_checked_update _ _ _ _ E). cbn [mbind result_bind].
    destruct (get_checked_at _ _ _ E) as [w Hw]. by rewrite json_at_update, Hw. }
  split; [done|]. by apply contains_true; rewrite Hat.
Qed.

Lemma subscript_assign_reads_witness :
  let j' := JObject [("a", JArray [JNull; JObject [("b", JBool true)]])] in
  at_pointer ["a"; "1"; "b"] j' = Ok (JBool true).
Proof.
  intros j'. apply (subscript_assign_reads ["a"; "1"; "b"] (JBool true) JNull j').
  - repeat constructor; discriminate.
  - reflexivity.
Defined.
