(* ===== verification/JsonPatchFacts.v ===== *)
(** JSON Patch: the patch computed from two values turns the first into the
    second, what operations below primitive values do, and merge patches. *)

From S2P Require Import Prelude Decimal StdMap Doubles Exceptions JsonValue JsonParser JsonPointer JsonPatch.
From S2P Require Import JsonSpec JsonRoundTrip JsonPointerFacts.

Local Open Scope string_scope.
Local Open Scope list_scope.
Local Open Scope nat_scope.

(** ** Paths of a diff *)

Lemma pointer_string_snoc ptr token :
  pointer_string (ptr ++ [token]) = pointer_string ptr +:+ "/" +:+ escape token.
Proof. unfold pointer_string. by rewrite fold_left_app. Qed.

Lemma escape_plain_token s : sforall (λ c, negb (Ascii.eqb c "~") && negb (Ascii.eqb c "/")) s = true → escape s = s.
Proof.
  rewrite escape_each. induction s as [|c s IH]; [done|]. cbn [sforall each].
  intros [[Ht Hs]%andb_true_iff H]%andb_true_iff. rewrite IH by done. unfold escape_char.
  apply negb_true_iff in Ht as ->, Hs as ->. done.
Qed.

Lemma escape_index i : escape (to_string (Z.of_nat i)) = to_string (Z.of_nat i).
Proof.
  apply escape_plain_token. unfold to_string. rewrite (proj2 (Z.ltb_ge _ 0)) by lia.
  eapply sforall_impl; [|apply dec_nonneg_digits; lia]. intros c Hc.
  apply andb_true_iff. split; apply negb_true_iff, Ascii.eqb_neq; by intros ->.
Qed.

Lemma key_path_snoc ptr k : key_path (pointer_string ptr) k = pointer_string (ptr ++ [k]).
Proof. by rewrite pointer_string_snoc. Qed.
Lemma index_path_snoc ptr i :
  index_path (pointer_string ptr) i = pointer_string (ptr ++ [to_string (Z.of_nat i)]).
Proof. by rewrite pointer_string_snoc, escape_index. Qed.
Lemma dash_path_snoc ptr : pointer_string ptr +:+ "/-" = pointer_string (ptr ++ ["-"]).
Proof. by rewrite pointer_string_snoc. Qed.

(** ** One operation of a diff *)

Lemma replace_step ptr t D :
  patch_step (replace_op (pointer_string ptr) t) D = in_place (at_assign ptr t D) D.
Proof.
  unfold patch_step, replace_op. change (get_text "op" "op" _) with (@Ok exn _ "replace").
  cbn [mbind result_bind]. change (get_text "replace" "path" _) with (@Ok exn _ (pointer_string ptr)).
  cbn [mbind result_bind]. by rewrite split_pointer_string.
Qed.

Lemma remove_step ptr D :
  patch_step (remove_op (pointer_string ptr)) D = in_place (operation_remove ptr D) D.
Proof.
  unfold patch_step, remove_op. change (get_text "op" "op" _) with (@Ok exn _ "remove").
  cbn [mbind result_bind]. change (get_text "remove" "path" _) with (@Ok exn _ (pointer_string ptr)).
  cbn [mbind result_bind]. by rewrite split_pointer_string.
Qed.

Lemma add_step ptr t D :
  patch_step (add_op (pointer_string ptr) t) D = in_place (operation_add ptr t D) D.
Proof.
  unfold patch_step, add_op. change (get_text "op" "op" _) with (@Ok exn _ "add").
  cbn [mbind result_bind]. change (get_text "add" "path" _) with (@Ok exn _ (pointer_string ptr)).
  cbn [mbind result_bind]. by rewrite split_pointer_string.
Qed.

Lemma patch_steps_app l m D D' :
  patch_steps l D = (Ok tt, D') → patch_steps (l ++ m) D = patch_steps m D'.
Proof.
  revert D. induction l as [|x l IH]; intros D; [by intros [= ->]|]. cbn.
  destruct (patch_step x D) as [[[]|e] D1]; [apply IH|done].
Qed.

Lemma split_parent_snoc ptr token : split_parent (ptr ++ [token]) = Ok (token, ptr).
Proof.
  unfold split_parent, pointer_back, pointer_pop_back. rewrite last_snoc. cbn [mbind result_bind].
  destruct (ptr ++ [token]) as [|x l] eqn:E; [by destruct ptr|]. rewrite <-E, removelast_last. done.
Qed.

(** The value a pointer refers to, and its place. *)
Definition refers (ptr : json_pointer) (D : json) (p : list step) (v : json) : Prop :=
  get_checked ptr D = Ok p ∧ json_at p D = Some v.

Lemma refers_update ptr D p v w : refers ptr D p v → refers ptr (json_update p (λ _, w) D) p w.
Proof.
  intros [Hp Hv]. split; [by apply get_checked_update|]. by rewrite json_at_update, Hv.
Qed.

Lemma refers_child ptr D p v token s w :
  refers ptr D p v → at_token token v = Ok (s, w) → refers (ptr ++ [token]) D (p ++ [s]) w.
Proof.
  intros [Hp Hv] Ht. split.
  - apply (get_checked_app _ _ _ p v [s]); [done..|]. cbn. by rewrite Ht.
  - rewrite json_at_app, Hv. by apply at_token_step in Ht.
Qed.

Lemma update_again p D (v w : json) : json_update p (λ _, v) (json_update p (λ _, w) D) = json_update p (λ _, v) D.
Proof. by rewrite json_update_update. Qed.

Lemma change_at_ok ptr D p v f w :
  refers ptr D p v → f v = Ok w → change_at ptr f D = Ok (json_update p (λ _, w) D).
Proof. intros [Hp Hv] Hf. unfold change_at. rewrite Hp. cbn. by rewrite Hv; cbn; rewrite Hf. Qed.

Lemma remove_runs ptr D p v token w rest :
  refers ptr D p v → remove_child token v = Ok w →
  patch_steps (remove_op (pointer_string (ptr ++ [token])) :: rest) D =
  patch_steps rest (json_update p (λ _, w) D).
Proof.
  intros Hr Hw. cbn [patch_steps]. rewrite remove_step. unfold operation_remove. rewrite split_parent_snoc.
  cbn [mbind result_bind]. by rewrite (change_at_ok _ _ _ _ _ _ Hr Hw).
Qed.

Lemma get_checked_top token ptr D p : get_checked (token :: ptr) D = Ok p → is_ok (get_checked [token] D) = true.
Proof. cbn. destruct (at_token token D) as [[s v]|e]; [|done]. done. Qed.

Lemma operation_add_ok ptr D p v token x w :
  refers ptr D p v → add_child token x v = Ok w →
  operation_add (ptr ++ [token]) x D = Ok (json_update p (λ _, w) D).
Proof.
  intros Hr Hw. unfold operation_add. destruct (ptr ++ [token]) as [|a l] eqn:E; [by destruct ptr|].
  cbn [pointer_top mbind result_bind]. rewrite <-E.
  assert (Htop : is_ok (if decide ([a] = ptr ++ [token]) then Ok [] else get_checked [a] D) = true).
  { case_decide as Hd; [done|]. destruct ptr as [|b ptr].
    - cbn in E. simplify_eq.
    - injection E as -> _. destruct Hr as [Hp _]. by eapply get_checked_top. }
  destruct (if decide _ then _ else _) as [q|e]; [|done]. cbn [mbind result_bind].
  rewrite split_parent_snoc. cbn [mbind result_bind]. by apply (change_at_ok _ _ _ v).
Qed.

Lemma add_runs ptr D p v token x w rest :
  refers ptr D p v → add_child token x v = Ok w →
  patch_steps (add_op (pointer_string (ptr ++ [token])) x :: rest) D =
  patch_steps rest (json_update p (λ _, w) D).
Proof.
  intros Hr Hw. cbn [patch_steps]. rewrite add_step. by rewrite (operation_add_ok _ _ _ _ _ _ _ Hr Hw).
Qed.

(** Writing what is there. *)
Lemma om_assign_id `{OrderedKey K} {V} (k : K) (v : V) m : om_find k m = Some v → om_assign k v m = m.
Proof.
  induction m as [|[a w] m IH]; cbn; [done|]. destruct (kltb k a) eqn:E1; [done|].
  destruct (kltb a k) eqn:E2; [intros; by rewrite IH|]. by intros [= ->].
Qed.

Lemma json_update_id p D v : json_at p D = Some v → json_update p (λ _, v) D = D.
Proof.
  revert D. induction p as [|[k|i] p IH]; intros D; [by intros [= ->]|..];
    destruct D as [|fs|l| | | | |]; try done; cbn [json_at json_update].
  - destruct (om_find k fs) as [w|] eqn:E; [|done]. intros Hw. f_equal. unfold om_update. rewrite E.
    rewrite (IH _ Hw). by apply om_assign_id.
  - destruct (l !! i) as [w|] eqn:E; [|done]. intros Hw. f_equal.
    rewrite (list_alter_ext _ (λ x, x) l l); [by apply list_alter_id| |done].
    intros x Hx. rewrite E in Hx. injection Hx as ->. by apply IH.
Qed.

(** ** What a patch makes of the source *)

(** The source where it compares equal to the target, the target's structure
    and values elsewhere. *)
Fixpoint patched (source target : json) : json :=
  if json_eq source target then source
  else
    match target with
    | JArray m =>
        match source with
        | JArray l =>
            JArray ((fix go l m :=
                       match m with
                       | [] => []
                       | y :: m' => match l with x :: l' => patched x y :: go l' m' | [] => y :: go [] m' end
                       end) l m)
        | _ => target
        end
    | JObject gs =>
        match source with
        | JObject fs =>
            JObject (map (λ q, (q.1, match om_find q.1 fs with Some v => patched v q.2 | None => q.2 end)) gs)
        | _ => target
        end
    | _ => target
    end.

Fixpoint patched_items (l m : list json) {struct m} : list json :=
  match m with
  | [] => []
  | y :: m' => match l with x :: l' => patched x y :: patched_items l' m' | [] => y :: patched_items [] m' end
  end.
Definition patched_fields (fs gs : list (string * json)) : list (string * json) :=
  map (λ q, (q.1, match om_find q.1 fs with Some v => patched v q.2 | None => q.2 end)) gs.

Definition diff_items (path : string) : nat → list json → list json → list json :=
  fix common (i : nat) (l m : list json) : list json :=
    match l, m with
    | x :: l', y :: m' => diff x y (index_path path i) ++ common (S i) l' m'
    | [], m => map (add_op (path +:+ "/-")) m
    | l, [] => remove_rest path i l
    end.
Definition diff_fields (path : string) (gs : list (string * json)) : list (string * json) → list json :=
  fix first_pass (l : list (string * json)) : list json :=
    match l with
    | [] => []
    | p :: l' =>
        (match om_find p.1 gs with
         | Some w => diff p.2 w (key_path path p.1)
         | None => [remove_op (key_path path p.1)]
         end) ++ first_pass l'
    end.

Lemma diff_array l m path :
  diff (JArray l) (JArray m) path =
  if json_eq (JArray l) (JArray m) then [] else diff_items path 0 l m.
Proof. reflexivity. Qed.
Lemma diff_object fs gs path :
  diff (JObject fs) (JObject gs) path =
  if json_eq (JObject fs) (JObject gs) then [] else diff_fields path gs fs ++ added_keys path fs gs.
Proof. reflexivity. Qed.
Lemma patched_array l m :
  patched (JArray l) (JArray m) = if json_eq (JArray l) (JArray m) then JArray l else JArray (patched_items l m).
Proof. reflexivity. Qed.
Lemma patched_object fs gs :
  patched (JObject fs) (JObject gs) =
  if json_eq (JObject fs) (JObject gs) then JObject fs else JObject (patched_fields fs gs).
Proof. reflexivity. Qed.

Lemma patched_items_nil m : patched_items [] m = m.
Proof. induction m as [|y m IH]; [done|]. cbn. by rewrite IH. Qed.

(** Arrays are short enough for their indices. *)
Fixpoint indexable (j : json) : Prop :=
  match j with
  | JArray l =>
      (Z.of_nat (length l) < 2 ^ 64 - 1)%Z ∧
      (fix go l := match l with [] => True | x :: l' => indexable x ∧ go l' end) l
  | JObject fs => (fix go l := match l with [] => True | p :: l' => indexable p.2 ∧ go l' end) fs
  | _ => True
  end.

Lemma indexable_array l :
  indexable (JArray l) ↔ (Z.of_nat (length l) < 2 ^ 64 - 1)%Z ∧ Forall indexable l.
Proof.
  cbn [indexable]. apply and_iff_compat_l. induction l as [|x l IH]; [split; [constructor|done]|].
  rewrite IH. split; [intros [??]; by constructor|by inversion 1].
Qed.
Lemma indexable_object fs : indexable (JObject fs) ↔ Forall (λ p, indexable p.2) fs.
Proof.
  cbn [indexable]. induction fs as [|p fs IH]; [split; [constructor|done]|].
  rewrite IH. split; [intros [??]; by constructor|by inversion 1].
Qed.

(** ** Arrays *)

Lemma at_index i l x :
  (Z.of_nat i < 2 ^ 64 - 1)%Z → l !! i = Some x →
  at_token (to_string (Z.of_nat i)) (JArray l) = Ok (Idx i, x).
Proof.
  intros Hi Hx. cbn [at_token].
  pose proof (array_index_to_string (Z.of_nat i) ltac:(lia)) as Ha.
  destruct (String.eqb_spec (to_string (Z.of_nat i)) "-") as [E|_]; [by rewrite E in Ha|].
  rewrite Ha. cbn [mbind result_bind]. by rewrite Nat2Z.id, Hx.
Qed.

Lemma remove_last i l x :
  length l = i → (Z.of_nat i < 2 ^ 64 - 1)%Z →
  remove_child (to_string (Z.of_nat i)) (JArray (l ++ [x])) = Ok (JArray l).
Proof.
  intros <- Hi. cbn [remove_child]. rewrite array_index_to_string by lia. cbn [mbind result_bind].
  unfold in_array. rewrite length_app. cbn [length].
  replace (Z.of_nat (length l) <? Z.of_nat (length l + 1))%Z with true by (symmetry; apply Z.ltb_lt; lia).
  rewrite Nat2Z.id, take_app_length, drop_ge by (rewrite length_app; cbn; lia). by rewrite app_nil_r.
Qed.

Section run.
Context (ptr : json_pointer) (p : list step).

(** Running operations at the place [p], which refers to [v] before and to [w]
    afterwards. *)
Definition runs (ops : list json) (v w : json) : Prop :=
  ∀ D, refers ptr D p v → patch_steps ops D = (Ok tt, json_update p (λ _, w) D).

Lemma runs_nil v : runs [] v v.
Proof. intros D [_ Hv]. cbn. by rewrite json_update_id. Qed.

Lemma runs_app ops ops' u v w : runs ops u v → runs ops' v w → runs (ops ++ ops') u w.
Proof.
  intros H1 H2 D Hr. rewrite (patch_steps_app _ _ _ _ (H1 D Hr)).
  rewrite H2 by (by eapply refers_update). by rewrite update_again.
Qed.

Lemma runs_remove token v w :
  remove_child token v = Ok w → runs [remove_op (pointer_string (ptr ++ [token]))] v w.
Proof. intros Hw D Hr. by rewrite (remove_runs _ _ _ _ _ _ _ Hr Hw). Qed.

Lemma runs_add token x v w :
  add_child token x v = Ok w → runs [add_op (pointer_string (ptr ++ [token])) x] v w.
Proof. intros Hw D Hr. by rewrite (add_runs _ _ _ _ _ _ _ _ Hr Hw). Qed.

Lemma runs_replace v w : runs [replace_op (pointer_string ptr) w] v w.
Proof. intros D [Hp Hv]. cbn [patch_steps]. rewrite replace_step. unfold at_assign. by rewrite Hp. Qed.

(** The elements behind the common ones. *)
Lemma runs_add_rest m l :
  runs (map (add_op (pointer_string (ptr ++ ["-"]))) m) (JArray l) (JArray (l ++ m)).
Proof.
  revert l. induction m as [|x m IH]; intros l; [rewrite app_nil_r; apply runs_nil|].
  cbn [map]. apply (runs_app [_] _ _ (JArray (l ++ [x]))); [by apply runs_add|].
  replace (l ++ x :: m) with ((l ++ [x]) ++ m) by (by rewrite <-app_assoc). apply IH.
Qed.

Lemma runs_remove_rest rest l :
  (Z.of_nat (length (l ++ rest)) < 2 ^ 64 - 1)%Z →
  runs (remove_rest (pointer_string ptr) (length l) rest) (JArray (l ++ rest)) (JArray l).
Proof.
  revert l. induction rest as [|x rest IH]; intros l Hl; [rewrite app_nil_r; apply runs_nil|].
  cbn [remove_rest]. rewrite index_path_snoc.
  apply (runs_app _ _ _ (JArray (l ++ [x]))).
  - replace (S (length l)) with (length (l ++ [x])) by (rewrite length_app; cbn; lia).
    replace (l ++ x :: rest) with ((l ++ [x]) ++ rest) in Hl |- * by (by rewrite <-app_assoc).
    by apply IH.
  - apply runs_remove, remove_last; [done|]. rewrite length_app in Hl. lia.
Qed.
End run.

(** Only the value at the place matters. *)
Lemma json_update_const p f D v :
  json_at p D = Some v → json_update p f D = json_update p (λ _, f v) D.
Proof.
  revert D. induction p as [|[k|i] p IH]; intros D; [by intros [= ->]|..];
    destruct D as [|fs|l| | | | |]; try done; cbn [json_at json_update]; intros Hv; f_equal.
  - unfold om_update. destruct (om_find k fs) as [D'|]; [|done]. by rewrite (IH D').
  - apply list_alter_ext; [|done]. intros D' E. rewrite E in Hv. by apply IH.
Qed.

(** A child is patched in its place. *)
Lemma runs_child ptr p token s v w x ops :
  at_token token v = Ok (s, x) → runs (ptr ++ [token]) (p ++ [s]) ops x w →
  runs ptr p ops v (json_update [s] (λ _, w) v).
Proof.
  intros Ht Hops D Hr. rewrite (Hops D) by (by eapply refers_child).
  rewrite json_update_app. by rewrite (json_update_const _ _ D v) by apply Hr.
Qed.

(** What the induction provides for the values inside the source. *)
Definition diff_runs (s : json) : Prop :=
  ∀ t ptr p, json_wf s → json_wf t → indexable s → runs ptr p (diff s t (pointer_string ptr)) s (patched s t).

Lemma runs_items ptr p l : Forall diff_runs l → ∀ m front,
  Forall json_wf l → Forall json_wf m → Forall indexable l →
  (Z.of_nat (length (front ++ l)) < 2 ^ 64 - 1)%Z →
  runs ptr p (diff_items (pointer_string ptr) (length front) l m) (JArray (front ++ l))
    (JArray (front ++ patched_items l m)).
Proof.
  induction 1 as [|x l Hx _ IH]; intros m front Hl Hm Hi Hlen.
  - rewrite patched_items_nil, app_nil_r. cbn [diff_items]. rewrite dash_path_snoc. apply runs_add_rest.
  - destruct m as [|y m].
    + cbn [diff_items patched_items]. rewrite app_nil_r. by apply runs_remove_rest.
    + inversion Hl; inversion Hm; inversion Hi; subst. cbn [diff_items patched_items].
      assert (Hlook : (front ++ x :: l) !! length front = Some x) by by apply list_lookup_middle.
      rewrite length_app in Hlen. cbn [length] in Hlen.
      apply (runs_app _ _ _ _ _ (JArray ((front ++ [patched x y]) ++ l))).
      * replace (JArray ((front ++ [patched x y]) ++ l))
          with (json_update [Idx (length front)] (λ _, patched x y) (JArray (front ++ x :: l))).
        { apply (runs_child _ _ (to_string (Z.of_nat (length front))) _ _ _ x); [apply at_index; [lia|done]|].
          rewrite index_path_snoc. by apply Hx. }
        cbn. rewrite <-app_assoc. f_equal.
        rewrite alter_app_r_alt by done. by rewrite Nat.sub_diag.
      * replace (front ++ patched x y :: patched_items l m)
          with ((front ++ [patched x y]) ++ patched_items l m) by (by rewrite <-app_assoc).
        replace (S (length front)) with (length (front ++ [patched x y])) by (rewrite length_app; cbn; lia).
        apply IH; [done..|]. rewrite !length_app. cbn [length]. lia.
Qed.

(** ** Objects *)

Section object_passes.
Context (ptr : json_pointer) (p : list step).

Lemma at_key k (m : list (string * json)) v : om_find k m = Some v → at_token k (JObject m) = Ok (Key k, v).
Proof. intros E. cbn. by rewrite E. Qed.

(** A key in front of all others is not among them. *)
Lemma om_find_head {V} (k k' : string) (v : V) m :
  om_sorted ((k, v) :: m) → om_find k' ((k, v) :: m) = if decide (k' = k) then Some v else om_find k' m.
Proof.
  intros [Hk Hs]. cbn [om_find]. case_decide as Hd.
  - subst. by rewrite kltb_irrefl.
  - destruct (kltb k' k) eqn:E1.
    + symmetry. by eapply om_find_lt_all, om_lt_all_trans.
    + destruct (kltb k k') eqn:E2; [done|]. by destruct (Hd (kltb_total _ _ E1 E2)).
Qed.

Lemma runs_first_pass (gs rem : list (string * json)) :
  Forall (λ q, json_wf q.2) gs → Forall (λ q, diff_runs q.2) rem →
  ∀ m, om_sorted rem → Forall (λ q, json_wf q.2) rem → Forall (λ q, indexable q.2) rem → om_sorted m →
  (∀ k v, om_find k rem = Some v → om_find k m = Some v) →
  ∃ m', om_sorted m' ∧ runs ptr p (diff_fields (pointer_string ptr) gs rem) (JObject m) (JObject m') ∧
    ∀ k, om_find k m' =
      match om_find k rem with
      | Some s => match om_find k gs with Some t => Some (patched s t) | None => None end
      | None => om_find k m
      end.
Proof.
  intros Hgs. induction 1 as [|[k s] rem Hs _ IH]; intros m Hsr Hwf Hi Hm Hin.
  { exists m. split; [done|]. split; [apply runs_nil|done]. }
  inversion Hwf; inversion Hi; subst.
  assert (Hk : om_find k m = Some s).
  { apply Hin. rewrite om_find_head by done. by rewrite decide_True. }
  assert (Hnext : ∀ m1, om_sorted m1 → (∀ k', k' ≠ k → om_find k' m1 = om_find k' m) →
    ∃ m', om_sorted m' ∧ runs ptr p (diff_fields (pointer_string ptr) gs rem) (JObject m1) (JObject m') ∧
    ∀ k', om_find k' m' =
      match om_find k' rem with
      | Some s => match om_find k' gs with Some t => Some (patched s t) | None => None end
      | None => om_find k' m1
      end).
  { intros m1 Hm1 Hother. apply IH; [apply Hsr|done..|]. intros k' v Hv.
    assert (Hne : k' ≠ k).
    { intros ->. destruct Hsr as [Hlt _]. by rewrite (om_find_lt_all k rem Hlt) in Hv. }
    rewrite Hother by done. apply Hin. rewrite om_find_head by done. by rewrite decide_False. }
  cbn [diff_fields fst snd]. rewrite key_path_snoc.
  destruct (om_find k gs) as [t|] eqn:Et.
  - destruct (Hnext (om_update k (λ _, patched s t) m)) as (m' & Hm' & Hruns & Hfind).
    { by apply om_update_sorted. } { intros k' Hne. by apply om_find_update_ne. }
    exists m'. split; [done|]. split.
    + eapply runs_app; [|exact Hruns].
      change (JObject (om_update k _ m)) with (json_update [Key k] (λ _, patched s t) (JObject m)).
      apply (runs_child _ _ k (Key k) _ _ s); [by apply at_key|].
      apply Hs; [done| |done]. exact (om_find_Forall (λ q, json_wf q.2) k t gs Hgs Et).
    + intros k'. rewrite Hfind, om_find_head by done. case_decide as Hd.
      * subst. destruct Hsr as [Hlt _]. rewrite (om_find_lt_all k rem Hlt), om_find_update_eq, Hk, Et. done.
      * destruct (om_find k' rem); [done|]. by apply om_find_update_ne.
  - destruct (Hnext (om_erase k m)) as (m' & Hm' & Hruns & Hfind).
    { by apply om_erase_sorted. } { intros k' Hne. by apply om_find_erase_ne. }
    exists m'. split; [done|]. split.
    + eapply (runs_app _ _ [_]); [|exact Hruns]. apply runs_remove. cbn [remove_child]. by rewrite Hk.
    + intros k'. rewrite Hfind, om_find_head by done. case_decide as Hd.
      * subst. destruct Hsr as [Hlt _]. by rewrite (om_find_lt_all k rem Hlt), om_find_erase_eq, Et.
      * destruct (om_find k' rem); [done|]. by apply om_find_erase_ne.
Qed.

Lemma runs_second_pass (fs rem : list (string * json)) : ∀ m,
  om_sorted rem → om_sorted m →
  ∃ m', om_sorted m' ∧ runs ptr p (added_keys (pointer_string ptr) fs rem) (JObject m) (JObject m') ∧
    ∀ k, om_find k m' =
      match om_find k rem, om_find k fs with
      | Some t, None => Some t
      | _, _ => om_find k m
      end.
Proof.
  induction rem as [|[k t] rem IH]; intros m Hsr Hm.
  { exists m. split; [done|]. split; [apply runs_nil|]. done. }
  unfold added_keys. cbn [flat_map fst snd]. fold (added_keys (pointer_string ptr) fs rem).
  rewrite key_path_snoc. destruct (om_find k fs) as [s|] eqn:Es.
  - destruct (IH m) as (m' & Hm' & Hruns & Hfind); [apply Hsr|done|].
    exists m'. split; [done|]. split; [done|]. intros k'. rewrite Hfind, om_find_head by done.
    case_decide as Hd; [|done]. subst. rewrite Es. by destruct (om_find k rem).
  - destruct (IH (om_assign k t m)) as (m' & Hm' & Hruns & Hfind); [apply Hsr|by apply om_assign_sorted|].
    exists m'. split; [done|]. split.
    + eapply (runs_app _ _ [_]); [|exact Hruns]. apply runs_add.
      cbn [add_child subscript_set]. unfold subscript_set, subscript_object. cbn [mbind result_bind mret result_ret].
      do 2 f_equal. unfold om_emplace. destruct (om_find k m); [done|]. apply om_assign_assign.
    + intros k'. rewrite Hfind, om_find_head by done. case_decide as Hd.
      * subst. destruct Hsr as [Hlt _]. by rewrite (om_find_lt_all k rem Hlt), Es, om_find_assign_eq.
      * by rewrite om_find_assign_ne.
Qed.
End object_passes.

Lemma patched_fields_find fs gs k :
  om_sorted gs →
  om_find k (patched_fields fs gs) =
    match om_find k gs with
    | Some t => Some (match om_find k fs with Some s => patched s t | None => t end)
    | None => None
    end.
Proof.
  unfold patched_fields. induction gs as [|[a t] gs IH]; [done|]. intros [_ Hs]. cbn [map fst snd om_find].
  destruct (kltb k a) eqn:E1; [done|]. destruct (kltb a k) eqn:E2; [by apply IH|].
  by rewrite (kltb_total _ _ E1 E2).
Qed.

Lemma patched_fields_sorted fs gs : om_sorted gs → om_sorted (patched_fields fs gs).
Proof.
  apply om_sorted_keys. unfold patched_fields. induction gs as [|[a t] gs IH]; [done|]. cbn. by f_equal.
Qed.

Lemma runs_object ptr p fs gs :
  Forall (λ q, diff_runs q.2) fs → json_wf (JObject fs) → json_wf (JObject gs) → indexable (JObject fs) →
  runs ptr p (diff_fields (pointer_string ptr) gs fs ++ added_keys (pointer_string ptr) fs gs)
    (JObject fs) (JObject (patched_fields fs gs)).
Proof.
  intros Hd [Hs Hf]%json_wf_object [Hs' Hg]%json_wf_object Hi%indexable_object.
  destruct (runs_first_pass ptr p gs fs Hg Hd fs Hs Hf Hi Hs ltac:(done)) as (m1 & Hm1 & Hr1 & Hf1).
  destruct (runs_second_pass ptr p fs gs m1 Hs' Hm1) as (m2 & Hm2 & Hr2 & Hf2).
  replace (patched_fields fs gs) with m2; [by eapply runs_app|].
  apply om_ext; [done|by apply patched_fields_sorted|]. intros k.
  rewrite Hf2, Hf1, patched_fields_find by done.
  by destruct (om_find k gs), (om_find k fs).
Qed.

(** ** Every value *)

Lemma diff_runs_all s : diff_runs s.
Proof.
  induction s as [|fs IH|l IH|x|b|n|n|d] using json_nested_ind; intros t ptr p Hs Ht Hi.
  2: { destruct t as [|gs|m| | | | |]; try (apply runs_replace).
       rewrite diff_object, patched_object. destruct (json_eq _ _); [apply runs_nil|]. by apply runs_object. }
  2: { destruct t as [|gs|m| | | | |]; try (apply runs_replace).
       rewrite diff_array, patched_array. destruct (json_eq _ _); [apply runs_nil|].
       apply indexable_array in Hi as [Hlen Hi]. apply json_wf_array in Hs, Ht.
       by apply (runs_items ptr p l IH m []). }
  all: destruct t; cbn [diff patched]; destruct (json_eq _ _); first [apply runs_nil | apply runs_replace].
Qed.

Lemma patch_diff source target :
  json_wf source → json_wf target → indexable source →
  patch (diff_json source target) source = Ok (patched source target).
Proof.
  intros Hs Ht Hi. unfold patch, diff_json, patch_inplace.
  change (diff source target EmptyString) with (diff source target (pointer_string [])).
  by rewrite (diff_runs_all source target [] [] Hs Ht Hi source).
Qed.

(** ** Comparison *)

Fixpoint items_eq (l m : list json) : bool :=
  match l, m with
  | [], [] => true
  | x :: l', y :: m' => json_eq x y && items_eq l' m'
  | _, _ => false
  end.
Fixpoint fields_eq (fs gs : list (string * json)) : bool :=
  match fs, gs with
  | [], [] => true
  | p :: fs', q :: gs' => (String.eqb p.1 q.1 && json_eq p.2 q.2) && fields_eq fs' gs'
  | _, _ => false
  end.

Lemma json_eq_array l m : json_eq (JArray l) (JArray m) = items_eq l m.
Proof. reflexivity. Qed.
Lemma json_eq_object fs gs : json_eq (JObject fs) (JObject gs) = fields_eq fs gs.
Proof. reflexivity. Qed.

(** No number is a NaN. *)
Fixpoint nan_free (j : json) : bool :=
  match j with
  | JFloat S754_nan => false
  | JArray l => (fix go l := match l with [] => true | x :: l' => nan_free x && go l' end) l
  | JObject fs => (fix go l := match l with [] => true | p :: l' => nan_free p.2 && go l' end) fs
  | _ => true
  end.

Lemma nan_free_array l : nan_free (JArray l) = true → Forall (λ x, nan_free x = true) l.
Proof.
  cbn [nan_free]. induction l as [|x l IH]; [constructor|]. intros [Hx Hl]%andb_true_iff.
  constructor; [done|by apply IH].
Qed.
Lemma nan_free_object fs : nan_free (JObject fs) = true → Forall (λ p, nan_free p.2 = true) fs.
Proof.
  cbn [nan_free]. induction fs as [|x l IH]; [constructor|]. intros [Hx Hl]%andb_true_iff.
  constructor; [done|by apply IH].
Qed.

Lemma dbl_eqb_refl d : d ≠ S754_nan → dbl_eqb d d = true.
Proof.
  unfold dbl_eqb, SFeqb. destruct d as [s|s| |s m e]; cbn; try done; [by destruct s|].
  intros _. rewrite Z.compare_refl, Pos.compare_cont_refl. by destruct s.
Qed.

Lemma json_eq_refl j : nan_free j = true → json_eq j j = true.
Proof.
  induction j as [|fs IH|l IH|x|b|n|n|d] using json_nested_ind; intros Hj.
  - done.
  - rewrite json_eq_object. apply nan_free_object in Hj. induction IH as [|q fs Hq _ IHfs]; [done|].
    inversion Hj; subst. cbn [fields_eq]. by rewrite String.eqb_refl, Hq, IHfs.
  - rewrite json_eq_array. apply nan_free_array in Hj. induction IH as [|x l Hx _ IHl]; [done|].
    inversion Hj; subst. cbn [items_eq]. by rewrite Hx, IHl.
  - apply String.eqb_refl.
  - by destruct b.
  - apply Z.eqb_refl.
  - apply Z.eqb_refl.
  - apply dbl_eqb_refl. by intros ->.
Qed.

Lemma patched_eq t : ∀ s, nan_free t = true → json_eq (patched s t) t = true.
Proof.
  induction t as [|gs IH|m IH|x|b|n|n|d] using json_nested_ind; intros s Ht.
  2: { destruct s as [|fs|l| | | | |]; try (cbn [patched]; by apply json_eq_refl).
       rewrite patched_object. destruct (json_eq (JObject fs) _) eqn:E; [done|]. clear E.
       rewrite json_eq_object. apply nan_free_object in Ht. unfold patched_fields.
       induction IH as [|q gs Hq _ IHgs]; [done|]. inversion Ht; subst. cbn [map fields_eq fst snd].
       rewrite String.eqb_refl, IHgs by done. rewrite andb_true_r. cbn [andb].
       destruct (om_find q.1 fs); [by apply Hq|by apply json_eq_refl]. }
  2: { destruct s as [|fs|l| | | | |]; try (cbn [patched]; by apply json_eq_refl).
       rewrite patched_array. destruct (json_eq (JArray l) _) eqn:E; [done|]. clear E.
       rewrite json_eq_array. apply nan_free_array in Ht. revert l.
       induction IH as [|y m Hy _ IHm]; intros l; [done|]. inversion Ht; subst. cbn [patched_items].
       destruct l as [|x l]; cbn [items_eq]; rewrite IHm by done; rewrite andb_true_r;
         [by apply json_eq_refl|by apply Hy]. }
  all: destruct s; cbn [patched]; match goal with |- json_eq (if ?b then _ else _) _ = true => destruct b eqn:E end;
    first [exact E | by apply json_eq_refl].
Qed.

(** The target up to numbers that compare equal: the exact counterpart for
    values with NaNs. *)
Inductive agrees : json → json → Prop :=
  | agrees_eq r t : json_eq r t = true → agrees r t
  | agrees_same t : agrees t t
  | agrees_array l m : Forall2 agrees l m → agrees (JArray l) (JArray m)
  | agrees_object fs gs :
      Forall2 (λ p q, p.1 = q.1 ∧ agrees p.2 q.2) fs gs → agrees (JObject fs) (JObject gs).

Lemma patched_agrees t : ∀ s, agrees (patched s t) t.
Proof.
  induction t as [|gs IH|m IH|x|b|n|n|d] using json_nested_ind; intros s.
  2: { destruct s as [|fs|l| | | | |]; try (apply agrees_same).
       rewrite patched_object. destruct (json_eq (JObject fs) _) eqn:E; [by apply agrees_eq|].
       apply agrees_object. unfold patched_fields. clear E. induction IH as [|q gs Hq _ IHgs]; [constructor|].
       constructor; [|done]. split; [done|]. cbn [snd]. destruct (om_find q.1 fs); [apply Hq|apply agrees_same]. }
  2: { destruct s as [|fs|l| | | | |]; try (apply agrees_same).
       rewrite patched_array. destruct (json_eq (JArray l) _) eqn:E; [by apply agrees_eq|].
       apply agrees_array. clear E. revert l. induction IH as [|y m Hy _ IHm]; intros l; [constructor|].
       cbn [patched_items]. destruct l; (constructor; [|done]); [apply agrees_same|apply Hy]. }
  all: destruct s; cbn [patched]; destruct (json_eq _ _) eqn:E; first [by apply agrees_eq | apply agrees_same].
Qed.

(** C10. The patch that [diff] computes from two values is applicable to the first
    one and turns it into the second: the result compares equal to the target,
    for targets without NaN, and otherwise agrees with it up to numbers that
    compare equal.  Equality is that of [operator==]: the largest unsigned
    number and -1 are equal, and the patch between them is empty. *)
Theorem diff_patch source target
    (Hs : json_wf source) (Ht : json_wf target) (Hi : indexable source) :
  (∃ result, patch (diff_json source target) source = Ok result ∧ agrees result target ∧
    (nan_free target = true → json_eq result target = true)) ∧
  diff_json (JUnsigned (2 ^ 64 - 1)) (JInteger (-1)) = JArray [].
Proof.
  split; [|reflexivity]. exists (patched source target). split; [by apply patch_diff|].
  split; [apply patched_agrees|apply patched_eq].
Qed.

Lemma diff_patch_witness :
  let source := JObject [("a/b", JArray [JUnsigned 1; JFloat (dbl_of_Z 2); JNull]); ("gone", JNull)] in
  let target := JObject [("a/b", JArray [JString "x"; JUnsigned 2]); ("new", JBool true)] in
  ∃ result, patch (diff_json source target) source = Ok result ∧ agrees result target ∧
    (nan_free target = true → json_eq result target = true).
Proof.
  intros source target. apply (diff_patch source target).
  - apply json_wf_object. split; [repeat constructor|].
    repeat (apply List.Forall_cons); try apply List.Forall_nil; [|done].
    apply json_wf_array. repeat (apply List.Forall_cons); try apply List.Forall_nil; [by split|reflexivity|done].
  - apply json_wf_object. split; [repeat constructor|].
    repeat (apply List.Forall_cons); try apply List.Forall_nil; [|done].
    apply json_wf_array. repeat (apply List.Forall_cons); try apply List.Forall_nil; [done|by split].
  - apply indexable_object. repeat (apply List.Forall_cons); try apply List.Forall_nil; [|done].
    apply indexable_array. split; [by vm_compute|]. repeat (apply List.Forall_cons); try apply List.Forall_nil; done.
Defined.

(** ** Operations below a primitive value *)

(** A pointer below a string, a boolean or a number: RFC 6902 wants an error,
    but "add" and "remove" report success and leave the document alone (the
    comment in [operation_add] says that such a parent cannot exist); "remove"
    does so below a null value too. *)
Theorem primitive_parent_ignored ptr token value parent D
    (Hat : at_pointer ptr D = Ok parent)
    (Hprim : match parent with JObject _ | JArray _ => False | _ => True end) :
  patch_step (remove_op (pointer_string (ptr ++ [token]))) D = (Ok tt, D) ∧
  (parent ≠ JNull → patch_step (add_op (pointer_string (ptr ++ [token])) value) D = (Ok tt, D)).
Proof.
  apply result_bind_ok in Hat as (p & Hp & [= <-]).
  destruct (get_checked_at _ _ _ Hp) as [v Hv]. rewrite Hv in Hprim |- *. cbn [default from_option id] in *.
  assert (Hr : refers ptr D p v) by done. split.
  - rewrite remove_step. unfold operation_remove. rewrite split_parent_snoc. cbn [mbind result_bind].
    rewrite (change_at_ok ptr D p v _ v Hr) by by destruct v. by rewrite json_update_id.
  - intros Hnull. rewrite add_step, (operation_add_ok ptr D p v _ _ v Hr) by by destruct v.
    by rewrite json_update_id.
Qed.

Lemma primitive_parent_ignored_witness :
  let D := JObject [("name", JString "x")] in
  patch_step (add_op (pointer_string (["name"] ++ ["first"])) JNull) D = (Ok tt, D).
Proof.
  intros D. apply (primitive_parent_ignored ["name"] "first" JNull (JString "x") D); [reflexivity|exact I|discriminate].
Defined.

(** ** Merge patches *)

Fixpoint merge_fields (ps fs : list (string * json)) : list (string * json) :=
  match ps with
  | [] => fs
  | p :: ps' =>
      merge_fields ps'
        (if is_null p.2 then om_erase p.1 fs
         else om_update p.1 (merge_patch p.2) (om_emplace p.1 JNull fs))
  end.
Definition fields_of (j : json) : list (string * json) := if j is JObject fs then fs else [].

Lemma merge_patch_object ps j : merge_patch (JObject ps) j = JObject (merge_fields ps (fields_of j)).
Proof. reflexivity. Qed.

Lemma fields_of_sorted j : json_wf j → om_sorted (fields_of j).
Proof. destruct j; try done. by intros [Hs _]%json_wf_object. Qed.

(** What becomes of one key. *)
Definition merge_entry (k : string) (ps fs : list (string * json)) : option json :=
  match om_find k ps with
  | None => om_find k fs
  | Some v => if is_null v then None else Some (merge_patch v (default JNull (om_find k fs)))
  end.

Lemma merge_step_find k k' v fs :
  om_sorted fs →
  let fs' := if is_null v then om_erase k fs else om_update k (merge_patch v) (om_emplace k JNull fs) in
  om_sorted fs' ∧ om_find k' fs' = if decide (k' = k) then merge_entry k [(k, v)] fs else om_find k' fs.
Proof.
  intros Hs. unfold merge_entry. cbn [om_find]. rewrite kltb_irrefl. destruct (is_null v); cbn zeta.
  - split; [by apply om_erase_sorted|]. case_decide as Hd; [subst; by apply om_find_erase_eq|by apply om_find_erase_ne].
  - split; [auto with stdmap|]. case_decide as Hd.
    + subst. rewrite om_find_update_eq. unfold om_emplace. destruct (om_find k fs) as [w|] eqn:E; [by rewrite E|].
      by rewrite om_find_assign_eq.
    + rewrite om_find_update_ne by auto with stdmap. unfold om_emplace. destruct (om_find k fs); [done|].
      by rewrite om_find_assign_ne.
Qed.

Lemma merge_fields_find ps : ∀ fs, om_sorted ps → om_sorted fs →
  om_sorted (merge_fields ps fs) ∧ ∀ k, om_find k (merge_fields ps fs) = merge_entry k ps fs.
Proof.
  induction ps as [|[a v] ps IH]; intros fs Hps Hfs; [done|]. cbn [merge_fields fst snd].
  destruct (merge_step_find a a v fs Hfs) as [Hs _].
  destruct (IH _ (proj2 Hps) Hs) as [Hsorted Hfind]. split; [done|]. intros k. rewrite Hfind.
  destruct (merge_step_find a k v fs Hfs) as [_ Hk]. unfold merge_entry. rewrite Hk, om_find_head by done.
  case_decide as Hd; [|done]. subst. destruct Hps as [Hlt _]. rewrite (om_find_lt_all _ _ Hlt).
  unfold merge_entry. cbn [om_find]. by rewrite kltb_irrefl.
Qed.

Lemma merge_patch_wf p : ∀ j, json_wf p → json_wf j → json_wf (merge_patch p j).
Proof.
  induction p as [|ps IH|l IH|x|b|n|n|d] using json_nested_ind; intros j Hp Hj; try done.
  rewrite merge_patch_object. apply json_wf_object in Hp as [Hps Hp].
  assert (Hf : om_sorted (fields_of j) ∧ Forall (λ q, json_wf q.2) (fields_of j)).
  { destruct j; cbn [fields_of]; try (split; [done|constructor]). by apply json_wf_object. }
  destruct Hf as [Hfs Hf]. apply json_wf_object. split; [by apply merge_fields_find|].
  revert Hfs Hf. generalize (fields_of j). clear j Hj.
  induction IH as [|[k v] ps Hv _ IHps]; intros fs Hfs Hf; [done|]. inversion Hp; subst. cbn [merge_fields fst snd] in *.
  destruct (merge_step_find k k v fs Hfs) as [Hs _]. apply IHps; [apply Hps|done|exact Hs|].
  destruct (is_null v).
  - clear - Hf. induction Hf as [|[a w] fs Ha Hf IH]; [constructor|]. cbn [om_erase].
    destruct (kltb k a); [by constructor|]. destruct (kltb a k); [by constructor|done].
  - unfold om_update, om_emplace. destruct (om_find k fs) as [w|] eqn:E.
    + rewrite E. apply Forall_om_assign; [|done]. apply Hv; [done|].
      exact (om_find_Forall (λ q, json_wf q.2) k w fs Hf E).
    + rewrite om_find_assign_eq. apply Forall_om_assign; [by apply Hv|]. by apply Forall_om_assign.
Qed.

Lemma merge_patch_idempotent p : ∀ j, json_wf p → json_wf j →
  merge_patch p (merge_patch p j) = merge_patch p j.
Proof.
  induction p as [|ps IH|l IH|x|b|n|n|d] using json_nested_ind; intros j Hp Hj; try done.
  rewrite !merge_patch_object. cbn [fields_of]. f_equal. pose proof (fields_of_sorted j Hj) as Hfs.
  assert (Hf : Forall (λ q, json_wf q.2) (fields_of j)).
  { destruct j; cbn [fields_of]; try constructor. by apply json_wf_object in Hj as [_ Hj]. }
  apply json_wf_object in Hp as [Hps Hp].
  destruct (merge_fields_find ps (fields_of j) Hps Hfs) as [Hs1 Hf1].
  destruct (merge_fields_find ps _ Hps Hs1) as [Hs2 Hf2].
  apply om_ext; [done..|]. intros k. rewrite Hf2. unfold merge_entry. rewrite Hf1. unfold merge_entry.
  destruct (om_find k ps) as [v|] eqn:Ev; [|done]. destruct (is_null v); [done|]. cbn [default from_option id]. f_equal.
  apply (om_find_Forall (λ q, ∀ j, json_wf q.2 → json_wf j → merge_patch q.2 (merge_patch q.2 j) = merge_patch q.2 j) k v ps IH Ev).
  - exact (om_find_Forall (λ q, json_wf q.2) k v ps Hp Ev).
  - destruct (om_find k (fields_of j)) as [w|] eqn:Ew; [|done].
    exact (om_find_Forall (λ q, json_wf q.2) k w _ Hf Ew).
Qed.

(** C29. Merge patches, as RFC 7396 wants them: what is no object replaces the
    target; an object patches key by key, removing the keys with null and
    keeping those it does not mention.  Applying a merge patch twice is
    applying it once, and the values stay well-formed. *)
Theorem merge_patch_spec p j (Hp : json_wf p) (Hj : json_wf j) :
  match p with
  | JObject ps =>
      ∃ fs, merge_patch p j = JObject fs ∧
        ∀ k, om_find k fs =
          match om_find k ps with
          | None => om_find k (fields_of j)
          | Some JNull => None
          | Some v => Some (merge_patch v (default JNull (om_find k (fields_of j))))
          end
  | _ => merge_patch p j = p
  end ∧
  merge_patch p (merge_patch p j) = merge_patch p j ∧ json_wf (merge_patch p j).
Proof.
  split; [|split; [by apply merge_patch_idempotent|by apply merge_patch_wf]].
  destruct p as [|ps|l| | | | |]; try done. eexists. split; [apply merge_patch_object|]. intros k.
  apply json_wf_object in Hp as [Hps _].
  rewrite (proj2 (merge_fields_find ps (fields_of j) Hps (fields_of_sorted j Hj))). unfold merge_entry.
  by destruct (om_find k ps) as [[]|].
Qed.

Lemma merge_patch_spec_witness :
  let p := JObject [("a", JNull); ("b", JObject [("x", JBool true)])] in
  let j := JObject [("a", JUnsigned 1); ("c", JNull)] in
  merge_patch p (merge_patch p j) = merge_patch p j.
Proof.
  intros p j. apply (merge_patch_spec p j).
  - apply json_wf_object. split; [repeat constructor|].
    repeat (apply List.Forall_cons); try apply List.Forall_nil; [done|].
    apply json_wf_object. split; [repeat constructor|].
    repeat (apply List.Forall_cons); try apply List.Forall_nil; done.
  - apply json_wf_object. split; [repeat constructor|].
    repeat (apply List.Forall_cons); try apply List.Forall_nil; [by split|done].
Defined.
