(* ===== verification/Metrics.v ===== *)
(** The Prometheus metrics of [metrics.h]: label sets, counters, histograms and
    the registry.  A reference [Counter&] into the registry is the pair of
    keys it stands for: elements of the two levels of maps never move and are
    never removed.  Iteration over an [unordered_map] follows an order chosen
    by the implementation, given to [format] as an argument. *)

From stdpp Require Import gmap.
From S2P Require Import Prelude Decimal StdMap Doubles.

Local Open Scope string_scope.

(** ** Labels *)

(** [struct Labels]: a [std::map<std::string, std::string>]; [operator<] is the
    order of the maps. *)
Definition Labels : Type := list (string * string).
#[export] Instance Labels_key : OrderedKey Labels := list_key.
#[export] Instance Labels_eq_dec : EqDecision Labels.
Proof. unfold Labels. apply _. Defined.

Fixpoint Labels_pairs (first : bool) (l : Labels) : string :=
  match l with
  | [] => EmptyString
  | (k, v) :: l' =>
      (if first then EmptyString else ",") +:+ k +:+ "=" +:+ DQ +:+ v +:+ DQ +:+
      Labels_pairs false l'
  end.

Definition Labels_toString (l : Labels) : string :=
  match l with
  | [] => EmptyString
  | _ => "{" +:+ Labels_pairs true l +:+ "}"
  end.

(** ** Counters *)

Record Counter := mk_counter {
  value_ : double;
  name_ : string;
  help_ : string;
  labels_ : Labels;
}.

Definition Counter_new (name help : string) (labels : Labels) : Counter :=
  mk_counter dbl_zero name help labels.

(** The move constructor: the new object (the source is left with value 0 and
    is not used again). *)
Definition Counter_move (other : Counter) : Counter :=
  mk_counter (value_ other) (name_ other) (help_ other) (labels_ other).

Definition Counter_increment (val : double) (c : Counter) : Counter :=
  mk_counter (dbl_add (value_ c) val) (name_ c) (help_ c) (labels_ c).

Definition Counter_format (c : Counter) : string :=
  name_ c +:+ Labels_toString (labels_ c) +:+ " " +:+ format_fixed 0 (value_ c) +:+ NL.

Definition Counter_formatTypeHelp (name help type : string) : string :=
  "# TYPE " +:+ name +:+ " " +:+ type +:+ NL +:+
  (if is_empty help then EmptyString else "# HELP " +:+ name +:+ " " +:+ help +:+ NL).

(** ** Histograms *)

Record Histogram := mk_histogram {
  sum_ : double;
  count_ : Z;             (* [uint64_t] *)
  values_ : list double;
  h_name : string;
  h_help : string;
  h_labels : Labels;
  buckets_ : list double;
}.

Definition Histogram_new (name help : string) (buckets : list double) (labels : Labels)
  : Histogram :=
  mk_histogram dbl_zero 0 [] name help labels buckets.

Definition Histogram_move (other : Histogram) : Histogram :=
  mk_histogram (sum_ other) (count_ other) (values_ other) (h_name other)
    (h_help other) (h_labels other) (buckets_ other).

Definition Histogram_observe (value : double) (h : Histogram) : Histogram :=
  mk_histogram (dbl_add (sum_ h) value) (wrap_u 64 (count_ h + 1))
    (values_ h ++ [value])%list (h_name h) (h_help h) (h_labels h) (buckets_ h).

(** The inner loop of [format]: one observed value against every bucket. *)
Definition count_value (buckets : list double) (bucketCounts : list Z) (v : double) : list Z :=
  zip_with (λ b n, if dbl_leb v b then wrap_u 64 (n + 1) else n) buckets bucketCounts.

Definition bucketCounts (h : Histogram) : list Z :=
  fold_left (count_value (buckets_ h)) (values_ h) (replicate (length (buckets_ h)) 0%Z).

(** The label text without its first character, when that is a brace. *)
Definition labelPart (h : Histogram) : string :=
  match Labels_toString (h_labels h) with
  | String "{" s => s
  | s => s
  end.

Definition bucket_line (h : Histogram) (le : string) (n : Z) : string :=
  h_name h +:+ "_bucket{le=" +:+ DQ +:+ le +:+ DQ +:+
  (if is_empty (labelPart h) then EmptyString else "," +:+ labelPart h) +:+
  "} " +:+ to_string n +:+ NL.

Fixpoint bucket_lines (h : Histogram) (bs : list (double * Z)) : string :=
  match bs with
  | [] => EmptyString
  | (b, n) :: bs' => bucket_line h (format_fixed 4 b) n +:+ bucket_lines h bs'
  end.

Definition Histogram_format (h : Histogram) : string :=
  bucket_lines h (zip (buckets_ h) (bucketCounts h)) +:+
  bucket_line h "+Inf" (count_ h) +:+
  h_name h +:+ "_sum" +:+ Labels_toString (h_labels h) +:+ " " +:+ format_fixed 6 (sum_ h) +:+ NL +:+
  h_name h +:+ "_count" +:+ Labels_toString (h_labels h) +:+ " " +:+ to_string (count_ h) +:+ NL.

Definition Histogram_formatTypeHelp (name help : string) : string :=
  "# TYPE " +:+ name +:+ " histogram" +:+ NL +:+
  (if is_empty help then EmptyString else "# HELP " +:+ name +:+ " " +:+ help +:+ NL).

(** ** The registry *)

Record MetricsRegistry := mk_registry {
  counters_ : gmap string (list (Labels * Counter));
  histograms_ : gmap string (list (Labels * Histogram));
  counterHelps_ : gmap string string;
  histogramHelps_ : gmap string string;
  initialized_ : bool;
}.

Definition empty_registry : MetricsRegistry := mk_registry ∅ ∅ ∅ ∅ false.

(** What [counters_[name]] and [histograms_[name]] hold: an absent name gets an
    empty map. *)
Definition counter_map (r : MetricsRegistry) (name : string) : list (Labels * Counter) :=
  default [] (counters_ r !! name).
Definition histogram_map (r : MetricsRegistry) (name : string) : list (Labels * Histogram) :=
  default [] (histograms_ r !! name).

Definition set_counters (name : string) (m : list (Labels * Counter)) (r : MetricsRegistry) :=
  mk_registry (<[name := m]> (counters_ r)) (histograms_ r) (counterHelps_ r)
    (histogramHelps_ r) (initialized_ r).
Definition set_histograms (name : string) (m : list (Labels * Histogram)) (r : MetricsRegistry) :=
  mk_registry (counters_ r) (<[name := m]> (histograms_ r)) (counterHelps_ r)
    (histogramHelps_ r) (initialized_ r).
Definition set_counter_help (name help : string) (r : MetricsRegistry) :=
  mk_registry (counters_ r) (histograms_ r) (<[name := help]> (counterHelps_ r))
    (histogramHelps_ r) (initialized_ r).
Definition set_histogram_help (name help : string) (r : MetricsRegistry) :=
  mk_registry (counters_ r) (histograms_ r) (counterHelps_ r)
    (<[name := help]> (histogramHelps_ r)) (initialized_ r).

(** A reference to a metric of the registry. *)
Definition metric_ref : Type := string * Labels.

Definition getCounter (name help : string) (labels : Labels) (r : MetricsRegistry)
  : metric_ref * MetricsRegistry :=
  let r := if is_empty help then r else set_counter_help name help r in
  match counters_ r !! name with
  | None =>
      let c := Counter_new name help labels in
      ((name, labels),
       set_counters name (om_emplace labels (Counter_move c) (counter_map r name)) r)
  | Some metricMap =>
      match om_find labels metricMap with
      | None =>
          let c := Counter_new name help labels in
          ((name, labels), set_counters name (om_emplace labels (Counter_move c) metricMap) r)
      | Some _ => ((name, labels), r)
      end
  end.

Definition getHistogram (name help : string) (buckets : list double) (labels : Labels)
    (r : MetricsRegistry) : metric_ref * MetricsRegistry :=
  let r := if is_empty help then r else set_histogram_help name help r in
  match histograms_ r !! name with
  | None =>
      let h := Histogram_new name help buckets labels in
      ((name, labels),
       set_histograms name (om_emplace labels (Histogram_move h) (histogram_map r name)) r)
  | Some metricMap =>
      match om_find labels metricMap with
      | None =>
          let h := Histogram_new name help buckets labels in
          ((name, labels), set_histograms name (om_emplace labels (Histogram_move h) metricMap) r)
      | Some _ => ((name, labels), r)
      end
  end.

(** The calls [counter.increment()] and [histogram.observe(v)] through a
    reference. *)
Definition increment_at (ref : metric_ref) (r : MetricsRegistry) : MetricsRegistry :=
  set_counters ref.1 (om_update ref.2 (Counter_increment (dbl_of_Z 1)) (counter_map r ref.1)) r.
Definition observe_at (ref : metric_ref) (v : double) (r : MetricsRegistry) : MetricsRegistry :=
  set_histograms ref.1 (om_update ref.2 (Histogram_observe v) (histogram_map r ref.1)) r.

Definition getCounterCount (r : MetricsRegistry) : nat :=
  sum_list_with (λ p, length p.2) (map_to_list (counters_ r)).
Definition getHistogramCount (r : MetricsRegistry) : nat :=
  sum_list_with (λ p, length p.2) (map_to_list (histograms_ r)).

(** *** [initialize] *)

Definition init_methods : list string := ["GET"; "POST"; "PUT"; "DELETE"; "PATCH"].
Definition init_paths : list string :=
  ["/"; "/metrics"; "/api/test-db"; "/api/login"; "/api/logout"; "/api/devices";
   "/api/service-types"; "/api/service-history"; "/api/service-records"].
Definition init_statuses : list Z := [200; 201; 400; 401; 403; 404; 500]%Z.

Definition request_labels (method path : string) (status : Z) : Labels :=
  om_of_list [("method", method); ("path", path); ("status", to_string status)].

Definition duration_buckets : list double :=
  [dbl_of_dec false 1 (-2); dbl_of_dec false 25 (-3); dbl_of_dec false 5 (-2);
   dbl_of_dec false 1 (-1); dbl_of_dec false 25 (-2); dbl_of_dec false 5 (-1);
   dbl_of_Z 1; dbl_of_dec false 25 (-1); dbl_of_Z 5; dbl_of_Z 10].

Definition http_total : string := "http_requests_total".
Definition http_total_help : string := "Total number of HTTP requests".
Definition http_duration : string := "http_request_duration_seconds".
Definition http_duration_help : string := "HTTP request duration in seconds".
Definition auth_failures : string := "auth_failures_total".
Definition auth_failures_help : string := "Total number of authentication failures".

(** [counters_[name].emplace(labels, std::move(c))] *)
Definition emplace_counter (name : string) (labels : Labels) (c : Counter)
    (r : MetricsRegistry) : MetricsRegistry :=
  set_counters name (om_emplace labels (Counter_move c) (counter_map r name)) r.

(** The body of the three nested loops. *)
Definition register_request (r : MetricsRegistry) (x : string * string * Z) : MetricsRegistry :=
  let '(method, path, status) := x in
  let l := request_labels method path status in
  emplace_counter http_total l (Counter_new http_total http_total_help l) r.

Definition init_combinations : list (string * string * Z) :=
  method ← init_methods; path ← init_paths; status ← init_statuses;
  mret (method, path, status).

(** The registry, and the lines printed on the standard error. *)
Definition initialize (r : MetricsRegistry) : MetricsRegistry * list string :=
  if initialized_ r then (r, [])
  else
    let r := set_counter_help http_total http_total_help r in
    let r := set_histogram_help http_duration http_duration_help r in
    let r := fold_left register_request init_combinations r in
    let r := set_counter_help auth_failures auth_failures_help r in
    let r := emplace_counter auth_failures []
               (Counter_new auth_failures auth_failures_help []) r in
    let h := Histogram_new http_duration http_duration_help duration_buckets [] in
    let r := set_histograms http_duration
               (om_emplace [] (Histogram_move h) (histogram_map r http_duration)) r in
    (mk_registry (counters_ r) (histograms_ r) (counterHelps_ r) (histogramHelps_ r) true,
     ["[METRICS] Initializing metrics registry...";
      "[METRICS] Initialization complete. Counters: " +:+
      to_string (Z.of_nat (getCounterCount r)) +:+ ", Histograms: " +:+
      to_string (Z.of_nat (getHistogramCount r))]).

(** *** [format] *)

Definition concat_strings (l : list string) : string := fold_right String.app EmptyString l.

Definition format_counter_family (r : MetricsRegistry) (name : string) : string :=
  Counter_formatTypeHelp name (default EmptyString (counterHelps_ r !! name)) "counter" +:+
  concat_strings (map (λ p, Counter_format p.2) (counter_map r name)).

Definition format_histogram_family (r : MetricsRegistry) (name : string) : string :=
  Histogram_formatTypeHelp name (default EmptyString (histogramHelps_ r !! name)) +:+
  concat_strings (map (λ p, Histogram_format p.2) (histogram_map r name)).

(** An order in which iterating over an unordered map may visit its keys. *)
Definition iteration_order {V} (m : gmap string V) (names : list string) : Prop :=
  names ≡ₚ (map_to_list m).*1.

(** [cnames] and [hnames] are the iteration orders of the two maps. *)
Definition format (cnames hnames : list string) (r : MetricsRegistry) : string :=
  concat_strings (map (format_counter_family r) cnames) +:+
  concat_strings (map (format_histogram_family r) hnames).

(** *** Recording *)

Definition bool_text (b : bool) : string := if b then "true" else "false".

(** [getCounter(...)] followed by [increment()]. *)
Definition count_one (name help : string) (labels : Labels) (r : MetricsRegistry)
  : MetricsRegistry :=
  let '(counter, r) := getCounter name help labels r in increment_at counter r.

Definition recordHttpRequest (method path : string) (status : Z) (duration_seconds : double)
    (r : MetricsRegistry) : MetricsRegistry :=
  let r := count_one http_total http_total_help (request_labels method path status) r in
  let '(histogram, r) := getHistogram http_duration http_duration_help duration_buckets [] r in
  observe_at histogram duration_seconds r.

Definition db_labels (operation : string) (success : bool) : Labels :=
  om_of_list [("operation", operation); ("success", bool_text success)].

Definition recordDbOperation (operation : string) (success : bool) (r : MetricsRegistry)
  : MetricsRegistry :=
  count_one "db_operations_total" "Total number of database operations"
    (db_labels operation success) r.

Definition auth_labels (username : string) (success : bool) : Labels :=
  om_of_list [("username", username); ("success", bool_text success)].

Definition recordAuthAttempt (username : string) (success : bool) (r : MetricsRegistry)
  : MetricsRegistry :=
  let r := count_one "auth_attempts_total" "Total number of authentication attempts"
             (auth_labels username success) r in
  if success then r else count_one auth_failures auth_failures_help [] r.

Definition device_labels (operation : string) (device_id : Z) (success : bool) : Labels :=
  om_of_list [("operation", operation); ("device_id", to_string device_id);
              ("success", bool_text success)].

Definition recordDeviceOperation (operation : string) (device_id : Z) (success : bool)
    (r : MetricsRegistry) : MetricsRegistry :=
  count_one "device_operations_total" "Total number of device operations"
    (device_labels operation device_id success) r.

Definition service_labels (operation : string) (record_id : Z) (success : bool) : Labels :=
  om_of_list [("operation", operation); ("record_id", to_string record_id);
              ("success", bool_text success)].

Definition recordServiceOperation (operation : string) (record_id : Z) (success : bool)
    (r : MetricsRegistry) : MetricsRegistry :=
  count_one "service_operations_total" "Total number of service operations"
    (service_labels operation record_id success) r.

(** What a scrape and the tests read. *)
Definition counter_at (r : MetricsRegistry) (ref : metric_ref) : option Counter :=
  counters_ r !! ref.1 ≫= om_find ref.2.
Definition histogram_at (r : MetricsRegistry) (ref : metric_ref) : option Histogram :=
  histograms_ r !! ref.1 ≫= om_find ref.2.

Example init_combinations_count : length init_combinations = 315.
Proof. reflexivity. Qed.
