(* ===== verification/MetricsFacts.v ===== *)
(** The metrics registry: its representation invariant and the effect of each
    operation on the metrics it holds. *)

From stdpp Require Import gmap.
From S2P Require Import Prelude Decimal StdMap Doubles Metrics.

Local Open Scope string_scope.

(** ** The representation invariant *)

Definition counters_wf (name : string) (m : list (Labels * Counter)) : Prop :=
  om_sorted m ∧ Forall (λ p, name_ p.2 = name ∧ labels_ p.2 = p.1) m.

Definition histogram_wf (h : Histogram) : Prop :=
  count_ h = wrap_u 64 (Z.of_nat (length (values_ h))) ∧
  sum_ h = fold_left dbl_add (values_ h) dbl_zero.

Definition histograms_wf (name : string) (m : list (Labels * Histogram)) : Prop :=
  om_sorted m ∧
  Forall (λ p, (h_name p.2 = name ∧ h_labels p.2 = p.1) ∧ histogram_wf p.2) m.

Record registry_wf (r : MetricsRegistry) : Prop := {
  wf_counters : map_Forall counters_wf (counters_ r);
  wf_histograms : map_Forall histograms_wf (histograms_ r);
}.

Create HintDb metrics.

Lemma counter_map_wf r name : registry_wf r → counters_wf name (counter_map r name).
Proof.
  intros [Hc _]. unfold counter_map. destruct (counters_ r !! name) eqn:E; cbn.
  - by apply Hc in E.
  - split; [done|constructor].
Qed.

Lemma histogram_map_wf r name : registry_wf r → histograms_wf name (histogram_map r name).
Proof.
  intros [_ Hh]. unfold histogram_map. destruct (histograms_ r !! name) eqn:E; cbn.
  - by apply Hh in E.
  - split; [done|constructor].
Qed.

Lemma set_counters_wf name m r :
  counters_wf name m → registry_wf r → registry_wf (set_counters name m r).
Proof. intros Hm [Hc Hh]. split; [|done]. by apply map_Forall_insert_2. Qed.

Lemma set_histograms_wf name m r :
  histograms_wf name m → registry_wf r → registry_wf (set_histograms name m r).
Proof. intros Hm [Hc Hh]. split; [done|]. by apply map_Forall_insert_2. Qed.

Lemma set_counter_help_wf name help r :
  registry_wf r → registry_wf (set_counter_help name help r).
Proof. intros [Hc Hh]. by split. Qed.

Lemma set_histogram_help_wf name help r :
  registry_wf r → registry_wf (set_histogram_help name help r).
Proof. intros [Hc Hh]. by split. Qed.

(** Keyed elements of a label map: what one element satisfies. *)
Lemma Forall_om_assign_keyed {K V} `{OrderedKey K} (P : K → V → Prop) k v m :
  P k v → Forall (λ p, P p.1 p.2) m → Forall (λ p, P p.1 p.2) (om_assign k v m).
Proof.
  intros Hv. induction 1 as [|[k' v'] m Hk Hm IH]; cbn; [by repeat constructor|].
  destruct (kltb k k') eqn:E1; [by repeat constructor|].
  destruct (kltb k' k) eqn:E2; constructor; cbn; auto.
  by rewrite <- (kltb_total k k').
Qed.

Lemma Forall_om_find {K V} `{OrderedKey K} (P : K → V → Prop) k v m :
  om_sorted m → Forall (λ p, P p.1 p.2) m → om_find k m = Some v → P k v.
Proof.
  intros Hs HP Hf. apply (om_find_in _ _ _ Hs) in Hf.
  rewrite Forall_forall in HP. by apply HP in Hf.
Qed.

Lemma Forall_om_emplace_keyed {K V} `{OrderedKey K} (P : K → V → Prop) k v m :
  P k v → Forall (λ p, P p.1 p.2) m → Forall (λ p, P p.1 p.2) (om_emplace k v m).
Proof.
  intros. unfold om_emplace. case_match; [done|]. by apply Forall_om_assign_keyed.
Qed.

Lemma Forall_om_update_keyed {K V} `{OrderedKey K} (P : K → V → Prop) k f m :
  om_sorted m → (∀ v, P k v → P k (f v)) →
  Forall (λ p, P p.1 p.2) m → Forall (λ p, P p.1 p.2) (om_update k f m).
Proof.
  intros Hs Hf HP. unfold om_update. case_match eqn:E; [|done].
  apply Forall_om_assign_keyed; [|done]. apply Hf. by eapply Forall_om_find.
Qed.

#[export] Hint Resolve counter_map_wf histogram_map_wf set_counters_wf set_histograms_wf
  set_counter_help_wf set_histogram_help_wf : metrics.

Lemma counters_wf_emplace name l c m :
  name_ c = name → labels_ c = l → counters_wf name m →
  counters_wf name (om_emplace l (Counter_move c) m).
Proof.
  intros <- <- [Hs Hm]. split; [auto with stdmap|].
  by apply (Forall_om_emplace_keyed (λ l c', name_ c' = name_ c ∧ labels_ c' = l)).
Qed.

Lemma histograms_wf_emplace name help bs l m :
  histograms_wf name m →
  histograms_wf name (om_emplace l (Histogram_move (Histogram_new name help bs l)) m).
Proof.
  intros [Hs Hm]. split; [auto with stdmap|].
  apply (Forall_om_emplace_keyed
    (λ l h, (h_name h = name ∧ h_labels h = l) ∧ histogram_wf h)); [|done].
  by repeat split.
Qed.

Lemma emplace_counter_wf name l c r :
  name_ c = name → labels_ c = l → registry_wf r →
  registry_wf (emplace_counter name l c r).
Proof.
  intros. apply set_counters_wf; [|done]. apply counters_wf_emplace; auto with metrics.
Qed.

Lemma getCounter_ref name help l r : (getCounter name help l r).1 = (name, l).
Proof. unfold getCounter. repeat case_match; done. Qed.

Lemma getHistogram_ref name help bs l r : (getHistogram name help bs l r).1 = (name, l).
Proof. unfold getHistogram. repeat case_match; done. Qed.

Lemma getCounter_wf name help l r :
  registry_wf r → registry_wf (getCounter name help l r).2.
Proof.
  intros Hr. unfold getCounter.
  assert (Hr' : registry_wf (if is_empty help then r else set_counter_help name help r)).
  { case_match; auto with metrics. }
  revert Hr'. generalize (if is_empty help then r else set_counter_help name help r).
  intros r' Hr'. repeat case_match; cbn; [done| |].
  - apply set_counters_wf; [|done]. apply counters_wf_emplace; [done..|].
    by apply (wf_counters _ Hr').
  - apply set_counters_wf; [|done]. apply counters_wf_emplace; auto with metrics.
Qed.

Lemma getHistogram_wf name help bs l r :
  registry_wf r → registry_wf (getHistogram name help bs l r).2.
Proof.
  intros Hr. unfold getHistogram.
  assert (Hr' : registry_wf (if is_empty help then r else set_histogram_help name help r)).
  { case_match; auto with metrics. }
  revert Hr'. generalize (if is_empty help then r else set_histogram_help name help r).
  intros r' Hr'. repeat case_match; cbn; [done| |].
  - apply set_histograms_wf; [|done]. apply histograms_wf_emplace.
    by apply (wf_histograms _ Hr').
  - apply set_histograms_wf; [|done]. apply histograms_wf_emplace; auto with metrics.
Qed.

Lemma increment_at_wf ref r : registry_wf r → registry_wf (increment_at ref r).
Proof.
  intros Hr. apply set_counters_wf; [|done].
  destruct (counter_map_wf r ref.1 Hr) as [Hs Hm]. split; [auto with stdmap|].
  by apply (Forall_om_update_keyed (λ l c, name_ c = ref.1 ∧ labels_ c = l)).
Qed.

Lemma histogram_observe_wf v h : histogram_wf h → histogram_wf (Histogram_observe v h).
Proof.
  intros [Hc Hs]. split; cbn.
  - rewrite Hc, length_app. cbn. rewrite Nat2Z.inj_add. apply wrap_u_succ.
  - by rewrite fold_left_app, Hs.
Qed.

Lemma observe_at_wf ref v r : registry_wf r → registry_wf (observe_at ref v r).
Proof.
  intros Hr. apply set_histograms_wf; [|done].
  destruct (histogram_map_wf r ref.1 Hr) as [Hs Hm]. split; [auto with stdmap|].
  apply (Forall_om_update_keyed
    (λ l h, (h_name h = ref.1 ∧ h_labels h = l) ∧ histogram_wf h)); [done| |done].
  intros h [? ?]. split; [done|]. by apply histogram_observe_wf.
Qed.

#[export] Hint Resolve emplace_counter_wf getCounter_wf getHistogram_wf increment_at_wf
  observe_at_wf : metrics.

(** ** What each operation does to the metrics held *)

Lemma counter_at_set_counters name m r ref :
  counter_at (set_counters name m r) ref =
  if decide (ref.1 = name) then om_find ref.2 m else counter_at r ref.
Proof.
  unfold counter_at. cbn. case_decide as E.
  - rewrite E. by rewrite lookup_insert_eq.
  - by rewrite lookup_insert_ne.
Qed.

Lemma histogram_at_set_histograms name m r ref :
  histogram_at (set_histograms name m r) ref =
  if decide (ref.1 = name) then om_find ref.2 m else histogram_at r ref.
Proof.
  unfold histogram_at. cbn. case_decide as E.
  - rewrite E. by rewrite lookup_insert_eq.
  - by rewrite lookup_insert_ne.
Qed.

Lemma counter_at_map r ref : counter_at r ref = om_find ref.2 (counter_map r ref.1).
Proof. unfold counter_at, counter_map. by destruct (counters_ r !! ref.1). Qed.

Lemma histogram_at_map r ref : histogram_at r ref = om_find ref.2 (histogram_map r ref.1).
Proof. unfold histogram_at, histogram_map. by destruct (histograms_ r !! ref.1). Qed.

(** [counter_at] as a map from references: the effect of emplacing and of
    mutating one element. *)
Lemma counter_at_emplace name l c r ref :
  registry_wf r →
  counter_at (set_counters name (om_emplace l c (counter_map r name)) r) ref =
  if decide (ref = (name, l)) then Some (default c (counter_at r ref)) else counter_at r ref.
Proof.
  intros Hr. rewrite counter_at_set_counters. destruct ref as [n' l']. cbn.
  destruct (counter_map_wf r name Hr) as [Hs _].
  case_decide as E1; [subst n'|by rewrite decide_False by congruence].
  rewrite counter_at_map. cbn. case_decide as E2.
  - injection E2 as ->. by rewrite om_find_emplace_eq.
  - apply om_find_emplace_ne; [done|congruence].
Qed.

Lemma histogram_at_emplace name l h r ref :
  registry_wf r →
  histogram_at (set_histograms name (om_emplace l h (histogram_map r name)) r) ref =
  if decide (ref = (name, l)) then Some (default h (histogram_at r ref))
  else histogram_at r ref.
Proof.
  intros Hr. rewrite histogram_at_set_histograms. destruct ref as [n' l']. cbn.
  destruct (histogram_map_wf r name Hr) as [Hs _].
  case_decide as E1; [subst n'|by rewrite decide_False by congruence].
  rewrite histogram_at_map. cbn. case_decide as E2.
  - injection E2 as ->. by rewrite om_find_emplace_eq.
  - apply om_find_emplace_ne; [done|congruence].
Qed.

Lemma counter_at_getCounter name help l r ref :
  registry_wf r →
  counter_at (getCounter name help l r).2 ref =
  if decide (ref = (name, l))
  then Some (default (Counter_new name help l) (counter_at r ref))
  else counter_at r ref.
Proof.
  intros Hr. unfold getCounter.
  assert (∃ r', (if is_empty help then r else set_counter_help name help r) = r' ∧
    registry_wf r' ∧ counters_ r' = counters_ r) as (r' & -> & Hr' & E).
  { eexists. split; [done|]. case_match; split; auto with metrics. }
  replace (counter_at r ref) with (counter_at r' ref) by (unfold counter_at; by rewrite E).
  clear E. destruct (counters_ r' !! name) as [m|] eqn:Em; cbn.
  - replace m with (counter_map r' name) by (unfold counter_map; by rewrite Em).
    destruct (om_find l (counter_map r' name)) eqn:El; cbn.
    + case_decide as E; [|done]. subst ref. rewrite counter_at_map. cbn. by rewrite El.
    + by apply counter_at_emplace.
  - by apply counter_at_emplace.
Qed.

Lemma histogram_at_getHistogram name help bs l r ref :
  registry_wf r →
  histogram_at (getHistogram name help bs l r).2 ref =
  if decide (ref = (name, l))
  then Some (default (Histogram_new name help bs l) (histogram_at r ref))
  else histogram_at r ref.
Proof.
  intros Hr. unfold getHistogram.
  assert (∃ r', (if is_empty help then r else set_histogram_help name help r) = r' ∧
    registry_wf r' ∧ histograms_ r' = histograms_ r) as (r' & -> & Hr' & E).
  { eexists. split; [done|]. case_match; split; auto with metrics. }
  replace (histogram_at r ref) with (histogram_at r' ref)
    by (unfold histogram_at; by rewrite E).
  clear E. destruct (histograms_ r' !! name) as [m|] eqn:Em; cbn.
  - replace m with (histogram_map r' name) by (unfold histogram_map; by rewrite Em).
    destruct (om_find l (histogram_map r' name)) eqn:El; cbn.
    + case_decide as E; [|done]. subst ref. rewrite histogram_at_map. cbn. by rewrite El.
    + by apply histogram_at_emplace.
  - by apply histogram_at_emplace.
Qed.

Lemma counter_at_increment_at ref r ref' :
  registry_wf r →
  counter_at (increment_at ref r) ref' =
  if decide (ref' = ref) then Counter_increment (dbl_of_Z 1) <$> counter_at r ref
  else counter_at r ref'.
Proof.
  intros Hr. unfold increment_at. rewrite counter_at_set_counters.
  destruct ref as [n l], ref' as [n' l']. cbn.
  destruct (counter_map_wf r n Hr) as [Hs _].
  case_decide as E1; [subst n'|by rewrite decide_False by congruence].
  rewrite !counter_at_map. cbn. case_decide as E2.
  - injection E2 as ->. by rewrite om_find_update_eq.
  - apply om_find_update_ne; [done|congruence].
Qed.

Lemma histogram_at_observe_at ref v r ref' :
  registry_wf r →
  histogram_at (observe_at ref v r) ref' =
  if decide (ref' = ref) then Histogram_observe v <$> histogram_at r ref
  else histogram_at r ref'.
Proof.
  intros Hr. unfold observe_at. rewrite histogram_at_set_histograms.
  destruct ref as [n l], ref' as [n' l']. cbn.
  destruct (histogram_map_wf r n Hr) as [Hs _].
  case_decide as E1; [subst n'|by rewrite decide_False by congruence].
  rewrite !histogram_at_map. cbn. case_decide as E2.
  - injection E2 as ->. by rewrite om_find_update_eq.
  - apply om_find_update_ne; [done|congruence].
Qed.

Lemma histogram_at_getCounter name help l r ref :
  histogram_at (getCounter name help l r).2 ref = histogram_at r ref.
Proof. unfold getCounter. repeat case_match; done. Qed.

Lemma counter_at_getHistogram name help bs l r ref :
  counter_at (getHistogram name help bs l r).2 ref = counter_at r ref.
Proof. unfold getHistogram. repeat case_match; done. Qed.

Lemma counter_at_count_one name help l r ref :
  registry_wf r →
  counter_at (count_one name help l r) ref =
  if decide (ref = (name, l))
  then Some (Counter_increment (dbl_of_Z 1)
               (default (Counter_new name help l) (counter_at r ref)))
  else counter_at r ref.
Proof.
  intros Hr. unfold count_one.
  pose proof (getCounter_ref name help l r) as Href.
  pose proof (getCounter_wf name help l r Hr) as Hwf.
  pose proof (counter_at_getCounter name help l r) as Hat.
  destruct (getCounter name help l r) as [c r']. cbn in *. subst c.
  rewrite counter_at_increment_at by done. case_decide as E; [subst ref|].
  - rewrite Hat by done. by rewrite decide_True by done.
  - rewrite Hat by done. by rewrite decide_False by done.
Qed.

Lemma count_one_wf name help l r : registry_wf r → registry_wf (count_one name help l r).
Proof.
  intros Hr. unfold count_one. pose proof (getCounter_wf name help l r Hr).
  destruct (getCounter name help l r). auto with metrics.
Qed.
#[export] Hint Resolve count_one_wf : metrics.

Lemma histogram_at_count_one name help l r ref :
  histogram_at (count_one name help l r) ref = histogram_at r ref.
Proof.
  unfold count_one. pose proof (histogram_at_getCounter name help l r ref) as H.
  by destruct (getCounter name help l r).
Qed.
