(* ===== verification/MetricsSteps.v ===== *)
(** Concurrent use of the registry.  The mutexes make each registry call and
    each update through a reference one atomic step; a request thread runs
    the steps of the recording calls it makes, and the threads' steps
    interleave in any order. *)

From stdpp Require Import gmap.
From S2P Require Import Prelude Decimal StdMap Doubles Metrics MetricsFacts.

Local Open Scope string_scope.

(** ** Steps and threads *)

Inductive metric_step :=
  | StepGetCounter (name help : string) (labels : Labels)
  | StepIncrement (ref : metric_ref)
  | StepGetHistogram (name help : string) (buckets : list double) (labels : Labels)
  | StepObserve (ref : metric_ref) (v : double).

Definition exec_step (r : MetricsRegistry) (s : metric_step) : MetricsRegistry :=
  match s with
  | StepGetCounter name help labels => (getCounter name help labels r).2
  | StepIncrement ref => increment_at ref r
  | StepGetHistogram name help buckets labels => (getHistogram name help buckets labels r).2
  | StepObserve ref v => observe_at ref v r
  end.

Definition run_steps : list metric_step → MetricsRegistry → MetricsRegistry :=
  λ l r, fold_left exec_step l r.

(** The recording calls of the request handlers. *)
Inductive record_call :=
  | HttpRequest (method path : string) (status : Z) (duration : double)
  | DbOperation (operation : string) (success : bool)
  | AuthAttempt (username : string) (success : bool)
  | DeviceOperation (operation : string) (device_id : Z) (success : bool)
  | ServiceOperation (operation : string) (record_id : Z) (success : bool).

Definition record (c : record_call) : MetricsRegistry → MetricsRegistry :=
  match c with
  | HttpRequest method path status d => recordHttpRequest method path status d
  | DbOperation operation success => recordDbOperation operation success
  | AuthAttempt username success => recordAuthAttempt username success
  | DeviceOperation operation id success => recordDeviceOperation operation id success
  | ServiceOperation operation id success => recordServiceOperation operation id success
  end.

(** The counters a call increments, with their help texts. *)
Definition counted (c : record_call) : list (metric_ref * string) :=
  match c with
  | HttpRequest method path status _ =>
      [((http_total, request_labels method path status), http_total_help)]
  | DbOperation operation success =>
      [(("db_operations_total", db_labels operation success),
        "Total number of database operations")]
  | AuthAttempt username success =>
      (("auth_attempts_total", auth_labels username success),
       "Total number of authentication attempts") ::
      (if success then [] else [((auth_failures, []), auth_failures_help)])
  | DeviceOperation operation id success =>
      [(("device_operations_total", device_labels operation id success),
        "Total number of device operations")]
  | ServiceOperation operation id success =>
      [(("service_operations_total", service_labels operation id success),
        "Total number of service operations")]
  end.

(** The durations a call observes. *)
Definition observed (c : record_call) : list double :=
  match c with HttpRequest _ _ _ d => [d] | _ => [] end.

Definition count_steps (x : metric_ref * string) : list metric_step :=
  [StepGetCounter x.1.1 x.2 x.1.2; StepIncrement x.1].

Definition observe_steps (d : double) : list metric_step :=
  [StepGetHistogram http_duration http_duration_help duration_buckets [];
   StepObserve (http_duration, []) d].

Definition call_steps (c : record_call) : list metric_step :=
  (counted c ≫= count_steps) ++ (observed c ≫= observe_steps).

Lemma run_count_steps name help l r :
  run_steps (count_steps ((name, l), help)) r = count_one name help l r.
Proof.
  unfold run_steps, count_one. cbn. pose proof (getCounter_ref name help l r) as H.
  destruct (getCounter name help l r). cbn in *. by subst.
Qed.

Lemma run_observe_steps d r :
  run_steps (observe_steps d) r =
  let '(h, r) := getHistogram http_duration http_duration_help duration_buckets [] r in
  observe_at h d r.
Proof.
  unfold run_steps. cbn.
  pose proof (getHistogram_ref http_duration http_duration_help duration_buckets [] r) as H.
  destruct (getHistogram _ _ _ _ r). cbn in *. by subst.
Qed.

Lemma run_steps_app l1 l2 r : run_steps (l1 ++ l2) r = run_steps l2 (run_steps l1 r).
Proof. apply fold_left_app. Qed.

(** A recording call is the sequence of its steps. *)
Lemma record_steps c r : record c r = run_steps (call_steps c) r.
Proof.
  destruct c as [| |username success| |]; cbn [record]; unfold call_steps;
    cbn [counted observed mbind list_bind]; rewrite ?app_nil_r.
  - rewrite run_steps_app, run_count_steps, run_observe_steps. done.
  - by rewrite run_count_steps.
  - unfold recordAuthAttempt. destruct success; cbn [mbind list_bind]; rewrite ?app_nil_r.
    + by rewrite run_count_steps.
    + by rewrite run_steps_app, !run_count_steps.
  - by rewrite run_count_steps.
  - by rewrite run_count_steps.
Qed.

(** ** Interleavings *)

(** [l] takes the elements of the lists [ts] in some order that respects each
    list's own order. *)
Inductive interleaving {A} : list (list A) → list A → Prop :=
  | interleaving_nil ts : Forall (λ t, t = []) ts → interleaving ts []
  | interleaving_step pre x t post l :
      interleaving (pre ++ t :: post) l →
      interleaving (pre ++ (x :: t) :: post) (x :: l).

Lemma interleaving_perm {A} (ts : list (list A)) l :
  interleaving ts l → concat ts ≡ₚ l.
Proof.
  induction 1 as [ts Hts|pre x t post l _ IH].
  - induction Hts as [|t ts -> _ IH]; [done|exact IH].
  - rewrite concat_app in *. cbn in *. rewrite <- IH. symmetry. apply Permutation_middle.
Qed.

(** The lists one after the other are one interleaving. *)
Lemma interleaving_concat {A} (ts : list (list A)) : interleaving ts (concat ts).
Proof.
  induction ts as [|t ts IH]; [by constructor|]. cbn.
  induction t as [|x t IHt]; cbn.
  - clear -IH. revert IH. generalize (concat ts). intros l IH.
    induction IH as [ts Hts|pre x t post l _ IH]; [by repeat constructor|].
    apply (interleaving_step ([] :: pre)). exact IH.
  - by apply (interleaving_step []).
Qed.

(** ** References are never dangling *)

Definition step_defined (r : MetricsRegistry) (s : metric_step) : Prop :=
  match s with
  | StepIncrement ref => is_Some (counter_at r ref)
  | StepObserve ref _ => is_Some (histogram_at r ref)
  | _ => True
  end.

Fixpoint steps_defined (r : MetricsRegistry) (l : list metric_step) : Prop :=
  match l with
  | [] => True
  | s :: l' => step_defined r s ∧ steps_defined (exec_step r s) l'
  end.

Lemma exec_step_wf r s : registry_wf r → registry_wf (exec_step r s).
Proof. destruct s; cbn; auto with metrics. Qed.
#[export] Hint Resolve exec_step_wf : metrics.

Lemma run_steps_wf l r : registry_wf r → registry_wf (run_steps l r).
Proof.
  revert r. induction l as [|s l IH]; intros r Hr; [done|].
  apply IH. auto with metrics.
Qed.
#[export] Hint Resolve run_steps_wf : metrics.

(** [r'] has every metric [r] has. *)
Definition registry_extends (r r' : MetricsRegistry) : Prop :=
  (∀ ref, is_Some (counter_at r ref) → is_Some (counter_at r' ref)) ∧
  (∀ ref, is_Some (histogram_at r ref) → is_Some (histogram_at r' ref)).

Lemma exec_step_extends r s : registry_wf r → registry_extends r (exec_step r s).
Proof.
  intros Hr. destruct s as [n h l|ref|n h bs l|ref v]; cbn; split; intros ref'.
  - rewrite counter_at_getCounter by done. case_decide; eauto.
  - by rewrite histogram_at_getCounter.
  - rewrite counter_at_increment_at by done. case_decide as E; [subst|done].
    intros [c ->]. by eexists.
  - done.
  - by rewrite counter_at_getHistogram.
  - rewrite histogram_at_getHistogram by done. case_decide; eauto.
  - done.
  - rewrite histogram_at_observe_at by done. case_decide as E; [subst|done].
    intros [c ->]. by eexists.
Qed.

Lemma step_defined_extends r r' s :
  registry_extends r r' → step_defined r s → step_defined r' s.
Proof. intros [??]. destruct s; cbn; auto. Qed.

Lemma count_steps_defined x r : registry_wf r → steps_defined r (count_steps x).
Proof.
  intros Hr. destruct x as [[n l] h]. cbn. repeat split.
  rewrite counter_at_getCounter by done. rewrite decide_True by done. eauto.
Qed.

Lemma observe_steps_defined d r : registry_wf r → steps_defined r (observe_steps d).
Proof.
  intros Hr. cbn -[getHistogram]. repeat split.
  rewrite histogram_at_getHistogram by done. rewrite decide_True by done. eauto.
Qed.

Lemma steps_defined_app l1 l2 r :
  steps_defined r (l1 ++ l2) ↔ steps_defined r l1 ∧ steps_defined (run_steps l1 r) l2.
Proof.
  revert r. induction l1 as [|s l1 IH]; intros r; cbn; [tauto|].
  rewrite IH. tauto.
Qed.

Lemma steps_defined_bind {A} (f : A → list metric_step) (l : list A) r :
  (∀ x r, registry_wf r → steps_defined r (f x)) → registry_wf r →
  steps_defined r (l ≫= f).
Proof.
  intros Hf. revert r. induction l as [|x l IH]; intros r Hr; cbn; [done|].
  apply steps_defined_app. auto with metrics.
Qed.

Lemma thread_defined calls r : registry_wf r → steps_defined r (calls ≫= call_steps).
Proof.
  intros Hr. apply steps_defined_bind; [|done]. clear. intros c r Hr.
  apply steps_defined_app. split; apply steps_defined_bind; auto with metrics.
  - apply count_steps_defined.
  - apply observe_steps_defined.
Qed.

Lemma steps_defined_extends l r r' :
  registry_wf r → registry_wf r' → registry_extends r r' →
  steps_defined r l → steps_defined r' l.
Proof.
  revert r r'. induction l as [|s l IH]; intros r r' Hr Hr' Hext; [done|]. cbn.
  intros [Hs Hl]. split; [by eapply step_defined_extends|].
  revert Hl. apply IH; auto with metrics.
  destruct s as [n h lb|ref|n h bs lb|ref v]; cbn; split; intros ref'; destruct Hext as [Hc Hh].
  - rewrite !counter_at_getCounter by done. case_decide; eauto.
  - rewrite !histogram_at_getCounter. auto.
  - rewrite !counter_at_increment_at by done. case_decide; [|auto].
    rewrite !fmap_is_Some. auto.
  - apply Hh.
  - rewrite !counter_at_getHistogram. auto.
  - rewrite !histogram_at_getHistogram by done. case_decide; eauto.
  - apply Hc.
  - rewrite !histogram_at_observe_at by done. case_decide; [|auto].
    rewrite !fmap_is_Some. auto.
Qed.

Lemma interleaving_defined ts l r :
  registry_wf r → interleaving ts l → Forall (steps_defined r) ts → steps_defined r l.
Proof.
  intros Hr Hi. revert r Hr. induction Hi as [ts _|pre x t post l _ IH]; intros r Hr Hts; [done|].
  apply Forall_app in Hts as [Hpre Hts]. apply Forall_cons_1 in Hts as [[Hx Ht] Hpost].
  split; [done|]. apply IH; [by auto with metrics|].
  assert (Hm : ∀ t', steps_defined r t' → steps_defined (exec_step r x) t').
  { intros t'. apply steps_defined_extends; auto with metrics. by apply exec_step_extends. }
  apply Forall_app. split; [by eapply Forall_impl|].
  constructor; [done|]. by eapply Forall_impl.
Qed.

(** ** Counting *)

Definition counter_value (r : MetricsRegistry) (ref : metric_ref) : double :=
  from_option value_ dbl_zero (counter_at r ref).

Definition is_increment_of (ref : metric_ref) (s : metric_step) : bool :=
  match s with StepIncrement ref' => bool_decide (ref' = ref) | _ => false end.

Definition increments (ref : metric_ref) (l : list metric_step) : nat :=
  length (List.filter (is_increment_of ref) l).

(** How often the calls count [ref]. *)
Definition times_counted (ref : metric_ref) (calls : list record_call) : nat :=
  length (List.filter (λ x, bool_decide (x.1 = ref)) (calls ≫= counted)).

Lemma increments_app ref l1 l2 : increments ref (l1 ++ l2) = increments ref l1 + increments ref l2.
Proof. unfold increments. by rewrite List.filter_app, length_app. Qed.

Lemma increments_perm ref l1 l2 : l1 ≡ₚ l2 → increments ref l1 = increments ref l2.
Proof.
  unfold increments. induction 1 as [|x l l' _ IH|x y l|l l' l'' _ IH1 _ IH2]; cbn; try done.
  - destruct (is_increment_of ref x); cbn; congruence.
  - by destruct (is_increment_of ref x), (is_increment_of ref y).
  - congruence.
Qed.

Lemma increments_count_steps ref (l : list (metric_ref * string)) :
  increments ref (l ≫= count_steps) = length (List.filter (λ x, bool_decide (x.1 = ref)) l).
Proof.
  induction l as [|x l IH]; [done|]. change ((x :: l) ≫= count_steps) with
    ((count_steps x ++ (l ≫= count_steps))%list). rewrite increments_app, IH.
  unfold increments. cbn. by destruct (bool_decide _).
Qed.

Lemma increments_observe_steps ref (l : list double) : increments ref (l ≫= observe_steps) = 0.
Proof. induction l as [|d l IH]; [done|]. exact IH. Qed.

Lemma increments_thread ref calls :
  increments ref (calls ≫= call_steps) = times_counted ref calls.
Proof.
  unfold times_counted. induction calls as [|c calls IH]; [done|].
  change ((c :: calls) ≫= call_steps) with ((call_steps c ++ (calls ≫= call_steps))%list).
  change ((c :: calls) ≫= counted) with ((counted c ++ (calls ≫= counted))%list).
  rewrite increments_app, IH, List.filter_app, length_app. f_equal.
  unfold call_steps. rewrite increments_app, increments_count_steps, increments_observe_steps.
  lia.
Qed.

Lemma increments_concat ref (threads : list (list record_call)) :
  increments ref (concat (map (λ t, t ≫= call_steps) threads)) =
  times_counted ref (concat threads).
Proof.
  rewrite <- increments_thread. induction threads as [|t ts IH]; [done|].
  cbn [concat map]. rewrite bind_app, !increments_app. by f_equal.
Qed.

Lemma value_exec_step r s ref :
  registry_wf r → step_defined r s →
  counter_value (exec_step r s) ref =
  if is_increment_of ref s then dbl_add (counter_value r ref) (dbl_of_Z 1)
  else counter_value r ref.
Proof.
  intros Hr Hs. unfold counter_value.
  destruct s as [n h l|ref'|n h bs l|ref' v]; cbn -[dbl_of_Z].
  - rewrite counter_at_getCounter by done. case_decide as E; [|done].
    subst. by destruct (counter_at r _).
  - rewrite counter_at_increment_at by done.
    case_bool_decide as E; [subst|by rewrite decide_False by congruence].
    rewrite decide_True by done. destruct Hs as [c ->]. done.
  - by rewrite counter_at_getHistogram.
  - done.
Qed.

Lemma value_run_steps l r ref n :
  registry_wf r → steps_defined r l → counter_value r ref = dbl_of_Z n → (0 ≤ n)%Z →
  (n + Z.of_nat (increments ref l) ≤ 2 ^ 53)%Z →
  counter_value (run_steps l r) ref = dbl_of_Z (n + Z.of_nat (increments ref l)).
Proof.
  revert r n. induction l as [|s l IH]; intros r n Hr Hl Hv Hn Hb.
  { cbn. by rewrite Z.add_0_r. }
  destruct Hl as [Hs Hl]. change (run_steps (s :: l) r) with (run_steps l (exec_step r s)).
  pose proof (value_exec_step r s ref Hr Hs) as Hx.
  unfold increments in *. cbn [List.filter] in *. destruct (is_increment_of ref s).
  - cbn [length] in *. rewrite (IH _ (n + 1)%Z); [f_equal; lia|auto with metrics|done| |lia|lia].
    rewrite Hx, Hv. apply dbl_add_one. lia.
  - apply IH; auto with metrics. congruence.
Qed.

(** ** Metrics stay registered *)

Lemma registry_extends_trans r1 r2 r3 :
  registry_extends r1 r2 → registry_extends r2 r3 → registry_extends r1 r3.
Proof. intros [??] [??]. split; auto. Qed.

Lemma run_steps_extends l r : registry_wf r → registry_extends r (run_steps l r).
Proof.
  revert r. induction l as [|s l IH]; intros r Hr; [by split|].
  apply (registry_extends_trans _ (exec_step r s)); [by apply exec_step_extends|].
  apply IH. auto with metrics.
Qed.

Lemma incremented_registered l r ref :
  registry_wf r → steps_defined r l → 0 < increments ref l →
  is_Some (counter_at (run_steps l r) ref).
Proof.
  revert r. induction l as [|s l IH]; intros r Hr; [cbn; lia|].
  intros [Hs Hl] Hi. change (run_steps (s :: l) r) with (run_steps l (exec_step r s)).
  unfold increments in Hi. cbn [List.filter] in Hi. destruct (is_increment_of ref s) eqn:E.
  - destruct s; try done. cbn in E. apply bool_decide_eq_true in E as ->.
    apply run_steps_extends; [auto with metrics|].
    apply (exec_step_extends r (StepIncrement ref) Hr). exact Hs.
  - apply IH; [auto with metrics|done|]. exact Hi.
Qed.

(** A thread of recording calls and the initial registry. *)
Definition thread_steps (calls : list record_call) : list metric_step := calls ≫= call_steps.

Lemma threads_defined threads l r :
  registry_wf r → interleaving (map thread_steps threads) l → steps_defined r l.
Proof.
  intros Hr Hi. eapply interleaving_defined; [done..|].
  apply Forall_forall. intros t (calls & <- & _)%in_map_iff. by apply thread_defined.
Qed.

Lemma threads_increments ref threads l :
  interleaving (map thread_steps threads) l →
  increments ref l = times_counted ref (concat threads).
Proof.
  intros Hi%interleaving_perm. by rewrite <- (increments_perm _ _ _ Hi), increments_concat.
Qed.
