(* ===== verification/MetricsSpec.v ===== *)
(** The properties of the metrics: counting under concurrency, the effect of a
    recorded request, initialisation, histogram buckets and label texts. *)

From stdpp Require Import gmap.
From S2P Require Import Prelude Decimal StdMap Doubles Metrics MetricsFacts MetricsSteps.

Local Open Scope string_scope.

(** ** Histogram buckets *)

(** What a bucket should hold: the number of observations at most its bound. *)
Definition observations_le (h : Histogram) (b : double) : nat :=
  length (List.filter (λ v, dbl_leb v b) (values_ h)).

Definition bucket_step (b : double) (n : Z) (v : double) : Z :=
  if dbl_leb v b then wrap_u 64 (n + 1) else n.

Lemma fold_bucket_step b vs n :
  fold_left (bucket_step b) vs (wrap_u 64 n) =
  wrap_u 64 (n + Z.of_nat (length (List.filter (λ v, dbl_leb v b) vs))).
Proof.
  revert n. induction vs as [|v vs IH]; intros n; cbn; [by rewrite Z.add_0_r|].
  unfold bucket_step at 2. destruct (dbl_leb v b); [|apply IH].
  rewrite wrap_u_succ, IH. f_equal. cbn. lia.
Qed.

Lemma fold_count_value bs vs ns :
  length ns = length bs →
  fold_left (count_value bs) vs ns = zip_with (λ b n, fold_left (bucket_step b) vs n) bs ns.
Proof.
  revert ns. induction vs as [|v vs IH]; intros ns Hlen; cbn.
  - revert ns Hlen. induction bs as [|b bs IH]; intros [|n ns] [=]; [done|].
    cbn. f_equal. by apply IH.
  - rewrite IH by (unfold count_value; rewrite length_zip_with; lia).
    clear IH. revert ns Hlen. induction bs as [|b bs IH]; intros [|n ns] [=]; [done|].
    cbn. f_equal. by apply IH.
Qed.

Lemma bucketCounts_map h :
  bucketCounts h = map (λ b, wrap_u 64 (Z.of_nat (observations_le h b))) (buckets_ h).
Proof.
  unfold bucketCounts, observations_le.
  rewrite fold_count_value by by rewrite length_replicate.
  induction (buckets_ h) as [|b bs IH]; [done|]. cbn [length replicate zip_with map].
  f_equal; [|exact IH]. pose proof (fold_bucket_step b (values_ h) 0) as E.
  by rewrite wrap_u_id in E.
Qed.

Lemma filter_length_mono {A} (P Q : A → bool) l :
  (∀ x, P x = true → Q x = true) →
  (length (List.filter P l) ≤ length (List.filter Q l))%nat.
Proof.
  intros HPQ. induction l as [|x l IH]; cbn; [lia|].
  specialize (HPQ x). destruct (P x), (Q x); cbn; try lia; by specialize (HPQ eq_refl).
Qed.

Lemma observations_le_mono h b b' :
  dbl_leb b b' = true → (observations_le h b ≤ observations_le h b')%nat.
Proof. intros. apply filter_length_mono. intros v ?. by eapply dbl_leb_trans. Qed.

Lemma observations_le_all h b : (observations_le h b ≤ length (values_ h))%nat.
Proof. unfold observations_le. induction (values_ h) as [|v l IH]; cbn; [lia|].
  destruct (dbl_leb v b); cbn; lia. Qed.

(** ** The scrape *)

Lemma concat_strings_app l1 l2 :
  concat_strings (l1 ++ l2)%list = concat_strings l1 +:+ concat_strings l2.
Proof.
  unfold concat_strings. induction l1 as [|s l IH]; cbn; [done|].
  by rewrite IH, sapp_assoc.
Qed.

Lemma concat_strings_in s l : s ∈ l → ∃ pre post, concat_strings l = pre +:+ s +:+ post.
Proof.
  intros (l1 & l2 & ->)%list_elem_of_split. exists (concat_strings l1), (concat_strings l2).
  by rewrite concat_strings_app.
Qed.

Lemma format_has_counter cnames hnames r ref c :
  registry_wf r → iteration_order (counters_ r) cnames → counter_at r ref = Some c →
  scontains (Counter_format c) (format cnames hnames r) = true.
Proof.
  intros Hr Ho Hc. apply scontains_spec. rewrite counter_at_map in Hc.
  destruct (counter_map_wf r ref.1 Hr) as [Hs _].
  apply (om_find_in _ _ _ Hs) in Hc.
  destruct (concat_strings_in (Counter_format c)
    (map (λ p, Counter_format p.2) (counter_map r ref.1))) as (a & b & E1).
  { apply list_elem_of_In, in_map_iff. exists (ref.2, c). done. }
  destruct (concat_strings_in (format_counter_family r ref.1)
    (map (format_counter_family r) cnames)) as (a' & b' & E2).
  { apply list_elem_of_fmap. exists ref.1. split; [done|]. rewrite Ho.
    apply list_elem_of_fmap. exists (ref.1, counter_map r ref.1). split; [done|].
    apply elem_of_map_to_list. unfold counter_map in *.
    by destruct (counters_ r !! ref.1). }
  unfold format. rewrite E2. unfold format_counter_family at 1. rewrite E1.
  eexists (a' +:+ Counter_formatTypeHelp _ _ _ +:+ a), _. by rewrite <- !sapp_assoc.
Qed.

(** A registered counter carries the name and labels it is registered under. *)
Lemma counter_key_fields r ref c :
  registry_wf r → counter_at r ref = Some c → name_ c = ref.1 ∧ labels_ c = ref.2.
Proof.
  intros Hr. rewrite counter_at_map. destruct (counter_map_wf r ref.1 Hr) as [Hs Hm].
  by apply (Forall_om_find (λ l c, name_ c = ref.1 ∧ labels_ c = l)).
Qed.

(** ** Initialisation *)

Definition init_refs : list metric_ref :=
  map (λ x, (http_total, request_labels x.1.1 x.1.2 x.2)) init_combinations.

Lemma register_request_wf r x : registry_wf r → registry_wf (register_request r x).
Proof. destruct x as [[m p] s]. cbn. intros. by apply emplace_counter_wf. Qed.

Lemma register_requests_wf l r : registry_wf r → registry_wf (fold_left register_request l r).
Proof. revert r. induction l; cbn; auto using register_request_wf. Qed.

Lemma counter_at_register l r ref :
  registry_wf r →
  counter_at (fold_left register_request l r) ref =
  if decide (ref ∈ map (λ x, (http_total, request_labels x.1.1 x.1.2 x.2)) l)
  then Some (default (Counter_new http_total http_total_help ref.2) (counter_at r ref))
  else counter_at r ref.
Proof.
  revert r. induction l as [|[[m p] s] l IH]; intros r Hr; [done|].
  cbn [fold_left map]. rewrite IH by by apply register_request_wf.
  unfold register_request, emplace_counter at 1 2. cbn -[request_labels].
  rewrite counter_at_emplace by done.
  set (ref0 := (http_total, request_labels m p s)).
  destruct (decide (ref = ref0)) as [->|Hne].
  - rewrite (decide_True (P := ref0 ∈ ref0 :: _)) by by left.
    by case_decide; destruct (counter_at r ref0).
  - destruct (decide (ref ∈ ref0 :: _)) as [H|H]; [|destruct (decide (ref ∈ _))].
    + apply elem_of_cons in H as [|H]; [done|]. by rewrite decide_True.
    + destruct H. by right.
    + done.
Qed.

#[local] Opaque init_combinations duration_buckets.

Definition auth_failures_ref : metric_ref := (auth_failures, []).
Definition duration_ref : metric_ref := (http_duration, []).

(** The counter [initialize] creates for a reference. *)
Definition initial_counter (ref : metric_ref) : Counter :=
  Counter_new ref.1 (if decide (ref = auth_failures_ref) then auth_failures_help
                     else http_total_help) ref.2.

(** The registry during [initialize]: before the label combinations, after
    them, and with the last counter. *)
Definition init_start (r : MetricsRegistry) : MetricsRegistry :=
  set_histogram_help http_duration http_duration_help
    (set_counter_help http_total http_total_help r).
Definition init_requests (r : MetricsRegistry) : MetricsRegistry :=
  fold_left register_request init_combinations (init_start r).
Definition init_counters (r : MetricsRegistry) : MetricsRegistry :=
  emplace_counter auth_failures [] (Counter_new auth_failures auth_failures_help [])
    (set_counter_help auth_failures auth_failures_help (init_requests r)).
Definition init_histograms (r : MetricsRegistry) : MetricsRegistry :=
  set_histograms http_duration
    (om_emplace [] (Histogram_move (Histogram_new http_duration http_duration_help
                                      duration_buckets []))
       (histogram_map (init_counters r) http_duration)) (init_counters r).
Definition set_initialized (r : MetricsRegistry) : MetricsRegistry :=
  mk_registry (counters_ r) (histograms_ r) (counterHelps_ r) (histogramHelps_ r) true.

Lemma initialize_fresh r :
  initialized_ r = false → (initialize r).1 = set_initialized (init_histograms r).
Proof. intros Hi. unfold initialize. rewrite Hi. reflexivity. Qed.

Lemma init_requests_wf r : registry_wf r → registry_wf (init_requests r).
Proof.
  intros. apply register_requests_wf. unfold init_start. auto with metrics.
Qed.

Lemma init_counters_wf r : registry_wf r → registry_wf (init_counters r).
Proof.
  intros. apply emplace_counter_wf; [reflexivity..|].
  apply set_counter_help_wf. by apply init_requests_wf.
Qed.

Lemma init_histograms_wf r : registry_wf r → registry_wf (init_histograms r).
Proof.
  intros. apply init_counters_wf in H. apply set_histograms_wf; [|exact H].
  by apply histograms_wf_emplace, histogram_map_wf.
Qed.

Lemma set_initialized_wf r : registry_wf r → registry_wf (set_initialized r).
Proof. intros [Hc Hh]. constructor; [exact Hc|exact Hh]. Qed.

Lemma initialize_wf r : registry_wf r → registry_wf (initialize r).1.
Proof.
  intros Hr. destruct (initialized_ r) eqn:Hi.
  - unfold initialize. by rewrite Hi.
  - rewrite initialize_fresh by done. by apply set_initialized_wf, init_histograms_wf.
Qed.

(** Components that an update of another component leaves alone. *)
Lemma counter_at_set_initialized r ref : counter_at (set_initialized r) ref = counter_at r ref.
Proof. reflexivity. Qed.
Lemma counter_at_set_histograms name m r ref :
  counter_at (set_histograms name m r) ref = counter_at r ref.
Proof. reflexivity. Qed.
Lemma counter_at_set_counter_help name help r ref :
  counter_at (set_counter_help name help r) ref = counter_at r ref.
Proof. reflexivity. Qed.
Lemma counter_at_set_histogram_help name help r ref :
  counter_at (set_histogram_help name help r) ref = counter_at r ref.
Proof. reflexivity. Qed.
Lemma histogram_at_set_initialized r ref :
  histogram_at (set_initialized r) ref = histogram_at r ref.
Proof. reflexivity. Qed.
Lemma histogram_at_set_counters name m r ref :
  histogram_at (set_counters name m r) ref = histogram_at r ref.
Proof. reflexivity. Qed.
Lemma histogram_at_set_counter_help name help r ref :
  histogram_at (set_counter_help name help r) ref = histogram_at r ref.
Proof. reflexivity. Qed.
Lemma histogram_at_set_histogram_help name help r ref :
  histogram_at (set_histogram_help name help r) ref = histogram_at r ref.
Proof. reflexivity. Qed.

Create Rewrite HintDb metric_frame.
#[export] Hint Rewrite counter_at_set_initialized counter_at_set_histograms
  counter_at_set_counter_help counter_at_set_histogram_help
  histogram_at_set_initialized histogram_at_set_counters histogram_at_set_counter_help
  histogram_at_set_histogram_help : metric_frame.

Lemma counter_at_init_requests r ref :
  registry_wf r →
  counter_at (init_requests r) ref =
  if decide (ref ∈ init_refs)
  then Some (default (Counter_new http_total http_total_help ref.2) (counter_at r ref))
  else counter_at r ref.
Proof.
  intros Hr. unfold init_requests, init_start.
  rewrite counter_at_register by auto with metrics.
  autorewrite with metric_frame. reflexivity.
Qed.

Lemma counter_at_initialize r ref :
  registry_wf r → initialized_ r = false →
  counter_at (initialize r).1 ref =
  if decide (ref ∈ auth_failures_ref :: init_refs)
  then Some (default (initial_counter ref) (counter_at r ref))
  else counter_at r ref.
Proof.
  intros Hr Hi. rewrite initialize_fresh by done.
  unfold init_histograms. autorewrite with metric_frame.
  unfold init_counters, emplace_counter.
  rewrite counter_at_emplace by by apply set_counter_help_wf, init_requests_wf.
  autorewrite with metric_frame. rewrite counter_at_init_requests by done.
  change (auth_failures, []) with auth_failures_ref. unfold initial_counter.
  destruct (decide (ref = auth_failures_ref)) as [->|Hne].
  - rewrite (decide_True (P := auth_failures_ref ∈ auth_failures_ref :: init_refs)) by by left.
    rewrite decide_False; [reflexivity|].
    unfold init_refs. intros (x & [=] & _)%list_elem_of_fmap.
  - destruct (decide (ref ∈ init_refs)) as [Hin|Hin].
    + rewrite (decide_True (P := ref ∈ auth_failures_ref :: init_refs)) by by right.
      replace ref.1 with http_total; [reflexivity|].
      unfold init_refs in Hin. by apply list_elem_of_fmap in Hin as (x & -> & _).
    + rewrite (decide_False (P := ref ∈ auth_failures_ref :: init_refs)); [reflexivity|].
      rewrite elem_of_cons. by intros [|].
Qed.

Lemma histogram_at_register l r ref :
  histogram_at (fold_left register_request l r) ref = histogram_at r ref.
Proof.
  revert r. induction l as [|[[m p] s] l IH]; intros r; [reflexivity|].
  cbn [fold_left]. by rewrite IH.
Qed.

Lemma histogram_at_initialize r ref :
  registry_wf r → initialized_ r = false →
  histogram_at (initialize r).1 ref =
  if decide (ref = duration_ref)
  then Some (default (Histogram_new http_duration http_duration_help duration_buckets [])
               (histogram_at r ref))
  else histogram_at r ref.
Proof.
  intros Hr Hi. rewrite initialize_fresh by done.
  autorewrite with metric_frame. unfold init_histograms. rewrite histogram_at_emplace by by apply init_counters_wf.
  assert (histogram_at (init_counters r) ref = histogram_at r ref) as ->; [|reflexivity].
  unfold init_counters, emplace_counter, init_requests. autorewrite with metric_frame.
  rewrite histogram_at_register. unfold init_start. by autorewrite with metric_frame.
Qed.

(** ** Label texts *)

(** A label name or value that needs no escaping. *)
Definition clean_name (s : string) : bool := sforall (λ c, negb (Ascii.eqb c "="%char)) s.
Definition clean_value (s : string) : bool := sforall (λ c, negb (Ascii.eqb c "034"%char)) s.
Definition clean_labels (l : Labels) : bool :=
  forallb (λ p, clean_name p.1 && clean_value p.2) l.

Lemma Labels_pairs_inj l1 l2 first :
  clean_labels l1 = true → clean_labels l2 = true →
  (first = true → l1 = [] ↔ l2 = []) →
  Labels_pairs first l1 = Labels_pairs first l2 → l1 = l2.
Proof.
  revert l2 first. induction l1 as [|[k v] l1 IH]; intros [|[k' v'] l2] first H1 H2 Hf E;
    [done| | |].
  - destruct first; [by destruct (proj1 (Hf eq_refl) eq_refl)|done].
  - destruct first; [by destruct (proj2 (Hf eq_refl) eq_refl)|done].
  - cbn in H1, H2. rewrite !andb_true_iff in H1, H2.
    destruct H1 as [[Hk Hv] H1], H2 as [[Hk' Hv'] H2].
    cbn [Labels_pairs] in E.
    apply (inj (String.app (if first then EmptyString else ","))) in E.
    apply (sapp_split "="%char) in E as [-> E]; [|done..].
    injection E as E. apply (sapp_split "034"%char) in E as [-> E]; [|done..].
    f_equal. by apply (IH l2 false).
Qed.

Lemma auth_labels_sorted username success :
  auth_labels username success = [("success", bool_text success); ("username", username)].
Proof. by vm_compute. Qed.

(** ** Properties *)

(** C6. No request is lost: when threads make recording calls concurrently, in
    any interleaving of their atomic steps, every counter that they count is
    reported by a scrape with exactly its old value plus the number of calls
    that count it, as long as that total is below 2^53. *)
Theorem concurrent_calls_scraped threads l r ref n cnames hnames :
  registry_wf r →
  interleaving (map thread_steps threads) l →
  counter_value r ref = dbl_of_Z n →
  (0 ≤ n)%Z →
  (n + Z.of_nat (times_counted ref (concat threads)) < 2 ^ 53)%Z →
  0 < times_counted ref (concat threads) →
  iteration_order (counters_ (run_steps l r)) cnames →
  scontains (ref.1 +:+ Labels_toString ref.2 +:+ " " +:+
             to_string (n + Z.of_nat (times_counted ref (concat threads))) +:+ NL)
    (format cnames hnames (run_steps l r)) = true.
Proof.
  intros Hr Hi Hv Hn Hb Hp Ho. rewrite <- (threads_increments _ _ _ Hi) in *.
  pose proof (threads_defined _ _ _ Hr Hi) as Hd.
  destruct (incremented_registered l r ref Hr Hd Hp) as [c Hc].
  pose proof (value_run_steps l r ref n Hr Hd Hv Hn ltac:(lia)) as Hval.
  unfold counter_value in Hval. rewrite Hc in Hval. cbn in Hval.
  rewrite <- (format_fixed_int (n + _)) by lia. rewrite <- Hval.
  pose proof (format_has_counter cnames hnames _ ref c (run_steps_wf l r Hr) Ho Hc) as Hf.
  destruct (counter_key_fields _ _ _ (run_steps_wf l r Hr) Hc) as [<- <-]. exact Hf.
Qed.

(** No dangling reference: in any interleaving of threads that make
    recording calls, every [increment] and [observe] acts on a metric that is
    registered at that moment, and the registry invariant holds at the end
    (labels are unique and sorted, each metric is stored under its own name
    and labels, each histogram's count and sum are those of its values). *)
Theorem concurrent_calls_safe threads l r :
  registry_wf r →
  interleaving (map thread_steps threads) l →
  steps_defined r l ∧ registry_wf (run_steps l r).
Proof. intros Hr Hi. split; [by eapply threads_defined|by apply run_steps_wf]. Qed.

(** [recordHttpRequest] adds one to the counter of its method, path and
    status (creating it with that label set when absent), appends the duration
    to the duration histogram, and touches no other metric. *)
Theorem recordHttpRequest_effect method path status d r :
  registry_wf r →
  let r' := recordHttpRequest method path status d r in
  let ref := (http_total, request_labels method path status) in
  registry_wf r' ∧
  counter_at r' ref =
    Some (Counter_increment (dbl_of_Z 1)
            (default (Counter_new http_total http_total_help ref.2) (counter_at r ref))) ∧
  (∀ ref', ref' ≠ ref → counter_at r' ref' = counter_at r ref') ∧
  histogram_at r' duration_ref =
    Some (Histogram_observe d
            (default (Histogram_new http_duration http_duration_help duration_buckets [])
               (histogram_at r duration_ref))) ∧
  (∀ ref', ref' ≠ duration_ref → histogram_at r' ref' = histogram_at r ref').
Proof.
  intros Hr. cbv zeta. unfold recordHttpRequest.
  set (r1 := count_one _ _ _ r). assert (registry_wf r1) as Hr1 by by apply count_one_wf.
  pose proof (getHistogram_ref http_duration http_duration_help duration_buckets [] r1) as Href.
  pose proof (getHistogram_wf http_duration http_duration_help duration_buckets [] r1 Hr1) as Hwf.
  pose proof (counter_at_getHistogram http_duration http_duration_help duration_buckets [] r1) as Hc.
  pose proof (λ ref, histogram_at_getHistogram http_duration http_duration_help
    duration_buckets [] r1 ref Hr1) as Hh.
  destruct (getHistogram _ _ _ _ r1) as [h r2]. cbn [fst snd] in *. subst h.
  split; [by apply observe_at_wf|]. change (http_duration, []) with duration_ref in *.
  split; [|split; [|split]].
  - unfold observe_at. rewrite counter_at_set_histograms, Hc.
    unfold r1. rewrite counter_at_count_one by done. by rewrite decide_True by done.
  - intros ref' Hne. unfold observe_at. rewrite counter_at_set_histograms, Hc.
    unfold r1. rewrite counter_at_count_one by done. by rewrite decide_False by done.
  - rewrite histogram_at_observe_at by done. rewrite decide_True by done.
    rewrite Hh, decide_True by done. unfold r1. by rewrite histogram_at_count_one.
  - intros ref' Hne. rewrite histogram_at_observe_at by done. rewrite decide_False by done.
    rewrite Hh, decide_False by done. apply histogram_at_count_one.
Qed.

(** [initialize] on a registry that is not initialised yet registers the
    315 request counters and the authentication counter (at zero, unless they
    were registered before) and the duration histogram, keeps every metric
    already there, and makes later calls of [initialize] do nothing. *)
Theorem initialize_registers r :
  registry_wf r → initialized_ r = false →
  let r' := (initialize r).1 in
  registry_wf r' ∧
  (∀ ref, counter_at r' ref =
     if decide (ref ∈ auth_failures_ref :: init_refs)
     then Some (default (initial_counter ref) (counter_at r ref))
     else counter_at r ref) ∧
  (∀ ref, histogram_at r' ref =
     if decide (ref = duration_ref)
     then Some (default (Histogram_new http_duration http_duration_help duration_buckets [])
                  (histogram_at r ref))
     else histogram_at r ref) ∧
  initialize r' = (r', []).
Proof.
  intros Hr Hi. split; [by apply initialize_wf|]. split; [|split].
  - intros ref. by apply counter_at_initialize.
  - intros ref. by apply histogram_at_initialize.
  - rewrite initialize_fresh by done. reflexivity.
Qed.

(** The bucket counts [format] computes: bucket [i] holds the number of
    observations at most its bound (modulo 2^64); with fewer than 2^64
    observations the counts of buckets with increasing bounds are cumulative,
    and none exceeds the total count, which is the [+Inf] bucket. *)
Theorem bucketCounts_cumulative h i j bi bj ni nj :
  histogram_wf h → (Z.of_nat (length (values_ h)) < 2 ^ 64)%Z →
  buckets_ h !! i = Some bi → buckets_ h !! j = Some bj → dbl_leb bi bj = true →
  bucketCounts h !! i = Some ni → bucketCounts h !! j = Some nj →
  ni = Z.of_nat (observations_le h bi) ∧ nj = Z.of_nat (observations_le h bj) ∧
  (ni ≤ nj ≤ count_ h)%Z.
Proof.
  intros [Hc _] Hlen Hbi Hbj Hle. rewrite bucketCounts_map.
  rewrite !list_lookup_fmap, Hbi, Hbj. cbn. intros [= <-] [= <-].
  pose proof (observations_le_all h bi). pose proof (observations_le_all h bj).
  pose proof (observations_le_mono h bi bj Hle).
  rewrite Hc, !wrap_u_id by (unfold in_u; lia). lia.
Qed.

(** Label sets whose names have no equals sign and whose values have no
    double quote are told apart by their text. *)
Theorem Labels_toString_injective l1 l2 :
  clean_labels l1 = true → clean_labels l2 = true →
  Labels_toString l1 = Labels_toString l2 → l1 = l2.
Proof.
  intros H1 H2 E. destruct l1 as [|p1 l1], l2 as [|p2 l2]; [done|done|done|].
  unfold Labels_toString in E. apply (inj (String.app "{")) in E.
  apply sapp_inj_tail in E. by eapply Labels_pairs_inj.
Qed.

(** Values are not escaped, so a value with a double quote can imitate
    another label set: an authentication attempt by a suitably named user is
    exposed under exactly the text of a different label set, of any success
    value. *)
Theorem Labels_toString_forgeable username success :
  let forged := username +:+ DQ +:+ ",x=" +:+ DQ +:+ "1" in
  Labels_toString (auth_labels forged success) =
  Labels_toString (om_assign "x" "1" (auth_labels username success)) ∧
  auth_labels forged success ≠ om_assign "x" "1" (auth_labels username success).
Proof.
  cbv zeta. rewrite !auth_labels_sorted.
  assert (∀ v, om_assign "x" "1" [("success", bool_text success); ("username", v)] =
    [("success", bool_text success); ("username", v); ("x", "1")]) as ->
    by by destruct success; vm_compute.
  split; [|discriminate]. cbn [Labels_toString Labels_pairs]. by rewrite <- !sapp_assoc.
Qed.

(** A histogram with labels is exposed with two closing braces in every
    bucket line, which the exposition format does not allow. *)
Theorem labelled_bucket_line h le n l p :
  h_labels h = p :: l →
  bucket_line h le n =
  h_name h +:+ "_bucket{le=" +:+ DQ +:+ le +:+ DQ +:+ "," +:+
  Labels_pairs true (p :: l) +:+ "}} " +:+ to_string n +:+ NL.
Proof.
  intros Hl. unfold bucket_line.
  assert (labelPart h = Labels_pairs true (p :: l) +:+ "}") as ->.
  { unfold labelPart. rewrite Hl. reflexivity. }
  replace (is_empty _) with false by (destruct p as [[] v]; reflexivity).
  by rewrite <- !sapp_assoc.
Qed.

(** ** Witnesses *)

Lemma empty_registry_wf : registry_wf empty_registry.
Proof. split; apply map_Forall_empty. Qed.

(** Two threads that count the same failed login, and one scrape. *)
Definition two_logins : list (list record_call) :=
  [[AuthAttempt "eve" false]; [AuthAttempt "eve" false; DbOperation "logout" true]].

Lemma concurrent_calls_scraped_witness :
  scontains ("auth_failures_total" +:+ Labels_toString [] +:+ " " +:+ to_string 2 +:+ NL)
    (format (map_to_list (counters_ (run_steps
       (concat (map thread_steps two_logins)) empty_registry))).*1 []
       (run_steps (concat (map thread_steps two_logins)) empty_registry)) = true.
Proof.
  apply (concurrent_calls_scraped two_logins _ empty_registry auth_failures_ref 0).
  - exact empty_registry_wf.
  - apply interleaving_concat.
  - vm_compute. reflexivity.
  - lia.
  - vm_compute. reflexivity.
  - apply Nat.lt_0_2.
  - unfold iteration_order. reflexivity.
Defined.

Lemma concurrent_calls_safe_witness :
  steps_defined empty_registry (concat (map thread_steps two_logins)) ∧
  registry_wf (run_steps (concat (map thread_steps two_logins)) empty_registry).
Proof.
  apply (concurrent_calls_safe two_logins); [exact empty_registry_wf|apply interleaving_concat].
Defined.

Lemma recordHttpRequest_effect_witness :
  ∃ c, counter_at (recordHttpRequest "GET" "/" 200 (dbl_of_Z 1) empty_registry)
         (http_total, request_labels "GET" "/" 200) = Some c.
Proof.
  destruct (recordHttpRequest_effect "GET" "/" 200 (dbl_of_Z 1) empty_registry
    empty_registry_wf) as (_ & H & _). eexists. exact H.
Defined.

Lemma initialize_registers_witness :
  initialize (initialize empty_registry).1 = ((initialize empty_registry).1, []).
Proof.
  apply (initialize_registers empty_registry); [exact empty_registry_wf|reflexivity].
Defined.

Definition sample_histogram : Histogram :=
  Histogram_observe (dbl_of_Z 3) (Histogram_observe (dbl_of_dec false 2 (-2))
    (Histogram_new http_duration http_duration_help duration_buckets [])).

Lemma bucketCounts_cumulative_witness :
  bucketCounts sample_histogram !! 1%nat = Some 1%Z ∧
  (1 ≤ 2 ≤ count_ sample_histogram)%Z.
Proof.
  split; [vm_compute; reflexivity|].
  apply (bucketCounts_cumulative sample_histogram 1 9 (dbl_of_dec false 25 (-3)) (dbl_of_Z 10)).
  all: vm_compute; repeat split; congruence.
Defined.

Lemma Labels_toString_injective_witness :
  Labels_toString [("a", "b")] ≠ Labels_toString [("a", "c")].
Proof.
  intros H. apply (Labels_toString_injective [("a", "b")] [("a", "c")] eq_refl eq_refl) in H.
  discriminate.
Defined.

Lemma labelled_bucket_line_witness :
  bucket_line (Histogram_new "d" EmptyString [] [("p", "q")]) "+Inf" 0 =
  bq "d_bucket{le=`+Inf`,p=`q`}} 0" +:+ NL.
Proof. exact (labelled_bucket_line (Histogram_new "d" EmptyString [] [("p", "q")]) _ _ [] _ eq_refl). Defined.

(** ** Counting in doubles *)

(** The value of a counter after [n] increments. *)
Definition incremented (n : nat) (c : Counter) : Counter :=
  Nat.iter n (Counter_increment (dbl_of_Z 1)) c.

Lemma incremented_value (n : nat) name help labels :
  (Z.of_nat n ≤ 2 ^ 53)%Z →
  value_ (incremented n (Counter_new name help labels)) = dbl_of_Z (Z.of_nat n).
Proof.
  induction n as [|n IH]; intros Hn; [done|].
  change (incremented (S n) ?c) with (Counter_increment (dbl_of_Z 1) (incremented n c)).
  cbn [Counter_increment value_]. rewrite IH by lia. rewrite dbl_add_one by lia. f_equal. lia.
Qed.

(** A counter is a double: it counts increments by one exactly up to
    [2^53] and never moves beyond; below that bound its line of the
    exposition shows the exact number. *)
Theorem counter_bounds (n : nat) name help labels :
  let c := incremented n (Counter_new name help labels) in
  value_ c = dbl_of_Z (Z.min (Z.of_nat n) (2 ^ 53)%Z) ∧
  ((Z.of_nat n < 2 ^ 53)%Z →
   Counter_format c = name +:+ Labels_toString labels +:+ " " +:+ to_string (Z.of_nat n) +:+ NL).
Proof.
  assert (Hid : ∀ m, let c := incremented m (Counter_new name help labels) in
    name_ c = name ∧ labels_ c = labels) by (intros m; by induction m).
  cbv zeta. split.
  - induction n as [|n IH]; [done|]. destruct (Z_lt_le_dec (Z.of_nat n) (2 ^ 53)%Z) as [Hn|Hn].
    + rewrite incremented_value by lia. f_equal. lia.
    + rewrite Z.min_r in IH |- * by lia. change (incremented (S n) ?c) with
        (Counter_increment (dbl_of_Z 1) (incremented n c)).
      cbn [Counter_increment value_]. rewrite IH. apply dbl_add_one_saturates.
  - intros Hn. destruct (Hid n) as [Hname Hlab]. unfold Counter_format.
    by rewrite Hname, Hlab, incremented_value, format_fixed_int by lia.
Qed.

Lemma counter_bounds_witness :
  Counter_format (incremented 3 (Counter_new "requests" EmptyString [])) = ("requests 3" +:+ NL)%string.
Proof. apply (counter_bounds 3 "requests" EmptyString []). reflexivity. Defined.
