(* ===== verification/Effects.v ===== *)
(** Effectful code: a program over a state that may throw, and that interacts
    with its environment.  Every interaction is recorded as an event; what the
    environment answers (the clock, the file system, the libpq and curl
    libraries) is a function of the events so far, so a statement for every
    [Env] is a statement about every behaviour of the environment. *)

From S2P Require Import Prelude Exceptions.

(** ** Interactions *)

Inductive event :=
  (* standard streams: one line each *)
  | Stdout (line : string)
  | Stderr (line : string)
  (* clocks *)
  | Clock
  (* files and processes *)
  | RunCommand (cmd : string)
  | OpenLog (path : string)
  | WriteLog (line : string)
  | OpenFile (path : string)
  (* iteration over an unordered_map *)
  | Iterate
  (* curl *)
  | CurlGlobalInit
  | CurlInit
  | HttpPost (url body : string)
  (* libpq *)
  | PqConnect (conninfo : string)
  | PqFinish
  | PqExec (query : string)
  | PqExecParams (query : string) (values : list (option string))
  | PqConsumeInput
  | PqPutCopyData (data : string)
  | PqPutCopyEnd
  | PqGetCopyData
  | PqGetResult
  | PqSendQuery (query : string)
  | PqCancel
  (* sleeping *)
  | WaitFor (microseconds : Z)
  (* a text given to the (empty) list of error handlers of a connection *)
  | Notice (msg : string)
  (* the HTTP framework's event loop *)
  | ServeHttp (port : Z).

(** What libpq returns for a statement: [PGresult]. *)
Inductive exec_status :=
  | PGRES_EMPTY_QUERY | PGRES_COMMAND_OK | PGRES_TUPLES_OK
  | PGRES_COPY_OUT | PGRES_COPY_IN
  | PGRES_BAD_RESPONSE | PGRES_NONFATAL_ERROR | PGRES_FATAL_ERROR
  | PGRES_OTHER (code : Z).

Record pg_result := mk_pg_result {
  pg_status : exec_status;
  pg_error_message : string;
  pg_sqlstate : option string;
  pg_tuples : list (list (option string));
}.

(** The events so far, the latest first. *)
Abbreviation history := (list event).

Class Env := {
  (* [system_clock::now()] and [high_resolution_clock::now()], in nanoseconds *)
  now_ns : history → Z;
  (* [put_time(localtime(t), "%Y-%m-%dT%H:%M:%S")] *)
  localtime_text : Z → string;
  (* did opening a file for appending succeed; the contents of a file *)
  open_append_ok : history → bool;
  file_contents : history → option string;
  (* the order in which an unordered_map with the given keys is visited *)
  iteration : history → list string → list string;
  (* [curl_easy_init() != nullptr], [curl_easy_perform() == CURLE_OK] *)
  curl_init_ok : history → bool;
  curl_perform_ok : history → bool;
  (* libpq *)
  PQconnectdb : history → bool;
  PQstatus_ok : history → bool;
  PQprotocolVersion : history → Z;
  PQserverVersion : history → Z;
  PQerrorMessage : history → string;
  PQclientEncoding : history → Z;
  pg_encoding_to_char : Z → string;
  PQexec : history → option pg_result;
  PQconsumeInput : history → bool;
  PQnotifies : history → nat;
}.

(** ** Programs *)

Definition prog (S A : Type) : Type := S → history → result exn A * S * history.

#[export] Instance prog_ret S : MRet (prog S) := λ A a s h, (Ok a, s, h).
#[export] Instance prog_bind S : MBind (prog S) := λ A B f m s h,
  match m s h with
  | (Ok a, s', h') => f a s' h'
  | (Throw e, s', h') => (Throw e, s', h')
  end.

Section programs.
Context {S : Type}.

Definition throw {A} (e : exn) : prog S A := λ s h, (Throw e, s, h).

(** [try { m } catch (e) { handler }] *)
Definition try_catch {A} (m : prog S A) (handler : exn → prog S A) : prog S A := λ s h,
  match m s h with
  | (Throw e, s', h') => handler e s' h'
  | r => r
  end.

(** [m] followed by [cleanup] on both paths: a destructor at the end of a
    scope.  Destructors do not throw. *)
Definition finally {A} (m : prog S A) (cleanup : prog S unit) : prog S A := λ s h,
  let '(r, s1, h1) := m s h in
  let '(_, s2, h2) := cleanup s1 h1 in (r, s2, h2).

Definition get : prog S S := λ s h, (Ok s, s, h).
Definition gets {A} (f : S → A) : prog S A := λ s h, (Ok (f s), s, h).
Definition modify (f : S → S) : prog S unit := λ s h, (Ok tt, f s, h).

Definition emit (e : event) : prog S unit := λ s h, (Ok tt, s, e :: h).
Definition emit_all (es : list event) : prog S unit := λ s h, (Ok tt, s, rev es ++ h).

(** What the environment says at this point. *)
Definition ask {A} (f : history → A) : prog S A := λ s h, (Ok (f h), s, h).

(** Record an interaction and read its outcome. *)
Definition interact {A} (e : event) (f : history → A) : prog S A := λ s h,
  (Ok (f (e :: h)), s, e :: h).

Definition lift_result {A} (r : result exn A) : prog S A := λ s h, (r, s, h).

Definition when (b : bool) (m : prog S unit) : prog S unit := if b then m else mret tt.
End programs.

(** Run a program on a part of the state. *)
Definition zoom {S T A} (view : T → S) (put : S → T → T) (m : prog S A) : prog T A := λ t h,
  let '(r, s, h') := m (view t) h in (r, put s t, h').

(** A local variable: [m] runs with the initial value [l]; its final value is
    returned with the result. *)
Definition with_local {S L A} (l : L) (m : prog (S * L) A) : prog S (A * L) := λ s h,
  match m (s, l) h with
  | (Ok a, (s', l'), h') => (Ok (a, l'), s', h')
  | (Throw e, (s', _), h') => (Throw e, s', h')
  end.
Definition set_local {S L} (f : L → L) : prog (S * L) unit := modify (λ p, (p.1, f p.2)).

(** [for (x : l) body(x)] *)
Fixpoint for_each {S X} (l : list X) (body : X → prog S unit) : prog S unit :=
  match l with
  | [] => mret tt
  | x :: l' => body x;; for_each l' body
  end.

Lemma prog_bind_unfold {S A B} (f : A → prog S B) (m : prog S A) s h :
  (m ≫= f) s h =
  match m s h with
  | (Ok a, s', h') => f a s' h'
  | (Throw e, s', h') => (Throw e, s', h')
  end.
Proof. done. Qed.
