(* ===== verification/Logger.v ===== *)
(** The logger of [logger.h]: levels, console and file output, and the push of
    entries to Loki.  The singleton's state is the state of the programs. *)

From stdpp Require Import gmap.
From S2P Require Import Prelude Decimal Doubles Exceptions Effects.

Local Open Scope string_scope.

(** ** Data *)

Inductive LogLevel := DEBUG | INFO | WARNING | ERROR.
#[export] Instance LogLevel_eq_dec : EqDecision LogLevel.
Proof. solve_decision. Defined.

Definition level_index (l : LogLevel) : nat :=
  match l with DEBUG => 0 | INFO => 1 | WARNING => 2 | ERROR => 3 end.
Definition level_lt (l m : LogLevel) : bool := (level_index l <? level_index m)%nat.

(** [struct LokiLabels] and its [add]. *)
Definition LokiLabels : Type := gmap string string.
Definition LokiLabels_add (key value : string) (l : LokiLabels) : LokiLabels :=
  <[key := value]> l.

(** [std::ofstream]: is a file open, and is the stream in a good state? *)
Record log_stream := mk_log_stream { is_open : bool; good : bool }.

Record Logger := mk_logger {
  logFile : log_stream;
  minLevel : LogLevel;
  fileEnabled : bool;
  consoleEnabled : bool;
  lokiFormatEnabled : bool;
  logFilePath : string;
  serviceName : string;
  lokiHost : string;
  lokiPort : Z;
}.

Definition Logger_new : Logger :=
  mk_logger (mk_log_stream false false) DEBUG false true false "logs/app.log"
    "service_system" "localhost" 3100.

Definition levelToString (level : LogLevel) : string :=
  match level with
  | DEBUG => "DEBUG" | INFO => "INFO" | WARNING => "WARNING" | ERROR => "ERROR"
  end.

Definition levelToLokiString (level : LogLevel) : string :=
  match level with
  | DEBUG => "debug" | INFO => "info" | WARNING => "warning" | ERROR => "error"
  end.

(** ** Text *)

(** The timestamp of an instant after the epoch, in nanoseconds. *)
Definition timestamp_text `{Env} (ns : Z) : string :=
  localtime_text (ns / 1000000000) +:+ "." +:+ pad0 3 ((ns / 1000000) `mod` 1000) +:+ "Z".

Definition entry_text (timestamp : string) (level : LogLevel) (message : string) : string :=
  "[" +:+ timestamp +:+ "] [" +:+ levelToString level +:+ "] " +:+ message.

(** The loop that escapes the message: every character of the message is
    looked at once, the inserted ones never. *)
Fixpoint escape_message (s : string) : string :=
  match s with
  | EmptyString => EmptyString
  | String c s' =>
      if Ascii.eqb c "034" then String "\" (escape_message s')
      else if Ascii.eqb c "\" then String "\" (String "\" (escape_message s'))
      else if Ascii.eqb c "010" then String "\" (escape_message s')
      else if Ascii.eqb c "013" then String "\" (escape_message s')
      else String c (escape_message s')
  end.

Fixpoint loki_label_text (l : list (string * string)) : string :=
  match l with
  | [] => EmptyString
  | (k, v) :: l' => DQ +:+ k +:+ bq "`:`" +:+ v +:+ bq "`," +:+ loki_label_text l'
  end.

(** The JSON text built for Loki; [labels] in the order of iteration. *)
Definition loki_payload (serviceName level timestamp message : string)
    (labels : list (string * string)) : string :=
  bq "{`streams`:[{`stream`:{`app`:`" +:+ serviceName +:+ bq "`,`" +:+
  bq "`level`:`" +:+ level +:+ bq "`," +:+
  loki_label_text labels +:+
  bq "`job`:`service_system`},`values`:[{`ts`:`" +:+ timestamp +:+ bq "`, `line`:`" +:+
  escape_message message +:+ bq "`}]}]}".

Definition loki_url (host : string) (port : Z) : string :=
  "http://" +:+ host +:+ ":" +:+ to_string port +:+ "/loki/api/v1/push".

(** The directory part of a path: the text before the last slash. *)
Fixpoint find_last_slash (s : string) : option string :=
  match s with
  | EmptyString => None
  | String c s' =>
      match find_last_slash s' with
      | Some d => Some (String c d)
      | None => if Ascii.eqb c "/" then Some EmptyString else None
      end
  end.

(** ** Operations *)

Section logger.
Context `{Env}.

Definition set_logFile (f : log_stream) (l : Logger) : Logger :=
  mk_logger f (minLevel l) (fileEnabled l) (consoleEnabled l) (lokiFormatEnabled l)
    (logFilePath l) (serviceName l) (lokiHost l) (lokiPort l).
Definition set_fileEnabled (b : bool) (l : Logger) : Logger :=
  mk_logger (logFile l) (minLevel l) b (consoleEnabled l) (lokiFormatEnabled l)
    (logFilePath l) (serviceName l) (lokiHost l) (lokiPort l).

Definition getCurrentTimestamp : prog Logger string :=
  ns ← interact Clock now_ns; mret (timestamp_text ns).

(** [logFile << line << std::endl]: nothing is written by a stream that failed. *)
Definition write_file (line : string) : prog Logger unit :=
  f ← gets logFile; when (good f) (emit (WriteLog line)).

Definition write (level : LogLevel) (message : string) : prog Logger unit :=
  l ← get;
  if level_lt level (minLevel l) then mret tt
  else
    timestamp ← getCurrentTimestamp;
    let entryStr := entry_text timestamp level message in
    when (consoleEnabled l)
      (if decide (level = ERROR) then emit (Stderr entryStr) else emit (Stdout entryStr));;
    when (fileEnabled l && is_open (logFile l)) (write_file entryStr).

Definition sendToLoki (level message : string) (labels : LokiLabels) : prog Logger bool :=
  curl ← interact CurlInit curl_init_ok;
  if curl : bool then
    l ← get;
    order ← interact Iterate (λ h, iteration h (map_to_list labels).*1);
    timestamp ← getCurrentTimestamp;
    let visited := map (λ k, (k, default EmptyString (labels !! k))) order in
    let jsonPayload := loki_payload (serviceName l) level timestamp message visited in
    let url := loki_url (lokiHost l) (lokiPort l) in
    interact (HttpPost (c_str url) (c_str jsonPayload)) curl_perform_ok
  else mret false.

(** [logFile.open(path, std::ios::app)] fails on an open stream. *)
Definition open_log (path : string) : prog Logger unit :=
  f ← gets logFile;
  if is_open f then modify (set_logFile (mk_log_stream true false))
  else
    ok ← interact (OpenLog path) open_append_ok;
    modify (set_logFile (mk_log_stream ok ok)).

Definition init (filepath : string) (level : LogLevel) : prog Logger unit :=
  modify (λ l, mk_logger (logFile l) level true true false filepath
                 (serviceName l) (lokiHost l) (lokiPort l));;
  emit CurlGlobalInit;;
  match find_last_slash filepath with
  | Some dir => emit (RunCommand (c_str ("mkdir -p " +:+ dir)))
  | None => mret tt
  end;;
  open_log filepath;;
  f ← gets logFile;
  when (negb (is_open f)) (modify (set_fileEnabled false)).

Definition initWithLoki (filepath : string) (level : LogLevel) (host : string) (port : Z)
  : prog Logger unit :=
  init filepath level;;
  modify (λ l, mk_logger (logFile l) (minLevel l) (fileEnabled l) (consoleEnabled l) true
                 (logFilePath l) (serviceName l) host port).

Definition setLevel (level : LogLevel) : prog Logger unit :=
  modify (λ l, mk_logger (logFile l) level (fileEnabled l) (consoleEnabled l)
                 (lokiFormatEnabled l) (logFilePath l) (serviceName l) (lokiHost l) (lokiPort l)).

Definition enableConsole (enabled : bool) : prog Logger unit :=
  modify (λ l, mk_logger (logFile l) (minLevel l) (fileEnabled l) enabled
                 (lokiFormatEnabled l) (logFilePath l) (serviceName l) (lokiHost l) (lokiPort l)).

Definition enableFile (enabled : bool) : prog Logger unit :=
  l ← get;
  if enabled && negb (is_open (logFile l)) then
    open_log (logFilePath l);;
    f ← gets logFile;
    if is_open f then modify (set_fileEnabled enabled) else modify (set_fileEnabled false)
  else modify (set_fileEnabled enabled).

Definition setServiceName (name : string) : prog Logger unit :=
  modify (λ l, mk_logger (logFile l) (minLevel l) (fileEnabled l) (consoleEnabled l)
                 (lokiFormatEnabled l) (logFilePath l) name (lokiHost l) (lokiPort l)).

(** [debug], [info], [warning], [error], and their versions with a context. *)
Definition log (level : LogLevel) (message : string) : prog Logger unit := write level message.
Definition log_ctx (level : LogLevel) (message context : string) : prog Logger unit :=
  write level (message +:+ " [" +:+ context +:+ "]").

(** The common shape of the [log*] functions: an entry, and when Loki is
    enabled the same text with labels (the result of the push is ignored). *)
Definition write_and_send (level : LogLevel) (loki_level text : string) (labels : LokiLabels)
  : prog Logger unit :=
  write level text;;
  l ← get;
  if lokiFormatEnabled l then _ ← sendToLoki loki_level text labels; mret tt else mret tt.

Definition success_text (success : bool) : string := if success then "true" else "false".

Definition request_text (ip method path : string) (status duration_ms : Z) : string :=
  "HTTP Request: " +:+ method +:+ " " +:+ path +:+ " | IP: " +:+ ip +:+ " | Status: " +:+
  to_string status +:+ " | Duration: " +:+ to_string duration_ms +:+ "ms".

Definition logRequest (ip method path : string) (status duration_ms : Z) : prog Logger unit :=
  write_and_send INFO "info" (request_text ip method path status duration_ms)
    (LokiLabels_add "method" method
       (LokiLabels_add "endpoint" path (LokiLabels_add "component" "webserver" ∅))).

Definition auth_text (username : string) (success : bool) (ip details : string) : string :=
  "Auth attempt: user='" +:+ username +:+ "' success=" +:+ success_text success +:+
  " ip=" +:+ ip +:+ (if is_empty details then EmptyString else " details=" +:+ details).

Definition logAuth (username : string) (success : bool) (ip details : string)
  : prog Logger unit :=
  write_and_send (if success then INFO else WARNING) (if success then "info" else "warning")
    (auth_text username success ip details)
    (LokiLabels_add "ip" ip (LokiLabels_add "success" (success_text success)
       (LokiLabels_add "user" username (LokiLabels_add "component" "auth" ∅)))).

Definition database_text (operation : string) (success : bool) (details : string) : string :=
  "DB operation: " +:+ operation +:+ " | success=" +:+ success_text success +:+
  (if is_empty details then EmptyString else " | details=" +:+ details).

Definition logDatabase (operation : string) (success : bool) (details : string)
  : prog Logger unit :=
  write_and_send (if success then INFO else ERROR) (if success then "info" else "error")
    (database_text operation success details)
    (LokiLabels_add "success" (success_text success)
       (LokiLabels_add "operation" operation (LokiLabels_add "component" "database" ∅))).

Definition logDevice (deviceId : Z) (operation : string) (success : bool) : prog Logger unit :=
  write_and_send (if success then INFO else WARNING) (if success then "info" else "warning")
    ("Device operation: " +:+ operation +:+ " | device_id=" +:+ to_string deviceId +:+
     " | success=" +:+ success_text success)
    (LokiLabels_add "device_id" (to_string deviceId)
       (LokiLabels_add "operation" operation (LokiLabels_add "component" "device" ∅))).

Definition logService (recordId : Z) (operation : string) (success : bool) : prog Logger unit :=
  write_and_send (if success then INFO else WARNING) (if success then "info" else "warning")
    ("Service operation: " +:+ operation +:+ " | record_id=" +:+ to_string recordId +:+
     " | success=" +:+ success_text success)
    (LokiLabels_add "record_id" (to_string recordId)
       (LokiLabels_add "operation" operation (LokiLabels_add "component" "service" ∅))).

Definition lifecycle_text (event details : string) : string :=
  "Lifecycle event: " +:+ event +:+
  (if is_empty details then EmptyString else " | details=" +:+ details).

Definition logLifecycle (event details : string) : prog Logger unit :=
  write_and_send INFO "info" (lifecycle_text event details)
    (LokiLabels_add "event" event (LokiLabels_add "component" "lifecycle" ∅)).
End logger.
