(* ===== verification/PqxxConv.v ===== *)
(** String conversions of libpqxx (strconv.cxx): integers with their overflow
    checks, booleans and doubles.  The library is configured with one of two
    implementations for integers, its own ([from_string_integer], [to_buf])
    or the standard library's ([from_string_arithmetic], [wrap_to_chars]). *)

From S2P Require Import Prelude Decimal Doubles Exceptions.

Local Open Scope Z_scope.

(** ** Integral types *)

Record int_type := mk_int_type { it_name : string; it_signed : bool; it_bits : Z; it_digits10 : Z }.

Definition t_short := mk_int_type "short" true 16 4.
Definition t_ushort := mk_int_type "unsigned short" false 16 4.
Definition t_int := mk_int_type "int" true 32 9.
Definition t_unsigned := mk_int_type "unsigned int" false 32 9.
Definition t_long := mk_int_type "long" true 64 18.
Definition t_ulong := mk_int_type "unsigned long" false 64 19.
Definition t_llong := mk_int_type "long long" true 64 18.
Definition t_ullong := mk_int_type "unsigned long long" false 64 19.

(** The types the conversions are instantiated for. *)
Definition int_types : list int_type :=
  [t_short; t_ushort; t_int; t_unsigned; t_long; t_ulong; t_llong; t_ullong].

Definition bottom (t : int_type) : Z := if it_signed t then - 2 ^ (it_bits t - 1) else 0.
Definition top (t : int_type) : Z :=
  if it_signed t then 2 ^ (it_bits t - 1) - 1 else 2 ^ it_bits t - 1.
Definition in_type (t : int_type) (z : Z) : Prop := bottom t ≤ z ≤ top t.

(** Arithmetic in an integral type. *)
Definition wrap (t : int_type) (z : Z) : Z :=
  if it_signed t then wrap_s (it_bits t) z else wrap_u (it_bits t) z.

Definition conversion_error (msg : string) : exn := mk_exn pqxx_conversion_error (c_str msg).

(** ** Integers to text *)

(** The loop writes digits from the last one, before the end of the buffer. *)
Definition nonneg_to_buf (value : Z) : string := dec_go (dec_fuel value) value EmptyString.
Definition neg_to_buf (value : Z) : string := String "-" (nonneg_to_buf value).
Definition bottom_to_buf (t : int_type) : string :=
  neg_to_buf (wrap_u (it_bits t) (bottom t)).

Definition size_buffer (t : int_type) : Z :=
  (if it_signed t then 1 else 0) + it_digits10 t + 1 + 1.

Definition state_buffer_overrun (have need : Z) : string :=
  "Have " +:+ to_string have +:+ " bytes, need " +:+ to_string need +:+ ".".

(** [integral_traits<T>::to_buf] into a buffer of [space] bytes. *)
Definition integral_to_buf (t : int_type) (space value : Z) : result exn string :=
  if space <? size_buffer t
  then Throw (conversion_error ("Could not convert " +:+ it_name t +:+ " to string: " +:+
         "buffer too small.  " +:+ state_buffer_overrun space (size_buffer t)))
  else Ok (if negb (it_signed t) then nonneg_to_buf value
           else if 0 <=? value then nonneg_to_buf value
           else if bottom t <? value then neg_to_buf (wrap t (- value))
           else bottom_to_buf t).

(** [generic_into_buf]: the text and its terminating zero must fit. *)
Definition generic_into_buf (t : int_type) (space value : Z) : result exn string :=
  text ← integral_to_buf t space value;
  let len := Z.of_nat (String.length text) + 1 in
  if space <? len
  then Throw (conversion_error ("Not enough buffer space to insert " +:+ it_name t +:+ ".  " +:+
         state_buffer_overrun space len))
  else Ok text.

(** [wrap_to_chars]: [std::to_chars] into all but the last byte. *)
Definition wrap_to_chars (t : int_type) (space value : Z) : result exn string :=
  let text := to_string value in
  if space - 1 <? Z.of_nat (String.length text)
  then Throw (conversion_error ("Could not convert " +:+ it_name t +:+ " to string: " +:+
         "buffer too small (" +:+ to_string space +:+ " bytes)."))
  else Ok text.

(** [pqxx::to_string(value)]: a buffer of [size_buffer] bytes. *)
Definition int_to_string (t : int_type) (value : Z) : result exn string :=
  wrap_to_chars t (size_buffer t) value.
Definition int_to_string_generic (t : int_type) (value : Z) : result exn string :=
  generic_into_buf t (size_buffer t) value.

(** ** Text to integers: the library's own implementation *)

Definition report_overflow : exn :=
  conversion_error "Could not convert string to integer: value out of range.".

Definition safe_multiply_by_ten (t : int_type) (n : Z) : result exn Z :=
  if top t ÷ 10 <? n then Throw report_overflow
  else if it_signed t && (n <? bottom t ÷ 10) then Throw report_overflow
  else Ok (wrap t (n * 10)).

Definition safe_add_digit (t : int_type) (n d : Z) : result exn Z :=
  if wrap t (top t - d) <? n then Throw report_overflow else Ok (wrap t (n + d)).

Definition safe_sub_digit (t : int_type) (n d : Z) : result exn Z :=
  if n <? wrap t (bottom t + d) then Throw report_overflow else Ok (wrap t (n - d)).

Definition absorb_digit_positive (t : int_type) (value digit : Z) : result exn Z :=
  n ← safe_multiply_by_ten t value; safe_add_digit t n digit.
Definition absorb_digit_negative (t : int_type) (value digit : Z) : result exn Z :=
  n ← safe_multiply_by_ten t value; safe_sub_digit t n digit.

Definition is_blank (c : ascii) : bool := Ascii.eqb c " " || Ascii.eqb c "009".

Fixpoint skip_blanks (s : string) : string :=
  match s with
  | String c s' => if is_blank c then skip_blanks s' else s
  | EmptyString => EmptyString
  end.

(** Digits are absorbed while there are any; the rest of the text. *)
Fixpoint absorb_digits (absorb : Z → Z → result exn Z) (value : Z) (s : string)
    : result exn (Z * string) :=
  match s with
  | String c s' =>
      if is_digit c
      then v ← absorb value (digit_val c); absorb_digits absorb v s'
      else Ok (value, s)
  | EmptyString => Ok (value, s)
  end.

(** [from_string_integer]: [text] is the view, [beyond] the memory after it.
    The loop over the digits of a nonnegative number does not check that it
    stays inside the view; the other loop does. *)
Definition from_string_integer (t : int_type) (text beyond : string) : result exn Z :=
  if is_empty text then
    Throw (conversion_error ("Attempt to convert empty string to " +:+ it_name t +:+ "."))
  else
  match skip_blanks text with
  | EmptyString =>
      Throw (conversion_error ("Converting string to " +:+ it_name t +:+
        ", but it contains only whitespace."))
  | String initial rest =>
      let unexpected := Throw (conversion_error
        ("Unexpected text after " +:+ it_name t +:+ ": '" +:+ text +:+ "'.")) in
      if is_digit initial then
        '(n, remaining) ← absorb_digits (absorb_digit_positive t) 0
                       (String initial rest +:+ beyond);
        (* [i < size(text)]: more is left than the memory beyond the view *)
        if (String.length beyond <? String.length remaining)%nat then unexpected else Ok n
      else if Ascii.eqb initial "-" then
        if negb (it_signed t) then
          Throw (conversion_error
            ("Attempt to convert negative value to " +:+ it_name t +:+ "."))
        else
        match rest with
        | EmptyString =>
            Throw (conversion_error ("Converting string to " +:+ it_name t +:+
              ", but it contains only a sign."))
        | _ =>
            '(n, remaining) ← absorb_digits (absorb_digit_negative t) 0 rest;
            if is_empty remaining then Ok n else unexpected
        end
      else Throw (conversion_error
        ("Could not convert string to " +:+ it_name t +:+ ": '" +:+ text +:+ "'."))
  end.

(** ** Text to numbers: the standard library's [from_chars] *)

Inductive from_chars_error := invalid_argument | result_out_of_range.

(** The longest prefix of digits, and the rest. *)
Fixpoint take_digits (s : string) : string * string :=
  match s with
  | String c s' =>
      if is_digit c then let '(d, r) := take_digits s' in (String c d, r)
      else (EmptyString, s)
  | EmptyString => (EmptyString, EmptyString)
  end.

(** [std::from_chars] for an integer: the value, and what follows the number. *)
Definition from_chars_int (t : int_type) (s : string) : (Z + from_chars_error) * string :=
  let '(neg, body) :=
    match s with
    | String c s' => if it_signed t && Ascii.eqb c "-" then (true, s') else (false, s)
    | EmptyString => (false, s)
    end in
  match take_digits body with
  | (EmptyString, _) => (inr invalid_argument, s)
  | (digits, rest) =>
      let n := if neg then - dec_value digits else dec_value digits in
      if (bottom t <=? n) && (n <=? top t) then (inl n, rest)
      else (inr result_out_of_range, rest)
  end.

Definition lower (c : ascii) : ascii :=
  if (65 <=? byte_of c) && (byte_of c <=? 90) then char_of (byte_of c + 32) else c.

(** [s] without the prefix [p] (in lower case), ignoring case. *)
Fixpoint strip_prefix_ci (p s : string) : option string :=
  match p, s with
  | EmptyString, _ => Some s
  | String a p', String b s' => if Ascii.eqb a (lower b) then strip_prefix_ci p' s' else None
  | _, EmptyString => None
  end.

(** A well-formed exponent, and the rest; none is not an error. *)
Definition take_exponent (s : string) : Z * string :=
  match s with
  | String c s' =>
      if Ascii.eqb (lower c) "e" then
        let '(neg, body) :=
          match s' with
          | String d s'' =>
              if Ascii.eqb d "-" then (true, s'') else if Ascii.eqb d "+" then (false, s'')
              else (false, s')
          | EmptyString => (false, s')
          end in
        match take_digits body with
        | (EmptyString, _) => (0, s)
        | (digits, rest) => (if neg then - dec_value digits else dec_value digits, rest)
        end
      else (0, s)
  | EmptyString => (0, s)
  end.

(** [std::from_chars] for a double in the general format. *)
Definition from_chars_double (s : string) : (double + from_chars_error) * string :=
  let '(neg, body) :=
    match s with
    | String c s' => if Ascii.eqb c "-" then (true, s') else (false, s)
    | EmptyString => (false, s)
    end in
  match strip_prefix_ci "infinity" body, strip_prefix_ci "inf" body, strip_prefix_ci "nan" body with
  | Some r, _, _ => (inl (S754_infinity neg), r)
  | _, Some r, _ => (inl (S754_infinity neg), r)
  | _, _, Some r => (inl S754_nan, r)
  | None, None, None =>
      let '(int_part, rest) := take_digits body in
      let '(frac_part, rest') :=
        match rest with
        | String c r => if Ascii.eqb c "." then take_digits r else (EmptyString, rest)
        | EmptyString => (EmptyString, rest)
        end in
      if is_empty int_part && is_empty frac_part then (inr invalid_argument, s)
      else
        let m := dec_value (int_part +:+ frac_part) in
        let '(e, rest'') := take_exponent rest' in
        let d := dbl_of_dec neg m (e - Z.of_nat (String.length frac_part)) in
        match d with
        | S754_infinity _ => (inr result_out_of_range, rest'')
        | S754_zero _ => if m =? 0 then (inl d, rest'') else (inr result_out_of_range, rest'')
        | _ => (inl d, rest'')
        end
  end.

(** [from_string_arithmetic]: the whole text, after blanks, must be a number. *)
Definition from_string_arithmetic {T} (from_chars : string → (T + from_chars_error) * string)
    (type_name in_ : string) : result exn T :=
  let base := "Could not convert '" +:+ in_ +:+ "' to " +:+ type_name in
  match from_chars (skip_blanks in_) with
  | (inl out, EmptyString) => Ok out
  | (inl _, _) => Throw (conversion_error (base +:+ ": Could not parse full string."))
  | (inr result_out_of_range, _) =>
      Throw (conversion_error (base +:+ ": Value out of range."))
  | (inr invalid_argument, _) =>
      Throw (conversion_error (base +:+ ": Invalid argument."))
  end.

Definition int_from_string (t : int_type) (text : string) : result exn Z :=
  from_string_arithmetic (from_chars_int t) (it_name t) text.
Definition double_from_string (text : string) : result exn double :=
  from_string_arithmetic from_chars_double "double" text.

(** ** Booleans *)

Definition bool_from_string (text : string) : result exn bool :=
  let one := fun a b c => existsb (String.eqb text) [a; b; c] in
  if String.eqb text EmptyString then Ok false
  else if one "f" "F" "0" then Ok false
  else if one "t" "T" "1" then Ok true
  else if String.eqb text "true" || String.eqb text "TRUE" then Ok true
  else if String.eqb text "false" || String.eqb text "FALSE" then Ok false
  else Throw (conversion_error ("Failed conversion to bool: '" +:+ text +:+ "'.")).

Definition bool_to_buf (value : bool) : string := if value then "true" else "false".

(** ** Nulls *)

Definition throw_null_conversion (type : string) : exn :=
  conversion_error ("Attempt to convert null to " +:+ type +:+ ".").

Example int_from_string_examples :
  map (int_from_string t_int) ["0"; "42"; "-2147483648"; " 7"]%string =
  [Ok 0; Ok 42; Ok (-2147483648); Ok 7].
Proof. reflexivity. Qed.

Example double_from_string_example :
  double_from_string "1500.50" = Ok (dbl_of_dec false 150050 (-2)).
Proof. vm_compute. reflexivity. Qed.
