(* ===== verification/PqxxBuffer.v ===== *)
(** Writing SQL values into character buffers (conversions.hxx, composite.hxx,
    array-composite.hxx): [string_traits] as an interface, its instances for
    strings, integers, optional values and arrays, and composite values.

    A buffer is the memory from [begin] to [end]; pointers are offsets into
    it.  What writes or reads outside of it is undefined and has no result. *)

From stdpp Require Import list.
From S2P Require Import Prelude Decimal Exceptions PqxxConv.

Local Open Scope nat_scope.

(** ** Memory *)

Abbreviation memory := (list ascii).

(** Code that uses the buffer: [None] is undefined behaviour. *)
Definition buf (A : Type) : Type := memory → option (result exn A * memory).

#[export] Instance buf_ret : MRet buf := λ A a m, Some (Ok a, m).
#[export] Instance buf_bind : MBind buf := λ A B f b m,
  match b m with
  | Some (Ok a, m') => f a m'
  | Some (Throw e, m') => Some (Throw e, m')
  | None => None
  end.

Definition throws {A} (e : exn) : buf A := λ m, Some (Throw e, m).
Definition undefined {A} : buf A := λ _, None.

(** [end - begin] for [begin] = 0. *)
Definition buf_end : buf nat := λ m, Some (Ok (length m), m).

(** [*here++ = c] *)
Definition put (here : nat) (c : ascii) : buf nat := λ m,
  if here <? length m then Some (Ok (S here), <[here := c]> m) else None.

Definition read (here : nat) : buf ascii := λ m,
  match m !! here with Some c => Some (Ok c, m) | None => None end.

Fixpoint puts (here : nat) (text : list ascii) : buf nat :=
  match text with
  | [] => mret here
  | c :: text' => here ← put here c; puts here text'
  end.

Definition NUL : ascii := "000"%char.
Definition quote : ascii := "034"%char.
Definition backslash : ascii := "092"%char.

Definition conversion_overrun (msg : string) : exn := mk_exn pqxx_conversion_error (c_str msg).

(** ** [string_traits<T>]

    [is_null] is [nullness<T>::is_null]; [into_buf] writes the text and a
    zero and returns the position behind it; the last three are the constants
    [is_unquoted_safe], [is_sql_array] and [array_separator]. *)
Class StringTraits (T : Type) := {
  is_null : T → bool;
  size_buf : T → nat;
  into_buf : nat → T → buf nat;
  unquoted_safe : bool;
  sql_array : bool;
  separator : ascii;
}.
Arguments unquoted_safe T {_}.
Arguments sql_array T {_}.
Arguments separator T {_}.

(** [generic_to_buf]: where the text is, and its length. *)
Definition generic_to_buf `{StringTraits T} (begin : nat) (value : T) : buf (nat * nat) :=
  if is_null value then mret (begin, 0)
  else
    here ← into_buf begin value;
    mret (begin, here - begin - 1).

(** *** Strings, integers, optional values *)

#[export] Instance string_traits : StringTraits string := {|
  is_null := λ _, false;
  size_buf := λ value, String.length value + 1;
  into_buf := λ begin value,
    size ← buf_end;
    if size - begin <=? String.length value
    then throws (conversion_overrun "Could not convert string to string: too long for buffer.")
    else here ← puts begin (list_ascii_of_string value); put here NUL;
  unquoted_safe := false;
  sql_array := false;
  separator := ",";
|}.

(** A value of an integral type. *)
Record integral (t : int_type) := mk_integral {
  int_value : Z;
  int_in_type : ((bottom t <=? int_value) && (int_value <=? top t))%Z = true;
}.
Arguments mk_integral {t} _ _.
Arguments int_value {t} _.

(** [integral_traits<T>::into_buf] *)
Definition integral_into_buf (t : int_type) (begin : nat) (value : Z) : buf nat :=
  size ← buf_end;
  match wrap_to_chars t (Z.of_nat (size - begin)) value with
  | Ok text => here ← puts begin (list_ascii_of_string text); put here NUL
  | Throw e => throws e
  end.

#[export] Instance integral_traits t : StringTraits (integral t) := {|
  is_null := λ _, false;
  size_buf := λ _, Z.to_nat (size_buffer t);
  into_buf := λ begin value, integral_into_buf t begin (int_value value);
  unquoted_safe := true;
  sql_array := false;
  separator := ",";
|}.

(** [*value] of an empty optional is undefined; [size_buffer] is only used
    for values. *)
#[export] Instance option_traits `{StringTraits T} : StringTraits (option T) := {|
  is_null := λ value, match value with Some v => is_null v | None => true end;
  size_buf := λ value, match value with Some v => size_buf v | None => 0 end;
  into_buf := λ begin value, match value with Some v => into_buf begin v | None => undefined end;
  unquoted_safe := unquoted_safe T;
  sql_array := false;
  separator := ",";
|}.

(** *** Quoting

    The text of the value is first written to the tail of the buffer and then
    copied, character by character, to its place. *)

Definition is_special (c : ascii) : bool := Ascii.eqb c backslash || Ascii.eqb c quote.

Fixpoint copy_escaped (count src here : nat) : buf nat :=
  match count with
  | O => mret here
  | S count' =>
      c ← read src;
      here ← (if is_special c then put here backslash else mret here);
      here ← put here c;
      copy_escaped count' (S src) here
  end.

Definition put_quoted `{StringTraits T} (here : nat) (value : T) : buf nat :=
  here ← put here quote;
  size ← buf_end;
  if size <? size_buf value then undefined
  else
    '(src, len) ← generic_to_buf (size - size_buf value) value;
    here ← copy_escaped len src here;
    put here quote.

(** ** Arrays *)

Definition s_null : list ascii := list_ascii_of_string "NULL".

Section arrays.
Context `{StringTraits T}.

(** [array_string_traits::size_buffer] *)
Definition array_size_buffer (value : list T) : nat :=
  if unquoted_safe T then
    foldl (λ acc elt, acc + (if is_null elt then length s_null else size_buf elt) - 1) 0 value + 3
  else
    foldl (λ acc elt,
      let elt_size := if is_null elt then length s_null else size_buf elt - 1 in
      acc + 2 * elt_size + 2) 0 value + 3.

Definition put_element (here : nat) (elt : T) : buf nat :=
  if is_null elt then puts here s_null
  else if sql_array T then here ← into_buf here elt; mret (here - 1)
  else if unquoted_safe T then here ← into_buf here elt; mret (here - 1)
  else put_quoted here elt.

Fixpoint put_elements (here : nat) (value : list T) : buf nat :=
  match value with
  | [] => mret here
  | elt :: value' =>
      here ← put_element here elt;
      here ← put here (separator T);
      put_elements here value'
  end.

Definition array_into_buf (begin : nat) (value : list T) : buf nat :=
  size ← buf_end;
  if size - begin <? array_size_buffer value
  then throws (conversion_overrun "Not enough buffer space to convert array to string.")
  else
    here ← put begin "{"%char;
    here ← put_elements here value;
    (* erase the last separator *)
    let here := match value with [] => here | _ => here - 1 end in
    here ← put here "}"%char;
    put here NUL.
End arrays.

#[export] Instance array_traits `{StringTraits T} : StringTraits (list T) := {|
  is_null := λ _, false;
  size_buf := array_size_buffer;
  into_buf := array_into_buf;
  unquoted_safe := false;
  sql_array := true;
  separator := ",";
|}.

(** ** Composite values *)

(** A field of any type with its traits. *)
Inductive field_value : Type :=
  | Field {T : Type} (traits : StringTraits T) (value : T).

Definition size_composite_field_buffer (f : field_value) : nat :=
  match f with
  | @Field T _ value =>
      if unquoted_safe T then size_buf value - 1 else 1 + 2 * (size_buf value - 1) + 1
  end.

Definition write_composite_field (pos : nat) (f : field_value) : buf nat :=
  match f with
  | @Field T _ value =>
      pos ← (if unquoted_safe T then here ← into_buf pos value; mret (here - 1)
             else put_quoted pos value);
      put pos ","%char
  end.

Fixpoint write_composite_fields (pos : nat) (fields : list field_value) : buf nat :=
  match fields with
  | [] => mret pos
  | f :: fields' => pos ← write_composite_field pos f; write_composite_fields pos fields'
  end.

Definition composite_size_buffer (fields : list field_value) : nat :=
  match fields with
  | [] => 3
  | _ => 1 + sum_list (map size_composite_field_buffer fields) + length fields + 1
  end.

(** The last comma is taken back only if there is more than one field. *)
Definition composite_into_buf (begin : nat) (fields : list field_value) : buf nat :=
  size ← buf_end;
  if size - begin <? composite_size_buffer fields
  then throws (conversion_error "Buffer space may not be enough to represent composite value.")
  else
    match fields with
    | [] => puts begin (list_ascii_of_string "()" ++ [NUL])
    | _ =>
        pos ← put begin "("%char;
        pos ← write_composite_fields pos fields;
        let pos := if 1 <? length fields then pos - 1 else pos in
        pos ← put pos ")"%char;
        put pos NUL
    end.

(** ** [pqxx::to_string] *)

(** A buffer of the size [size_buffer] asks for, then the text without its
    zero.  [type_name] is the compiler's name of the type. *)
Definition to_string_buf `{StringTraits T} (type_name : string) (value : T)
    : option (result exn string) :=
  if is_null value then
    Some (Throw (conversion_error ("Attempt to convert null " +:+ type_name +:+ " to a string.")))
  else
    match into_buf 0 value (replicate (size_buf value) NUL) with
    | Some (Ok end_, m) => Some (Ok (string_of_list_ascii (take (end_ - 1) m)))
    | Some (Throw e, _) => Some (Throw e)
    | None => None
    end.

Example array_of_ints :
  to_string_buf "std::vector<int>"
    [@mk_integral t_int 1 eq_refl; @mk_integral t_int (-20) eq_refl; @mk_integral t_int 300 eq_refl] = Some (Ok "{1,-20,300}"%string).
Proof. vm_compute. reflexivity. Qed.
