(* ===== verification/PqxxConvFacts.v ===== *)
(** Correctness of the integer conversions: the overflow checks are exact, the
    two implementations agree, numbers survive the round trip, and the buffer
    sizes suffice. *)

From S2P Require Import Prelude Decimal Doubles Exceptions PqxxConv.

Local Open Scope Z_scope.

(** ** Types *)

Record int_type_ok (t : int_type) : Prop := {
  ok_bits : 0 < it_bits t;
  ok_top : 9 <= top t;
  ok_bottom : bottom t = 0 ∨ bottom t = - (top t + 1);
  ok_signed : it_signed t = false → bottom t = 0;
  ok_unsigned : it_signed t = true → bottom t = - (top t + 1);
}.

Lemma int_types_ok t : In t int_types → int_type_ok t.
Proof.
  intros Ht. repeat (destruct Ht as [<-|Ht]; [split; cbn; first [lia|congruence|done]|]).
  destruct Ht.
Qed.

Lemma wrap_in_type t z : int_type_ok t → in_type t z → wrap t z = z.
Proof.
  intros [Hb _ _ _ _] Hz. unfold in_type, wrap, bottom, top in *.
  destruct (it_signed t).
  - apply wrap_s_id; [done|]. unfold in_s. lia.
  - apply wrap_u_id. unfold in_u. lia.
Qed.

(** ** The overflow checks *)

Lemma quot_10_nonneg n m : 0 <= m → (m ÷ 10 <? n) = negb (10 * n <=? m).
Proof.
  intros. rewrite Z.quot_div_nonneg by lia.
  pose proof (Z.div_mod m 10 ltac:(lia)). pose proof (Z.mod_pos_bound m 10 ltac:(lia)).
  destruct (10 * n <=? m) eqn:E; b2p; cbn; [apply Z.ltb_ge|apply Z.ltb_lt]; lia.
Qed.

Lemma quot_10_nonpos n m : m <= 0 → (n <? m ÷ 10) = negb (m <=? 10 * n).
Proof.
  intros. replace m with (- - m) at 1 by lia. rewrite Z.quot_opp_l by lia.
  rewrite Z.quot_div_nonneg by lia.
  pose proof (Z.div_mod (- m) 10 ltac:(lia)). pose proof (Z.mod_pos_bound (- m) 10 ltac:(lia)).
  destruct (m <=? 10 * n) eqn:E; b2p; cbn; [apply Z.ltb_ge|apply Z.ltb_lt]; lia.
Qed.

Lemma absorb_positive_exact t n d :
  int_type_ok t → 0 <= n <= top t → 0 <= d < 10 →
  absorb_digit_positive t n d =
  if 10 * n + d <=? top t then Ok (10 * n + d) else Throw report_overflow.
Proof.
  intros Ht Hn Hd. pose proof Ht as [_ Htop Hbot _ _].
  unfold absorb_digit_positive, safe_multiply_by_ten.
  rewrite quot_10_nonneg by lia. destruct (10 * n <=? top t) eqn:E1; cbn [negb]; b2p.
  2: { cbn. destruct (10 * n + d <=? top t) eqn:E2; b2p; [lia|done]. }
  rewrite quot_10_nonpos by lia.
  replace (bottom t <=? 10 * n) with true by (symmetry; apply Z.leb_le; lia).
  rewrite andb_false_r. cbn. unfold safe_add_digit.
  rewrite (wrap_in_type t (n * 10)), (wrap_in_type t (top t - d)) by (unfold in_type; first [done|lia]).
  destruct (10 * n + d <=? top t) eqn:E2; b2p.
  - replace (top t - d <? n * 10) with false by (symmetry; apply Z.ltb_ge; lia).
    rewrite wrap_in_type by (unfold in_type; first [done|lia]). f_equal. lia.
  - by replace (top t - d <? n * 10) with true by (symmetry; apply Z.ltb_lt; lia).
Qed.

Lemma absorb_negative_exact t n d :
  int_type_ok t → it_signed t = true → bottom t <= n <= 0 → 0 <= d < 10 →
  absorb_digit_negative t n d =
  if bottom t <=? 10 * n - d then Ok (10 * n - d) else Throw report_overflow.
Proof.
  intros Ht Hs Hn Hd. pose proof Ht as [_ Htop _ _ Hbot]. specialize (Hbot Hs).
  unfold absorb_digit_negative, safe_multiply_by_ten.
  rewrite quot_10_nonneg by lia.
  replace (10 * n <=? top t) with true by (symmetry; apply Z.leb_le; lia). cbn [negb].
  rewrite Hs, quot_10_nonpos by lia. cbn [andb].
  destruct (bottom t <=? 10 * n) eqn:E1; cbn [negb]; b2p.
  2: { cbn. destruct (bottom t <=? 10 * n - d) eqn:E2; b2p; [lia|done]. }
  cbn. unfold safe_sub_digit.
  rewrite (wrap_in_type t (n * 10)), (wrap_in_type t (bottom t + d)) by (unfold in_type; first [done|lia]).
  destruct (bottom t <=? 10 * n - d) eqn:E2; b2p.
  - replace (n * 10 <? bottom t + d) with false by (symmetry; apply Z.ltb_ge; lia).
    rewrite wrap_in_type by (unfold in_type; first [done|lia]). f_equal. lia.
  - by replace (n * 10 <? bottom t + d) with true by (symmetry; apply Z.ltb_lt; lia).
Qed.

(** ** Reading a run of digits *)

Lemma take_digits_app s :
  s = (take_digits s).1 +:+ (take_digits s).2 ∧ sforall is_digit (take_digits s).1 = true.
Proof.
  induction s as [|c s IH]; [done|]. cbn. destruct (is_digit c) eqn:E; [|done].
  destruct (take_digits s) as [d r]. cbn in *. destruct IH as [-> ->].
  by rewrite sapp_cons, E.
Qed.

(** Does a text start with a digit? *)
Definition starts_digit (s : string) : bool :=
  match s with String c _ => is_digit c | EmptyString => false end.

Lemma take_digits_rest s : starts_digit (take_digits s).2 = false.
Proof.
  induction s as [|c s IH]; [done|]. cbn. destruct (is_digit c) eqn:E; [|done].
  by destruct (take_digits s).
Qed.

Lemma take_digits_prefix d r :
  sforall is_digit d = true → starts_digit r = false → take_digits (d +:+ r) = (d, r).
Proof.
  intros Hd Hr. induction d as [|c d IH]; cbn [sforall] in Hd.
  - rewrite sapp_nil_l. destruct r as [|c r]; [done|].
    cbn [take_digits starts_digit] in *. by rewrite Hr.
  - apply andb_true_iff in Hd as [Hc Hd]. rewrite sapp_cons.
    cbn [take_digits]. by rewrite Hc, IH.
Qed.

Lemma dec_value_from_mono acc acc' s :
  sforall is_digit s = true → 0 <= acc' → acc <= acc' → acc <= dec_value_from acc' s.
Proof.
  revert acc'. induction s as [|c s IH]; cbn; intros acc' Hs H0 H1; [done|].
  apply andb_true_iff in Hs as [Hc Hs]. pose proof (digit_val_range c Hc).
  apply IH; [done|lia|lia].
Qed.

Lemma absorb_digits_positive t n d r :
  int_type_ok t → 0 <= n <= top t → sforall is_digit d = true → starts_digit r = false →
  absorb_digits (absorb_digit_positive t) n (d +:+ r) =
  if dec_value_from n d <=? top t then Ok (dec_value_from n d, r) else Throw report_overflow.
Proof.
  intros Ht. revert n. induction d as [|c d IH]; intros n Hn Hd Hr; cbn [dec_value_from].
  - rewrite sapp_nil_l. replace (n <=? top t) with true by (symmetry; apply Z.leb_le; lia).
    destruct r as [|c r]; [done|]. cbn [absorb_digits starts_digit] in *. by rewrite Hr.
  - cbn [sforall] in Hd. apply andb_true_iff in Hd as [Hc Hd]. pose proof (digit_val_range c Hc) as Hv.
    rewrite sapp_cons. cbn [absorb_digits]. rewrite Hc.
    rewrite (absorb_positive_exact t n) by (done || lia).
    destruct (10 * n + digit_val c <=? top t) eqn:E; b2p.
    + cbn. apply IH; [lia|done|done].
    + cbn. pose proof (dec_value_from_mono (10 * n + digit_val c) (10 * n + digit_val c) d Hd ltac:(lia) ltac:(reflexivity)).
      by replace (_ <=? _) with false by (symmetry; apply Z.leb_gt; lia).
Qed.

(** The negative accumulator mirrors the positive one. *)
Lemma absorb_digits_negative t n d r :
  int_type_ok t → it_signed t = true → 0 <= n <= - bottom t →
  sforall is_digit d = true → starts_digit r = false →
  absorb_digits (absorb_digit_negative t) (- n) (d +:+ r) =
  if bottom t <=? - dec_value_from n d then Ok (- dec_value_from n d, r)
  else Throw report_overflow.
Proof.
  intros Ht Hsg. revert n. induction d as [|c d IH]; intros n Hn Hd Hr; cbn [dec_value_from].
  - rewrite sapp_nil_l. replace (bottom t <=? - n) with true by (symmetry; apply Z.leb_le; lia).
    destruct r as [|c r]; [done|]. cbn [absorb_digits starts_digit] in *. by rewrite Hr.
  - cbn [sforall] in Hd. apply andb_true_iff in Hd as [Hc Hd]. pose proof (digit_val_range c Hc) as Hv.
    rewrite sapp_cons. cbn [absorb_digits]. rewrite Hc.
    rewrite (absorb_negative_exact t (- n)) by (done || lia).
    replace (10 * - n - digit_val c) with (- (10 * n + digit_val c)) by lia.
    destruct (bottom t <=? - (10 * n + digit_val c)) eqn:E; b2p.
    + cbn. apply IH; [lia|done|done].
    + cbn. pose proof (dec_value_from_mono (10 * n + digit_val c) (10 * n + digit_val c) d Hd ltac:(lia) ltac:(reflexivity)).
      by replace (_ <=? _) with false by (symmetry; apply Z.leb_gt; lia).
Qed.

(** ** The two parsers agree *)

Lemma skip_blanks_suffix s : ∃ p, s = p +:+ skip_blanks s.
Proof.
  induction s as [|c s [p IH]]; [by exists EmptyString|]. cbn [skip_blanks].
  destruct (is_blank c); [|by exists EmptyString].
  exists (String c p). rewrite sapp_cons. by f_equal.
Qed.

Lemma slength_lt_app (a b : string) : (String.length b <? String.length (a +:+ b))%nat = negb (is_empty a).
Proof. rewrite slength_app. destruct a; cbn; [apply Nat.ltb_irrefl|apply Nat.leb_le; lia]. Qed.

Lemma is_digit_minus : is_digit "-" = false.
Proof. reflexivity. Qed.

(** What both parsers compute, from the text after the blanks. *)
Definition int_spec (t : int_type) (s : string) (n : Z) : Prop :=
  (∃ d, s = d ∧ d ≠ EmptyString ∧ sforall is_digit d = true ∧ n = dec_value d ∧ n <= top t) ∨
  (∃ d, s = String "-" d ∧ d ≠ EmptyString ∧ sforall is_digit d = true ∧
        it_signed t = true ∧ n = - dec_value d ∧ bottom t <= n).

Lemma take_digits_all d :
  sforall is_digit d = true → take_digits d = (d, EmptyString).
Proof. intros. rewrite <- (sapp_nil_r d) at 1. by apply take_digits_prefix. Qed.

Lemma dec_value_ge_0 d : sforall is_digit d = true → 0 <= dec_value d.
Proof. intros. by apply dec_value_from_nonneg. Qed.

Lemma bottom_nonpos t : int_type_ok t → bottom t <= 0.
Proof. intros [_ ? [->| ->] _ _]; lia. Qed.

(** The standard library's parser meets the specification. *)
Lemma int_from_string_spec t text n :
  int_type_ok t → int_from_string t text = Ok n ↔ int_spec t (skip_blanks text) n.
Proof.
  intros Ht. unfold int_from_string, from_string_arithmetic, from_chars_int.
  generalize (skip_blanks text). intros s. pose proof (bottom_nonpos t Ht) as Hb.
  set (neg := match s with
    | String c s' => if it_signed t && Ascii.eqb c "-" then (true, s') else (false, s)
    | EmptyString => (false, s) end).
  assert (neg = (false, s) ∨ (∃ d, s = String "-" d ∧ it_signed t = true ∧ neg = (true, d)))
    as Hneg.
  { unfold neg. destruct s as [|c s']; [by left|].
    destruct (it_signed t); cbn; [|by left].
    destruct (Ascii.eqb_spec c "-") as [->|]; [right; eauto|by left]. }
  split.
  - intros H. destruct Hneg as [Hneg|(d & -> & Hs & Hneg)]; rewrite Hneg in H.
    + left. pose proof (take_digits_app s) as [E Hd].
      destruct (take_digits s) as [d r]. cbn in E, Hd. destruct d as [|c d]; [done|].
      destruct ((_ <=? _) && _) eqn:Er; [|done]. b2p.
      destruct r as [|? ?]; [|done]. injection H as <-. rewrite sapp_nil_r in E.
      exists (String c d). by subst.
    + right. pose proof (take_digits_app d) as [E Hd].
      destruct (take_digits d) as [d' r]. cbn in E, Hd. destruct d' as [|c d']; [done|].
      destruct ((_ <=? _) && _) eqn:Er; [|done]. b2p.
      destruct r as [|? ?]; [|done]. injection H as <-. rewrite sapp_nil_r in E.
      exists (String c d'). by subst.
  - intros [(d & -> & Hne & Hd & -> & Hle)|(d & -> & Hne & Hd & Hs & -> & Hle)].
    + destruct Hneg as [->|(d' & -> & _)]; [|by cbn in Hd; rewrite is_digit_minus in Hd].
      rewrite take_digits_all by done. destruct d as [|c d]; [done|].
      pose proof (dec_value_ge_0 _ Hd).
      replace (_ && _) with true; [done|]. symmetry. apply andb_true_iff.
      rewrite !Z.leb_le. lia.
    + unfold neg. rewrite Hs, Ascii.eqb_refl. cbn [andb].
      rewrite take_digits_all by done. destruct d as [|c d]; [done|].
      pose proof (dec_value_ge_0 _ Hd). pose proof Ht as [_ ? _ _ _].
      replace (_ && _) with true; [done|]. symmetry. apply andb_true_iff.
      rewrite !Z.leb_le. lia.
Qed.

(** The specification on a text split after its digits. *)
Lemma int_spec_digits t d r n :
  d ≠ EmptyString → sforall is_digit d = true → starts_digit r = false →
  int_spec t (d +:+ r) n ↔ r = EmptyString ∧ n = dec_value d ∧ n <= top t.
Proof.
  intros Hne Hd Hr. split.
  - intros [(d' & <- & _ & Hd' & -> & Hle)|(d' & E & _)].
    + rewrite sforall_app in Hd'. destruct r as [|c r]; [by rewrite sapp_nil_r in *|].
      cbn in Hd', Hr. by rewrite Hr, andb_false_r in Hd'.
    + destruct d as [|c d]; [done|]. rewrite sapp_cons in E. injection E as -> _.
      cbn in Hd. by rewrite is_digit_minus in Hd.
  - intros (-> & -> & ?). left. exists d. by rewrite sapp_nil_r.
Qed.

Lemma int_spec_minus t d r n :
  sforall is_digit d = true → starts_digit r = false → d +:+ r ≠ EmptyString →
  int_spec t (String "-" (d +:+ r)) n ↔
  r = EmptyString ∧ it_signed t = true ∧ n = - dec_value d ∧ bottom t <= n.
Proof.
  intros Hd Hr Hne. split.
  - intros [(d' & <- & _ & Hd' & _)|(d' & [= <-] & _ & Hd' & ? & -> & Hle)].
    + cbn in Hd'. by rewrite is_digit_minus in Hd'.
    + rewrite sforall_app in Hd'. destruct r as [|c r]; [by rewrite sapp_nil_r in *|].
      cbn in Hd', Hr. by rewrite Hr, andb_false_r in Hd'.
  - intros (-> & ? & -> & ?). rewrite sapp_nil_r in *. right. by exists d.
Qed.

Lemma int_spec_other t c s n :
  is_digit c = false → c ≠ "-"%char → ¬ int_spec t (String c s) n.
Proof.
  intros Hc Hne [(d & <- & _ & Hd & _)|(d & [= -> _] & _)]; [|done].
  cbn in Hd. by rewrite Hc in Hd.
Qed.

Lemma int_spec_empty t n : ¬ int_spec t EmptyString n.
Proof. intros [(d & <- & ? & _)|(d & [=] & _)]. done. Qed.

Lemma skip_blanks_nonempty text : skip_blanks text ≠ EmptyString → is_empty text = false.
Proof. by destruct text. Qed.

(** The loop over the digits of a nonnegative number, with its reads beyond
    the view. *)
Lemma from_string_positive t text beyond d r :
  int_type_ok t → skip_blanks text = d +:+ r → d ≠ EmptyString →
  sforall is_digit d = true → starts_digit (r +:+ beyond) = false →
  from_string_integer t text beyond = Ok (dec_value d) ∧ r = EmptyString ∧ dec_value d <= top t ∨
  is_ok (from_string_integer t text beyond) = false ∧ (r ≠ EmptyString ∨ top t < dec_value d).
Proof.
  intros Ht Es Hne Hd Hr. unfold from_string_integer.
  rewrite (skip_blanks_nonempty text), Es by (rewrite Es; by destruct d).
  destruct d as [|c d]; [done|]. rewrite sapp_cons.
  pose proof Hd as Hd'. cbn [sforall] in Hd'. apply andb_true_iff in Hd' as [Hc _].
  rewrite Hc, <- sapp_cons, <- sapp_assoc. pose proof Ht as [_ Htop _ _ _].
  rewrite (absorb_digits_positive t 0) by (done || lia). fold (dec_value (String c d)).
  destruct (dec_value (String c d) <=? top t) eqn:El; b2p; [|right; eauto].
  cbn [mbind result_bind]. rewrite slength_lt_app.
  destruct r; cbn [is_empty negb]; [left|right]; eauto.
Qed.

Lemma from_string_negative t text beyond d r :
  int_type_ok t → skip_blanks text = String "-" (d +:+ r) → d +:+ r ≠ EmptyString →
  sforall is_digit d = true → starts_digit r = false →
  from_string_integer t text beyond = Ok (- dec_value d) ∧ r = EmptyString ∧
    it_signed t = true ∧ bottom t <= - dec_value d ∨
  is_ok (from_string_integer t text beyond) = false ∧
    (r ≠ EmptyString ∨ it_signed t = false ∨ - dec_value d < bottom t).
Proof.
  intros Ht Es Hne Hd Hr. unfold from_string_integer.
  rewrite (skip_blanks_nonempty text), Es by by rewrite Es.
  rewrite is_digit_minus, Ascii.eqb_refl. destruct (it_signed t) eqn:Hs; cbn [negb]; [|right; eauto].
  pose proof (bottom_nonpos t Ht).
  pose proof (absorb_digits_negative t 0 d r Ht Hs) as Ha. change (- 0) with 0 in Ha.
  destruct (d +:+ r) as [|c s]; [done|]. rewrite Ha by (done || lia). fold (dec_value d).
  destruct (bottom t <=? - dec_value d) eqn:El; b2p; [|right; eauto].
  cbn [mbind result_bind]. destruct r; cbn [is_empty]; [left|right]; eauto.
Qed.

(** The library's own parser, on text that the memory behind the view does
    not continue with a digit. *)
Lemma from_string_integer_spec t text beyond n :
  int_type_ok t → starts_digit beyond = false →
  from_string_integer t text beyond = Ok n ↔ int_spec t (skip_blanks text) n.
Proof.
  intros Ht Hb. destruct (skip_blanks text) as [|c s] eqn:Es.
  { split; [|by intros ?%int_spec_empty]. unfold from_string_integer. rewrite Es.
    by destruct (is_empty text). }
  destruct (is_digit c) eqn:Hc.
  - pose proof (take_digits_app (String c s)) as [E Hd].
    pose proof (take_digits_rest (String c s)) as Hr.
    assert (Hne : (take_digits (String c s)).1 ≠ EmptyString).
    { cbn. rewrite Hc. by destruct (take_digits s). }
    destruct (take_digits (String c s)) as [d r]. cbn [fst snd] in *. rewrite E in *.
    rewrite int_spec_digits by done.
    destruct (from_string_positive t text beyond d r Ht Es Hne Hd) as
      [(-> & -> & ?)|(Hno & Hor)]; [by destruct r| |].
    + split; [by intros [= <-]|]. by intros (_ & -> & _).
    + split; [by intros Hok; rewrite Hok in Hno|]. intros (-> & -> & ?). destruct Hor; [done|lia].
  - destruct (Ascii.eqb_spec c "-") as [->|Hne].
    2: { split; [|by intros ?%int_spec_other]. unfold from_string_integer. rewrite Es, Hc.
         apply Ascii.eqb_neq in Hne. rewrite Hne. by destruct (is_empty text). }
    pose proof (take_digits_app s) as [E Hd]. pose proof (take_digits_rest s) as Hr.
    destruct (take_digits s) as [d r]. cbn [fst snd] in *. subst s.
    destruct (decide (d +:+ r = EmptyString)) as [E|Hne].
    { rewrite E in *. split.
      - unfold from_string_integer. rewrite Es. cbn. by destruct (is_empty text), (it_signed t).
      - intros [(d' & <- & _ & Hd' & _)|(d' & [= <-] & ? & _)]; [|done].
        cbn in Hd'. by rewrite is_digit_minus in Hd'. }
    rewrite int_spec_minus by done.
    destruct (from_string_negative t text beyond d r Ht Es Hne Hd Hr) as
      [(-> & -> & ? & ?)|(Hno & Hor)].
    + split; [by intros [= <-]|]. by intros (_ & _ & -> & _).
    + split; [by intros Hok; rewrite Hok in Hno|]. intros (-> & ? & -> & ?).
      destruct Hor as [?|[?|?]]; [done|congruence|lia].
Qed.

(** ** Text of integers *)

Lemma to_string_negative n : n < 0 → to_string n = String "-" (dec_nonneg (- n)).
Proof. intros. unfold to_string. by replace (n <? 0) with true by (symmetry; apply Z.ltb_lt; lia). Qed.

Lemma to_string_nonnegative n : 0 <= n → to_string n = dec_nonneg n.
Proof. intros. unfold to_string. by replace (n <? 0) with false by (symmetry; apply Z.ltb_ge; lia). Qed.

Lemma dec_nonneg_ne n : 0 <= n → dec_nonneg n ≠ EmptyString.
Proof. intros H. by destruct (dec_nonneg_nonempty n H) as (c & s & -> & _). Qed.

Lemma is_blank_not_digit c : is_digit c = true → is_blank c = false.
Proof.
  pose proof (forall_chars (λ c, implb (is_digit c) (negb (is_blank c))) ltac:(by vm_compute) c) as H.
  cbn in H. intros Hd. rewrite Hd in H. by apply negb_true_iff in H.
Qed.

Lemma skip_blanks_to_string n : skip_blanks (to_string n) = to_string n.
Proof.
  unfold to_string. destruct (n <? 0) eqn:E; [done|]. b2p.
  destruct (dec_nonneg_nonempty n E) as (c & s & -> & Hc). cbn [skip_blanks].
  by rewrite is_blank_not_digit.
Qed.

Lemma to_string_int_spec t n : int_type_ok t → in_type t n → int_spec t (to_string n) n.
Proof.
  intros Ht [Hlo Hhi]. destruct (decide (n < 0)).
  - rewrite to_string_negative by lia. right. exists (dec_nonneg (- n)).
    rewrite dec_value_nonneg, dec_nonneg_digits by lia. repeat split; try done; try lia.
    + apply dec_nonneg_ne. lia.
    + destruct (it_signed t) eqn:E; [done|]. pose proof (ok_signed _ Ht E). lia.
  - rewrite to_string_nonnegative by lia. left. exists (dec_nonneg n).
    rewrite dec_value_nonneg, dec_nonneg_digits by lia. repeat split; try done.
    apply dec_nonneg_ne. lia.
Qed.

(** A text without leading zeros is as long as its value needs. *)
Lemma dec_value_from_length acc s :
  sforall is_digit s = true → acc * 10 ^ Z.of_nat (String.length s) <= dec_value_from acc s.
Proof.
  revert acc. induction s as [|c s IH]; intros acc Hs; [cbn; lia|].
  cbn [sforall] in Hs. apply andb_true_iff in Hs as [Hc Hs].
  pose proof (digit_val_range c Hc). cbn [String.length dec_value_from].
  rewrite Nat2Z.inj_succ, Z.pow_succ_r by lia. specialize (IH (10 * acc + digit_val c) Hs).
  pose proof (Z.pow_pos_nonneg 10 (Z.of_nat (String.length s)) ltac:(lia) ltac:(lia)). nia.
Qed.

Lemma dec_nonneg_length n k :
  0 <= n < 10 ^ k → 1 <= k → Z.of_nat (String.length (dec_nonneg n)) <= k.
Proof.
  intros Hn Hk. destruct (decide (n = 0)) as [->|].
  { change (Z.of_nat (String.length (dec_nonneg 0))) with 1. done. }
  destruct (dec_nonneg_head n ltac:(lia)) as (c & s & E & Hc & Hv).
  pose proof (dec_nonneg_digits n ltac:(lia)) as Hd. rewrite E in Hd. cbn [sforall] in Hd.
  apply andb_true_iff in Hd as [_ Hd]. pose proof (dec_value_nonneg n ltac:(lia)) as Hval.
  rewrite E in *. unfold dec_value in Hval. cbn [dec_value_from] in Hval.
  pose proof (dec_value_from_length (10 * 0 + digit_val c) s Hd) as Hlen.
  pose proof (digit_val_range c Hc). cbn [String.length].
  destruct (decide (Z.of_nat (S (String.length s)) <= k)); [done|].
  pose proof (Z.pow_le_mono_r 10 k (Z.of_nat (String.length s)) ltac:(lia) ltac:(lia)). nia.
Qed.

Lemma int_types_digits t :
  In t int_types → 1 <= it_digits10 t + 1 ∧ top t < 10 ^ (it_digits10 t + 1) ∧
  - bottom t < 10 ^ (it_digits10 t + 1).
Proof.
  intros Ht. repeat (destruct Ht as [<-|Ht]; [cbn; lia|]). destruct Ht.
Qed.

Lemma to_string_fits t n :
  In t int_types → in_type t n → Z.of_nat (String.length (to_string n)) + 1 <= size_buffer t.
Proof.
  intros Hin [Hlo Hhi]. pose proof (int_types_digits t Hin) as (Hd & Htop & Hbot).
  pose proof (int_types_ok t Hin) as Hok. unfold size_buffer.
  destruct (decide (n < 0)).
  - rewrite to_string_negative by lia. cbn [String.length].
    pose proof (dec_nonneg_length (- n) (it_digits10 t + 1) ltac:(lia) Hd).
    destruct (it_signed t) eqn:E; [lia|]. pose proof (ok_signed _ Hok E). lia.
  - rewrite to_string_nonnegative by lia.
    pose proof (dec_nonneg_length n (it_digits10 t + 1) ltac:(lia) Hd).
    destruct (it_signed t); lia.
Qed.

Lemma integral_to_buf_text t n :
  In t int_types → in_type t n → integral_to_buf t (size_buffer t) n = Ok (to_string n).
Proof.
  intros Hin Hn. pose proof (int_types_ok t Hin) as Hok. unfold integral_to_buf.
  rewrite Z.ltb_irrefl. f_equal. destruct Hn as [Hlo Hhi].
  destruct (it_signed t) eqn:Hs; cbn [negb].
  2: { pose proof (ok_signed _ Hok Hs). rewrite to_string_nonnegative by lia. reflexivity. }
  pose proof (ok_unsigned _ Hok Hs) as Hb.
  destruct (0 <=? n) eqn:E0; b2p; [rewrite to_string_nonnegative by lia; reflexivity|].
  rewrite to_string_negative by lia. destruct (bottom t <? n) eqn:E1; b2p.
  - rewrite wrap_in_type by (first [exact Hok|unfold in_type; lia]). reflexivity.
  - unfold bottom_to_buf, neg_to_buf, nonneg_to_buf, dec_nonneg.
    replace (wrap_u (it_bits t) (bottom t)) with (- n); [done|].
    replace n with (bottom t) by lia. clear -Hin Hs.
    repeat (destruct Hin as [<-|Hin]; [first [discriminate|reflexivity]|]). destruct Hin.
Qed.

(** The two directions for the texts of [to_string]. *)
Lemma int_to_string_text t n : In t int_types → in_type t n → int_to_string t n = Ok (to_string n).
Proof.
  intros Hin Hn. pose proof (to_string_fits t n Hin Hn). unfold int_to_string, wrap_to_chars.
  by replace (_ <? _) with false by (symmetry; apply Z.ltb_ge; lia).
Qed.

Lemma int_from_string_text t n :
  In t int_types → in_type t n → int_from_string t (to_string n) = Ok n.
Proof.
  intros Hin%int_types_ok Hn. apply int_from_string_spec; [done|].
  rewrite skip_blanks_to_string. by apply to_string_int_spec.
Qed.

(** The text of a number has no NUL. *)
Lemma c_str_to_string n : c_str (to_string n) = to_string n.
Proof.
  assert (Hd : ∀ m, 0 <= m → c_str (dec_nonneg m) = dec_nonneg m).
  { intros m Hm. apply c_str_no_nul. eapply sforall_impl; [|by apply dec_nonneg_digits].
    intros c Hc. apply negb_true_iff, Z.eqb_neq. unfold is_digit in Hc. b2p. lia. }
  destruct (Z_lt_ge_dec n 0).
  - rewrite to_string_negative by lia. cbn [c_str].
    change (byte_of "-" =? 0) with false. cbv iota. by rewrite Hd by lia.
  - rewrite to_string_nonnegative by lia. apply Hd. lia.
Qed.

(** ** Properties *)

(** C23. Every value of an integral type survives [to_string] followed by
    [from_string], with either of the two implementations on either side, and
    the buffer of [size_buffer] bytes is never too small. *)
Theorem integer_round_trip t n beyond :
  In t int_types → in_type t n → starts_digit beyond = false →
  ∃ text, int_to_string_generic t n = Ok text ∧ int_to_string t n = Ok text ∧
    int_from_string t text = Ok n ∧ from_string_integer t text beyond = Ok n.
Proof.
  intros Hin Hn Hb. pose proof (int_types_ok t Hin) as Hok.
  pose proof (to_string_fits t n Hin Hn) as Hfit. exists (to_string n). split; [|split; [|split]].
  - unfold int_to_string_generic, generic_into_buf. rewrite integral_to_buf_text by done.
    cbn [mbind result_bind]. by replace (_ <? _) with false by (symmetry; apply Z.ltb_ge; lia).
  - by apply int_to_string_text.
  - by apply int_from_string_text.
  - apply from_string_integer_spec; [done..|]. rewrite skip_blanks_to_string.
    by apply to_string_int_spec.
Qed.

(** C24. The library's own integer parser and the one built on [from_chars]
    accept the same texts with the same values, and reject the same texts
    (overflow included), as long as the memory behind the view does not start
    with a digit. *)
Theorem integer_parsers_agree t text beyond n :
  In t int_types → starts_digit beyond = false →
  from_string_integer t text beyond = Ok n ↔ int_from_string t text = Ok n.
Proof.
  intros Hin%int_types_ok Hb. by rewrite from_string_integer_spec, int_from_string_spec.
Qed.

(** The library's own parser reads past the end of the view: on a view
    that ends in a digit and is followed in memory by a digit it absorbs the
    digits behind the view and reports no error. *)
Theorem from_string_integer_overread t text beyond more rest :
  In t int_types → text ≠ EmptyString → sforall is_digit text = true →
  beyond = more +:+ rest → sforall is_digit more = true → starts_digit rest = false →
  dec_value (text +:+ more) <= top t →
  from_string_integer t text beyond = Ok (dec_value (text +:+ more)).
Proof.
  intros Hin%int_types_ok Hne Hd -> Hm Hr Hle. unfold from_string_integer.
  assert (skip_blanks text = text) as Es.
  { destruct text as [|c s]; [done|]. cbn in Hd |- *. apply andb_true_iff in Hd as [Hc _].
    by rewrite is_blank_not_digit. }
  rewrite (skip_blanks_nonempty text), Es by by rewrite Es. destruct text as [|c s]; [done|].
  pose proof Hd as Hd'. cbn [sforall] in Hd'. apply andb_true_iff in Hd' as [Hc _]. rewrite Hc.
  assert (sforall is_digit (String c s +:+ more) = true) as Hdm by by rewrite sforall_app, Hd, Hm.
  pose proof (ok_top _ Hin). rewrite (sapp_assoc (String c s) more rest).
  rewrite (absorb_digits_positive t 0) by first [exact Hin|exact Hdm|exact Hr|lia].
  fold (dec_value (String c s +:+ more)). apply Z.leb_le in Hle. rewrite Hle.
  cbn [mbind result_bind]. rewrite slength_app.
  by replace (_ <? _)%nat with false by (symmetry; apply Nat.ltb_ge; lia).
Qed.

(** ** Witnesses *)

Lemma integer_round_trip_witness :
  ∃ text, int_to_string t_int (-2147483648) = Ok text ∧
          int_from_string t_int text = Ok (-2147483648).
Proof.
  destruct (integer_round_trip t_int (-2147483648) EmptyString) as (text & _ & H1 & H2 & _).
  - cbn. tauto.
  - unfold in_type. cbn. lia.
  - reflexivity.
  - exists text. split; [exact H1|exact H2].
Defined.

Lemma integer_parsers_agree_witness :
  from_string_integer t_short " -12" EmptyString = Ok (-12).
Proof.
  apply (integer_parsers_agree t_short); [cbn; tauto|reflexivity|reflexivity].
Defined.

Lemma from_string_integer_overread_witness :
  from_string_integer t_int "12" "34," = Ok 1234 ∧ int_from_string t_int "12" = Ok 12.
Proof.
  split; [|reflexivity].
  apply (from_string_integer_overread t_int "12" "34," "34" ",");
    first [reflexivity|discriminate|cbn; tauto|vm_compute; discriminate].
Defined.
