(* ===== verification/PqxxBufferFacts.v ===== *)
(** Writing values into buffers: with enough room [into_buf] writes exactly the
    text of the value, and how much room arrays and composite values need
    compared to what [size_buffer] promises. *)

From stdpp Require Import list.
From S2P Require Import Prelude Decimal Exceptions PqxxConv PqxxConvFacts PqxxBuffer.

Local Open Scope nat_scope.

(** ** Writing behind a prefix *)

Implicit Types (x : list ascii) (m : memory).

Lemma prefix_insert x m c :
  x `prefix_of` m → length x < length m → x ++ [c] `prefix_of` <[length x := c]> m.
Proof.
  intros [k ->] Hlt. rewrite length_app in Hlt. destruct k as [|d k]; [cbn in Hlt; lia|].
  rewrite <-(Nat.add_0_r (length x)), insert_app_r. cbn. exists k. by rewrite <-app_assoc.
Qed.

(** What a program that writes [t] from the end of the prefix [x] ends with. *)
Definition writes (b : nat → buf nat) x m (t : list ascii) : Prop :=
  ∃ m', b (length x) m = Some (Ok (length (x ++ t)), m') ∧ length m' = length m ∧
        x ++ t `prefix_of` m'.

Lemma writes_intro (b : nat → buf nat) x m t m' :
  b (length x) m = Some (Ok (length (x ++ t)), m') → length m' = length m →
  x ++ t `prefix_of` m' → writes b x m t.
Proof. by exists m'. Qed.

Lemma writes_bind (b : nat → buf nat) (k : nat → buf nat) x m t t' :
  writes b x m t →
  (∀ m', length m' = length m → x ++ t `prefix_of` m' → writes k (x ++ t) m' t') →
  writes (λ here, b here ≫= k) x m (t ++ t').
Proof.
  intros (m1 & Hb & Hl & Hp) Hk. destruct (Hk m1 Hl Hp) as (m2 & Hb2 & Hl2 & Hp2).
  exists m2. rewrite app_assoc. unfold mbind, buf_bind. rewrite Hb, Hb2.
  split; [done|]. split; [congruence|done].
Qed.

Lemma writes_ret x m : x `prefix_of` m → writes (λ here, mret here) x m [].
Proof. intros Hp. exists m. by rewrite app_nil_r. Qed.

Lemma writes_put x m c :
  x `prefix_of` m → length x < length m → writes (λ here, put here c) x m [c].
Proof.
  intros Hp Hlt. exists (<[length x := c]> m). unfold put.
  rewrite (proj2 (Nat.ltb_lt _ _) Hlt), length_app, Nat.add_1_r.
  split; [done|]. split; [by rewrite length_insert|]. by apply prefix_insert.
Qed.

Lemma writes_puts x m t :
  x `prefix_of` m → length x + length t ≤ length m → writes (λ here, puts here t) x m t.
Proof.
  revert x m. induction t as [|c t IH]; intros x m Hp Hlt; cbn [length] in Hlt; [by apply writes_ret|].
  apply (writes_bind (λ here, put here c) (λ here, puts here t) x m [c] t).
  - apply writes_put; [done|lia].
  - intros m' Hl Hp'. apply IH; [done|]. rewrite length_app, Hl. cbn. lia.
Qed.

(** Less is written when the last character is taken back. *)
Lemma writes_back x m (b : nat → buf nat) t c :
  writes b x m (t ++ [c]) → writes (λ here, here ← b here; mret (here - 1)) x m t.
Proof.
  intros (m' & Hb & Hl & Hp). exists m'. unfold mbind, buf_bind. rewrite Hb.
  split; [|split; [done|]].
  - unfold mret, buf_ret. repeat f_equal. rewrite !length_app. cbn. lia.
  - etrans; [|exact Hp]. rewrite app_assoc. by apply prefix_app_r.
Qed.

(** ** The contract of [string_traits]

    [room value] is a buffer size with which [into_buf] succeeds; it then
    writes [text value] and a zero. *)
Class StringTraitsLaws (T : Type) `{StringTraits T} := {
  text : T → list ascii;
  room : T → nat;
  into_buf_writes : ∀ value x m,
    is_null value = false → x `prefix_of` m → length x + room value ≤ length m →
    writes (λ here, into_buf here value) x m (text value ++ [NUL]);
  text_room : ∀ value, is_null value = false → length (text value) + 1 ≤ room value;
  size_room : ∀ value, is_null value = false → size_buf value ≤ room value;
}.

(** Types for which the promised size is enough. *)
Class ExactSize (T : Type) `{StringTraitsLaws T} : Prop :=
  exact_size : ∀ value : T, is_null value = false → room value = size_buf value.

Lemma length_list_ascii (s : string) : length (list_ascii_of_string s) = String.length s.
Proof. by induction s as [|c s IH]; cbn; [|rewrite IH]. Qed.

Lemma writes_text x m (s : string) :
  x `prefix_of` m → length x + String.length s + 1 ≤ length m →
  writes (λ here, here ← puts here (list_ascii_of_string s); put here NUL) x m
    (list_ascii_of_string s ++ [NUL]).
Proof.
  intros Hp Hlen. apply writes_bind.
  - apply writes_puts; [done|]. rewrite length_list_ascii. lia.
  - intros m' Hl Hp'. apply writes_put; [done|]. rewrite length_app, length_list_ascii. lia.
Qed.

#[export] Program Instance string_laws : StringTraitsLaws string := {|
  text := list_ascii_of_string;
  room := λ s, String.length s + 1;
|}.
Next Obligation.
  intros s x m _ Hp Hlen. cbn in Hlen. destruct (writes_text x m s Hp ltac:(lia)) as (m' & Hw & ?).
  exists m'. split; [|done]. cbn [into_buf string_traits]. unfold mbind, buf_bind, buf_end in *.
  by rewrite (proj2 (Nat.leb_gt _ _)) by lia.
Qed.
Next Obligation. intros s _. by rewrite length_list_ascii. Qed.
Next Obligation. done. Qed.
#[export] Instance string_exact : ExactSize string.
Proof. done. Qed.

(** The types [string_traits] is instantiated for. *)
Class IsIntType (t : int_type) : Prop := is_int_type : In t int_types.

Lemma integral_in_type {t} (n : integral t) : in_type t (int_value n).
Proof. pose proof (int_in_type _ n). b2p. by split. Qed.

Lemma integral_into_buf_writes t n x m :
  In t int_types → in_type t n → x `prefix_of` m → length x + Z.to_nat (size_buffer t) ≤ length m →
  writes (λ here, integral_into_buf t here n) x m (list_ascii_of_string (to_string n) ++ [NUL]).
Proof.
  intros Ht Hn Hp Hlen. pose proof (to_string_fits t n Ht Hn) as Hs.
  destruct (writes_text x m (to_string n) Hp ltac:(lia)) as (m' & Hw & ?).
  exists m'. split; [|done]. unfold integral_into_buf, wrap_to_chars.
  unfold mbind, buf_bind, buf_end in *. rewrite (proj2 (Z.ltb_ge _ _)) by lia. exact Hw.
Qed.

#[export] Program Instance integral_laws t `{IsIntType t} : StringTraitsLaws (integral t) := {|
  text := λ n, list_ascii_of_string (to_string (int_value n));
  room := λ _, Z.to_nat (size_buffer t);
|}.
Next Obligation.
  intros t Ht n x m _ Hp Hlen. apply integral_into_buf_writes; [done|apply integral_in_type|done|done].
Qed.
Next Obligation.
  intros t Ht n _. cbv beta. rewrite length_list_ascii.
  pose proof (to_string_fits t (int_value n) Ht (integral_in_type n)). lia.
Qed.
Next Obligation. done. Qed.
#[export] Instance integral_exact t `{IsIntType t} : ExactSize (integral t).
Proof. done. Qed.

#[export] Program Instance option_laws `{StringTraitsLaws T} : StringTraitsLaws (option T) := {|
  text := λ value, match value with Some v => text v | None => [] end;
  room := λ value, match value with Some v => room v | None => 0 end;
|}.
Next Obligation.
  intros T ? ? [v|] x m Hnull Hp Hlen; [|done]. by apply (into_buf_writes v x m Hnull).
Qed.
Next Obligation. intros T ? ? [v|] Hnull; [by apply (text_room v Hnull)|done]. Qed.
Next Obligation. intros T ? ? [v|] Hnull; [by apply (size_room v Hnull)|done]. Qed.
#[export] Instance option_exact `{ExactSize T} : ExactSize (option T).
Proof. intros [v|] Hnull; [|done]. exact (exact_size v Hnull). Qed.

(** ** Quoting *)

Fixpoint escape (t : list ascii) : list ascii :=
  match t with
  | [] => []
  | c :: t' => (if is_special c then [backslash; c] else [c]) ++ escape t'
  end.

Lemma escape_length t : length (escape t) ≤ 2 * length t.
Proof. induction t as [|c t IH]; [done|]. cbn. rewrite length_app. destruct (is_special c); cbn; lia. Qed.

Lemma read_run src m c t : take (S (length t)) (drop src m) = c :: t → read src m = Some (Ok c, m).
Proof.
  intros Htail. unfold read. replace (m !! src) with (Some c); [done|].
  rewrite <-(Nat.add_0_r src), <-lookup_drop.
  destruct (drop src m) as [|d l]; cbn in *; by simplify_eq.
Qed.

Lemma tail_step src m c t :
  take (S (length t)) (drop src m) = c :: t → take (length t) (drop (S src) m) = t.
Proof.
  intros Htail. rewrite <-Nat.add_1_r, <-drop_drop. destruct (drop src m) as [|d l]; [done|].
  cbn in *. by simplify_eq.
Qed.

(** Writing before [src] does not change what is there. *)
Lemma copy_escaped_writes t x m src :
  x `prefix_of` m → take (length t) (drop src m) = t →
  length x + length t ≤ src → src + length t ≤ length m →
  writes (λ here, copy_escaped (length t) src here) x m (escape t).
Proof.
  revert x m src. induction t as [|c t IH]; intros x m src Hp Htail Hsrc Hlen; [by apply writes_ret|].
  cbn [length] in *. cbn [copy_escaped escape].
  assert (Hput : ∀ x' m' d, x' `prefix_of` m' → length x' ≤ src → length m' = length m →
    take (length t) (drop (S src) m') = t →
    put (length x') d m' = Some (Ok (S (length x')), <[length x' := d]> m') ∧
    x' ++ [d] `prefix_of` <[length x' := d]> m' ∧ length (<[length x' := d]> m') = length m ∧
    take (length t) (drop (S src) (<[length x' := d]> m')) = t).
  { intros x' m' d Hp' Hle Hl Ht. unfold put. rewrite (proj2 (Nat.ltb_lt _ _)) by lia.
    split; [done|]. split; [apply prefix_insert; [done|lia]|].
    split; [by rewrite length_insert|]. by rewrite drop_insert_lt by lia. }
  pose proof (read_run _ _ _ _ Htail) as Hread. pose proof (tail_step _ _ _ _ Htail) as Hrest.
  unfold writes, mbind, buf_bind. rewrite Hread. destruct (is_special c).
  - destruct (Hput x m backslash) as (-> & Hp1 & Hl1 & Ht1); [done|lia|done|done|].
    replace (S (length x)) with (length (x ++ [backslash])) by (rewrite length_app; cbn; lia).
    destruct (Hput (x ++ [backslash]) (<[length x := backslash]> m) c) as (-> & Hp2 & Hl2 & Ht2);
      [done|rewrite length_app; cbn; lia|done|done|].
    destruct (IH ((x ++ [backslash]) ++ [c]) _ (S src) Hp2 Ht2) as (m' & Hm & Hl & Hpre);
      [rewrite !length_app; cbn; lia|lia|].
    exists m'. rewrite length_app, Nat.add_1_r in Hm at 1. rewrite Hm. rewrite <-!app_assoc in *. 
    split; [done|]. split; [congruence|done].
  - destruct (Hput x m c) as (Hb & Hp1 & Hl1 & Ht1); [done|lia|done|done|].
    cbn. rewrite Hb.
    destruct (IH (x ++ [c]) _ (S src) Hp1 Ht1) as (m' & Hm & Hl & Hpre);
      [rewrite !length_app; cbn; lia|lia|].
    exists m'. rewrite length_app, Nat.add_1_r in Hm at 1. rewrite Hm. rewrite <-!app_assoc in *.
    split; [done|]. split; [congruence|done].
Qed.

(** A value between quotes.  Its text is first written to the last
    [size_buf value] bytes of the buffer. *)
Definition quoted (t : list ascii) : list ascii := [quote] ++ escape t ++ [quote].

Definition quoted_room `{StringTraits T} (value : T) : nat := 2 * (size_buf value - 1) + 2.

Lemma prefix_of_take x m k : x `prefix_of` m → length x ≤ k → x `prefix_of` take k m.
Proof. intros [l ->] Hk. rewrite take_app_ge by done. by eexists. Qed.

Lemma tail_text x t u m : x ++ t ++ u `prefix_of` m → take (length t) (drop (length x) m) = t.
Proof. intros [l ->]. by rewrite <-app_assoc, drop_app_length, <-app_assoc, take_app_length. Qed.

Section quoting.
Context `{ExactSize T}.

Lemma put_quoted_writes (value : T) x m :
  is_null value = false → x `prefix_of` m → length x + quoted_room value ≤ length m →
  writes (λ here, put_quoted here value) x m (quoted (text value)).
Proof.
  intros Hnull Hp Hlen. unfold quoted_room in Hlen.
  pose proof (text_room value Hnull) as Htext. rewrite (exact_size value Hnull) in Htext.
  set (n := length (text value)) in *. set (sz := size_buf value) in *.
  unfold put_quoted, quoted. apply writes_bind; [apply writes_put; [done|lia]|].
  intros m1 Hl1 Hp1. unfold writes, mbind, buf_bind, buf_end.
  fold sz. rewrite (proj2 (Nat.ltb_ge (length m1) sz)) by lia.
  unfold generic_to_buf. rewrite Hnull. unfold mbind, buf_bind.
  set (tail := take (length m1 - sz) m1).
  assert (Htail : length tail = length m1 - sz) by (unfold tail; rewrite length_take; lia).
  destruct (into_buf_writes value tail m1 Hnull) as (m2 & Hb & Hl2 & Hp2).
  { by apply prefix_take. }
  { rewrite (exact_size value Hnull). fold sz. lia. }
  rewrite <-Htail, Hb. unfold mret, buf_ret.
  replace (length (tail ++ text value ++ [NUL]) - length tail - 1) with n
    by (rewrite !length_app; cbn; subst n; lia).
  assert (Hp3 : x ++ [quote] `prefix_of` m2).
  { trans tail; [|trans (tail ++ text value ++ [NUL]); [by apply prefix_app_r|done]].
    apply prefix_of_take; [done|]. rewrite length_app. cbn. lia. }
  pose proof (escape_length (text value)) as Hesc.
  assert (Hw : writes (λ here, here ← copy_escaped n (length tail) here; put here quote)
                 (x ++ [quote]) m2 (escape (text value) ++ [quote])).
  { apply writes_bind.
    - apply copy_escaped_writes; [done|by eapply tail_text| |]; rewrite ?length_app; cbn;
        fold n; lia.
    - intros m3 Hl3 Hp4. apply writes_put; [done|]. rewrite !length_app. cbn. fold n in Hesc. lia. }
  destruct Hw as (m3 & Hm & Hl3 & Hp4). exists m3. split; [exact Hm|]. split; [congruence|done].
Qed.
End quoting.

(** ** Arrays *)

(** Elements that are arrays or need no quotes are written in place; the size
    of the others must be exact. *)
Definition direct (T : Type) `{StringTraits T} : bool := sql_array T || unquoted_safe T.

Class ElementSize (T : Type) `{StringTraitsLaws T} : Prop :=
  element_size : direct T = false → ExactSize T.

Section elements.
Context `{ElementSize T}.

Definition elt_text (elt : T) : list ascii :=
  if is_null elt then s_null else if direct T then text elt else quoted (text elt).
Definition elt_room (elt : T) : nat :=
  if is_null elt then length s_null else if direct T then room elt else quoted_room elt.

Fixpoint elements_text (value : list T) : list ascii :=
  match value with
  | [] => []
  | elt :: value' => elt_text elt ++ [separator T] ++ elements_text value'
  end.
Fixpoint elements_room (value : list T) : nat :=
  match value with
  | [] => 0
  | elt :: value' => elt_room elt `max` (length (elt_text elt) + 1 + elements_room value')
  end.

(** The text of an array: the elements without the last separator. *)
Definition array_text (value : list T) : list ascii :=
  "{"%char :: removelast (elements_text value) ++ ["}"%char].

Definition array_room (value : list T) : nat :=
  array_size_buffer value `max`
  match value with
  | [] => 3
  | _ => 1 + elements_room value `max` (length (elements_text value) + 1)
  end.

Lemma put_element_writes elt x m :
  x `prefix_of` m → length x + elt_room elt ≤ length m →
  writes (λ here, put_element here elt) x m (elt_text elt).
Proof.
  unfold elt_room, elt_text, put_element, direct. intros Hp Hlen.
  destruct (is_null elt) eqn:Hnull; [by apply writes_puts|].
  destruct (sql_array T) eqn:Ha; [by eapply writes_back, into_buf_writes|].
  destruct (unquoted_safe T) eqn:Hu; [by eapply writes_back, into_buf_writes|].
  assert (direct T = false) as Hd%element_size by (unfold direct; by rewrite Ha, Hu).
  by apply put_quoted_writes.
Qed.

Lemma put_elements_writes value x m :
  x `prefix_of` m → length x + elements_room value ≤ length m →
  writes (λ here, put_elements here value) x m (elements_text value).
Proof.
  revert x m. induction value as [|elt value IH]; intros x m Hp Hlen; [by apply writes_ret|].
  cbn [elements_room] in Hlen. cbn [put_elements elements_text].
  apply writes_bind; [apply put_element_writes; [done|lia]|].
  intros m1 Hl1 Hp1. apply writes_bind.
  - apply writes_put; [done|]. rewrite length_app. lia.
  - intros m2 Hl2 Hp2. apply IH; [done|]. rewrite !length_app. cbn. lia.
Qed.

Lemma elements_text_nonempty value : value ≠ [] → elements_text value ≠ [].
Proof. destruct value as [|elt value]; [done|]. intros _. cbn. by destruct (elt_text elt). Qed.

Lemma elements_text_last value :
  value ≠ [] → ∃ c, elements_text value = removelast (elements_text value) ++ [c].
Proof.
  intros Hne%elements_text_nonempty. exists (List.last (elements_text value) NUL).
  by apply app_removelast_last.
Qed.

Lemma array_into_buf_writes value x m :
  x `prefix_of` m → length x + array_room value ≤ length m →
  writes (λ here, array_into_buf here value) x m (array_text value ++ [NUL]).
Proof.
  unfold array_room. intros Hp Hlen. unfold array_into_buf, array_text.
  assert (Hx : length x < length m) by (destruct value; lia).
  assert (Hw : writes (λ here, here ← put here "{"%char; here ← put_elements here value;
            let here := match value with [] => here | _ => here - 1 end in
            here ← put here "}"%char; put here NUL) x m
         (["{"%char] ++ removelast (elements_text value) ++ ["}"%char] ++ [NUL])).
  { apply writes_bind; [apply writes_put; [done|lia]|]. intros m1 Hl1 Hp1.
    assert (Hclose : ∀ t m2, x ++ ["{"%char] ++ t `prefix_of` m2 → length m2 = length m →
      length x + length t + 3 ≤ length m →
      writes (λ here, here ← put here "}"%char; put here NUL) (x ++ ["{"%char] ++ t) m2
        (["}"%char] ++ [NUL])).
    { intros t m2 Hp2 Hl2 Ht. apply writes_bind.
      - apply writes_put; [done|]. rewrite !length_app. cbn. lia.
      - intros m3 Hl3 Hp3. apply writes_put; [done|]. rewrite !length_app. cbn. lia. }
    destruct (decide (value = [])) as [->|Hne].
    - cbn [put_elements elements_text removelast app].
      rewrite <-(app_nil_r (x ++ _)) in Hp1 |- *. rewrite <-app_assoc in *.
      apply (Hclose [] m1 Hp1 Hl1). cbn. lia.
    - destruct (elements_text_last value Hne) as [c Hc].
      assert (length x + (1 + elements_room value `max` (length (elements_text value) + 1)) ≤ length m)
        as Hroom by (destruct value; [done|lia]).
      assert (Hlast : length (elements_text value) = length (removelast (elements_text value)) + 1)
        by (rewrite Hc at 1; rewrite length_app; done).
      assert (Hel : writes (λ here, put_elements here value) (x ++ ["{"%char]) m1
                      (removelast (elements_text value) ++ [c])).
      { rewrite <-Hc. apply put_elements_writes; [done|]. rewrite length_app. cbn. lia. }
      apply writes_back in Hel.
      destruct (writes_bind _ (λ here, here ← put here "}"%char; put here NUL) _ _ _
        (["}"%char] ++ [NUL]) Hel) as (m3 & Hm & Hrest).
      + intros m2 Hl2 Hp2. rewrite <-app_assoc in *. apply Hclose; [done|congruence|lia].
      + exists m3. split; [|done]. rewrite <-Hm. unfold mbind, buf_bind.
        destruct (put_elements _ _ _) as [[[|] ?]|]; [|done..]. by destruct value. }
  destruct Hw as (m' & Hm & Hrest). exists m'. cbn [app] in *. rewrite <-app_assoc.
  split; [|exact Hrest]. unfold mbind, buf_bind, buf_end in *.
  rewrite (proj2 (Nat.ltb_ge _ _)) by lia. exact Hm.
Qed.
End elements.

#[export] Program Instance array_laws `{ElementSize T} : StringTraitsLaws (list T) := {|
  text := array_text;
  room := array_room;
|}.
Next Obligation. intros T ? ? ? value x m _. apply array_into_buf_writes. Qed.
Next Obligation.
  intros T ? ? ? value _. unfold array_text, array_room. cbn [length]. rewrite length_app. cbn [length].
  destruct (decide (value = [])) as [->|Hne]; [cbn; lia|].
  destruct (elements_text_last value Hne) as [c Hc].
  assert (length (elements_text value) = length (removelast (elements_text value)) + 1)
    by (rewrite Hc at 1; rewrite length_app; done).
  destruct value; [done|lia].
Qed.
Next Obligation. intros T ? ? ? value _. apply Nat.le_max_l. Qed.
#[export] Instance array_element `{ElementSize T} : ElementSize (list T).
Proof. intros Hd. discriminate Hd. Qed.
#[export] Instance exact_element `{ExactSize T} : ElementSize T.
Proof. intros _. exact exact_size. Qed.

(** *** What [size_buffer] leaves out: the separators *)

Section budget.
Context `{ExactSize T}.
Hypothesis no_null : unquoted_safe T = true → ∀ value : T, is_null value = false.

(** What [size_buffer] counts for an element. *)
Definition elt_budget (elt : T) : nat :=
  if unquoted_safe T then size_buf elt - 1
  else 2 * (if is_null elt then length s_null else size_buf elt - 1) + 2.

Lemma elt_budget_enough elt :
  elt_room elt ≤ elt_budget elt + 1 ∧ length (elt_text elt) ≤ elt_budget elt.
Proof using Type*.
  unfold elt_room, elt_text, elt_budget, direct.
  destruct (is_null elt) eqn:Hnull.
  { destruct (unquoted_safe T) eqn:Hu; [by rewrite no_null in Hnull|]. cbn. lia. }
  pose proof (text_room elt Hnull) as Ht. rewrite (exact_size elt Hnull) in *.
  destruct (sql_array T), (unquoted_safe T); cbn [orb]; try lia.
  unfold quoted, quoted_room. pose proof (escape_length (text elt)).
  rewrite !length_app. cbn [length]. lia.
Qed.

Lemma array_size_buffer_sum (value : list T) :
  array_size_buffer value = sum_list (map elt_budget value) + 3.
Proof using Type*.
  unfold array_size_buffer, elt_budget. destruct (unquoted_safe T) eqn:Hu; f_equal.
  - assert (∀ acc, foldl (λ acc elt, acc + (if is_null elt then length s_null else size_buf elt) - 1)
                     acc value = acc + sum_list (map (λ elt, size_buf elt - 1) value)) as Hf.
    { induction value as [|elt value IH]; intros acc; [cbn; lia|]. cbn [foldl map sum_list].
      rewrite IH, no_null by done. pose proof (text_room elt (no_null eq_refl elt)) as Ht.
      rewrite (exact_size elt (no_null eq_refl elt)) in Ht. cbn. lia. }
    apply Hf.
  - assert (∀ acc, foldl (λ acc elt,
        let elt_size := if is_null elt then length s_null else size_buf elt - 1 in
        acc + 2 * elt_size + 2) acc value =
      acc + sum_list (map (λ elt, 2 * (if is_null elt then length s_null else size_buf elt - 1) + 2)
                        value)) as Hf.
    { induction value as [|elt value IH]; intros acc; [cbn; lia|]. cbn [foldl map sum_list].
      rewrite IH. cbn. lia. }
    apply Hf.
Qed.

Lemma elements_budget (value : list T) :
  elements_room value ≤ sum_list (map elt_budget value) + length value ∧
  length (elements_text value) ≤ sum_list (map elt_budget value) + length value.
Proof using Type*.
  induction value as [|elt value [IH1 IH2]]; [by cbn|]. cbn [elements_room elements_text].
  destruct (elt_budget_enough elt) as [Hr Ht]. rewrite !length_app.
  change (sum_list (map elt_budget (elt :: value)))
    with (elt_budget elt + sum_list (map elt_budget value)). cbn [length]. lia.
Qed.

Lemma array_room_bound (value : list T) :
  array_room value ≤ size_buf value + (length value - 1).
Proof using Type*.
  cbn [size_buf array_traits]. unfold array_room. rewrite array_size_buffer_sum.
  destruct (elements_budget value) as [H1' H2']. destruct value; cbn [length] in *; lia.
Qed.
End budget.

(** C37. Writing an array into a buffer.  [size_buffer] does not count the
    separators: with a byte more for each element but the first, [into_buf]
    stays inside the buffer and writes exactly the elements' texts, quoted and
    escaped, between braces.  With the size it asks for itself [to_string] of
    three empty strings writes outside its buffer, and for three integers of
    eleven characters it throws. *)
Theorem array_buffer_need :
  (∀ T (traits : StringTraits T) (laws : StringTraitsLaws T) (exact : ExactSize T)
     (value : list T) x m,
     (unquoted_safe T = true → ∀ v : T, is_null v = false) →
     x `prefix_of` m → length x + size_buf value + (length value - 1) ≤ length m →
     ∃ m', into_buf (length x) value m = Some (Ok (length x + length (array_text value) + 1), m') ∧
           length m' = length m ∧ x ++ array_text value ++ [NUL] `prefix_of` m') ∧
  to_string_buf "std::vector<std::string>" [""; ""; ""]%string = None ∧
  (∃ e, to_string_buf "std::vector<int>" (replicate 3 (@mk_integral t_int (-2147483648) eq_refl)) =
        Some (Throw e)).
Proof.
  split; [|split; [reflexivity|eexists; vm_compute; reflexivity]].
  intros T traits laws exact value x m Hnull Hp Hlen.
  pose proof (array_room_bound Hnull value) as Hroom.
  destruct (array_into_buf_writes value x m Hp ltac:(lia)) as (m' & Hw & Hrest).
  exists m'. split; [|exact Hrest]. cbn [into_buf array_traits]. rewrite Hw, !length_app. cbn [length].
  by rewrite Nat.add_assoc.
Qed.

(** ** Composite values *)

(** A field that is not null, of a type with an exact size, and its text. *)
Inductive field_text : field_value → list ascii → Prop :=
  | field_text_intro T (traits : StringTraits T) (laws : StringTraitsLaws T) (exact : ExactSize T)
      (value : T) :
      is_null value = false →
      field_text (Field traits value) (if unquoted_safe T then text value else quoted (text value)).

Lemma write_composite_field_writes f t x m :
  field_text f t → x `prefix_of` m → length x + size_composite_field_buffer f + 1 ≤ length m →
  writes (λ pos, write_composite_field pos f) x m (t ++ [","%char]) ∧
  length t ≤ size_composite_field_buffer f.
Proof.
  intros [T traits laws exact value Hnull] Hp Hlen. cbn [write_composite_field size_composite_field_buffer] in *.
  pose proof (text_room value Hnull) as Ht. rewrite (exact_size value Hnull) in Ht.
  destruct (unquoted_safe T); (split; [apply writes_bind|]).
  - eapply writes_back, into_buf_writes; [done..|]. rewrite (exact_size value Hnull). lia.
  - intros m1 Hl1 Hp1. apply writes_put; [done|]. rewrite length_app. lia.
  - lia.
  - apply put_quoted_writes; [done..|]. unfold quoted_room. lia.
  - intros m1 Hl1 Hp1. apply writes_put; [done|]. pose proof (escape_length (text value)).
    unfold quoted. rewrite !length_app. cbn. lia.
  - pose proof (escape_length (text value)). unfold quoted. rewrite !length_app. cbn. lia.
Qed.

Definition fields_budget (fields : list field_value) : nat :=
  sum_list (map size_composite_field_buffer fields) + length fields.

Definition comma_terminated (ts : list (list ascii)) : list ascii :=
  concat (map (λ t, t ++ [","%char]) ts).

Lemma write_composite_fields_writes fields ts x m :
  Forall2 field_text fields ts → x `prefix_of` m → length x + fields_budget fields ≤ length m →
  writes (λ pos, write_composite_fields pos fields) x m (comma_terminated ts) ∧
  length (comma_terminated ts) ≤ fields_budget fields.
Proof.
  intros Hts. revert x m. induction Hts as [|f t fields ts Hf _ IH]; intros x m Hp Hlen.
  { split; [by apply writes_ret|]. cbn. lia. }
  assert (Hb : fields_budget (f :: fields) = size_composite_field_buffer f + 1 + fields_budget fields)
    by (unfold fields_budget; cbn; lia).
  destruct (write_composite_field_writes f t x m Hf Hp) as [Hw Hft]; [lia|].
  change (comma_terminated (t :: ts)) with ((t ++ [","%char]) ++ comma_terminated ts).
  cbn [write_composite_fields].
  assert (Hrest : ∀ m1, length m1 = length m → x ++ t ++ [","%char] `prefix_of` m1 →
    writes (λ pos, write_composite_fields pos fields) (x ++ t ++ [","%char]) m1 (comma_terminated ts) ∧
    length (comma_terminated ts) ≤ fields_budget fields).
  { intros m1 Hl1 Hp1. apply IH; [done|]. rewrite !length_app. cbn. lia. }
  split.
  - apply writes_bind; [done|]. intros m1 Hl1 Hp1. by apply Hrest.
  - destruct Hw as (m1 & _ & Hl1 & Hp1). destruct (Hrest m1 Hl1 Hp1) as [_ Hle].
    rewrite !length_app. cbn [length]. lia.
Qed.

(** The text of a composite value with more than one field. *)
Definition composite_text (ts : list (list ascii)) : list ascii :=
  "("%char :: removelast (comma_terminated ts) ++ [")"%char].

Lemma comma_terminated_last ts :
  ts ≠ [] → ∃ u, comma_terminated ts = u ++ [","%char].
Proof.
  induction ts as [|t ts IH]; [done|]. intros _. destruct ts as [|t' ts].
  - exists t. unfold comma_terminated. cbn. by rewrite app_nil_r.
  - destruct IH as [u Hu]; [done|]. exists ((t ++ [","%char]) ++ u).
    change (comma_terminated (t :: t' :: ts)) with ((t ++ [","%char]) ++ comma_terminated (t' :: ts)).
    by rewrite Hu, app_assoc.
Qed.

Lemma composite_into_buf_writes fields ts x m :
  Forall2 field_text fields ts → 2 ≤ length fields → x `prefix_of` m →
  length x + composite_size_buffer fields ≤ length m →
  writes (λ here, composite_into_buf here fields) x m (composite_text ts ++ [NUL]).
Proof.
  intros Hts Hn Hp Hlen. unfold composite_into_buf, composite_text.
  assert (Hsize : composite_size_buffer fields = 2 + fields_budget fields)
    by (destruct fields; [cbn in Hn; lia|]; unfold composite_size_buffer, fields_budget; lia).
  assert (ts ≠ []) as [u Hu]%comma_terminated_last by (intros ->; inversion Hts; subst; cbn in Hn; lia).
  assert (Hw : writes (λ here, pos ← put here "("%char; pos ← write_composite_fields pos fields;
            let pos := pos - 1 in pos ← put pos ")"%char; put pos NUL) x m
         (["("%char] ++ u ++ [")"%char] ++ [NUL])).
  { apply writes_bind; [apply writes_put; [done|lia]|]. intros m1 Hl1 Hp1.
    destruct (write_composite_fields_writes fields ts (x ++ ["("%char]) m1 Hts Hp1) as [Hf Hle].
    { rewrite length_app. cbn. lia. }
    rewrite Hu, length_app in Hle. rewrite Hu in Hf. cbn [length] in Hle. apply writes_back in Hf.
    destruct (writes_bind _ (λ here, here ← put here ")"%char; put here NUL) _ _ _
      ([")"%char] ++ [NUL]) Hf) as (m3 & Hm & Hrest).
    - intros m2 Hl2 Hp2. apply writes_bind.
      + apply writes_put; [done|]. rewrite !length_app. cbn. lia.
      + intros m3 Hl3 Hp3. apply writes_put; [done|]. rewrite !length_app. cbn. lia.
    - exists m3. split; [|done]. rewrite <-Hm. unfold mbind, buf_bind.
      by destruct (write_composite_fields _ _ _) as [[[|] ?]|]. }
  destruct Hw as (m' & Hm & Hrest). exists m'. rewrite Hu, removelast_app, app_nil_r by done.
  cbn [app] in *. rewrite <-app_assoc. split; [|exact Hrest]. unfold mbind, buf_bind, buf_end in *.
  rewrite (proj2 (Nat.ltb_ge _ _)) by lia. destruct fields as [|f fields]; [cbn in Hn; lia|].
  rewrite (proj2 (Nat.ltb_lt 1 _)) by lia. exact Hm.
Qed.
