(* ===== verification/PqxxBinary.v ===== *)
(** Binary data in SQL text: the hex format of BYTEA (util.cxx, util.hxx,
    conversions.hxx). *)

From stdpp Require Import list.
From S2P Require Import Prelude Decimal Exceptions PqxxConv PqxxBuffer PqxxBufferFacts.

Local Open Scope Z_scope.

(** ** Digits *)

(** [hex_digits[c]] *)
Definition hex_digits : list ascii := list_ascii_of_string "0123456789abcdef".
Definition hex_digit (c : Z) : ascii := nth (Z.to_nat c) hex_digits NUL.

(** The value of a hex digit, or -1. *)
Definition nibble (c : ascii) : Z :=
  let c := byte_of c in
  if (48 <=? c) && (c <=? 57) then c - 48
  else if (97 <=? c) && (c <=? 102) then 10 + (c - 97)
  else if (65 <=? c) && (c <=? 70) then 10 + (c - 65)
  else -1.

(** ** Sizes, in [std::size_t] *)

Definition size_esc_bin (binary_bytes : Z) : Z := wrap_u 64 (2 + 2 * binary_bytes + 1).
Definition size_unesc_bin (escaped_bytes : Z) : Z := wrap_u 64 (escaped_bytes - 2) / 2.

(** ** Escaping *)

Definition binary_failure (msg : string) : exn := mk_exn pqxx_failure (c_str msg).

(** The digits written for the bytes of [binary_data]. *)
Fixpoint esc_bytes (binary_data : list ascii) : list ascii :=
  match binary_data with
  | [] => []
  | byte :: binary_data' =>
      let uc := byte_of byte in
      hex_digit (Z.shiftr uc 4) :: hex_digit (Z.land uc 0x0f) :: esc_bytes binary_data'
  end.

(** [esc_bin] into a buffer. *)
Definition esc_bin_buf (binary_data : list ascii) (here : nat) : buf nat :=
  here ← put here backslash;
  here ← put here "x"%char;
  here ← puts here (esc_bytes binary_data);
  put here NUL.

(** [esc_bin] to a string: a buffer of [size_esc_bin] bytes, less the zero. *)
Definition esc_bin (binary_data : list ascii) : option (result exn (list ascii)) :=
  let bytes := Z.to_nat (size_esc_bin (Z.of_nat (length binary_data))) in
  match esc_bin_buf binary_data 0 (replicate bytes NUL) with
  | Some (Ok _, m) => Some (Ok (take (bytes - 1) m))
  | Some (Throw e, _) => Some (Throw e)
  | None => None
  end.

(** ** Unescaping *)

(** The loop over the digits.  It reads two of them at a time; the caller has
    checked that their number is even. *)
Fixpoint unesc_digits (escaped : list ascii) : option (result exn (list ascii)) :=
  match escaped with
  | [] => Some (Ok [])
  | h :: escaped' =>
      let hi := nibble h in
      if hi <? 0 then Some (Throw (binary_failure "Invalid hex-escaped data."))
      else
        match escaped' with
        | [] => None
        | l :: escaped'' =>
            let lo := nibble l in
            if lo <? 0 then Some (Throw (binary_failure "Invalid hex-escaped data."))
            else
              match unesc_digits escaped'' with
              | Some (Ok out) => Some (Ok (char_of (Z.lor (Z.shiftl hi 4) lo) :: out))
              | r => r
              end
        end
  end.

(** [unesc_bin] into a buffer: the bytes written. *)
Definition unesc_bin_buf (escaped_data : list ascii) : option (result exn (list ascii)) :=
  if (length escaped_data <? 2)%nat then
    Some (Throw (binary_failure "Binary data appears truncated."))
  else if negb (length escaped_data `mod` 2 =? 0)%nat then
    Some (Throw (binary_failure "Invalid escaped binary length."))
  else
    match escaped_data with
    | b :: x :: digits =>
        if negb (Ascii.eqb b backslash) || negb (Ascii.eqb x "x") then
          Some (Throw (binary_failure ("Escaped binary data did not start with '\x'`.  " +:+
            "Is the server or libpq too old?")))
        else unesc_digits digits
    | _ => None
    end.

(** [unesc_bin] to a string: its [resize] to the size computed comes first.
    [resize_exn] is what [resize] throws for a size near [2^63], and
    [max_size] the largest it accepts. *)
Definition unesc_bin (max_size : Z) (resize_exn : exn) (escaped_data : list ascii)
    : option (result exn (list ascii)) :=
  let bytes := size_unesc_bin (Z.of_nat (length escaped_data)) in
  if max_size <? bytes then Some (Throw resize_exn)
  else
    match unesc_bin_buf escaped_data with
    | Some (Ok out) =>
        if bytes <? Z.of_nat (length out) then None
        else Some (Ok (out ++ replicate (Z.to_nat (bytes - Z.of_nat (length out))) NUL))
    | r => r
    end.

(** ** [string_traits] of binary strings *)

(** A string of bytes; no object has [2^63 - 1] bytes or more. *)
Record binary := mk_binary {
  binary_bytes : list ascii;
  binary_small : (Z.of_nat (length binary_bytes) <? 2 ^ 63 - 1) = true;
}.

Definition binary_into_buf (begin : nat) (value : list ascii) : buf nat :=
  let budget := Z.to_nat (size_esc_bin (Z.of_nat (length value))) in
  size ← buf_end;
  if (size - begin <? budget)%nat
  then throws (conversion_overrun "Not enough buffer space to escape binary data.")
  else _ ← esc_bin_buf value begin; mret (begin + budget)%nat.

#[export] Instance binary_traits : StringTraits binary := {|
  is_null := λ _, false;
  size_buf := λ value, Z.to_nat (size_esc_bin (Z.of_nat (length (binary_bytes value))));
  into_buf := λ begin value, binary_into_buf begin (binary_bytes value);
  unquoted_safe := false;
  sql_array := false;
  separator := ",";
|}.

(** ** Digits and bytes *)

(** The text of binary data. *)
Definition bin_text (data : list ascii) : list ascii := backslash :: "x"%char :: esc_bytes data.

Definition small (data : list ascii) : Prop := Z.of_nat (length data) < 2 ^ 63 - 1.

Lemma size_esc_bin_small data :
  small data → size_esc_bin (Z.of_nat (length data)) = 2 * Z.of_nat (length data) + 3.
Proof. unfold small, size_esc_bin. intros Hs. rewrite wrap_u_id; [lia|]. unfold in_u. lia. Qed.

Lemma esc_bytes_length data : length (esc_bytes data) = (2 * length data)%nat.
Proof. induction data as [|c data IH]; cbn; lia. Qed.

Lemma bin_text_length data :
  small data → length (bin_text data ++ [NUL]) = Z.to_nat (size_esc_bin (Z.of_nat (length data))).
Proof.
  intros Hs. rewrite size_esc_bin_small by done. rewrite length_app. cbn [bin_text length].
  rewrite esc_bytes_length. cbn. lia.
Qed.

(** A byte and its two digits. *)
Lemma byte_digits c :
  let uc := byte_of c in
  nibble (hex_digit (Z.shiftr uc 4)) = Z.shiftr uc 4 ∧ nibble (hex_digit (Z.land uc 0x0f)) = Z.land uc 0x0f ∧
  0 <= Z.shiftr uc 4 ∧ 0 <= Z.land uc 0x0f ∧
  char_of (Z.lor (Z.shiftl (Z.shiftr uc 4) 4) (Z.land uc 0x0f)) = c.
Proof.
  cbv zeta. eapply (bool_decide_eq_true_1 _). revert c. apply forall_chars. vm_compute. reflexivity.
Qed.

Lemma unesc_esc_bytes data : unesc_digits (esc_bytes data) = Some (Ok data).
Proof.
  induction data as [|c data IH]; [done|]. cbn [esc_bytes unesc_digits].
  destruct (byte_digits c) as (-> & -> & Hhi & Hlo & Hc).
  rewrite !(proj2 (Z.ltb_ge _ _)) by done. by rewrite IH, Hc.
Qed.

(** The digits of a byte are in lower case; both cases are read. *)
Definition lower_hex (c : ascii) : ascii := if nibble c <? 0 then c else hex_digit (nibble c).

(** What two digits stand for. *)
Lemma nibble_range c : -1 <= nibble c < 16.
Proof.
  eapply (bool_decide_eq_true_1 _). revert c. apply forall_chars. vm_compute. reflexivity.
Qed.

Lemma nibbles_byte hi lo :
  0 <= hi < 16 → 0 <= lo < 16 →
  let c := char_of (Z.lor (Z.shiftl hi 4) lo) in
  Z.shiftr (byte_of c) 4 = hi ∧ Z.land (byte_of c) 0x0f = lo.
Proof.
  assert (Hall : forallb (λ h, forallb (λ l,
      let c := char_of (Z.lor (Z.shiftl (Z.of_nat h) 4) (Z.of_nat l)) in
      (Z.shiftr (byte_of c) 4 =? Z.of_nat h) && (Z.land (byte_of c) 0x0f =? Z.of_nat l))
      (seq 0 16)) (seq 0 16) = true) by (vm_compute; reflexivity).
  intros Hhi Hlo. rewrite forallb_forall in Hall.
  specialize (Hall (Z.to_nat hi) ltac:(apply in_seq; lia)). rewrite forallb_forall in Hall.
  specialize (Hall (Z.to_nat lo) ltac:(apply in_seq; lia)). cbv beta zeta in Hall.
  rewrite !Z2Nat.id in Hall by lia. b2p. by split.
Qed.

Lemma hex_digit_nibble c : 0 <= nibble c → hex_digit (nibble c) = lower_hex c.
Proof. intros Hn. unfold lower_hex. by rewrite (proj2 (Z.ltb_ge _ _)). Qed.

Lemma nibble_lower c : nibble (lower_hex c) = nibble c.
Proof.
  eapply (bool_decide_eq_true_1 _). revert c. apply forall_chars. vm_compute. reflexivity.
Qed.

(** The reader accepts the digits of [data] in either case, nothing else. *)
Lemma unesc_digits_lower digits : unesc_digits (map lower_hex digits) = unesc_digits digits.
Proof.
  induction digits as [digits IH] using (well_founded_induction (Wf_nat.well_founded_ltof _ length)).
  unfold Wf_nat.ltof in IH. destruct digits as [|h [|l digits]]; cbn [map unesc_digits]; [done| |];
    rewrite ?nibble_lower; [done|]. by rewrite IH by (cbn; lia).
Qed.

Lemma unesc_digits_accepts digits data :
  unesc_digits digits = Some (Ok data) → map lower_hex digits = esc_bytes data.
Proof.
  revert data. induction digits as [digits IH] using (well_founded_induction (Wf_nat.well_founded_ltof _ length)).
  unfold Wf_nat.ltof in IH. intros data. destruct digits as [|h digits]; cbn [unesc_digits]; [by intros [= <-]|].
  destruct (Z.ltb_spec (nibble h) 0) as [|Hh]; [done|]. destruct digits as [|l digits]; [done|].
  destruct (Z.ltb_spec (nibble l) 0) as [|Hl]; [done|].
  destruct (unesc_digits digits) as [[out|e]|] eqn:Hd; [|done|done]. intros [= <-].
  pose proof (nibble_range h). pose proof (nibble_range l).
  destruct (nibbles_byte (nibble h) (nibble l) ltac:(lia) ltac:(lia)) as [Ehi Elo].
  cbn [map esc_bytes]. rewrite Ehi, Elo, !hex_digit_nibble by lia.
  rewrite (IH digits) with (data := out); [done|cbn; lia|done].
Qed.

(** An even number of digits always gives a result. *)
Lemma unesc_digits_total digits n :
  length digits = (2 * n)%nat →
  match unesc_digits digits with
  | Some (Ok data) => length data = n
  | Some (Throw e) => e = binary_failure "Invalid hex-escaped data."
  | None => False
  end.
Proof.
  revert digits. induction n as [|n IH]; intros [|h [|l digits]]; cbn [length]; try lia; [done|].
  intros Hlen. cbn [unesc_digits]. destruct (nibble h <? 0); [done|]. destruct (nibble l <? 0); [done|].
  specialize (IH digits ltac:(lia)). destruct (unesc_digits digits) as [[data|e]|]; [|done|done].
  cbn. by rewrite IH.
Qed.

(** ** Writing *)

Lemma esc_bin_buf_writes data x m :
  x `prefix_of` m → (length x + length (bin_text data ++ [NUL]) <= length m)%nat →
  writes (λ here, esc_bin_buf data here) x m (bin_text data ++ [NUL]).
Proof.
  intros Hp Hlen. rewrite length_app in Hlen. cbn [bin_text length] in Hlen.
  unfold esc_bin_buf.
  apply (writes_bind (λ here, put here backslash) _ x m [backslash]); [apply writes_put; [done|lia]|].
  intros m1 Hl1 Hp1.
  apply (writes_bind (λ here, put here "x"%char) _ (x ++ [backslash]) m1 ["x"%char]).
  { apply writes_put; [done|]. rewrite length_app. cbn [length]. lia. }
  intros m2 Hl2 Hp2. apply writes_bind.
  - apply writes_puts; [done|]. rewrite !length_app. cbn [length]. lia.
  - intros m3 Hl3 Hp3. apply writes_put; [done|]. rewrite !length_app. cbn [length]. lia.
Qed.

Lemma esc_bin_text data : small data → esc_bin data = Some (Ok (bin_text data)).
Proof.
  intros Hs. unfold esc_bin. cbv zeta. rewrite <-bin_text_length by done.
  destruct (esc_bin_buf_writes data [] (replicate (length (bin_text data ++ [NUL])) NUL))
    as (m & Hw & Hl & [k Hk]); [apply prefix_nil|by rewrite length_replicate|].
  cbn [length] in Hw. rewrite Hw. cbn [app] in Hk. subst m. rewrite length_app, length_replicate in Hl.
  destruct k; [|cbn in Hl; lia]. rewrite app_nil_r, length_app. cbn [length].
  rewrite Nat.add_sub. by rewrite take_app_length.
Qed.

#[export] Program Instance binary_laws : StringTraitsLaws binary := {|
  text := λ value, bin_text (binary_bytes value);
  room := λ value, Z.to_nat (size_esc_bin (Z.of_nat (length (binary_bytes value))));
|}.
Next Obligation.
  intros [data Hs] x m _ Hp Hlen. cbn [binary_bytes into_buf binary_traits] in *.
  apply Z.ltb_lt in Hs. rewrite <-bin_text_length in Hlen by done.
  destruct (esc_bin_buf_writes data x m Hp Hlen) as (m' & Hw & ?). exists m'. split; [|done].
  unfold binary_into_buf. cbv zeta. rewrite <-bin_text_length by done.
  unfold mbind, buf_bind, buf_end in *. rewrite (proj2 (Nat.ltb_ge _ _)) by lia. cbv beta in Hw.
  rewrite Hw, <-length_app. done.
Qed.
Next Obligation.
  intros [data Hs] _. cbn. apply Z.ltb_lt in Hs. rewrite <-bin_text_length, length_app by done.
  cbn. lia.
Qed.
Next Obligation. done. Qed.

#[export] Instance binary_exact : ExactSize binary.
Proof. done. Qed.

(** ** Reading *)

Lemma lower_hex_escape c :
  (lower_hex c = backslash → c = backslash) ∧ (lower_hex c = "x"%char → c = "x"%char).
Proof.
  eapply (bool_decide_eq_true_1 _). revert c. apply forall_chars. vm_compute. reflexivity.
Qed.

Lemma unesc_bin_buf_accepts escaped data :
  unesc_bin_buf escaped = Some (Ok data) ↔ map lower_hex escaped = bin_text data.
Proof.
  unfold unesc_bin_buf. split.
  - destruct (length escaped <? 2)%nat; [done|]. destruct (negb _); [done|].
    destruct escaped as [|b [|x digits]]; [done|done|].
    destruct (Ascii.eqb_spec b backslash) as [->|]; cbn [negb orb]; [|done].
    destruct (Ascii.eqb_spec x "x"%char) as [->|]; cbn [negb]; [|done].
    intros Hu. apply unesc_digits_accepts in Hu. cbn [map]. by rewrite Hu.
  - destruct escaped as [|b [|x digits]]; [done|done|]. unfold bin_text. cbn [map].
    intros He. injection He as Hb Hx Hd.
    apply lower_hex_escape in Hb as ->. apply lower_hex_escape in Hx as ->.
    assert (Hlen : length digits = (length data * 2)%nat).
    { rewrite <-(length_map lower_hex), Hd, esc_bytes_length. lia. }
    rewrite (proj2 (Nat.ltb_ge _ _)) by (cbn; lia).
    replace (length (backslash :: "x"%char :: digits)) with ((1 + length data) * 2)%nat by (cbn [length]; lia).
    rewrite Nat.Div0.mod_mul. cbn [Nat.eqb negb].
    by rewrite !Ascii.eqb_refl, <-unesc_digits_lower, Hd, unesc_esc_bytes.
Qed.

Lemma unesc_bin_buf_total escaped : ∃ r, unesc_bin_buf escaped = Some r.
Proof.
  unfold unesc_bin_buf. destruct (Nat.ltb_spec (length escaped) 2) as [|Hlen]; [eauto|].
  destruct (Nat.eqb_spec (length escaped `mod` 2) 0) as [Heven|]; cbn [negb]; [|eauto].
  destruct escaped as [|b [|x digits]]; [cbn in Hlen; lia|cbn in Hlen; lia|].
  destruct (negb _ || negb _); [eauto|].
  assert (Hn : length digits = (2 * (length digits / 2))%nat).
  { cbn [length] in Heven. pose proof (Nat.div_mod_eq (S (S (length digits))) 2) as Hdiv.
    rewrite Heven in Hdiv. replace (S (S (length digits))) with (length digits + 1 * 2)%nat in Hdiv by lia.
    rewrite Nat.div_add in Hdiv by lia. lia. }
  pose proof (unesc_digits_total digits _ Hn) as Ht. destruct (unesc_digits digits); [eauto|done].
Qed.

(** The size [unesc_bin] asks for. *)
Lemma size_unesc_bin_text escaped data :
  small data → map lower_hex escaped = bin_text data →
  size_unesc_bin (Z.of_nat (length escaped)) = Z.of_nat (length data).
Proof.
  intros Hs He. apply (f_equal length) in He. rewrite length_map in He. rewrite He.
  cbn [bin_text length]. rewrite esc_bytes_length. unfold size_unesc_bin, small in *.
  rewrite wrap_u_id by (unfold in_u; lia).
  replace (_ - 2) with (Z.of_nat (length data) * 2) by lia. by rewrite Z.div_mul.
Qed.

Lemma size_unesc_bin_short n : 0 <= n < 2 → size_unesc_bin n = 2 ^ 63 - 1.
Proof.
  intros Hn. assert (n = 0 ∨ n = 1) as [->| ->] by lia; vm_compute; reflexivity.
Qed.

Lemma lower_bin_text data : map lower_hex (bin_text data) = bin_text data.
Proof.
  apply unesc_bin_buf_accepts. unfold unesc_bin_buf, bin_text. cbn [length].
  rewrite esc_bytes_length. rewrite (proj2 (Nat.ltb_ge _ _)) by lia.
  replace (S (S (2 * length data))) with ((1 + length data) * 2)%nat by lia.
  rewrite Nat.Div0.mod_mul. cbn [Nat.eqb negb]. by rewrite !Ascii.eqb_refl, unesc_esc_bytes.
Qed.

Lemma unesc_bin_complete max_size resize_exn escaped data :
  max_size < 2 ^ 63 - 1 → Z.of_nat (length data) <= max_size → map lower_hex escaped = bin_text data →
  unesc_bin max_size resize_exn escaped = Some (Ok data).
Proof.
  intros Hmax Hdata He. unfold unesc_bin. cbv zeta.
  rewrite (size_unesc_bin_text _ data) by (done || (unfold small; lia)).
  rewrite (proj2 (Z.ltb_ge _ _)) by done. rewrite (proj2 (unesc_bin_buf_accepts _ _) He).
  by rewrite Z.ltb_irrefl, Z.sub_diag, app_nil_r.
Qed.

Lemma unesc_bin_sound max_size resize_exn escaped data :
  max_size < 2 ^ 63 - 1 → Z.of_nat (length data) <= max_size →
  unesc_bin max_size resize_exn escaped = Some (Ok data) → map lower_hex escaped = bin_text data.
Proof.
  intros Hmax Hdata. unfold unesc_bin. cbv zeta. destruct (_ <? _); [done|].
  destruct (unesc_bin_buf escaped) as [[out|e]|] eqn:Hu; [|done|done].
  destruct (_ <? _); [done|]. intros [= Hout].
  apply unesc_bin_buf_accepts in Hu. assert (Hlen : (length out <= length data)%nat).
  { rewrite <-Hout, length_app. lia. }
  rewrite (size_unesc_bin_text _ out) in Hout by (done || (unfold small; lia)).
  rewrite Z.sub_diag, app_nil_r in Hout. by rewrite <-Hout.
Qed.

(** The string has room for all that is written to it. *)
Lemma unesc_bin_total max_size resize_exn escaped :
  Z.of_nat (length escaped) < 2 ^ 64 → ∃ r, unesc_bin max_size resize_exn escaped = Some r.
Proof.
  intros Hlen. unfold unesc_bin. cbv zeta. destruct (_ <? _); [eauto|].
  destruct (unesc_bin_buf_total escaped) as [[out|e] Hu]; rewrite Hu; [|eauto].
  apply unesc_bin_buf_accepts in Hu.
  assert (Hs : small out).
  { apply (f_equal length) in Hu. rewrite length_map in Hu. cbn [bin_text length] in Hu.
    rewrite esc_bytes_length in Hu. unfold small. lia. }
  rewrite (size_unesc_bin_text _ out) by done. rewrite Z.ltb_irrefl. eauto.
Qed.

(** C35. Binary data survives the text form of BYTEA.  [esc_bin] writes [\x]
    and two lower-case digits for every byte, within the buffer it sizes for
    itself; [unesc_bin] of a text gives [data] exactly if the text is that of
    [data] up to the case of the digits, gives data or an exception for every
    other text, and never writes behind the string it has resized.  But a text
    of fewer than two characters is answered with the failure of [resize],
    asked for 2^63 - 1 bytes, and not with the message meant for it. *)
Theorem binary_round_trip (max_size : Z) (resize_exn : exn) (data : list ascii) :
  max_size < 2 ^ 63 - 1 → Z.of_nat (length data) <= max_size →
  esc_bin data = Some (Ok (bin_text data)) ∧
  unesc_bin max_size resize_exn (bin_text data) = Some (Ok data) ∧
  (∀ escaped, unesc_bin max_size resize_exn escaped = Some (Ok data) ↔ map lower_hex escaped = bin_text data) ∧
  (∀ escaped, Z.of_nat (length escaped) < 2 ^ 64 → ∃ r, unesc_bin max_size resize_exn escaped = Some r) ∧
  (∀ escaped, (length escaped < 2)%nat → unesc_bin max_size resize_exn escaped = Some (Throw resize_exn)).
Proof.
  intros Hmax Hdata. assert (Hs : small data) by (unfold small; lia).
  assert (Haccept : ∀ escaped,
    unesc_bin max_size resize_exn escaped = Some (Ok data) ↔ map lower_hex escaped = bin_text data).
  { intros escaped. split; [|by apply unesc_bin_complete].
    by apply unesc_bin_sound. }
  split_and!.
  - by apply esc_bin_text.
  - apply Haccept, lower_bin_text.
  - exact Haccept.
  - by apply unesc_bin_total.
  - intros escaped Hlen. unfold unesc_bin. cbv zeta.
    rewrite size_unesc_bin_short by lia. by rewrite (proj2 (Z.ltb_lt _ _)).
Qed.

Lemma binary_round_trip_witness :
  let data := [char_of 0; char_of 255; char_of 92] in
  esc_bin data = Some (Ok (list_ascii_of_string "\x00ff5c")) ∧
  unesc_bin 1000 (binary_failure "length error") (list_ascii_of_string "\x00FF5c") = Some (Ok data) ∧
  unesc_bin 1000 (binary_failure "length error") (list_ascii_of_string "\") =
    Some (Throw (binary_failure "length error")).
Proof.
  destruct (binary_round_trip 1000 (binary_failure "length error") [char_of 0; char_of 255; char_of 92]
    ltac:(lia) ltac:(cbn; lia)) as (Hesc & _ & Haccept & _ & Hshort).
  split; [rewrite Hesc; reflexivity|]. split; [apply Haccept; reflexivity|].
  apply Hshort. cbn. lia.
Defined.
