(* ===== verification/PqxxTime.v ===== *)
(** Dates (time.cxx, time.hxx): the text of a [std::chrono::year_month_day] in
    the ISO format of PostgreSQL, with its years before the common era. *)

From stdpp Require Import list.
From S2P Require Import Prelude Decimal Exceptions PqxxConv PqxxConvFacts PqxxBuffer PqxxBufferFacts.

Local Open Scope Z_scope.

(** ** [std::chrono]

    A year is a [short] from -32767 to 32767 with a year zero, a month and a
    day are [unsigned char]s; [ok] holds for the days of the Gregorian
    calendar. *)

Record year_month_day := mk_ymd { ymd_year : Z; ymd_month : Z; ymd_day : Z }.

Definition year_min : Z := -32767.
Definition year_max : Z := 32767.

Definition is_leap (y : Z) : bool := (y `mod` 4 =? 0) && (negb (y `mod` 100 =? 0) || (y `mod` 400 =? 0)).

Definition last_day (y m : Z) : Z :=
  if m =? 2 then (if is_leap y then 29 else 28)
  else if (m =? 4) || (m =? 6) || (m =? 9) || (m =? 11) then 30 else 31.

Definition year_ok (y : Z) : bool := (year_min <=? y) && (y <=? year_max).
Definition month_ok (m : Z) : bool := (1 <=? m) && (m <=? 12).
Definition day_ok (d : Z) : bool := (1 <=? d) && (d <=? 31).

Definition date_ok (date : year_month_day) : bool :=
  year_ok (ymd_year date) && month_ok (ymd_month date) &&
  (1 <=? ymd_day date) && (ymd_day date <=? last_day (ymd_year date) (ymd_month date)).

(** ** Writing *)

Definition s_bc : list ascii := list_ascii_of_string " BC".

Definition date_size_buffer : nat := (5 + 1 + 2 + 1 + 2 + length s_bc + 1)%nat.

Definition number_to_digit (i : Z) : ascii := char_of (i + 48).

(** The year in the calendar without a year zero: at least four digits, no
    sign. *)
Definition year_into_buf (begin : nat) (y : Z) : buf nat :=
  if y =? year_min then puts begin (list_ascii_of_string "32768")
  else
    let absy := wrap_s 16 (Z.abs y + (if y <=? 0 then 1 else 0)) in
    begin ← (if absy <? 1000 then
               begin ← put begin "0"%char;
               begin ← (if absy <? 100 then put begin "0"%char else mret begin);
               if absy <? 10 then put begin "0"%char else mret begin
             else mret begin);
    here ← integral_into_buf t_short begin absy;
    mret (here - 1)%nat.

Definition month_into_buf (begin : nat) (m : Z) : buf nat :=
  begin ← put begin (if 10 <=? m then "1"%char else "0"%char);
  put begin (number_to_digit (m `mod` 10)).

Definition day_into_buf (begin : nat) (d : Z) : buf nat :=
  begin ← put begin (number_to_digit (d / 10));
  put begin (number_to_digit (d `mod` 10)).

Definition date_into_buf (begin : nat) (value : year_month_day) : buf nat :=
  size ← buf_end;
  if (size - begin <? date_size_buffer)%nat
  then throws (conversion_overrun "Not enough room in buffer for date.")
  else
    begin ← year_into_buf begin (ymd_year value);
    begin ← put begin "-"%char;
    begin ← month_into_buf begin (ymd_month value);
    begin ← put begin "-"%char;
    begin ← day_into_buf begin (ymd_day value);
    begin ← (if ymd_year value <=? 0 then puts begin s_bc else mret begin);
    put begin NUL.

(** ** Reading *)

Definition year_from_buf (text : list ascii) : result exn Z :=
  if (length text <? 4)%nat then
    Throw (conversion_error ("Year field is too small: '" +:+ string_of_list_ascii text +:+ "'."))
  else
    year ← int_from_string t_int (string_of_list_ascii text);
    if year <=? 0
    then Throw (conversion_error ("Bad year: '" +:+ string_of_list_ascii text +:+ "'."))
    else Ok year.

(** [text[0]] and [text[1]] as a number, if they are digits; reading behind the
    text is undefined. *)
Definition two_digits (text : list ascii) : option (option Z) :=
  match text with
  | c0 :: rest =>
      if is_digit c0 then
        match rest with
        | c1 :: _ => Some (if is_digit c1 then Some (10 * digit_val c0 + digit_val c1) else None)
        | [] => None
        end
      else Some None
  | [] => None
  end.

Definition month_from_string (text : list ascii) : option (result exn Z) :=
  match two_digits text with
  | Some (Some m) => Some (Ok m)
  | Some None => Some (Throw (conversion_error ("Invalid month: '" +:+ string_of_list_ascii text +:+ "'.")))
  | None => None
  end.

Definition day_from_string (text : list ascii) : option (result exn Z) :=
  let bad := Throw (conversion_error ("Bad day in date: '" +:+ string_of_list_ascii text +:+ "'.")) in
  match two_digits text with
  | Some (Some d) => Some (if day_ok d then Ok d else bad)
  | Some None => Some bad
  | None => None
  end.

Fixpoint find_year_month_separator (text : list ascii) : nat :=
  match text with
  | c :: text' => if Ascii.eqb c "-" then O else S (find_year_month_separator text')
  | [] => O
  end.

Definition make_parse_error (text : list ascii) : exn :=
  conversion_error ("Invalid date: '" +:+ string_of_list_ascii text +:+ "'.").

Definition ends_with (text suffix : list ascii) : bool :=
  (length suffix <=? length text)%nat &&
  bool_decide (drop (length text - length suffix) text = suffix).

(** Two results in a row, the first of which may be undefined. *)
Definition and_then {A B} (r : option (result exn A)) (k : A → option (result exn B)) : option (result exn B) :=
  match r with
  | Some (Ok a) => k a
  | Some (Throw e) => Some (Throw e)
  | None => None
  end.

(** [year_of_int] is the constructor of [std::chrono::year], whose value the
    standard leaves unspecified outside of [year_min] to [year_max]. *)
Definition date_from_string (year_of_int : Z → Z) (text : list ascii) : option (result exn year_month_day) :=
  if (length text <? 9)%nat then Some (Throw (make_parse_error text))
  else
    let is_bc := ends_with text s_bc in
    let text := if is_bc then take (length text - length s_bc) text else text in
    let ymsep := find_year_month_separator text in
    if negb (length text - ymsep =? 6)%nat then Some (Throw (make_parse_error text))
    else
      and_then (Some (year_from_buf (take ymsep text))) (λ base_year,
      if base_year =? 0 then Some (Throw (conversion_error "Year zero conversion."))
      else
        let y := year_of_int (if is_bc then - base_year + 1 else base_year) in
        and_then (month_from_string (take 2 (drop (ymsep + 1) text))) (λ m,
        match text !! (ymsep + 3)%nat with
        | None => None
        | Some c =>
            if negb (Ascii.eqb c "-") then Some (Throw (make_parse_error text))
            else
              and_then (day_from_string (take 2 (drop (ymsep + 4) text))) (λ d,
              let date := mk_ymd y m d in
              if date_ok date then Some (Ok date) else Some (Throw (make_parse_error text)))
        end)).

(** *** Examples *)

Definition write_date (date : year_month_day) : option (result exn string) :=
  match date_into_buf 0 date (replicate date_size_buffer NUL) with
  | Some (Ok here, m) => Some (Ok (string_of_list_ascii (take (here - 1) m)))
  | Some (Throw e, _) => Some (Throw e)
  | None => None
  end.

Example write_dates :
  map write_date [mk_ymd 2024 2 29; mk_ymd 33 12 1; mk_ymd 0 1 1; mk_ymd (-32767) 10 31] =
  [Some (Ok "2024-02-29"); Some (Ok "0033-12-01"); Some (Ok "0001-01-01 BC");
   Some (Ok "32768-10-31 BC")]%string.
Proof. vm_compute. reflexivity. Qed.

Example read_dates :
  map (λ s, date_from_string (λ y, y) (list_ascii_of_string s))
    ["2024-02-29"; "0001-01-01 BC"; "32768-10-31 BC"; "2023-02-29"; "20-02-29"; "2024-02-2a"; "32768-01-01"]%string =
  [Some (Ok (mk_ymd 2024 2 29)); Some (Ok (mk_ymd 0 1 1)); Some (Ok (mk_ymd (-32767) 10 31));
   Some (Throw (conversion_error "Invalid date: '2023-02-29'."));
   Some (Throw (conversion_error "Invalid date: '20-02-29'."));
   Some (Throw (conversion_error "Bad day in date: '2a'."));
   Some (Throw (conversion_error "Invalid date: '32768-01-01'."))].
Proof. vm_compute. reflexivity. Qed.

(** ** The text of a date *)

(** The year as PostgreSQL counts it. *)
Definition sql_year (y : Z) : Z := if y <=? 0 then 1 - y else y.

Definition year_text (y : Z) : list ascii :=
  let n := sql_year y in
  (if n <? 1000 then "0"%char :: (if n <? 100 then ["0"%char] else []) ++ (if n <? 10 then ["0"%char] else []) else [])
  ++ list_ascii_of_string (dec_nonneg n).

Definition pair_text (n : Z) : list ascii := [digit_char (n / 10); digit_char (n `mod` 10)].

Definition day_text (date : year_month_day) : list ascii :=
  year_text (ymd_year date) ++ "-"%char :: pair_text (ymd_month date) ++ "-"%char :: pair_text (ymd_day date).

Definition date_text (date : year_month_day) : list ascii :=
  day_text date ++ (if ymd_year date <=? 0 then s_bc else []).

(** *** Its shape *)

Lemma year_ok_range y : year_ok y = true → -32767 <= y <= 32767.
Proof. unfold year_ok, year_min, year_max. intros H. b2p. lia. Qed.

Lemma sql_year_range y : year_ok y = true → 1 <= sql_year y <= 32768.
Proof. intros Hy%year_ok_range. unfold sql_year. destruct (Z.leb_spec y 0); lia. Qed.

Lemma dec_value_from_bound acc s :
  0 <= acc → sforall is_digit s = true →
  dec_value_from acc s < (acc + 1) * 10 ^ Z.of_nat (String.length s).
Proof.
  revert acc. induction s as [|c s IH]; intros acc Hacc Hs; [cbn; lia|].
  cbn [sforall] in Hs. apply andb_true_iff in Hs as [Hc Hs].
  pose proof (digit_val_range c Hc). cbn [String.length dec_value_from].
  rewrite Nat2Z.inj_succ, Z.pow_succ_r by lia. specialize (IH (10 * acc + digit_val c) ltac:(lia) Hs).
  pose proof (Z.pow_pos_nonneg 10 (Z.of_nat (String.length s)) ltac:(lia) ltac:(lia)). nia.
Qed.

(** The number of digits of a number. *)
Lemma dec_nonneg_longer n k :
  0 <= k → 10 ^ k <= n → k < Z.of_nat (String.length (dec_nonneg n)).
Proof.
  intros Hk Hn. assert (0 <= n) by (pose proof (Z.pow_pos_nonneg 10 k ltac:(lia) Hk); lia).
  pose proof (dec_value_from_bound 0 (dec_nonneg n) ltac:(lia) (dec_nonneg_digits n ltac:(lia))) as Hb.
  fold (dec_value (dec_nonneg n)) in Hb. rewrite dec_value_nonneg in Hb by done.
  apply Z.pow_lt_mono_r_iff with (a := 10); lia.
Qed.

Lemma year_text_length y : year_ok y = true → (4 <= length (year_text y) <= 5)%nat.
Proof.
  intros Hy%sql_year_range. unfold year_text. cbv zeta. set (n := sql_year y) in *.
  rewrite length_app, length_list_ascii.
  pose proof (λ k H1 H2, dec_nonneg_longer n k H1 H2) as Hlo.
  pose proof (λ k H1 H2, dec_nonneg_length n k H1 H2) as Hhi. cbv beta in Hlo, Hhi.
  pose proof (Hhi 5 ltac:(lia) ltac:(lia)).
  destruct (Z.ltb_spec n 1000); [destruct (Z.ltb_spec n 100); [destruct (Z.ltb_spec n 10)|]|]; cbn [length app].
  - pose proof (Hlo 0 ltac:(lia) ltac:(lia)). pose proof (Hhi 1 ltac:(lia) ltac:(lia)). lia.
  - pose proof (Hlo 1 ltac:(lia) ltac:(lia)). pose proof (Hhi 2 ltac:(lia) ltac:(lia)). lia.
  - rewrite (proj2 (Z.ltb_ge n 10)) by lia. cbn [length app].
    pose proof (Hlo 2 ltac:(lia) ltac:(lia)). pose proof (Hhi 3 ltac:(lia) ltac:(lia)). lia.
  - pose proof (Hlo 3 ltac:(lia) ltac:(lia)). lia.
Qed.

Lemma year_text_reads y :
  year_ok y = true →
  sforall is_digit (string_of_list_ascii (year_text y)) = true ∧
  dec_value (string_of_list_ascii (year_text y)) = sql_year y.
Proof.
  intros Hy%sql_year_range. unfold year_text. cbv zeta. set (n := sql_year y) in *.
  assert (Hn : sforall is_digit (dec_nonneg n) = true ∧ dec_value (dec_nonneg n) = n).
  { split; [apply dec_nonneg_digits; lia|apply dec_value_nonneg; lia]. }
  destruct (n <? 1000), (n <? 100), (n <? 10); cbn [app string_of_list_ascii sforall];
    rewrite string_of_list_ascii_of_string; exact Hn.
Qed.

Lemma find_separator t rest :
  sforall is_digit (string_of_list_ascii t) = true →
  find_year_month_separator (t ++ "-"%char :: rest) = length t.
Proof.
  induction t as [|c t IH]; cbn [string_of_list_ascii sforall app find_year_month_separator length]; [done|].
  intros [Hc Ht]%andb_true_iff. destruct (Ascii.eqb_spec c "-") as [->|]; [done|]. by rewrite IH.
Qed.

(** ** Writing gives the text *)

Lemma writes_if (b : bool) x m c :
  x `prefix_of` m → (length x < length m)%nat →
  writes (λ here, if b then put here c else mret here) x m (if b then [c] else []).
Proof. intros Hp Hlt. destruct b; [by apply writes_put|by apply writes_ret]. Qed.

Lemma writes_two x m a b :
  x `prefix_of` m → (length x + 2 <= length m)%nat →
  writes (λ here, here ← put here a; put here b) x m [a; b].
Proof.
  intros Hp Hlen. apply (writes_bind _ (λ here, put here b) x m [a] [b]); [apply writes_put; [done|lia]|].
  intros m' Hl Hp'. apply writes_put; [done|]. rewrite length_app. cbn. lia.
Qed.

Lemma year_into_buf_writes y x m :
  year_ok y = true → x `prefix_of` m → (length x + 12 <= length m)%nat →
  writes (λ here, year_into_buf here y) x m (year_text y).
Proof.
  intros Hy Hp Hlen. pose proof (year_ok_range y Hy) as Hr.
  pose proof (year_text_length y Hy) as Hl. unfold year_into_buf.
  destruct (Z.eqb_spec y year_min) as [->|Hmin].
  { apply (writes_puts x m (year_text year_min)); [done|lia]. }
  unfold year_min in Hmin. cbv zeta.
  assert (Eabs : wrap_s 16 (Z.abs y + (if y <=? 0 then 1 else 0)) = sql_year y).
  { unfold sql_year. destruct (Z.leb_spec y 0); rewrite wrap_s_id; unfold in_s; lia. }
  rewrite Eabs. unfold year_text. cbv zeta. pose proof (sql_year_range y Hy).
  assert (sql_year y <= 32767) by (unfold sql_year; destruct (Z.leb_spec y 0); lia).
  set (n := sql_year y) in *.
  apply (writes_bind (λ here,
    if n <? 1000 then
      begin ← put here "0"%char;
      begin ← (if n <? 100 then put begin "0"%char else mret begin);
      if n <? 10 then put begin "0"%char else mret begin
    else mret here) (λ here, here ← integral_into_buf t_short here n; mret (here - 1)%nat)).
  - destruct (n <? 1000); [|by apply writes_ret].
    apply (writes_bind (λ here, put here "0"%char) (λ begin,
      begin ← (if n <? 100 then put begin "0"%char else mret begin);
      if n <? 10 then put begin "0"%char else mret begin) x m ["0"%char]); [apply writes_put; [done|lia]|].
    intros m1 Hl1 Hp1.
    apply (writes_bind (λ here, if n <? 100 then put here "0"%char else mret here)
      (λ here, if n <? 10 then put here "0"%char else mret here)).
    + apply writes_if; [done|]. rewrite length_app. cbn. lia.
    + intros m2 Hl2 Hp2. apply writes_if; [done|]. rewrite !length_app. cbn. case_match; cbn; lia.
  - intros m' Hm' Hp'. apply (writes_back _ _ (λ here, integral_into_buf t_short here n) _ NUL).
    replace (dec_nonneg n) with (to_string n).
    + apply integral_into_buf_writes; [by left| |done|].
      * unfold in_type. cbn. lia.
      * change (Z.to_nat (size_buffer t_short)) with 7%nat. rewrite length_app.
        destruct (n <? 1000), (n <? 100), (n <? 10); cbn [length app]; lia.
    + unfold to_string. by rewrite (proj2 (Z.ltb_ge _ _)) by lia.
Qed.

Lemma number_to_digit_char i : number_to_digit i = digit_char i.
Proof. unfold number_to_digit, digit_char. f_equal. lia. Qed.

Lemma month_into_buf_writes mo x m :
  0 <= mo < 20 → x `prefix_of` m → (length x + 2 <= length m)%nat →
  writes (λ here, month_into_buf here mo) x m (pair_text mo).
Proof.
  intros Hmo Hp Hlen. unfold month_into_buf, pair_text. rewrite number_to_digit_char.
  assert (Etens : (if 10 <=? mo then "1"%char else "0"%char) = digit_char (mo / 10)).
  { destruct (Z.leb_spec 10 mo).
    - replace (mo / 10) with 1 by (apply Z.div_unique with (r := mo - 10); lia). done.
    - by rewrite Z.div_small by lia. }
  rewrite Etens. by apply writes_two.
Qed.

Lemma day_into_buf_writes d x m :
  x `prefix_of` m → (length x + 2 <= length m)%nat →
  writes (λ here, day_into_buf here d) x m (pair_text d).
Proof.
  intros Hp Hlen. unfold day_into_buf, pair_text. rewrite !number_to_digit_char. by apply writes_two.
Qed.

(** ** [string_traits] of dates *)

Lemma date_ok_inv date :
  date_ok date = true →
  year_ok (ymd_year date) = true ∧ 1 <= ymd_month date <= 12 ∧ 1 <= ymd_day date <= 31.
Proof.
  unfold date_ok, month_ok, last_day. intros H. b2p. split; [done|]. split; [lia|].
  repeat case_match; lia.
Qed.

Lemma date_text_length date :
  date_ok date = true → (10 <= length (day_text date) <= 11 ∧ length (date_text date) + 1 <= date_size_buffer)%nat.
Proof.
  intros (Hy & _ & _)%date_ok_inv. apply year_text_length in Hy.
  unfold date_text, day_text. rewrite !length_app. cbn [length pair_text app].
  unfold date_size_buffer. destruct (_ <=? _); cbn; lia.
Qed.

Lemma date_into_buf_writes date x m :
  date_ok date = true → x `prefix_of` m → (length x + date_size_buffer <= length m)%nat →
  writes (λ here, date_into_buf here date) x m (date_text date ++ [NUL]).
Proof.
  intros Hok Hp Hlen. destruct (date_ok_inv date Hok) as (Hy & Hmo & Hd).
  pose proof (year_text_length _ Hy) as Hyl. unfold date_size_buffer in Hlen. cbn [length s_bc] in Hlen.
  set (k5 := λ here, here ← (if ymd_year date <=? 0 then puts here s_bc else mret here); put here NUL).
  set (k4 := λ here, here ← day_into_buf here (ymd_day date); k5 here).
  set (k3 := λ here, here ← put here "-"%char; k4 here).
  set (k2 := λ here, here ← month_into_buf here (ymd_month date); k3 here).
  set (k1 := λ here, here ← put here "-"%char; k2 here).
  assert (Hall : writes (λ here, here ← year_into_buf here (ymd_year date); k1 here) x m
    (year_text (ymd_year date) ++ ["-"%char] ++ pair_text (ymd_month date) ++ ["-"%char] ++
     pair_text (ymd_day date) ++ (if ymd_year date <=? 0 then s_bc else []) ++ [NUL])).
  { change (length s_bc) with 3%nat in Hlen.
    apply writes_bind; [apply year_into_buf_writes; [done|done|lia]|]. intros m1 Hl1 Hp1.
    apply writes_bind; [apply writes_put; [done|rewrite length_app; lia]|]. intros m2 Hl2 Hp2.
    apply writes_bind; [apply month_into_buf_writes; [lia|done|rewrite !length_app; cbn [length]; lia]|].
    intros m3 Hl3 Hp3.
    apply writes_bind; [apply writes_put; [done|rewrite !length_app; cbn [length pair_text]; lia]|].
    intros m4 Hl4 Hp4.
    apply writes_bind; [apply day_into_buf_writes; [done|rewrite !length_app; cbn [length pair_text]; lia]|].
    intros m5 Hl5 Hp5. apply (writes_bind (λ here, if ymd_year date <=? 0 then puts here s_bc else mret here)).
    - destruct (_ <=? _); [|by apply writes_ret].
      apply writes_puts; [done|rewrite !length_app; cbn [length pair_text]; change (length s_bc) with 3%nat; lia].
    - intros m6 Hl6 Hp6. apply writes_put; [done|]. rewrite !length_app. cbn [length pair_text].
      destruct (_ <=? _); cbn [length s_bc]; change (length s_bc) with 3%nat; cbn [length]; lia. }
  unfold date_text, day_text. rewrite <-!app_assoc. cbn [app]. rewrite <-!app_assoc. cbn [app].
  destruct Hall as (m' & Hw & ?). exists m'. split; [|done]. unfold date_into_buf.
  unfold mbind at 1, buf_bind at 1, buf_end. unfold date_size_buffer.
  rewrite (proj2 (Nat.ltb_ge _ _)) by lia. exact Hw.
Qed.

(** A day of the calendar. *)
Record calendar_day := mk_day {
  day_date : year_month_day;
  day_date_ok : date_ok day_date = true;
}.

#[export] Instance date_traits : StringTraits calendar_day := {|
  is_null := λ _, false;
  size_buf := λ _, date_size_buffer;
  into_buf := λ begin value, date_into_buf begin (day_date value);
  unquoted_safe := false;
  sql_array := false;
  separator := ",";
|}.

#[export] Program Instance date_laws : StringTraitsLaws calendar_day := {|
  text := λ value, date_text (day_date value);
  room := λ _, date_size_buffer;
|}.
Next Obligation. intros [date Hok] x m _ Hp Hlen. by apply date_into_buf_writes. Qed.
Next Obligation. intros [date Hok] _. by apply date_text_length. Qed.
Next Obligation. done. Qed.

#[export] Instance date_exact : ExactSize calendar_day.
Proof. done. Qed.

(** ** Reading the text back *)

Lemma year_from_buf_text y :
  year_ok y = true → year_from_buf (year_text y) = Ok (sql_year y).
Proof.
  intros Hy. pose proof (year_text_length y Hy). pose proof (sql_year_range y Hy).
  destruct (year_text_reads y Hy) as [Hd Hv]. unfold year_from_buf.
  rewrite (proj2 (Nat.ltb_ge _ _)) by lia.
  assert (Hne : string_of_list_ascii (year_text y) ≠ EmptyString).
  { destruct (year_text y); [cbn in *; lia|done]. }
  assert (Hread : int_from_string t_int (string_of_list_ascii (year_text y)) = Ok (sql_year y)).
  { apply int_from_string_spec; [apply int_types_ok; by do 2 right; left|].
    assert (Hskip : skip_blanks (string_of_list_ascii (year_text y)) = string_of_list_ascii (year_text y)).
    { destruct (string_of_list_ascii (year_text y)) as [|c s]; [done|]. cbn [sforall] in Hd.
      apply andb_true_iff in Hd as [Hc _]. cbn [skip_blanks]. by rewrite is_blank_not_digit. }
    rewrite Hskip. left. exists (string_of_list_ascii (year_text y)).
    split; [done|]. split; [done|]. split; [done|]. split; [by rewrite Hv|]. cbn. lia. }
  rewrite Hread. unfold mbind, result_bind. by rewrite (proj2 (Z.leb_gt _ _)) by lia.
Qed.

Lemma two_digits_pair n rest : 0 <= n < 100 → two_digits (pair_text n ++ rest) = Some (Some n).
Proof.
  intros Hn. pose proof (Z.div_mod n 10 ltac:(lia)). pose proof (Z.mod_pos_bound n 10 ltac:(lia)).
  assert (0 <= n / 10 < 10).
  { split; [apply Z.div_pos; lia|apply Z.div_lt_upper_bound; lia]. }
  unfold pair_text. cbn [app two_digits]. rewrite !digit_char_is_digit by lia.
  rewrite !digit_val_char by lia. do 2 f_equal. lia.
Qed.

Lemma ends_with_app t suffix : ends_with (t ++ suffix) suffix = true.
Proof.
  unfold ends_with. rewrite length_app, (proj2 (Nat.leb_le _ _)) by lia.
  rewrite Nat.add_sub, drop_app_length. by apply bool_decide_true.
Qed.

Lemma ends_with_last t c suffix d : c ≠ d → ends_with (t ++ [c]) (suffix ++ [d]) = false.
Proof.
  intros Hne. unfold ends_with. apply andb_false_iff. right. apply bool_decide_false. intros E.
  apply (f_equal list.last) in E. rewrite last_snoc in E.
  set (n := (length (t ++ [c]) - length (suffix ++ [d]))%nat) in E.
  assert (Hn : (n <= length t)%nat) by (unfold n; rewrite !length_app; cbn; lia).
  rewrite drop_app_le, last_snoc in E by done. congruence.
Qed.

(** The day without its era. *)
Lemma strip_bc date :
  date_ok date = true →
  ends_with (date_text date) s_bc = (ymd_year date <=? 0) ∧
  (if ends_with (date_text date) s_bc
   then take (length (date_text date) - length s_bc) (date_text date) else date_text date) = day_text date.
Proof.
  intros Hok. unfold date_text. destruct (ymd_year date <=? 0).
  - rewrite ends_with_app. split; [done|]. by rewrite length_app, Nat.add_sub, take_app_length.
  - rewrite app_nil_r. assert (Hend : ends_with (day_text date) s_bc = false); [|by rewrite Hend].
    assert (Ht : ∃ t' : list ascii, day_text date = t' ++ [digit_char (ymd_day date `mod` 10)]).
    { exists (year_text (ymd_year date) ++ "-"%char :: pair_text (ymd_month date) ++
        ["-"%char; digit_char (ymd_day date / 10)]).
      unfold day_text, pair_text. rewrite <-!app_assoc. reflexivity. }
    destruct Ht as [t' ->]. apply (ends_with_last _ _ (list_ascii_of_string " B")).
    pose proof (Z.mod_pos_bound (ymd_day date) 10 ltac:(lia)) as Hm.
    pose proof (digit_char_is_digit _ Hm) as Hdig. intros E. by rewrite E in Hdig.
Qed.

Lemma date_from_string_text year_of_int date :
  (∀ y, year_ok y = true → year_of_int y = y) → date_ok date = true →
  date_from_string year_of_int (date_text date) = Some (Ok date).
Proof.
  intros Hid Hok. destruct (date_ok_inv date Hok) as (Hy & Hmo & Hd).
  pose proof (date_text_length date Hok) as [Hlen _]. destruct (strip_bc date Hok) as [Hbc Hstrip].
  assert (Htext : (10 <= length (date_text date))%nat) by (unfold date_text; rewrite length_app; lia).
  unfold date_from_string. rewrite (proj2 (Nat.ltb_ge _ _)) by lia. rewrite Hstrip, Hbc. cbv zeta.
  set (yt := year_text (ymd_year date)) in *. set (n := length yt) in *.
  assert (Hsep : find_year_month_separator (day_text date) = n).
  { apply find_separator, (year_text_reads _ Hy). }
  assert (Hdrop : ∀ k, drop (n + k) (day_text date) =
            drop k ("-"%char :: pair_text (ymd_month date) ++ "-"%char :: pair_text (ymd_day date))).
  { intros k. unfold day_text, n, yt. by rewrite drop_app_add. }
  assert (Hl : length (day_text date) = (n + 6)%nat) by (unfold day_text; rewrite length_app; done).
  rewrite Hsep, Hl. replace (n + 6 - n =? 6)%nat with true by (symmetry; apply Nat.eqb_eq; lia).
  cbn [negb]. replace (take n (day_text date)) with yt by (unfold day_text, n, yt; by rewrite take_app_length).
  unfold yt. rewrite (year_from_buf_text _ Hy). cbn [and_then]. pose proof (sql_year_range _ Hy).
  rewrite (proj2 (Z.eqb_neq _ _)) by lia.
  assert (Hyear : year_of_int (if ymd_year date <=? 0 then - sql_year (ymd_year date) + 1 else sql_year (ymd_year date))
            = ymd_year date).
  { unfold sql_year. destruct (Z.leb_spec (ymd_year date) 0); rewrite <-(Hid _ Hy) at 2; f_equal; lia. }
  rewrite Hyear, !Hdrop. unfold month_from_string, day_from_string.
  cbn [drop take app pair_text]. fold (pair_text (ymd_month date)) (pair_text (ymd_day date)).
  rewrite <-(app_nil_r (pair_text (ymd_month date))), <-(app_nil_r (pair_text (ymd_day date))).
  rewrite !two_digits_pair by lia. cbn [and_then].
  rewrite <-(Nat.add_0_r (n + 3)%nat), <-lookup_drop, Hdrop. cbn [drop app pair_text lookup list_lookup].
  rewrite Ascii.eqb_refl. cbn [negb]. unfold day_ok.
  rewrite (proj2 (Z.leb_le 1 _)), (proj2 (Z.leb_le _ 31)) by lia. cbn [andb and_then].
  destruct date. cbn [ymd_year ymd_month ymd_day] in *. by rewrite Hok.
Qed.

Lemma two_digits_total t : length t = 2%nat → ∃ r, two_digits t = Some r.
Proof.
  destruct t as [|a [|b [|]]]; cbn; try done. intros _. destruct (is_digit a); eauto.
Qed.

Lemma date_from_string_total year_of_int t :
  ∃ r, date_from_string year_of_int t = Some r ∧ ∀ date, r = Ok date → date_ok date = true.
Proof.
  unfold date_from_string. destruct (_ <? _)%nat; [by eexists|]. cbv zeta.
  set (u := if ends_with t s_bc then _ else t). set (n := find_year_month_separator u).
  destruct (Nat.eqb_spec (length u - n) 6) as [Hl|]; cbn [negb]; [|by eexists].
  destruct (year_from_buf (take n u)) as [y|e]; cbn [and_then]; [|by eexists].
  destruct (y =? 0); [by eexists|].
  destruct (two_digits_total (take 2 (drop (n + 1) u))) as [mo Hmo].
  { rewrite length_take, length_drop. lia. }
  unfold month_from_string. rewrite Hmo. destruct mo as [mo|]; cbn [and_then]; [|by eexists].
  destruct (lookup_lt_is_Some_2 u (n + 3)) as [c ->]; [lia|].
  destruct (Ascii.eqb c "-"); cbn [negb]; [|by eexists].
  destruct (two_digits_total (take 2 (drop (n + 4) u))) as [d Hd].
  { rewrite length_take, length_drop. lia. }
  unfold day_from_string. rewrite Hd. destruct d as [d|]; cbn [and_then]; [|by eexists].
  destruct (day_ok d); cbn [and_then]; [|by eexists].
  destruct (date_ok _) eqn:Eok; eexists; (split; [done|]); [by intros ? [= <-]|done].
Qed.

(** ** The property *)

(** C36. Dates survive their text.  For every day of the Gregorian calendar from
    32768 BC to 32767 AD, [into_buf] writes its text and a zero within the 15
    bytes of [size_buffer] and refuses a smaller buffer, and [from_string] of
    the text gives the day back; for any text at all [from_string] stays inside
    of it and gives a day of the calendar or an exception.  But it does not
    check the range of the year: a text whose year [std::chrono::year]
    narrows to a valid one (the standard leaves the result unspecified) is
    read as another day. *)
Theorem date_round_trip (year_of_int : Z → Z) :
  (∀ y, year_ok y = true → year_of_int y = y) →
  (∀ date x m, date_ok date = true → x `prefix_of` m →
    (length x + date_size_buffer <= length m)%nat →
    writes (λ here, date_into_buf here date) x m (date_text date ++ [NUL])) ∧
  (∀ date here m, (length m - here < date_size_buffer)%nat →
    date_into_buf here date m = Some (Throw (conversion_overrun "Not enough room in buffer for date."), m)) ∧
  (∀ date, date_ok date = true → date_from_string year_of_int (date_text date) = Some (Ok date)) ∧
  (∀ t, ∃ r, date_from_string year_of_int t = Some r ∧ ∀ date, r = Ok date → date_ok date = true) ∧
  (year_of_int 67560 = 2024 →
    date_from_string year_of_int (list_ascii_of_string "67560-02-29") = Some (Ok (mk_ymd 2024 2 29))).
Proof.
  intros Hid. split_and!.
  - intros date x m. by apply date_into_buf_writes.
  - intros date here m Hlen. unfold date_into_buf. unfold mbind at 1, buf_bind at 1, buf_end.
    by rewrite (proj2 (Nat.ltb_lt _ _)).
  - intros date. by apply date_from_string_text.
  - intros t. apply date_from_string_total.
  - intros H.
    assert (E : and_then (Some (year_from_buf (list_ascii_of_string "67560"))) (λ base_year,
      date_from_string (λ _, year_of_int base_year) (list_ascii_of_string "67560-02-29")) =
      date_from_string year_of_int (list_ascii_of_string "67560-02-29")) by (vm_compute; reflexivity).
    rewrite <-E. vm_compute in H |- *. rewrite H. reflexivity.
Qed.

(** The constructor of libstdc++ keeps the low 16 bits. *)
Lemma date_round_trip_witness :
  date_from_string (wrap_s 16) (date_text (mk_ymd (-32767) 2 28)) = Some (Ok (mk_ymd (-32767) 2 28)) ∧
  date_from_string (wrap_s 16) (list_ascii_of_string "67560-02-29") = Some (Ok (mk_ymd 2024 2 29)).
Proof.
  destruct (date_round_trip (wrap_s 16)) as (_ & _ & Hread & _ & Hwrap).
  { intros y Hy%year_ok_range. apply wrap_s_id; [lia|]. unfold in_s. lia. }
  split; [apply Hread; reflexivity|]. apply Hwrap. vm_compute. reflexivity.
Defined.
