(* ===== verification/PqxxResult.v ===== *)
(** Query results of libpqxx: the encoding group of a connection
    (encodings.cxx), the check of a result's status and the exception thrown
    for a failed statement (result.cxx), and reading fields (field.hxx). *)

From S2P Require Import Prelude Decimal Doubles Exceptions Effects PqxxConv.

Local Open Scope string_scope.

(** ** Encodings *)

Inductive encoding_group :=
  | MONOBYTE | BIG5 | EUC_CN | EUC_JP | EUC_JIS_2004 | EUC_KR | EUC_TW | GB18030 | GBK
  | JOHAB | MULE_INTERNAL | SJIS | SHIFT_JIS_2004 | UHC | UTF8.

(** The names [enc_group] recognises, with their groups. *)
Definition encoding_names : list (string * encoding_group) :=
  [("BIG5", BIG5);
   ("EUC_CN", EUC_CN); ("EUC_JIS_2004", EUC_JIS_2004); ("EUC_JP", EUC_JP);
   ("EUC_KR", EUC_KR); ("EUC_TW", EUC_TW);
   ("GB18030", GB18030); ("GBK", GBK);
   ("ISO_8859_5", MONOBYTE); ("ISO_8859_6", MONOBYTE); ("ISO_8859_7", MONOBYTE);
   ("ISO_8859_8", MONOBYTE);
   ("JOHAB", JOHAB); ("KOI8R", MONOBYTE); ("KOI8U", MONOBYTE);
   ("LATIN1", MONOBYTE); ("LATIN2", MONOBYTE); ("LATIN3", MONOBYTE); ("LATIN4", MONOBYTE);
   ("LATIN5", MONOBYTE); ("LATIN6", MONOBYTE); ("LATIN7", MONOBYTE); ("LATIN8", MONOBYTE);
   ("LATIN9", MONOBYTE); ("LATIN10", MONOBYTE);
   ("MULE_INTERNAL", MULE_INTERNAL);
   ("SHIFT_JIS_2004", SHIFT_JIS_2004); ("SJIS", SJIS); ("SQL_ASCII", MONOBYTE);
   ("UHC", UHC); ("UTF8", UTF8);
   ("WIN866", MONOBYTE); ("WIN874", MONOBYTE); ("WIN1250", MONOBYTE); ("WIN1251", MONOBYTE);
   ("WIN1252", MONOBYTE); ("WIN1253", MONOBYTE); ("WIN1254", MONOBYTE); ("WIN1255", MONOBYTE);
   ("WIN1256", MONOBYTE); ("WIN1257", MONOBYTE); ("WIN1258", MONOBYTE)].

Definition enc_group (encoding_name : string) : result exn encoding_group :=
  match find (λ p, String.eqb p.1 encoding_name) encoding_names with
  | Some p => Ok p.2
  | None => Throw (mk_exn std_invalid_argument
      (c_str ("Unrecognized encoding: '" +:+ encoding_name +:+ "'.")))
  end.

(** ** Results *)

Record query_result := mk_query_result {
  m_data : pg_result;
  m_query : string;
  m_encoding : encoding_group;
}.

(** [throw_sql_error]: the exception for an SQLSTATE. *)
Definition sql_exn (name Err : string) : exn := mk_exn (pqxx_sql_error name) (c_str Err).
Definition broken_exn (Err : string) : exn := mk_exn pqxx_broken_connection (c_str Err).
Definition failure_exn (Err : string) : exn := mk_exn pqxx_failure (c_str Err).
Definition internal_exn (Err : string) : exn :=
  mk_exn pqxx_internal_error (c_str ("libpqxx internal error: " +:+ Err)).
Definition usage_exn (Err : string) : exn := mk_exn pqxx_usage_error (c_str Err).
Definition in_doubt_exn (Err : string) : exn := mk_exn pqxx_in_doubt_error (c_str Err).

(** The exceptions for exact codes and for classes of codes, in the order the
    source tests them; [None] is [broken_connection]. *)
Definition sqlstate_table : list (string * string) :=
  [("23001", "restrict_violation"); ("23502", "not_null_violation");
   ("23503", "foreign_key_violation"); ("23505", "unique_violation");
   ("23514", "check_violation");
   ("40000", "transaction_rollback"); ("40001", "serialization_failure");
   ("40P01", "deadlock_detected");
   ("42501", "insufficient_privilege"); ("42601", "syntax_error");
   ("42703", "undefined_column"); ("42883", "undefined_function");
   ("42P01", "undefined_table");
   ("53100", "disk_full"); ("53200", "out_of_memory");
   ("P0001", "plpgsql_raise"); ("P0002", "plpgsql_no_data_found");
   ("P0003", "plpgsql_too_many_rows")].
Definition sqlstate_classes : list (string * string) :=
  [("0A", "feature_not_supported"); ("0L", "insufficient_privilege");
   ("0P", "insufficient_privilege"); ("22", "data_exception");
   ("23", "integrity_constraint_violation"); ("24", "invalid_cursor_state");
   ("26", "invalid_sql_statement_name"); ("34", "invalid_cursor_name");
   ("53", "insufficient_resources"); ("P", "plpgsql_error")].

Definition throw_sql_error (Err : string) (code : option string) : exn :=
  match code with
  | None => broken_exn Err
  | Some code =>
      if is_empty code then broken_exn Err
      else if String.prefix "08" code then broken_exn Err
      else if String.eqb code "40003"
      then mk_exn pqxx_statement_completion_unknown (c_str Err)
      else if String.eqb code "53300" then broken_exn Err
      else
        match find (λ p, String.eqb p.1 code) sqlstate_table with
        | Some p => sql_exn p.2 Err
        | None =>
            match find (λ p, String.prefix p.1 code) sqlstate_classes with
            | Some p => sql_exn p.2 Err
            | None => sql_exn "sql_error" Err
            end
        end
  end.

Definition status_error (r : pg_result) : result exn string :=
  match pg_status r with
  | PGRES_EMPTY_QUERY | PGRES_COMMAND_OK | PGRES_TUPLES_OK => Ok EmptyString
  | PGRES_COPY_OUT | PGRES_COPY_IN => Ok EmptyString
  | PGRES_BAD_RESPONSE | PGRES_NONFATAL_ERROR | PGRES_FATAL_ERROR => Ok (pg_error_message r)
  | PGRES_OTHER code =>
      Throw (internal_exn ("pqxx::result: Unrecognized response code " +:+ to_string code))
  end.

Definition check_status (desc : string) (r : pg_result) : result exn unit :=
  err ← status_error r;
  if is_empty err then Ok tt
  else
    let err := if is_empty desc then err
               else "Failure during '" +:+ desc +:+ "': " +:+ err in
    Throw (throw_sql_error err (pg_sqlstate r)).

(** ** Rows and fields *)

Definition row : Type := list (option string).
Definition field : Type := option string.

Definition rows (r : query_result) : list row := pg_tuples (m_data r).

(** [row[i]]: libpq reports a column that does not exist as null. *)
Definition row_field (i : nat) (r : row) : field := default None (r !! i).

(** What the build decides: the name the compiler gives to [std::string] in
    messages, and the shortest text [std::to_chars] writes for a double. *)
Class Build := {
  string_type_name : string;
  to_chars_double : double → string;
}.

(** [field::as<T>()] and [field::as<T>(default)]. *)
Definition as_value {A} (type_name : string) (from_string : string → result exn A) (f : field)
  : result exn A :=
  match f with
  | None => Throw (throw_null_conversion type_name)
  | Some view => from_string view
  end.
Definition as_default {A} (from_string : string → result exn A) (default_value : A) (f : field)
  : result exn A :=
  match f with
  | None => Ok default_value
  | Some view => from_string view
  end.

Definition as_int (f : field) : result exn Z := as_value "int" (int_from_string t_int) f.
Definition as_int_default (d : Z) (f : field) : result exn Z :=
  as_default (int_from_string t_int) d f.
Definition as_double_default (d : double) (f : field) : result exn double :=
  as_default double_from_string d f.
Definition as_string `{Build} (f : field) : result exn string :=
  as_value string_type_name Ok f.
Definition as_string_default (d : string) (f : field) : result exn string := as_default Ok d f.

Example throw_sql_error_examples :
  map (λ c, exn_kind (throw_sql_error "e" (Some c))) ["23505"; "23999"; "08006"; "XX000"; "40003"] =
  [pqxx_sql_error "unique_violation"; pqxx_sql_error "integrity_constraint_violation";
   pqxx_broken_connection; pqxx_sql_error "sql_error"; pqxx_statement_completion_unknown].
Proof. reflexivity. Qed.
