(* ===== verification/PqxxRow.v ===== *)
(** Results and rows (result.cxx, row.cxx, row.hxx, field.cxx): addressing
    rows, columns and fields, slices of rows, and looking up columns by name.

    Row and column numbers are [int]s, which may be negative. *)

From S2P Require Import Prelude Decimal Exceptions PqxxResult.

Local Open Scope string_scope.
Local Open Scope Z_scope.

(** ** What libpq says about a result *)

Record pg_table := mk_pg_table {
  PQntuples : Z;
  PQnfields : Z;
  PQfname : Z → option string;
  PQfnumber : string → Z;
  PQftype : Z → Z;
  PQftable : Z → Z;
  PQftablecol : Z → Z;
  PQgetvalue : Z → Z → string;
  PQgetisnull : Z → Z → bool;
}.

(** A result object: libpq's result unless the pointer is null, the query, and
    the encoding. *)
Record result_obj := mk_result_obj {
  r_data : option pg_table;
  r_query : option string;
  r_encoding : encoding_group;
}.

Definition oid_none : Z := 0.

Definition argument_exn (Err : string) : exn := mk_exn pqxx_argument_error (c_str Err).
Definition range_exn (Err : string) : exn := mk_exn pqxx_range_error (c_str Err).

Section result_ops.
Implicit Types r : result_obj.

Definition result_size r : Z := match r_data r with None => 0 | Some t => PQntuples t end.
Definition result_empty r : bool := match r_data r with None => true | Some t => PQntuples t =? 0 end.
Definition columns r : Z := match r_data r with None => 0 | Some t => PQnfields t end.

(** [swap]: data and query. *)
Definition result_swap r1 r2 : result_obj * result_obj :=
  (mk_result_obj (r_data r2) (r_query r2) (r_encoding r1),
   mk_result_obj (r_data r1) (r_query r1) (r_encoding r2)).

(** libpq's functions on a null pointer. *)
Definition get_fnumber r (col_name : string) : Z :=
  match r_data r with None => -1 | Some t => PQfnumber t (c_str col_name) end.
Definition get_fname r (number : Z) : option string := r_data r ≫= λ t, PQfname t number.
Definition get_ftype r (number : Z) : Z := match r_data r with None => 0 | Some t => PQftype t number end.
Definition get_ftable r (number : Z) : Z := match r_data r with None => 0 | Some t => PQftable t number end.
Definition get_ftablecol r (number : Z) : Z := match r_data r with None => 0 | Some t => PQftablecol t number end.

Definition column_type r (col_num : Z) : result exn Z :=
  let t := get_ftype r col_num in
  if t =? oid_none
  then Throw (argument_exn ("Attempt to retrieve type of nonexistent column " +:+ to_string col_num +:+
                            " of query result."))
  else Ok t.

Definition column_number r (col_name : string) : result exn Z :=
  let n := get_fnumber r col_name in
  if n =? -1 then Throw (argument_exn ("Unknown column name: '" +:+ col_name +:+ "'.")) else Ok n.

Definition column_table r (col_num : Z) : result exn Z :=
  let t := get_ftable r col_num in
  if (t =? oid_none) && (columns r <=? col_num)
  then Throw (argument_exn ("Attempt to retrieve table ID for column " +:+ to_string col_num +:+
                            " out of " +:+ to_string (columns r)))
  else Ok t.

Definition table_column r (col_num : Z) : result exn Z :=
  let n := get_ftablecol r col_num in
  if negb (n =? 0) then Ok (n - 1)
  else
    let col_str := to_string col_num in
    if columns r <? col_num
    then Throw (range_exn ("Invalid column index in table_column(): " +:+ col_str))
    else
      match r_data r with
      | None => Throw (usage_exn ("Can't query origin of column " +:+ col_str +:+ ": result is not initialized."))
      | Some _ => Throw (usage_exn ("Can't query origin of column " +:+ col_str +:+
                                    ": not derived from table column."))
      end.

Definition column_name r (number : Z) : result exn string :=
  match get_fname r number with
  | Some n => Ok n
  | None =>
      match r_data r with
      | None => Throw (usage_exn "Queried column name on null result.")
      | Some _ => Throw (range_exn ("Invalid column number: " +:+ to_string number +:+ " (maximum is " +:+
                                    to_string (columns r - 1) +:+ ")."))
      end
  end.
End result_ops.

(** ** Fields and rows *)

Record field_obj := mk_field { f_home : result_obj; f_row : Z; f_col : Z }.

Definition field_is_null (f : field_obj) : bool :=
  match r_data (f_home f) with None => true | Some t => PQgetisnull t (f_row f) (f_col f) end.
Definition field_text (f : field_obj) : string :=
  match r_data (f_home f) with None => EmptyString | Some t => PQgetvalue t (f_row f) (f_col f) end.

Definition field_eq (lhs rhs : field_obj) : bool :=
  if field_is_null lhs && field_is_null rhs then true
  else if negb (Bool.eqb (field_is_null lhs) (field_is_null rhs)) then false
  else String.eqb (field_text lhs) (field_text rhs).

Record row_obj := mk_row { m_result : result_obj; m_index : Z; m_begin : Z; m_end : Z }.

(** [result::operator[]], [at], [front] and [back] *)
Definition result_subscript (r : result_obj) (i : Z) : row_obj := mk_row r i 0 (columns r).
Definition result_at (r : result_obj) (i : Z) : result exn row_obj :=
  if result_size r <=? i then Throw (range_exn "Row number out of range.") else Ok (result_subscript r i).
Definition result_field_at (r : result_obj) (row_num col_num : Z) : result exn field_obj :=
  if result_size r <=? row_num then Throw (range_exn "Row number out of range.")
  else if columns r <=? col_num then Throw (range_exn "Column out of range.")
  else Ok (mk_field r row_num col_num).
Definition result_front (r : result_obj) : row_obj := mk_row r 0 0 (columns r).
Definition result_back (r : result_obj) : row_obj := mk_row r (result_size r - 1) 0 (columns r).

Definition row_size (w : row_obj) : Z := m_end w - m_begin w.
Definition row_empty (w : row_obj) : bool := m_begin w =? m_end w.
Definition row_subscript (w : row_obj) (i : Z) : field_obj := mk_field (m_result w) (m_index w) (m_begin w + i).
Definition row_front (w : row_obj) : field_obj := mk_field (m_result w) (m_index w) (m_begin w).
Definition row_back (w : row_obj) : field_obj := mk_field (m_result w) (m_index w) (m_end w - 1).

Definition row_at (w : row_obj) (i : Z) : result exn field_obj :=
  if row_size w <=? i then Throw (range_exn "Invalid field number.") else Ok (row_subscript w i).

Definition row_slice (w : row_obj) (sbegin send : Z) : result exn row_obj :=
  if (send <? sbegin) || (row_size w <? send) then Throw (range_exn "Invalid field range.")
  else Ok (mk_row (m_result w) (m_index w) (m_begin w + sbegin) (m_begin w + send)).

Definition row_swap (w1 w2 : row_obj) : row_obj * row_obj :=
  let '(r1, r2) := result_swap (m_result w1) (m_result w2) in
  (mk_row r1 (m_index w2) (m_begin w2) (m_end w2), mk_row r2 (m_index w1) (m_begin w1) (m_end w1)).

(** The comparison of fields from [i] on. *)
Fixpoint fields_equal (count : nat) (i : Z) (w1 w2 : row_obj) : bool :=
  match count with
  | O => true
  | S count' => field_eq (row_subscript w1 i) (row_subscript w2 i) && fields_equal count' (i + 1) w1 w2
  end.
Definition row_eq (w1 w2 : row_obj) : bool :=
  if row_size w1 =? row_size w2 then fields_equal (Z.to_nat (row_size w1)) 0 w1 w2 else false.

Fixpoint rows_equal (count : nat) (i : Z) (r1 r2 : result_obj) : bool :=
  match count with
  | O => true
  | S count' => row_eq (result_subscript r1 i) (result_subscript r2 i) && rows_equal count' (i + 1) r1 r2
  end.
Definition result_eq (r1 r2 : result_obj) : bool :=
  if result_size r1 =? result_size r2 then rows_equal (Z.to_nat (result_size r1)) 0 r1 r2 else false.

(** The loop of [column_number] over the columns of the slice, [count] of them
    from [i] on. *)
Fixpoint find_column (r : result_obj) (adapted_name : string) (count : nat) (i : Z) : result exn (option Z) :=
  match count with
  | O => Ok None
  | S count' =>
      name ← column_name r i;
      if String.eqb adapted_name name then Ok (Some i) else find_column r adapted_name count' (i + 1)
  end.

Definition row_column_number (w : row_obj) (col_name : string) : result exn Z :=
  n ← column_number (m_result w) col_name;
  if m_end w <=? n then Throw (argument_exn ("Column '" +:+ col_name +:+ "' falls outside slice."))
  else if m_begin w <=? n then Ok (n - m_begin w)
  else
    adapted_name ← column_name (m_result w) n;
    found ← find_column (m_result w) adapted_name (Z.to_nat (row_size w)) (m_begin w);
    match found with
    | Some i => Ok (i - m_begin w)
    | None => column_number (mk_result_obj None None MONOBYTE) col_name
    end.

Definition row_at_name (w : row_obj) (col_name : string) : result exn field_obj :=
  n ← row_column_number w col_name;
  mret (row_subscript w n).

Definition row_column_type (w : row_obj) (col_num : Z) : result exn Z := column_type (m_result w) (m_begin w + col_num).
Definition row_column_table (w : row_obj) (col_num : Z) : result exn Z := column_table (m_result w) (m_begin w + col_num).
Definition row_table_column (w : row_obj) (col_num : Z) : result exn Z := table_column (m_result w) (m_begin w + col_num).

(** [check_size], before a row is converted to a tuple. *)
Definition check_size (w : row_obj) (expected : Z) : result exn unit :=
  if negb (row_size w =? expected)
  then Throw (usage_exn ("Tried to extract " +:+ to_string expected +:+ " field(s) from a row of " +:+
                         to_string (row_size w) +:+ "."))
  else Ok tt.

(** ** Slices *)

(** A row that shows columns of its result. *)
Definition row_valid (w : row_obj) : Prop := 0 ≤ m_begin w ∧ m_begin w ≤ m_end w ∧ m_end w ≤ columns (m_result w).

Lemma row_at_ok w i : 0 ≤ i < row_size w → row_at w i = Ok (row_subscript w i).
Proof. intros Hi. unfold row_at. by rewrite (proj2 (Z.leb_gt _ _)) by lia. Qed.

Lemma row_slice_ok w a b :
  a ≤ b → b ≤ row_size w →
  row_slice w a b = Ok (mk_row (m_result w) (m_index w) (m_begin w + a) (m_begin w + b)).
Proof.
  intros Ha Hb. unfold row_slice.
  by rewrite (proj2 (Z.ltb_ge b a)), (proj2 (Z.ltb_ge (row_size w) b)) by lia.
Qed.

(** C40. Slices with a range that is not negative: they fail exactly for a range
    that is not inside the row, their fields are those of the row, a slice of a
    slice is a slice, and they stay inside the result.  The numbers are signed
    and not tested against zero, so a negative number passes both checks: [at]
    returns the field in front of the slice, and a slice can begin in front of
    its row.  [swap] leaves the encodings where they are. *)
Theorem row_slices :
  (∀ w a b, row_valid w → 0 ≤ a →
    match row_slice w a b with
    | Throw e => exn_kind e = pqxx_range_error ∧ ¬ (a ≤ b ∧ b ≤ row_size w)
    | Ok w' =>
        row_valid w' ∧ row_size w' = b - a ∧
        (∀ i, 0 ≤ i < b - a → row_at w' i = row_at w (a + i)) ∧
        (∀ i, b - a ≤ i → is_ok (row_at w' i) = false) ∧
        (∀ c d, 0 ≤ c → c ≤ d → d ≤ b - a → row_slice w' c d = row_slice w (a + c) (a + d))
    end) ∧
  (∀ w i, row_valid w → i < 0 →
    row_at w i = Ok (mk_field (m_result w) (m_index w) (m_begin w + i)) ∧
    row_slice w i 0 = Ok (mk_row (m_result w) (m_index w) (m_begin w + i) (m_begin w))) ∧
  (∀ r1 r2, result_swap r1 r2 = (r2, r1) ↔ r_encoding r1 = r_encoding r2).
Proof.
  split; [|split].
  - intros w a b (H0 & H1 & H2) Ha. destruct (row_slice w a b) as [w'|e] eqn:E.
    + unfold row_slice in E. destruct (_ || _) eqn:Eb in E; [done|]. injection E as <-.
      apply orb_false_iff in Eb as [E1%Z.ltb_ge E2%Z.ltb_ge]. unfold row_size in E2.
      assert (Hsize : ∀ x y, row_size (mk_row (m_result w) (m_index w) x y) = y - x) by done.
      split; [unfold row_valid; cbn; lia|]. split; [rewrite Hsize; lia|]. split; [|split].
      * intros i Hi. rewrite !row_at_ok by (rewrite ?Hsize; unfold row_size; lia). unfold row_subscript. cbn. f_equal. f_equal. lia.
      * intros i Hi. unfold row_at. rewrite Hsize. by rewrite (proj2 (Z.leb_le _ _)) by lia.
      * intros c d Hc Hcd Hd. rewrite !row_slice_ok by (rewrite ?Hsize; unfold row_size; lia). cbn. f_equal. f_equal; lia.
    + unfold row_slice in E. destruct (_ || _) eqn:Eb in E; [|done]. injection E as <-. split; [done|].
      apply orb_true_iff in Eb as [E1%Z.ltb_lt|E1%Z.ltb_lt]; lia.
  - intros w i (H0 & H1 & H2) Hi. split.
    + unfold row_at, row_size. by rewrite (proj2 (Z.leb_gt _ _)) by lia.
    + rewrite row_slice_ok by (unfold row_size; lia). by rewrite Z.add_0_r.
  - intros [d1 q1 e1] [d2 q2 e2]. cbn. split; [by intros [= ->]|by intros ->].
Qed.

(** ** Columns by name *)

(** What libpq documents of column names: there is a name for every column, and
    [PQfnumber] finds the first of the columns with the name it finds. *)
Record column_names (t : pg_table) : Prop := {
  names_total i : 0 ≤ i < PQnfields t → is_Some (PQfname t i);
  names_found s : PQfnumber t s ≠ -1 → 0 ≤ PQfnumber t s < PQnfields t;
  names_first s i : 0 ≤ i < PQfnumber t s → PQfname t i ≠ PQfname t (PQfnumber t s);
}.

Lemma find_column_spec t q e name count : ∀ i,
  column_names t → 0 ≤ i → i + Z.of_nat count ≤ PQnfields t →
  match find_column (mk_result_obj (Some t) q e) name count i with
  | Ok (Some k) => i ≤ k < i + Z.of_nat count ∧ PQfname t k = Some name ∧
      ∀ j, i ≤ j < k → PQfname t j ≠ Some name
  | Ok None => ∀ j, i ≤ j < i + Z.of_nat count → PQfname t j ≠ Some name
  | Throw _ => False
  end.
Proof.
  induction count as [|count IH]; intros i Ht Hi Hc; cbn [find_column]; [intros j Hj; lia|].
  destruct (names_total t Ht i ltac:(lia)) as [n Hn].
  unfold column_name, get_fname. cbn [r_data]. cbn [mbind option_bind]. rewrite Hn. cbn [mbind result_bind].
  destruct (String.eqb_spec name n) as [->|Hne].
  - split; [lia|]. split; [done|]. intros j Hj. lia.
  - specialize (IH (i + 1) Ht ltac:(lia) ltac:(lia)).
    destruct (find_column _ name count (i + 1)) as [[k|]|ex]; [|intros j Hj|done].
    + destruct IH as (Hk & Hname & Hfirst). split; [lia|]. split; [done|]. intros j Hj.
      destruct (decide (j = i)) as [->|]; [rewrite Hn; congruence|apply Hfirst; lia].
    + destruct (decide (j = i)) as [->|]; [rewrite Hn; congruence|apply IH; lia].
Qed.

(** A column looked up by name in a slice: the first column of the slice with
    the name of the column that libpq finds, also when that column lies in front
    of the slice; an exception exactly when the slice has no such column. *)
Theorem slice_columns w t name
    (Hres : r_data (m_result w) = Some t) (Hnames : column_names t) (Hw : row_valid w) :
  let n := PQfnumber t (c_str name) in
  match row_column_number w name with
  | Ok k =>
      0 ≤ k < row_size w ∧ PQfname t (m_begin w + k) = PQfname t n ∧
      (∀ j, 0 ≤ j < k → PQfname t (m_begin w + j) ≠ PQfname t n) ∧
      row_at_name w name = row_at w k
  | Throw e =>
      exn_kind e = pqxx_argument_error ∧
      (n = -1 ∨ ∀ j, 0 ≤ j < row_size w → PQfname t (m_begin w + j) ≠ PQfname t n)
  end.
Proof.
  intros n. destruct w as [[d q e] idx b en]. cbn in Hres. subst d. destruct Hw as (H0 & H1 & H2).
  unfold columns in H2. cbn in H0, H1, H2.
  assert (Hat : ∀ k, 0 ≤ k < en - b → row_column_number (mk_row (mk_result_obj (Some t) q e) idx b en) name = Ok k →
    row_at_name (mk_row (mk_result_obj (Some t) q e) idx b en) name =
    row_at (mk_row (mk_result_obj (Some t) q e) idx b en) k).
  { intros k Hk Ek. unfold row_at_name. rewrite Ek, row_at_ok by done. done. }
  revert Hat. unfold row_column_number, column_number, get_fnumber. cbn [m_result r_data m_begin m_end].
  fold n. unfold row_size. cbn [m_begin m_end].
  destruct (Z.eqb_spec n (-1)) as [E|Hn]; [intros _; split; [done|by left]|]. cbn [mbind result_bind].
  pose proof (names_found t Hnames _ Hn) as Hrange. fold n in Hrange.
  destruct (Z.leb_spec en n) as [Hen|Hen].
  { intros _. split; [done|]. right. intros j Hj. apply (names_first t Hnames). fold n. lia. }
  destruct (Z.leb_spec b n) as [Hb|Hb].
  { intros Hat. split; [lia|]. split; [f_equal; lia|]. split; [|apply Hat; [lia|done]].
    intros j Hj. apply (names_first t Hnames). fold n. lia. }
  destruct (names_total t Hnames n Hrange) as [nm Hnm].
  unfold column_name, get_fname. cbn [r_data mbind option_bind]. rewrite Hnm. cbn [mbind result_bind].
  pose proof (find_column_spec t q e nm (Z.to_nat (en - b)) b Hnames H0 ltac:(lia)) as Hf.
  destruct (find_column _ nm _ b) as [[k|]|ex]; [| |done]; cbn [mbind result_bind].
  - destruct Hf as (Hk & Hname & Hfirst). intros Hat. split; [lia|].
    split; [by replace (b + (k - b)) with k by lia; rewrite Hname|].
    split; [|apply Hat; [lia|done]]. intros j Hj. apply Hfirst. lia.
  - intros _. split; [done|]. right. intros j Hj. apply Hf. lia.
Qed.

(** A result with the columns id, name, id. *)
Definition test_table : pg_table :=
  mk_pg_table 1 3 (λ i, [Some "id"; Some "name"; Some "id"] !! Z.to_nat i ≫= (λ o, if i <? 0 then None else o))
    (λ s, if String.eqb s "id" then 0 else if String.eqb s "name" then 1 else -1)
    (λ _, 23) (λ _, 0) (λ _, 0) (λ _ _, EmptyString) (λ _ _, true).

Lemma test_table_names : column_names test_table.
Proof.
  split.
  - intros i Hi. assert (i = 0 ∨ i = 1 ∨ i = 2) as [->|[->| ->]] by (cbn in Hi; lia); by eexists.
  - intros s. cbn. destruct (String.eqb s "id"); [lia|]. destruct (String.eqb s "name"); [lia|]. done.
  - intros s i. cbn. destruct (String.eqb s "id"); [lia|]. destruct (String.eqb s "name"); [|lia].
    intros Hi. assert (i = 0) as -> by lia. done.
Qed.

Lemma slice_columns_witness :
  let w := mk_row (mk_result_obj (Some test_table) None UTF8) 0 1 3 in
  row_column_number w "id" = Ok 1 ∧ row_at_name w "id" = row_at w 1.
Proof.
  intros w. pose proof (slice_columns w test_table "id" eq_refl test_table_names ltac:(by repeat split)) as H.
  split; [reflexivity|]. vm_compute in H. apply H.
Defined.
