(* ===== verification/PqxxEncoding.v ===== *)
(** String encodings in libpqxx (encodings.cxx, encodings.hxx): the scanners
    that find the end of a character in each encoding group, and the searches
    built on them.

    A buffer is the memory from its first byte on, as a function from offsets
    to bytes, and a length: what a scanner reads behind the length is visible.
    Offsets are far below [2^64], so their sums do not wrap. *)

From S2P Require Import Prelude Decimal Exceptions PqxxResult.

Local Open Scope nat_scope.

#[export] Instance encoding_group_eq_dec : EqDecision encoding_group.
Proof. solve_decision. Defined.

Abbreviation memory := (nat → Z).

(** [static_cast<unsigned char>(buffer[offset])] *)
Definition get_byte (buffer : memory) (offset : nat) : Z := buffer offset.

Definition between_inc (value bottom top : Z) : bool := ((bottom <=? value) && (value <=? top))%Z.

(** ** Errors *)

(** A byte as [std::hex] prints an [unsigned int]: [std::setw] was used up by
    the text before it. *)
Definition hex_lower (d : Z) : ascii := (if d <? 10 then char_of (48 + d) else char_of (87 + d))%Z.
Definition hex_text (b : Z) : string :=
  if (b <? 16)%Z then String (hex_lower b) EmptyString
  else String (hex_lower (b / 16)%Z) (String (hex_lower (b `mod` 16)%Z) EmptyString).

Fixpoint hex_dump (buffer : memory) (start count : nat) : string :=
  match count with
  | O => EmptyString
  | S count' =>
      "0x" +:+ hex_text (get_byte buffer start) +:+
      (if (0 <? count')%nat then " " else EmptyString) +:+ hex_dump buffer (S start) count'
  end%string.

Definition throw_for_encoding_error {A} (encoding_name : string) (buffer : memory)
    (start count : nat) : result exn A :=
  Throw (mk_exn pqxx_argument_error
    (c_str ("Invalid byte sequence for encoding " +:+ encoding_name +:+ " at byte " +:+
            to_string (Z.of_nat start) +:+ ": " +:+ hex_dump buffer start count))).

(** ** Scanners

    The offset behind the character at [start]; [None] is
    [std::string::npos]. *)
Abbreviation scan_result := (result exn (option nat)).

Section scanners.
Context (buffer : memory) (buffer_len start : nat).
Let byte (i : nat) : Z := get_byte buffer (start + i).
Let next (n : nat) : scan_result := Ok (Some (start + n)).
Let npos : scan_result := Ok None.
Let fail (name : string) (count : nat) : scan_result :=
  throw_for_encoding_error name buffer start count.

Definition next_seq_for_euc_jplike (encoding_name : string) : scan_result :=
  if buffer_len <=? start then npos
  else if (byte 0 <? 0x80)%Z then next 1
  else if buffer_len <? start + 2 then fail encoding_name 1
  else if (byte 0 =? 0x8e)%Z then
    if negb (between_inc (byte 1) 0xa1 0xfe) then fail encoding_name 2 else next 2
  else if between_inc (byte 0) 0xa1 0xfe then
    if negb (between_inc (byte 1) 0xa1 0xfe) then fail encoding_name 2 else next 2
  else if (byte 0 =? 0x8f)%Z && (start + 3 <=? buffer_len) then
    if negb (between_inc (byte 1) 0xa1 0xfe) || negb (between_inc (byte 2) 0xa1 0xfe)
    then fail encoding_name 3 else next 3
  else fail encoding_name 1.

Definition next_seq_for_sjislike (encoding_name : string) : scan_result :=
  if buffer_len <=? start then npos
  else if (byte 0 <? 0x80)%Z || between_inc (byte 0) 0xa1 0xdf then next 1
  else if negb (between_inc (byte 0) 0x81 0x9f) && negb (between_inc (byte 0) 0xe0 0xfc)
    then fail encoding_name 1
  else if buffer_len <? start + 2 then fail encoding_name (buffer_len - start)
  else if (byte 1 =? 0x7f)%Z then fail encoding_name 2
  else if between_inc (byte 1) 0x40 0x9e || between_inc (byte 1) 0x9f 0xfc then next 2
  else fail encoding_name 2.

Definition scan_MONOBYTE : scan_result :=
  if buffer_len <=? start then npos else next 1.

Definition scan_BIG5 : scan_result :=
  if buffer_len <=? start then npos
  else if (byte 0 <? 0x80)%Z then next 1
  else if negb (between_inc (byte 0) 0x81 0xfe) || (buffer_len <? start + 2) then fail "BIG5" 1
  else if negb (between_inc (byte 1) 0x40 0x7e) && negb (between_inc (byte 1) 0xa1 0xfe)
    then fail "BIG5" 2
  else next 2.

Definition scan_EUC_CN : scan_result :=
  if buffer_len <=? start then npos
  else if (byte 0 <? 0x80)%Z then next 1
  else if negb (between_inc (byte 0) 0xa1 0xf7) || (buffer_len <? start + 2) then fail "EUC_CN" 1
  else if negb (between_inc (byte 1) 0xa1 0xfe) then fail "EUC_CN" 2
  else next 2.

Definition scan_EUC_KR : scan_result :=
  if buffer_len <=? start then npos
  else if (byte 0 <? 0x80)%Z then next 1
  else if negb (between_inc (byte 0) 0xa1 0xfe) || (buffer_len <? start + 2) then fail "EUC_KR" 1
  else if negb (between_inc (byte 1) 0xa1 0xfe) then fail "EUC_KR" 1
  else next 2.

(** Its messages name EUC_KR. *)
Definition scan_EUC_TW : scan_result :=
  if buffer_len <=? start then npos
  else if (byte 0 <? 0x80)%Z then next 1
  else if buffer_len <? start + 2 then fail "EUC_KR" 1
  else if between_inc (byte 0) 0xa1 0xfe then
    if negb (between_inc (byte 1) 0xa1 0xfe) then fail "EUC_KR" 2 else next 2
  else if negb (byte 0 =? 0x8e)%Z || (buffer_len <? start + 4) then fail "EUC_KR" 1
  else if between_inc (byte 1) 0xa1 0xb0 && between_inc (byte 2) 0xa1 0xfe &&
          between_inc (byte 3) 0xa1 0xfe then next 4
  else fail "EUC_KR" 4.

Definition scan_GB18030 : scan_result :=
  if buffer_len <=? start then npos
  else if (byte 0 <? 0x80)%Z then next 1
  else if (byte 0 =? 0x80)%Z then fail "GB18030" (buffer_len - start)
  else if buffer_len <? start + 2 then fail "GB18030" (buffer_len - start)
  else if between_inc (byte 1) 0x40 0xfe then
    if (byte 1 =? 0x7f)%Z then fail "GB18030" 2 else next 2
  else if buffer_len <? start + 4 then fail "GB18030" (buffer_len - start)
  else if between_inc (byte 1) 0x30 0x39 && between_inc (byte 2) 0x81 0xfe &&
          between_inc (byte 3) 0x30 0x39 then next 4
  else fail "GB18030" 4.

Definition scan_GBK : scan_result :=
  if buffer_len <=? start then npos
  else if (byte 0 <? 0x80)%Z then next 1
  else if buffer_len <? start + 2 then fail "GBK" 1
  else
    let byte1 := byte 0 in
    let byte2 := byte 1 in
    let not_7f := negb (byte2 =? 0x7f)%Z in
    if (between_inc byte1 0xa1 0xa9 && between_inc byte2 0xa1 0xfe) ||
       (between_inc byte1 0xb0 0xf7 && between_inc byte2 0xa1 0xfe) ||
       (between_inc byte1 0x81 0xa0 && between_inc byte2 0x40 0xfe && not_7f) ||
       (between_inc byte1 0xaa 0xfe && between_inc byte2 0x40 0xa0 && not_7f) ||
       (between_inc byte1 0xa8 0xa9 && between_inc byte2 0x40 0xa0 && not_7f) ||
       (between_inc byte1 0xaa 0xaf && between_inc byte2 0xa1 0xfe) ||
       (between_inc byte1 0xf8 0xfe && between_inc byte2 0xa1 0xfe) ||
       (between_inc byte1 0xa1 0xa7 && between_inc byte2 0x40 0xa0 && not_7f)
    then next 2 else fail "GBK" 2.

(** [byte2] is read at [start], as [byte1] is. *)
Definition scan_JOHAB : scan_result :=
  if buffer_len <=? start then npos
  else if (byte 0 <? 0x80)%Z then next 1
  else if buffer_len <? start + 2 then fail "JOHAB" 1
  else
    let byte1 := byte 0 in
    let byte2 := byte 0 in
    if (between_inc byte1 0x84 0xd3 && (between_inc byte2 0x41 0x7e || between_inc byte2 0x81 0xfe)) ||
       ((between_inc byte1 0xd8 0xde || between_inc byte1 0xe0 0xf9) &&
        (between_inc byte2 0x31 0x7e || between_inc byte2 0x91 0xfe))
    then next 2 else fail "JOHAB" 2.

(** The last test reads offset 4 of a four-byte character. *)
Definition scan_MULE_INTERNAL : scan_result :=
  if buffer_len <=? start then npos
  else if (byte 0 <? 0x80)%Z then next 1
  else if buffer_len <? start + 2 then fail "MULE_INTERNAL" 1
  else if between_inc (byte 0) 0x81 0x8d && (0xa0 <=? byte 1)%Z then next 2
  else if buffer_len <? start + 3 then fail "MULE_INTERNAL" 2
  else if (((byte 0 =? 0x9a)%Z && between_inc (byte 1) 0xa0 0xdf) ||
           ((byte 0 =? 0x9b)%Z && between_inc (byte 1) 0xe0 0xef) ||
           (between_inc (byte 0) 0x90 0x99 && (0xa0 <=? byte 1)%Z)) && (0xa0 <=? byte 1)%Z
    then next 3
  else if buffer_len <? start + 4 then fail "MULE_INTERNAL" 3
  else if (((byte 0 =? 0x9c)%Z && between_inc (byte 1) 0xf0 0xf4) ||
           ((byte 0 =? 0x9d)%Z && between_inc (byte 1) 0xf5 0xfe)) &&
          (0xa0 <=? byte 2)%Z && (0xa0 <=? byte 4)%Z
    then next 4
  else fail "MULE_INTERNAL" 4.

Definition scan_UHC : scan_result :=
  if buffer_len <=? start then npos
  else if (byte 0 <? 0x80)%Z then next 1
  else if buffer_len <? start + 2 then fail "UHC" (buffer_len - start)
  else if between_inc (byte 0) 0x80 0xc6 then
    if between_inc (byte 1) 0x41 0x5a || between_inc (byte 1) 0x61 0x7a ||
       between_inc (byte 1) 0x80 0xfe then next 2
    else fail "UHC" 2
  else if between_inc (byte 0) 0xa1 0xfe then
    if negb (between_inc (byte 1) 0xa1 0xfe) then fail "UHC" 2 else next 2
  else fail "UHC" 1.

Definition scan_UTF8 : scan_result :=
  if buffer_len <=? start then npos
  else if (byte 0 <? 0x80)%Z then next 1
  else if buffer_len <? start + 2 then fail "UTF8" (buffer_len - start)
  else if between_inc (byte 0) 0xc0 0xdf then
    if negb (between_inc (byte 1) 0x80 0xbf) then fail "UTF8" 2 else next 2
  else if buffer_len <? start + 3 then fail "UTF8" (buffer_len - start)
  else if between_inc (byte 0) 0xe0 0xef then
    if between_inc (byte 1) 0x80 0xbf && between_inc (byte 2) 0x80 0xbf then next 3
    else fail "UTF8" 3
  else if buffer_len <? start + 4 then fail "UTF8" (buffer_len - start)
  else if between_inc (byte 0) 0xf0 0xf7 then
    if between_inc (byte 1) 0x80 0xbf && between_inc (byte 2) 0x80 0xbf &&
       between_inc (byte 3) 0x80 0xbf then next 4
    else fail "UTF8" 4
  else fail "UTF8" 1.

(** [get_glyph_scanner(enc)], applied. *)
Definition glyph_scanner (enc : encoding_group) : scan_result :=
  match enc with
  | MONOBYTE => scan_MONOBYTE
  | BIG5 => scan_BIG5
  | EUC_CN => scan_EUC_CN
  | EUC_JP => next_seq_for_euc_jplike "EUC_JP"
  | EUC_JIS_2004 => next_seq_for_euc_jplike "EUC_JIS_2004"
  | EUC_KR => scan_EUC_KR
  | EUC_TW => scan_EUC_TW
  | GB18030 => scan_GB18030
  | GBK => scan_GBK
  | JOHAB => scan_JOHAB
  | MULE_INTERNAL => scan_MULE_INTERNAL
  | SJIS => next_seq_for_sjislike "SJIS"
  | SHIFT_JIS_2004 => next_seq_for_sjislike "SHIFT_JIS_2004"
  | UHC => scan_UHC
  | UTF8 => scan_UTF8
  end.
End scanners.

(** ** Searches

    Each loop moves on by the scanner, so the length of the buffer bounds the
    number of iterations; [None] is an exhausted fuel. *)

Section searches.
Context (enc : encoding_group) (buffer : memory) (buffer_len : nat).
Let scan (here : nat) : scan_result := glyph_scanner buffer buffer_len here enc.

(** [for_glyphs]: the callback changes [st]; an exception ends the loop. *)
Fixpoint for_glyphs {St} (callback : St → nat → nat → St) (fuel here : nat) (st : St)
    : option (result exn St) :=
  match fuel with
  | O => None
  | S fuel' =>
      if here <? buffer_len then
        match scan here with
        | Ok (Some next) => for_glyphs callback fuel' next (callback st here next)
        | Ok None => Some (Ok st)
        | Throw e => Some (Throw e)
        end
      else Some (Ok st)
  end.

(** [find_char<needle...>]; an offset of [npos] ends the loop. *)
Fixpoint find_char (needle : list Z) (fuel here : nat) : option (result exn nat) :=
  match fuel with
  | O => None
  | S fuel' =>
      if here <? buffer_len then
        match scan here with
        | Ok (Some next) =>
            if bool_decide (buffer here ∈ needle) && (next =? here + 1) then Some (Ok here)
            else find_char needle fuel' next
        | Ok None => Some (Ok buffer_len)
        | Throw e => Some (Throw e)
        end
      else Some (Ok buffer_len)
  end.

(** [char_finder] and [string_finder]; [None] inside is [npos]. *)
Fixpoint char_finder (needle : Z) (fuel here : nat) : option (result exn (option nat)) :=
  match fuel with
  | O => None
  | S fuel' =>
      if here + 1 <=? buffer_len then
        if (buffer here =? needle)%Z then Some (Ok (Some here))
        else
          match scan here with
          | Ok (Some next) => char_finder needle fuel' next
          | Ok None => Some (Ok None)
          | Throw e => Some (Throw e)
          end
      else Some (Ok None)
  end.

Definition memcmp_eq (here : nat) (needle : list Z) : bool :=
  bool_decide (map (λ i, buffer (here + i)) (seq 0 (length needle)) = needle).

Fixpoint string_finder (needle : list Z) (fuel here : nat) : option (result exn (option nat)) :=
  match fuel with
  | O => None
  | S fuel' =>
      if here + length needle <=? buffer_len then
        if memcmp_eq here needle then Some (Ok (Some here))
        else
          match scan here with
          | Ok (Some next) => string_finder needle fuel' next
          | Ok None => Some (Ok None)
          | Throw e => Some (Throw e)
          end
      else Some (Ok None)
  end.
End searches.

(** The bytes of a string, followed by the zero that terminates it. *)
Definition bytes_of (s : string) : memory := λ i,
  match String.get i s with Some c => byte_of c | None => 0%Z end.

(** The bytes behind a text that is part of something longer, or that nothing
    terminates: whatever the memory holds there. *)
Class Behind := behind : nat → Z.

(** The memory in which a text stands. *)
Definition bytes_in {bh : Behind} (s : string) : memory := λ i,
  match String.get i s with Some c => byte_of c | None => behind (i - String.length s) end.

(** A terminating zero, and zeroes behind it. *)
Definition zeros : Behind := λ _, 0%Z.

(** ** Clients *)

(** [connection::esc_like], with the encoding group of the connection. *)
Definition esc_like_glyph (text : string) (escape_char : ascii) (out : string) (gbegin gend : nat) : string :=
  let c := get_byte (bytes_of text) gbegin in
  let out := if (gend - gbegin =? 1) && ((c =? 95)%Z || (c =? 37)%Z) then snoc out escape_char else out in
  out +:+ substring gbegin (gend - gbegin) text.

Definition esc_like (enc : encoding_group) (text : string) (escape_char : ascii) : option (result exn string) :=
  for_glyphs enc (bytes_of text) (String.length text) (esc_like_glyph text escape_char)
    (S (String.length text)) 0 EmptyString.

(** [isspace] of the C locale. *)
Definition isspace (c : Z) : bool := (c =? 32)%Z || between_inc c 9 13.
Definition useless_trail (c : Z) : bool := isspace c || (c =? 59)%Z.

Fixpoint scan_backwards (text : memory) (end_ : nat) : nat :=
  match end_ with
  | O => O
  | S e => if useless_trail (text e) then scan_backwards text e else end_
  end.

Definition useful_glyph (text : memory) (end_ gbegin gend : nat) : nat :=
  if (1 <? gend - gbegin) || negb (useless_trail (text gbegin)) then gend else end_.

Definition find_query_end (query : string) (enc : encoding_group) : option (result exn nat) :=
  let text := bytes_of query in
  let size := String.length query in
  if bool_decide (enc = MONOBYTE) then Some (Ok (scan_backwards text size))
  else for_glyphs enc text size (useful_glyph text) (S size) 0 0.

Example find_quote_in_sjis :
  let s := String "131" (String "034" (bq "a`")) in   (* 0x83 0x22 is no character *)
  find_char UTF8 (bytes_of (bq "a`")) 2 [34%Z] 3 0 = Some (Ok 1) ∧
  match find_char SJIS (bytes_of s) 4 [34%Z] 5 0 with
  | Some (Throw e) => what e = "Invalid byte sequence for encoding SJIS at byte 0: 0x83 0x22"%string
  | _ => False
  end.
Proof. by vm_compute. Qed.

(** Wildcards are escaped, the escape character itself is not. *)
Example esc_like_text :
  esc_like UTF8 "50%_a" "\" = Some (Ok "50\%\_a"%string) ∧
  esc_like UTF8 "\%" "\" = Some (Ok "\\%"%string).
Proof. by vm_compute. Qed.

(** Trailing space goes even without a semicolon. *)
Example find_query_end_text :
  find_query_end "SELECT 1; ;" UTF8 = Some (Ok 8) ∧ find_query_end "SELECT 1 " UTF8 = Some (Ok 8).
Proof. by vm_compute. Qed.
