(* ===== verification/PqxxArray.v ===== *)
(** Reading SQL arrays and composite values (array.cxx, array-composite.hxx,
    composite.hxx).  The readers move through the text by the characters of
    its encoding.

    A function here may throw; [None] stands for what the language leaves
    undefined and for fuel that was too small ([array_parser_total] in
    PqxxArrayTotal shows that neither occurs). *)

From S2P Require Import Prelude Decimal Exceptions PqxxResult PqxxEncoding PqxxConv.

Local Open Scope nat_scope.

Definition reader (A : Type) : Type := option (result exn A).

#[export] Instance reader_ret : MRet reader := λ A a, Some (Ok a).
#[export] Instance reader_bind : MBind reader := λ A B f m,
  match m with
  | Some (Ok a) => f a
  | Some (Throw e) => Some (Throw e)
  | None => None
  end.

Definition fails {A} (e : exn) : reader A := Some (Throw e).
Definition undefined {A} : reader A := None.

(** A position; [None] is [npos], which is behind everything. *)
Abbreviation offset := (option nat).

Definition argument_error (msg : string) : exn := mk_exn pqxx_argument_error (c_str msg).
Definition failure (msg : string) : exn := mk_exn pqxx_failure (c_str msg).

(** Character codes. *)
Definition c_quote : Z := 34.
Definition c_apostrophe : Z := 39.
Definition c_backslash : Z := 92.
Definition c_comma : Z := 44.
Definition c_semicolon : Z := 59.
Definition c_lparen : Z := 40.
Definition c_rparen : Z := 41.
Definition c_rbracket : Z := 93.
Definition c_lbrace : Z := 123.
Definition c_rbrace : Z := 125.

Section readers.
Context {bh : Behind} (enc : encoding_group) (text : string).
Let input : memory := bytes_in text.
Let size : nat := String.length text.

(** The end of the character at [pos] in the first [len] bytes. *)
Definition scan_to (len : nat) (pos : offset) : reader offset :=
  match pos with
  | Some p => Some (glyph_scanner input len p enc)
  | None => Some (Ok None)
  end.

(** [next - pos == 1] *)
Definition single (pos next : offset) : bool :=
  match pos, next with Some p, Some n => n =? p + 1 | _, _ => false end.

(** [input[pos]] is one of [cs]. *)
Definition is_at (pos : offset) (cs : list Z) : bool :=
  match pos with Some p => bool_decide (input p ∈ cs) | None => false end.

Definition before (pos : offset) (len : nat) : bool :=
  match pos with Some p => p <? len | None => false end.

(** [output.append(input + pos, input + next)] *)
Definition append_glyph (out : string) (pos next : offset) : reader string :=
  match pos, next with
  | Some p, Some n => if p <=? n then mret (out +:+ substring p (n - p) text) else undefined
  | _, _ => undefined
  end.

(** ** Double quotes *)

(** The loop of [scan_double_quoted_string], from its condition on. *)
Fixpoint scan_dq_loop (fuel : nat) (pos next : offset) (at_quote : bool) : reader offset :=
  match fuel with
  | O => undefined
  | S fuel' =>
      if before pos size then
        let continue (next : offset) (at_quote : bool) :=
          next' ← scan_to size next; scan_dq_loop fuel' next next' at_quote in
        if at_quote then
          if single pos next && is_at pos [c_quote] then continue next false else mret pos
        else if single pos next then
          if is_at pos [c_backslash] then
            next' ← scan_to size next; continue next' false
          else if is_at pos [c_quote] then continue next true
          else continue next false
        else continue next false
      else if negb at_quote
      then fails (argument_error ("Missing closing double-quote: " +:+ c_str text))
      else mret pos
  end.

Definition scan_double_quoted_string (pos : nat) : reader offset :=
  next ← scan_to size (Some pos);
  next' ← scan_to size next;
  scan_dq_loop (S (S size)) next next' false.

(** The loops that copy the characters before [end - 1], dropping the first of
    two when it is one of [escapes]. *)
Fixpoint unescape_loop (escapes : list Z) (end_ : nat) (fuel : nat) (here next : offset)
    (out : string) : reader string :=
  match fuel with
  | O => undefined
  | S fuel' =>
      if before here (end_ - 1) then
        '(here, next) ←
          (if single here next && is_at here escapes
           then next' ← scan_to end_ next; mret (next, next')
           else mret (here, next));
        out ← append_glyph out here next;
        next' ← scan_to end_ next;
        unescape_loop escapes end_ fuel' next next' out
      else mret out
  end.

Definition parse_double_quoted_string (end_ pos : nat) : reader string :=
  here ← scan_to end_ (Some pos);
  next ← scan_to end_ here;
  unescape_loop [c_backslash; c_quote] end_ (S end_) here next EmptyString.

(** ** No quotes *)

Fixpoint scan_unquoted_loop (stop : list Z) (fuel : nat) (pos next : offset) (at_backslash : bool)
    : reader offset :=
  match fuel with
  | O => undefined
  | S fuel' =>
      if before pos size && (negb (single pos next) || at_backslash || negb (is_at pos stop)) then
        next' ← scan_to size next;
        scan_unquoted_loop stop fuel' next next'
          (negb at_backslash && single next next' && is_at next [c_backslash])
      else mret pos
  end.

Definition scan_unquoted_string (stop : list Z) (pos : nat) : reader offset :=
  next ← scan_to size (Some pos);
  scan_unquoted_loop stop (S (S size)) (Some pos) next false.

Fixpoint parse_unquoted_loop (end_ fuel : nat) (pos next : offset) (at_backslash : bool)
    (out : string) : reader string :=
  match fuel with
  | O => undefined
  | S fuel' =>
      if before pos end_ then
        let at_backslash := negb at_backslash && single pos next && is_at pos [c_backslash] in
        out ← (if at_backslash then mret out else append_glyph out pos next);
        next' ← scan_to end_ next;
        parse_unquoted_loop end_ fuel' next next' at_backslash out
      else mret out
  end.

Definition parse_unquoted_string (end_ pos : nat) : reader string :=
  next ← scan_to end_ (Some pos);
  parse_unquoted_loop end_ (S end_) (Some pos) next false EmptyString.

(** ** Single quotes *)

Definition find_escape (here : offset) : reader nat :=
  match here with
  | Some h => find_char enc input size [c_backslash; c_apostrophe] (S size) h
  | None => mret size
  end.

Fixpoint scan_sq_loop (fuel here : nat) : reader nat :=
  match fuel with
  | O => undefined
  | S fuel' =>
      if here <? size then
        if is_at (Some here) [c_apostrophe] then
          let here := here + 1 in
          if size <=? here then mret here
          else if negb (is_at (Some here) [c_apostrophe]) then mret here
          else
            next ← scan_to size (Some here);
            if negb (single (Some here) next) then mret here
            else here ← find_escape (Some (here + 1)); scan_sq_loop fuel' here
        else
          next ← scan_to size (Some (here + 1));
          here ← find_escape next;
          scan_sq_loop fuel' here
      else fails (argument_error ("Null byte in SQL string: " +:+ text))
  end.

Definition scan_single_quoted_string (m_pos : nat) : reader nat :=
  here ← find_escape (Some (m_pos + 1));
  scan_sq_loop (S (S size)) here.

Definition parse_single_quoted_string (end_ m_pos : nat) : reader string :=
  next ← scan_to end_ (Some (m_pos + 1));
  unescape_loop [c_apostrophe; c_backslash] end_ (S end_) (Some (m_pos + 1)) next EmptyString.

(** ** [array_parser] *)

Inductive juncture := row_start | row_end | null_value | string_value | done.
#[export] Instance juncture_eq_dec : EqDecision juncture.
Proof. solve_decision. Defined.

Definition array_stop : list Z := [c_comma; c_semicolon; c_rbrace].

(** [end] where the language requires a position in the text. *)
Definition position (pos : offset) : reader nat :=
  match pos with Some p => mret p | None => undefined end.

Definition unquoted_value (m_pos : nat) : reader (nat * string) :=
  end_ ← (scan_unquoted_string array_stop m_pos ≫= position);
  value ← parse_unquoted_string end_ m_pos;
  mret (end_, value).

(** What starts at [m_pos]: its kind, its text and its end. *)
Definition array_item (m_pos : nat) : reader (juncture * string * nat) :=
  next ← scan_to size (Some m_pos);
  if negb (single (Some m_pos) next) then
    '(end_, value) ← unquoted_value m_pos; mret (string_value, value, end_)
  else
    let c := input m_pos in
    if (c =? 0)%Z then fails (failure "Unexpected zero byte in array.")
    else if (c =? c_lbrace)%Z then end_ ← position next; mret (row_start, EmptyString, end_)
    else if (c =? c_rbrace)%Z then end_ ← position next; mret (row_end, EmptyString, end_)
    else if (c =? c_apostrophe)%Z then
      end_ ← scan_single_quoted_string m_pos;
      value ← parse_single_quoted_string end_ m_pos;
      mret (string_value, value, end_)
    else if (c =? c_quote)%Z then
      end_ ← (scan_double_quoted_string m_pos ≫= position);
      value ← parse_double_quoted_string end_ m_pos;
      mret (string_value, value, end_)
    else
      '(end_, value) ← unquoted_value m_pos;
      if String.eqb value "NULL" then mret (null_value, EmptyString, end_)
      else mret (string_value, value, end_).

(** Skip a trailing field separator, if present. *)
Definition skip_separator (end_ : nat) : reader nat :=
  if end_ <? size then
    next ← scan_to size (Some end_);
    if single (Some end_) next && is_at (Some end_) [c_comma; c_semicolon] then position next
    else mret end_
  else mret end_.

(** [get_next()]: the juncture, its value, and the new [m_pos]. *)
Definition get_next (m_pos : nat) : reader (juncture * string * nat) :=
  if size <=? m_pos then mret (done, EmptyString, m_pos)
  else
    '(found, value, end_) ← array_item m_pos;
    end_ ← skip_separator end_;
    mret (found, value, end_).

(** Calling [get_next] until it returns [done]: what it returned before. *)
Fixpoint parse_array (fuel m_pos : nat) : reader (list (juncture * string)) :=
  match fuel with
  | O => undefined
  | S fuel' =>
      '(found, value, m_pos) ← get_next m_pos;
      match found with
      | done => mret []
      | _ => rest ← parse_array fuel' m_pos; mret ((found, value) :: rest)
      end
  end.

(** ** Composite values

    Each field has a type of its own; [from_string] and [null] are those of
    the type with that index, and [T] holds values of all of them. *)
Section composite.
Context {T : Type} (from_string : nat → string → result exn T) (null : nat → result exn T).

Definition composite_stop : list Z := [c_comma; c_rparen; c_rbracket].

(** [std::string{input[pos]}] *)
Definition char_text (pos : nat) : string := String (char_of (input pos)) EmptyString.

Definition lift {A} (r : result exn A) : reader A := Some r.

(** [parse_composite_field]: the value and the position behind the field. *)
Definition parse_composite_field (index pos last_field : nat) : reader (T * nat) :=
  next ← scan_to size (Some pos);
  if negb (single (Some pos) next)
  then fails (conversion_error "Non-ASCII character in composite-type syntax.")
  else
    '(field, pos) ←
      (if is_at (Some pos) composite_stop then field ← lift (null index); mret (field, pos)
       else if is_at (Some pos) [c_quote] then
         stop ← (scan_double_quoted_string pos ≫= position);
         text ← parse_double_quoted_string stop pos;
         field ← lift (from_string index text);
         mret (field, stop)
       else
         stop ← (scan_unquoted_string composite_stop pos ≫= position);
         text ← parse_unquoted_string stop pos;
         field ← lift (from_string index text);
         mret (field, stop));
    next ← scan_to size (Some pos);
    if negb (single (Some pos) next) then
      fails (conversion_error ("Unexpected non-ASCII character after composite field: " +:+ text))
    else if (index <? last_field) && negb (is_at (Some pos) [c_comma]) then
      fails (conversion_error ("Found '" +:+ char_text pos +:+
        "' in composite value where comma was expected: " +:+ c_str text))
    else if (last_field <=? index) && is_at (Some pos) [c_comma] then
      fails (conversion_error ("Composite value contained more fields than the expected " +:+
        to_string (Z.of_nat last_field) +:+ ": " +:+ c_str text))
    else if (last_field <=? index) && negb (is_at (Some pos) [c_rparen; c_rbracket]) then
      fails (conversion_error ("Composite value has unexpected characters where closing " +:+
        "parenthesis was expected: " +:+ text))
    else if (last_field <=? index) && negb (bool_decide (next = Some size)) then
      fails (conversion_error ("Composite value has unexpected text after closing parenthesis: " +:+ text))
    else next ← position next; mret (field, next).

Fixpoint parse_composite_fields (count index pos last_field : nat) : reader (list T * nat) :=
  match count with
  | O => mret ([], pos)
  | S count' =>
      '(field, pos) ← parse_composite_field index pos last_field;
      '(fields, pos) ← parse_composite_fields count' (S index) pos last_field;
      mret (field :: fields, pos)
  end.

(** [parse_composite] for [num_fields] fields, at least one. *)
Definition parse_composite (num_fields : nat) : reader (list T) :=
  if size =? 0 then fails (conversion_error "Cannot parse composite value from empty string.")
  else
    next ← scan_to size (Some 0);
    if negb (single (Some 0) next && is_at (Some 0) [c_lparen]) then
      fails (conversion_error ("Invalid composite value string: " +:+ text))
    else
      here ← position next;
      '(fields, here) ← parse_composite_fields num_fields 0 here (num_fields - 1);
      if negb (here =? size) then
        fails (conversion_error ("Composite value did not end at the closing parenthesis: '" +:+
          text +:+ "'."))
      else if negb (is_at (Some (here - 1)) [c_rparen]) then
        fails (conversion_error ("Composive value did not end in parenthesis: '" +:+ text +:+ "'"))
      else mret fields.
End composite.
End readers.

(** All junctures of a text. *)
Definition read_array {bh : Behind} (enc : encoding_group) (text : string) : reader (list (juncture * string)) :=
  parse_array enc text (S (String.length text)) 0.

Example read_nested :
  read_array (bh:=zeros) UTF8 (bq "{{1,NULL},{`a\`b`,'it''s'}}") =
  Some (Ok [(row_start, ""); (row_start, ""); (string_value, "1"); (null_value, ""); (row_end, "");
            (row_start, ""); (string_value, bq "a`b"); (string_value, "it's"); (row_end, "");
            (row_end, "")])%string.
Proof. vm_compute. reflexivity. Qed.

Lemma bind_ext {A B} (r r' : reader A) (f f' : A → reader B) :
  r = r' → (∀ a, r = Some (Ok a) → f a = f' a) → r ≫= f = r' ≫= f'.
Proof. intros <- Hf. destruct r as [[a|e]|]; [by apply Hf|done|done]. Qed.
