(* ===== verification/PqxxCopy.v ===== *)
(** Lines of the COPY protocol (stream_to.hxx, stream_to.cxx, stream_from.cxx):
    the fields of a row escaped into one line, and a line taken apart again.

    As for arrays ([PqxxArray]) a function may throw, and [None] stands for
    what the language leaves undefined and for fuel that was too small. *)

From stdpp Require Import list.
From S2P Require Import Prelude Decimal Exceptions PqxxConv PqxxBuffer PqxxResult PqxxEncoding PqxxArray.

Local Open Scope nat_scope.

Definition TAB : ascii := "009"%char.

(** ** [stream_to]: fields to a line *)

(** [escape]: the letter of the escape sequence, or zero. *)
Definition escape (width : nat) (c : ascii) : ascii :=
  if width =? 1 then
    if Ascii.eqb c "008" then "b"
    else if Ascii.eqb c "012" then "f"
    else if Ascii.eqb c "010" then "n"
    else if Ascii.eqb c "013" then "r"
    else if Ascii.eqb c TAB then "t"
    else if Ascii.eqb c "011" then "v"
    else if Ascii.eqb c backslash then backslash
    else NUL
  else NUL.

Section to_line.
Context {bh : Behind} (enc : encoding_group).

(** The loop of [escape_field_to_buffer], from its condition on; stretches
    without escapes are copied in one go. *)
Fixpoint escape_loop (data : string) (fuel begin_stretch begin_char : nat) (end_ : offset)
    (m_buffer : string) : reader string :=
  match fuel with
  | O => PqxxArray.undefined
  | S fuel' =>
      let stretch := substring begin_stretch (begin_char - begin_stretch) data in
      match String.get begin_char data with
      | Some c =>
          e ← position end_;
          let esc := escape (e - begin_char) c in
          next ← scan_to enc data (String.length data) (Some e);
          if Ascii.eqb esc NUL
          then escape_loop data fuel' begin_stretch e next m_buffer
          else escape_loop data fuel' e e next
                 (m_buffer +:+ stretch +:+ String backslash (String esc EmptyString))
      | None => mret (m_buffer +:+ stretch)
      end
  end.

Definition escape_field_to_buffer (data : string) (m_buffer : string) : reader string :=
  m_buffer ←
    (if is_empty data then mret m_buffer
     else
       end_ ← scan_to enc data (String.length data) (Some 0);
       escape_loop data (S (String.length data)) 0 0 end_ m_buffer);
  mret (snoc m_buffer TAB).

Definition null_field : string := String backslash (String "N" (String TAB EmptyString)).

(** What [append_to_buffer] distinguishes at compile time: arithmetic types,
    the string types, and all others. *)
Inductive copy_field : Type :=
  | CopyArithmetic {T : Type} (traits : StringTraits T) (value : T)
  | CopyString (value : string)
  | CopyConverted {T : Type} (traits : StringTraits T) (value : T).

(** Running a program on a buffer that is not used again: its memory. *)
Definition in_buffer {A} (m : list ascii) (b : buf A) : reader (A * list ascii) :=
  match b m with
  | Some (Ok a, m') => Some (Ok (a, m'))
  | Some (Throw e, _) => Some (Throw e)
  | None => None
  end.

(** [estimate_buffer] *)
Definition estimate_buffer {T} (traits : StringTraits T) (value : T) : nat :=
  if is_null value then String.length null_field else size_buf value.

(** An arithmetic value is converted behind what the buffer holds, and its
    terminating zero becomes the tab. *)
Definition append_arithmetic {T} (traits : StringTraits T) (value : T) (m_buffer : string) : reader string :=
  let offset := String.length m_buffer in
  '(here, m) ← in_buffer
     (list_ascii_of_string m_buffer ++ replicate (estimate_buffer traits value) NUL)
     (here ← into_buf offset value; put (here - 1) TAB);
  mret (string_of_list_ascii (take here m)).

(** [to_buf] in a buffer of its own. *)
Definition field_text_of {T} (traits : StringTraits T) (value : T) : reader string :=
  '((begin, len), m) ← in_buffer (replicate (estimate_buffer traits value) NUL)
     (generic_to_buf 0 value);
  mret (string_of_list_ascii (take len (drop begin m))).

Definition append_to_buffer (f : copy_field) (m_buffer : string) : reader string :=
  match f with
  | CopyArithmetic traits value =>
      if is_null value then mret (m_buffer +:+ null_field)
      else append_arithmetic traits value m_buffer
  | CopyString value => escape_field_to_buffer value m_buffer
  | CopyConverted traits value =>
      if is_null value then mret (m_buffer +:+ null_field)
      else text ← field_text_of traits value; escape_field_to_buffer text m_buffer
  end.

Fixpoint fill_buffer (fields : list copy_field) (m_buffer : string) : reader string :=
  match fields with
  | [] => mret m_buffer
  | f :: fields' => m_buffer ← append_to_buffer f m_buffer; fill_buffer fields' m_buffer
  end.

(** [write_buffer] takes the last tab back. *)
Definition line_of_buffer (m_buffer : string) : string :=
  if is_empty m_buffer then m_buffer else substring 0 (String.length m_buffer - 1) m_buffer.

(** The line [write_row] and [write_values] send, from an empty buffer. *)
Definition row_line (fields : list copy_field) : reader string :=
  m_buffer ← fill_buffer fields EmptyString;
  mret (line_of_buffer m_buffer).
End to_line.

(** ** [stream_from]: a line to fields *)

(** The variables of [parse_line]: positions in the line and in [m_row], the
    beginning of the field unless it is null, and the views of the fields. *)
Record line_state := mk_line {
  l_read : nat;
  l_write : nat;
  l_begin : option nat;
  l_fields : list (option (nat * nat));
  l_row : list ascii;
}.

(** [*write++ = c] *)
Definition put_char (c : ascii) (s : line_state) : reader line_state :=
  match put (l_write s) c (l_row s) with
  | Some (Ok here, m) => mret (mk_line (l_read s) here (l_begin s) (l_fields s) m)
  | _ => PqxxArray.undefined
  end.

Definition set_read (pos : nat) (s : line_state) : line_state :=
  mk_line pos (l_write s) (l_begin s) (l_fields s) (l_row s).
Definition set_begin (b : option nat) (s : line_state) : line_state :=
  mk_line (l_read s) (l_write s) b (l_fields s) (l_row s).

(** The end of a field: null, or a view and a terminating zero. *)
Definition end_field (s : line_state) : reader line_state :=
  match l_begin s with
  | None => mret (mk_line (l_read s) (l_write s) None (l_fields s ++ [None]) (l_row s))
  | Some b => put_char NUL (mk_line (l_read s) (l_write s) (Some b)
                              (l_fields s ++ [Some (b, l_write s - b)]) (l_row s))
  end.

(** The character an escape sequence stands for. *)
Definition unescape (c : ascii) : ascii :=
  if Ascii.eqb c "b" then "008"
  else if Ascii.eqb c "f" then "012"
  else if Ascii.eqb c "n" then "010"
  else if Ascii.eqb c "r" then "013"
  else if Ascii.eqb c "t" then TAB
  else if Ascii.eqb c "v" then "011"
  else c.

Section from_line.
Context {bh : Behind} (enc : encoding_group) (line : string).
Let line_size : nat := String.length line.

(** [while (read < glyph_end) *write++ = *read++;] *)
Fixpoint copy_glyph (count : nat) (s : line_state) : reader line_state :=
  match count with
  | O => mret s
  | S count' =>
      match String.get (l_read s) line with
      | Some c => s ← put_char c (set_read (l_read s + 1) s); copy_glyph count' s
      | None => PqxxArray.undefined
      end
  end.

(** An escape sequence, behind its backslash. *)
Definition escape_sequence (s : line_state) : reader line_state :=
  match String.get (l_read s) line with
  | None => fails (failure "Row ends in backslash")
  | Some c =>
      let s := set_read (l_read s + 1) s in
      if Ascii.eqb c "N" then
        if bool_decide (l_begin s = Some (l_write s)) then mret (set_begin None s)
        else fails (failure "Null sequence found in nonempty field")
      else put_char (unescape c) s
  end.

Fixpoint parse_loop (fuel : nat) (s : line_state) : reader line_state :=
  match fuel with
  | O => PqxxArray.undefined
  | S fuel' =>
      match String.get (l_read s) line with
      | None => mret s
      | Some c =>
          glyph_end ← (scan_to enc line line_size (Some (l_read s)) ≫= position);
          s ←
            (if glyph_end =? l_read s + 1 then
               let s := set_read (l_read s + 1) s in
               if Ascii.eqb c TAB then s ← end_field s; mret (set_begin (Some (l_write s)) s)
               else if Ascii.eqb c backslash then escape_sequence s
               else put_char c s
             else copy_glyph (glyph_end - l_read s) s);
          parse_loop fuel' s
      end
  end.

(** [parse_line] on a line that was read: the views, and [m_row]. *)
Definition parse_line : reader (list (option (nat * nat)) * list ascii) :=
  if (2 ^ 63 - 1 <=? Z.of_nat line_size)%Z
  then fails (mk_exn pqxx_range_error "Stream produced a ridiculously long line.")
  else
    s ← parse_loop (S line_size) (mk_line 0 0 (Some 0) [] (replicate (line_size + 1) NUL));
    s ← end_field s;
    mret (l_fields s, l_row s).
End from_line.

(** The fields [read_row] shows. *)
Definition view_text (m_row : list ascii) (view : option (nat * nat)) : option (list ascii) :=
  option_map (λ '(b, len), take len (drop b m_row)) view.

Definition read_fields {bh : Behind} (enc : encoding_group) (line : string) : reader (list (option (list ascii))) :=
  '(m_fields, m_row) ← parse_line enc line;
  mret (map (view_text m_row) m_fields).

Example copy_line :
  let fields := [CopyArithmetic (integral_traits t_int) (@mk_integral t_int (-20) eq_refl);
                 CopyString (String "a" (String TAB "\b"));
                 CopyConverted (@option_traits string string_traits) None;
                 CopyConverted (@array_traits string string_traits) ["x"]]%string in
  row_line (bh:=zeros) UTF8 fields = Some (Ok ("-20" +:+ String TAB "a\t\\b" +:+ String TAB "\N" +:+ String TAB (bq "{`x`}")))%string ∧
  (read_fields (bh:=zeros) UTF8 ("-20" +:+ String TAB "a\t\\b" +:+ String TAB "\N" +:+ String TAB (bq "{`x`}"))%string =
   Some (Ok [Some (list_ascii_of_string "-20"); Some (list_ascii_of_string (String "a" (String TAB "\b")));
    None; Some (list_ascii_of_string (bq "{`x`}"))])).
Proof. split; vm_compute; reflexivity. Qed.
