(* ===== verification/PqxxTransaction.v ===== *)
(** Connections and transactions of libpqxx (connection.cxx,
    transaction_base.cxx, transaction.cxx, util.cxx): executing statements,
    the registration of a transaction with its connection, commit, abort and
    the destructor.  libpq itself is the environment. *)

From S2P Require Import Prelude Decimal Exceptions Effects PqxxResult.

Local Open Scope string_scope.

(** ** Objects that register with another *)

(** A registered guest: its address, class and name. *)
Record guest := mk_guest { g_ptr : positive; g_class : string; g_name : string }.

Definition describe_object (class_name obj_name : string) : string :=
  if is_empty obj_name then class_name else class_name +:+ " '" +:+ obj_name +:+ "'".

Definition describe_guest (g : guest) : string := describe_object (g_class g) (g_name g).

Definition check_unique_register (old_guest : option guest) (new_guest : guest)
  : result exn unit :=
  match old_guest with
  | None => Ok tt
  | Some old =>
      Throw (usage_exn
        (if decide (g_ptr old = g_ptr new_guest)
         then "Started twice: " +:+ describe_guest old +:+ "."
         else "Started new " +:+ describe_guest new_guest +:+ " while " +:+
              describe_guest new_guest +:+ " was still active."))
  end.

Definition check_unique_unregister (old_guest : option guest) (new_guest : guest)
  : result exn unit :=
  match old_guest with
  | None => Throw (usage_exn ("Closed while not open: " +:+ describe_guest new_guest))
  | Some old =>
      if decide (g_ptr new_guest = g_ptr old) then Ok tt
      else Throw (usage_exn ("Closed " +:+ describe_guest new_guest +:+
             "; expected to close " +:+ describe_guest old))
  end.

(** ** Connections *)

(** [m_conn] is whether the pointer to libpq's connection is not null.  No
    error handlers or notification receivers are registered in the program. *)
Record connection := mk_connection { m_conn : bool; m_trans : option guest }.

Section connection_ops.
Context `{Env}.

Definition is_open : prog connection bool :=
  c ← get; if m_conn c : bool then ask PQstatus_ok else mret false.

(** [process_notice]: the text, with its newline, for the error handlers. *)
Fixpoint ends_with_newline (msg : string) : bool :=
  match msg with
  | EmptyString => false
  | String c EmptyString => Ascii.eqb c "010"
  | String _ msg' => ends_with_newline msg'
  end.

Definition process_notice {S} (msg : string) : prog S unit :=
  if is_empty msg then mret tt
  else emit (Notice (if ends_with_newline msg then msg else msg +:+ NL)).

Definition err_msg : prog connection string :=
  c ← get; if m_conn c : bool then ask PQerrorMessage else mret "No connection to database".

Definition encoding_id : prog connection Z :=
  c ← get;
  enc ← (if m_conn c : bool then ask PQclientEncoding else mret (-1)%Z);
  if (enc =? -1)%Z then
    open ← is_open;
    if open : bool then throw (failure_exn "Could not obtain client encoding.")
    else throw (broken_exn "Lost connection to the database server.")
  else mret enc.

(** [make_result]: null results, the encoding, then the status. *)
Definition make_result (pgr : option pg_result) (query desc : string)
  : prog connection query_result :=
  match pgr with
  | None =>
      open ← is_open;
      if open : bool then m ← err_msg; throw (failure_exn m)
      else throw (broken_exn "Lost connection to the database server.")
  | Some pgr =>
      id ← encoding_id;
      enc ← lift_result (enc_group (pg_encoding_to_char id));
      lift_result (check_status desc pgr);;
      mret (mk_query_result pgr query enc)
  end.

Definition consume_input : prog connection bool :=
  c ← get; if m_conn c : bool then interact PqConsumeInput PQconsumeInput else mret false.

(** [get_notifs]: without receivers the notifications are only counted. *)
Definition get_notifs : prog connection nat :=
  ok ← consume_input;
  if negb ok then throw (broken_exn "Connection lost.")
  else
    c ← get;
    match m_trans c with
    | Some _ => mret 0%nat
    | None => ask PQnotifies
    end.

Definition conn_exec (query desc : string) : prog connection query_result :=
  c ← get;
  pgr ← (if m_conn c : bool then interact (PqExec (c_str query)) PQexec else mret None);
  res ← make_result pgr query desc;
  _ ← get_notifs;
  mret res.

Definition conn_exec_params (query : string) (args : list (option string))
  : prog connection query_result :=
  c ← get;
  pgr ← (if m_conn c : bool
         then interact (PqExecParams (c_str query) (map (fmap c_str) args)) PQexec
         else mret None);
  res ← make_result pgr query EmptyString;
  _ ← get_notifs;
  mret res.

Definition register_transaction (t : guest) : prog connection unit :=
  c ← get;
  lift_result (check_unique_register (m_trans c) t);;
  modify (λ c, mk_connection (m_conn c) (Some t)).

Definition unregister_transaction (t : guest) : prog connection unit :=
  c ← get;
  try_catch (lift_result (check_unique_unregister (m_trans c) t))
    (λ e, process_notice (what e));;
  modify (λ c, mk_connection (m_conn c) None).

(** [set_up_state] and [complete_init]: a failure closes the connection. *)
Definition set_up_state : prog connection unit :=
  proto_ver ← ask PQprotocolVersion;
  if (proto_ver <? 3)%Z then
    throw (if (proto_ver =? 0)%Z then broken_exn "No connection."
           else sql_exn "feature_not_supported"
             "Unsupported frontend/backend protocol version; 3.0 is the minimum.")
  else
    version ← ask PQserverVersion;
    if (version <=? 90000)%Z
    then throw (sql_exn "feature_not_supported"
                  "Unsupported server version; 9.0 is the minimum.")
    else mret tt.

Definition complete_init : prog connection unit :=
  c ← get;
  if negb (m_conn c) then throw (mk_exn pqxx_failure "std::bad_alloc")
  else
    try_catch
      (open ← is_open;
       if negb open then m ← err_msg; throw (broken_exn m) else set_up_state)
      (λ e, emit PqFinish;; modify (λ c, mk_connection false (m_trans c));; throw e).

(** The connection's constructor: [init(options)]. *)
Definition connection_init (options : string) : prog connection unit :=
  ok ← interact (PqConnect (c_str options)) PQconnectdb;
  modify (λ c, mk_connection ok (m_trans c));;
  complete_init.

(** [connection::close], which the destructor calls.  [PQfinish] does nothing
    with a null pointer. *)
Definition conn_close : prog connection unit :=
  c ← get;
  match m_trans c with
  | Some t => process_notice ("Closing connection while " +:+
                describe_object "transaction" (g_name t) +:+ " is still open.")
  | None => mret tt
  end;;
  when (m_conn c) (emit PqFinish);;
  modify (λ c, mk_connection false (m_trans c)).
End connection_ops.

(** ** Transactions *)

Inductive tx_status := active | aborted | committed | in_doubt.
#[export] Instance tx_status_eq_dec : EqDecision tx_status.
Proof. solve_decision. Defined.

Record transaction := mk_transaction {
  tx_ptr : positive;
  m_name : string;
  m_status : tx_status;
  m_registered : bool;
  m_pending_error : string;
  m_focus : option guest;
}.

(** A transaction object and the connection it refers to. *)
Record session := mk_session { s_conn : connection; s_tx : transaction }.

(** [transaction_base]'s constructor. *)
Definition transaction_new (ptr : positive) (name : string) : transaction :=
  mk_transaction ptr name active false EmptyString None.

Definition tx_guest (t : transaction) : guest :=
  mk_guest (tx_ptr t) "transaction" (m_name t).

Section transaction_ops.
Context `{Env}.

Definition on_conn {A} (m : prog connection A) : prog session A :=
  zoom s_conn (λ c s, mk_session c (s_tx s)) m.

Definition set_status (st : tx_status) : prog session unit :=
  modify (λ s, let t := s_tx s in
    mk_session (s_conn s) (mk_transaction (tx_ptr t) (m_name t) st (m_registered t)
      (m_pending_error t) (m_focus t))).
Definition set_registered (b : bool) : prog session unit :=
  modify (λ s, let t := s_tx s in
    mk_session (s_conn s) (mk_transaction (tx_ptr t) (m_name t) (m_status t) b
      (m_pending_error t) (m_focus t))).
Definition set_pending_error (err : string) : prog session unit :=
  modify (λ s, let t := s_tx s in
    mk_session (s_conn s) (mk_transaction (tx_ptr t) (m_name t) (m_status t) (m_registered t)
      err (m_focus t))).
Definition set_focus (f : option guest) : prog session unit :=
  modify (λ s, let t := s_tx s in
    mk_session (s_conn s) (mk_transaction (tx_ptr t) (m_name t) (m_status t) (m_registered t)
      (m_pending_error t) f)).

Definition description : prog session string :=
  gets (λ s, describe_object "transaction" (m_name (s_tx s))).

(** [transaction_base::register_transaction] *)
Definition tx_register : prog session unit :=
  t ← gets s_tx;
  on_conn (register_transaction (tx_guest t));;
  set_registered true.

Definition tx_unregister : prog session unit :=
  t ← gets s_tx; on_conn (unregister_transaction (tx_guest t)).

(** A pending error is reported once. *)
Definition check_pending_error : prog session unit :=
  t ← gets s_tx;
  if is_empty (m_pending_error t) then mret tt
  else set_pending_error EmptyString;; throw (failure_exn (m_pending_error t)).

Definition register_pending_error (err : string) : prog session unit :=
  t ← gets s_tx;
  when (is_empty (m_pending_error t) && negb (is_empty err)) (set_pending_error err).

Definition register_focus (f : guest) : prog session unit :=
  t ← gets s_tx;
  lift_result (check_unique_register (m_focus t) f);;
  set_focus (Some f).

Definition unregister_focus (f : guest) : prog session unit :=
  t ← gets s_tx;
  try_catch
    (lift_result (check_unique_unregister (m_focus t) f);; set_focus None)
    (λ e, process_notice (what e +:+ NL)).

Definition direct_exec (cmd desc : string) : prog session query_result :=
  check_pending_error;; on_conn (conn_exec cmd desc).

(** The [command] guard: a focus for the duration of [body].  The guard lives
    at an address no registered focus has. *)
Definition fresh_ptr (old : option guest) : positive :=
  match old with None => 1%positive | Some g => Pos.succ (g_ptr g) end.

Definition command {A} (oname : string) (body : prog session A) : prog session A :=
  t ← gets s_tx;
  let f := mk_guest (fresh_ptr (m_focus t)) "command" oname in
  register_focus f;;
  finally body (unregister_focus f).

Definition tx_exec (query desc : string) : prog session query_result :=
  check_pending_error;;
  command desc
    (t ← gets s_tx;
     match m_status t with
     | active => direct_exec query desc
     | _ =>
         let n := if is_empty desc then EmptyString else "'" +:+ desc +:+ "' " in
         throw (usage_exn ("Could not execute command " +:+ n +:+
                  ": transaction is already closed."))
     end).

(** [exec_params]; unlike [exec] it looks at neither the pending error nor the
    status. *)
Definition tx_exec_params (query : string) (args : list (option string))
  : prog session query_result :=
  command query (on_conn (conn_exec_params query args)).

(** [basic_transaction::do_commit] *)
Definition do_commit : prog session unit :=
  try_catch (_ ← direct_exec "COMMIT" EmptyString; mret tt)
    (λ e,
      t ← gets s_tx;
      let unknown (msg : string) : prog session unit :=
        process_notice (what e +:+ NL);;
        process_notice (msg +:+ NL);;
        throw (in_doubt_exn msg) in
      if decide (exn_kind e = pqxx_statement_completion_unknown) then
        unknown ("WARNING: Commit of transaction '" +:+ m_name t +:+ "' is unknown. " +:+
                 "There is no way to tell whether the transaction succeeded " +:+
                 "or was aborted except to check manually.")
      else
        open ← on_conn is_open;
        if negb open then
          unknown ("WARNING: Connection lost while committing transaction '" +:+ m_name t +:+
                   "'. There is no way to tell whether the transaction succeeded " +:+
                   "or was aborted except to check manually.")
        else throw e).

Definition do_abort : prog session unit := _ ← direct_exec "ROLLBACK" EmptyString; mret tt.

(** [abort], given what the class does to abort and [close]. *)
Definition abort_as (do_abort close : prog session unit) : prog session unit :=
  t ← gets s_tx;
  descr ← description;
  match m_status t with
  | active =>
      try_catch do_abort (λ e, process_notice (what e +:+ NL));;
      set_status aborted;; close
  | aborted => mret tt
  | committed => throw (usage_exn ("Attempt to abort previously committed " +:+ descr))
  | in_doubt =>
      process_notice ("Warning: " +:+ descr +:+
        " aborted after going into indeterminate state; " +:+
        "it may have been executed anyway." +:+ NL)
  end.
Definition abort_with : prog session unit → prog session unit := abort_as do_abort.

(** [close], given [abort]. *)
Definition close_with (abort : prog session unit) : prog session unit :=
  try_catch check_pending_error (λ e, process_notice (what e));;
  t ← gets s_tx;
  when (m_registered t) (set_registered false;; tx_unregister);;
  if decide (m_status t ≠ active) then mret tt
  else
    descr ← description;
    match m_focus t with
    | None => mret tt
    | Some f => process_notice ("Closing " +:+ descr +:+ "  with " +:+ describe_guest f +:+
                  " still open." +:+ NL)
    end;;
    try_catch abort (λ e, process_notice (what e)).

(** [close] calls [abort], which calls [close] again once the transaction is
    no longer active; that inner call ends before [abort]. *)
Fixpoint close_n (abort_with : prog session unit → prog session unit) (n : nat)
    : prog session unit :=
  match n with
  | O => mret tt
  | S n' => close_with (abort_with (close_n abort_with n'))
  end.
Definition close : prog session unit := close_n abort_with 2.
Definition abort : prog session unit := abort_with close.

(** [commit], given what the class does to commit and [close]. *)
Definition commit_as (do_commit close : prog session unit) : prog session unit :=
  check_pending_error;;
  t ← gets s_tx;
  descr ← description;
  match m_status t with
  | aborted => throw (usage_exn ("Attempt to commit previously aborted " +:+ descr))
  | committed => process_notice (descr +:+ " committed more than once." +:+ NL)
  | in_doubt =>
      throw (in_doubt_exn (descr +:+ " committed again while in an indeterminate state."))
  | active =>
      match m_focus t with
      | Some f => throw (failure_exn ("Attempt to commit " +:+ descr +:+ " with " +:+
                    describe_guest f +:+ " still open."))
      | None =>
          open ← on_conn is_open;
          if negb open then
            throw (broken_exn "Broken connection to backend; cannot complete transaction.")
          else
            try_catch (do_commit;; set_status committed)
              (λ e, set_status (if decide (exn_kind e = pqxx_in_doubt_error)
                                then in_doubt else aborted);;
                    throw e);;
            close
      end
  end.
Definition commit : prog session unit := commit_as do_commit close.

(** The destructor of [transaction_base]. *)
Definition transaction_base_destroy : prog session unit :=
  t ← gets s_tx;
  descr ← description;
  when (negb (is_empty (m_pending_error t)))
    (process_notice ("UNPROCESSED ERROR: " +:+ m_pending_error t +:+ NL));;
  when (m_registered t)
    (process_notice (descr +:+ " was never closed properly!" +:+ NL);; tx_unregister).

Definition begin_cmd : string := "BEGIN".

(** The constructor of [work] up to the point where the object exists. *)
Definition basic_transaction_init : prog session unit :=
  tx_register;; _ ← direct_exec begin_cmd EmptyString; mret tt.

(** A session together with the local variables of the enclosing function. *)
Definition in_session {L A} (m : prog session A) : prog (session * L) A :=
  zoom fst (λ s p, (s, p.2)) m.

(** [{ pqxx::work txn(conn); body }]: a constructor that throws destroys the
    base object; otherwise the destructor runs at the end of the scope. *)
Definition with_work {L A} (ptr : positive) (body : prog (session * L) A)
  : prog (connection * L) A := λ '(c, l) h,
  let s0 := (mk_session c (transaction_new ptr EmptyString), l) in
  let scope : prog (session * L) A :=
    finally (in_session basic_transaction_init;; finally body (in_session close))
            (in_session transaction_base_destroy) in
  let '(r, (s, l), h) := scope s0 h in (r, (s_conn s, l), h).
End transaction_ops.
