(* ===== verification/PqxxStreams.v ===== *)
(** Streams of rows into and out of a table (stream_to.cxx, stream_from.cxx and
    the COPY functions of connection.cxx): a stream is the focus of its
    transaction until it is finished. *)

From S2P Require Import Prelude Decimal Exceptions Effects PqxxResult PqxxTransaction PqxxEncoding.
From S2P Require Import PqxxConv PqxxBuffer PqxxArray PqxxCopy.

Local Open Scope string_scope.

(** ** What libpq answers during COPY *)

(** [PQgetCopyData]: -2, -1, 0 or a line with its line break. *)
Inductive copy_data := CopyError | CopyEnd | CopyLater | CopyLine (buf : string).

Class CopyEnv := {
  PQputCopyData : history → Z;
  PQputCopyEnd : history → Z;
  PQgetCopyData : history → copy_data;
  PQgetResult : history → option pg_result;
}.

(** [check_cast<int>] of a [ssize_t]. *)
Definition check_cast_int (value : Z) (description : string) : result exn Z :=
  if (value <? - 2 ^ 31)%Z then Throw (mk_exn pqxx_range_error (c_str ("Cast underflow: " +:+ description)))
  else if (2 ^ 31 - 1 <? value)%Z then Throw (mk_exn pqxx_range_error (c_str ("Cast overflow: " +:+ description)))
  else Ok value.

Section connection_copy.
Context `{Env} `{CopyEnv}.

Definition end_copy : string := "[END COPY]".

(** [PQ...(m_conn, ...)]; the functions report an error for a null pointer. *)
Definition on_pq {A} (e : event) (answer : history → A) (error : A) : prog connection A :=
  c ← get;
  if m_conn c : bool then interact e answer else mret error.

(** [connection::read_copy_line]: no line at the end. *)
Definition read_copy_line : prog connection (option string) :=
  data ← on_pq PqGetCopyData PQgetCopyData CopyError;
  match data with
  | CopyError => m ← err_msg; throw (failure_exn ("Reading of table data failed: " +:+ m))
  | CopyEnd =>
      pgr ← on_pq PqGetResult PQgetResult None;
      _ ← make_result pgr end_copy end_copy;
      mret None
  | CopyLater => throw (internal_exn "table read inexplicably went asynchronous")
  | CopyLine buf => mret (Some (substring 0 (String.length buf - 1) buf))
  end.

(** [connection::write_copy_line] *)
Definition write_copy_line (line : string) : prog connection unit :=
  size ← lift_result (check_cast_int (Z.of_nat (String.length line))
                        "Line in stream_to is too long to process.");
  res ← on_pq (PqPutCopyData line) PQputCopyData (-1)%Z;
  (if (res <=? 0)%Z then m ← err_msg; throw (failure_exn ("Error writing to table: " +:+ m)) else mret tt);;
  res ← on_pq (PqPutCopyData NL) PQputCopyData (-1)%Z;
  if (res <=? 0)%Z then m ← err_msg; throw (failure_exn ("Error writing to table: " +:+ m)) else mret tt.

(** [connection::end_copy_write] *)
Definition end_copy_write : prog connection unit :=
  res ← on_pq PqPutCopyEnd PQputCopyEnd (-1)%Z;
  if (res =? -1)%Z then m ← err_msg; throw (failure_exn ("Write to table failed: " +:+ m))
  else if (res =? 0)%Z then throw (internal_exn "table write is inexplicably asynchronous")
  else if (res =? 1)%Z then
    pgr ← on_pq PqGetResult PQgetResult None;
    _ ← make_result pgr end_copy end_copy;
    mret tt
  else throw (internal_exn ("unexpected result " +:+ to_string res +:+ " from PQputCopyEnd()")).
End connection_copy.

(** ** [transaction_base::exec0] *)

Section streams.
Context `{Env} `{CopyEnv} {bh : Behind}.

Definition exec_n (rows_expected : Z) (query desc : string) : prog session query_result :=
  r ← tx_exec query desc;
  let size := Z.of_nat (length (rows r)) in
  if (size =? rows_expected)%Z then mret r
  else
    let N := if is_empty desc then EmptyString else "'" +:+ desc +:+ "'" in
    throw (mk_exn pqxx_unexpected_rows (c_str ("Expected " +:+ to_string rows_expected +:+
      " row(s) of data from query " +:+ N +:+ ", got " +:+ to_string size +:+ "."))).
Definition exec0 (query : string) : prog session query_result := exec_n 0 query EmptyString.

(** [enc_group(tx.conn().encoding_id())] *)
Definition get_scanner : prog session encoding_group :=
  id ← on_conn encoding_id; lift_result (enc_group (pg_encoding_to_char id)).

(** ** [stream_to] *)

Record stream_to := mk_stream_to {
  to_guest : guest;
  to_registered : bool;
  to_finished : bool;
  to_enc : encoding_group;
}.

(** A session with a stream in it. *)
Abbreviation streaming T := (prog (session * T)).

Definition in_tx {T A} (m : prog session A) : streaming T A := zoom fst (λ s p, (s, p.2)) m.
Definition set_stream {T} (f : T → T) : streaming T unit := modify (λ p, (p.1, f p.2)).
Definition stream {T} : streaming T T := gets snd.

Definition begin_copy (table columns : string) : prog session query_result :=
  exec0 (if is_empty columns then "COPY " +:+ table +:+ " FROM STDIN"
         else "COPY " +:+ table +:+ "(" +:+ columns +:+ ") FROM STDIN").

(** The constructor, for a stream at address [ptr]. *)
Definition stream_to_init (ptr : positive) (path columns : string) : prog session stream_to :=
  enc ← get_scanner;
  _ ← begin_copy path columns;
  let g := mk_guest ptr "stream_to" path in
  register_focus g;;
  mret (mk_stream_to g true false enc).

Definition stream_to_unregister : streaming stream_to unit :=
  st ← stream;
  in_tx (unregister_focus (to_guest st));;
  set_stream (λ st, mk_stream_to (to_guest st) false (to_finished st) (to_enc st)).

Definition stream_to_complete : streaming stream_to unit :=
  st ← stream;
  if to_finished st : bool then mret tt
  else
    set_stream (λ st, mk_stream_to (to_guest st) (to_registered st) true (to_enc st));;
    stream_to_unregister;;
    in_tx (on_conn end_copy_write).

Definition stream_to_destroy : streaming stream_to unit :=
  try_catch stream_to_complete (λ e, in_tx (register_pending_error (what e))).

Definition write_raw_line (text : string) : streaming stream_to unit :=
  in_tx (on_conn (write_copy_line text)).

(** [write_buffer]: what [fill_buffer] left in [m_buffer] is sent as a line. *)
Definition write_buffer (m_buffer : string) : streaming stream_to unit :=
  write_raw_line (line_of_buffer m_buffer).

(** [{ stream_to s = stream_to::raw_table(tx, path, columns); body }] *)
Definition with_stream_to {A} (ptr : positive) (path columns : string) (body : streaming stream_to A)
    : prog session A := λ s h,
  match stream_to_init ptr path columns s h with
  | (Throw e, s, h) => (Throw e, s, h)
  | (Ok st, s, h) => let '(r, (s, _), h) := finally body stream_to_destroy (s, st) h in (r, s, h)
  end.

(** ** [stream_from] *)

Record stream_from := mk_stream_from {
  from_guest : guest;
  from_registered : bool;
  from_finished : bool;
  from_enc : encoding_group;
  from_fields : list (option (list ascii));
}.

Definition copy_out (table columns : string) : string :=
  if is_empty columns then "COPY " +:+ table +:+ " TO STDOUT"
  else "COPY " +:+ table +:+ "(" +:+ columns +:+ ") TO STDOUT".

Definition stream_from_init (ptr : positive) (table columns : string) : prog session stream_from :=
  enc ← get_scanner;
  _ ← exec0 (copy_out table columns);
  let g := mk_guest ptr "stream_from" table in
  register_focus g;;
  mret (mk_stream_from g true false enc []).

(** [stream_from::query] *)
Definition stream_from_query (ptr : positive) (query : string) : prog session stream_from :=
  enc ← get_scanner;
  _ ← exec0 ("COPY (" +:+ query +:+ ") TO STDOUT");
  let g := mk_guest ptr "stream_from" EmptyString in
  register_focus g;;
  mret (mk_stream_from g true false enc []).

Definition set_from_finished : streaming stream_from unit :=
  set_stream (λ st, mk_stream_from (from_guest st) (from_registered st) true (from_enc st) (from_fields st)).
Definition set_from_fields (fields : list (option (list ascii))) : streaming stream_from unit :=
  set_stream (λ st, mk_stream_from (from_guest st) (from_registered st) (from_finished st) (from_enc st) fields).

Definition stream_from_unregister : streaming stream_from unit :=
  st ← stream;
  in_tx (unregister_focus (from_guest st));;
  set_stream (λ st, mk_stream_from (from_guest st) false (from_finished st) (from_enc st) (from_fields st)).

Definition stream_from_close : streaming stream_from unit :=
  st ← stream;
  if from_finished st : bool then mret tt else set_from_finished;; stream_from_unregister.

Definition get_raw_line : streaming stream_from (option string) :=
  st ← stream;
  if from_finished st : bool then mret None
  else
    try_catch
      (line ← in_tx (on_conn read_copy_line);
       match line with None => stream_from_close | Some _ => mret tt end;;
       mret line)
      (λ e, stream_from_close;; throw e).

(** The loop of [complete] ends when libpq reports the end or an error; [fuel]
    is the number of lines left. *)
Fixpoint flush_lines (fuel : nat) (out_of_fuel : exn) : streaming stream_from unit :=
  match fuel with
  | O => throw out_of_fuel
  | S fuel' =>
      line ← get_raw_line;
      match line with None => mret tt | Some _ => flush_lines fuel' out_of_fuel end
  end.

Definition stream_from_complete (fuel : nat) (out_of_fuel : exn) : streaming stream_from unit :=
  st ← stream;
  if from_finished st : bool then mret tt
  else
    try_catch (flush_lines fuel out_of_fuel)
      (λ e, if decide (exn_kind e = pqxx_broken_connection)
            then stream_from_close;; throw e
            else in_tx (register_pending_error (what e)));;
    stream_from_close.

(** [parse_line]; what it leaves undefined cannot happen
    ([parse_line_inside]). *)
Definition stream_parse_line (undefined_line : exn) : streaming stream_from unit :=
  st ← stream;
  if from_finished st : bool then mret tt
  else
    set_from_fields [];;
    line ← get_raw_line;
    match line with
    | None => set_from_finished
    | Some line =>
        st ← stream;
        fields ← lift_result (default (Throw undefined_line) (read_fields (from_enc st) line));
        set_from_fields fields
    end.

(** [read_row]: no row when the stream is finished. *)
Definition read_row (undefined_line : exn) : streaming stream_from (option (list (option (list ascii)))) :=
  stream_parse_line undefined_line;;
  st ← stream;
  mret (if from_finished st then None else Some (from_fields st)).

Definition stream_from_destroy : streaming stream_from unit :=
  try_catch stream_from_close (λ e, in_tx (register_pending_error (what e))).

Definition with_stream_from {A} (init : prog session stream_from) (body : streaming stream_from A)
    : prog session A := λ s h,
  match init s h with
  | (Throw e, s, h) => (Throw e, s, h)
  | (Ok st, s, h) => let '(r, (s, _), h) := finally body stream_from_destroy (s, st) h in (r, s, h)
  end.

(** [while (auto row = stream.read_row())] *)
Fixpoint read_all_rows (fuel : nat) (out_of_fuel undefined_line : exn)
    : streaming stream_from (list (list (option (list ascii)))) :=
  match fuel with
  | O => throw out_of_fuel
  | S fuel' =>
      row ← read_row undefined_line;
      match row with
      | None => mret []
      | Some fields => rest ← read_all_rows fuel' out_of_fuel undefined_line; mret (fields :: rest)
      end
  end.

(** [stream_to::operator<<(stream_from &)]: the lines of a stream into another
    one, which belongs to another transaction as both are in focus. *)
Fixpoint stream_lines (fuel : nat) (out_of_fuel : exn)
    : prog ((session * stream_from) * (session * stream_to)) unit :=
  match fuel with
  | O => throw out_of_fuel
  | S fuel' =>
      tr ← gets (λ p, p.1.2);
      if from_finished tr : bool then mret tt
      else
        line ← zoom fst (λ f p, (f, p.2)) get_raw_line;
        match line with
        | None => mret tt
        | Some line => zoom snd (λ t p, (p.1, t)) (write_raw_line line);; stream_lines fuel' out_of_fuel
        end
  end.

End streams.
