(* ===== verification/PqxxRobust.v ===== *)
(** The other kinds of transaction of libpqxx: [nontransaction],
    [subtransaction] (subtransaction.cxx) and [robusttransaction]
    (robusttransaction.cxx), which on a connection lost during COMMIT opens
    another one to find out what became of the transaction. *)

From S2P Require Import Prelude Decimal Exceptions Effects PqxxResult PqxxTransaction PqxxStreams.

Local Open Scope string_scope.

(** ** The parameters of a connection *)

(** [PQconninfoOption], without the members the code does not look at. *)
Record conninfo_option := mk_conninfo_option {
  opt_keyword : string;
  opt_val : option string;
  opt_envvar : option string;
  opt_compiled : option string;
}.

(** What else libpq and the C library are asked. *)
Class ConnInfoEnv := {
  PQbackendPID : history → Z;
  PQconninfo : history → option (list conninfo_option);
  getenv : history → string → option string;
  PQescapeIdentifier : history → string → option string;
}.

Section conninfo.
Context `{Env} `{ConnInfoEnv}.

Definition backendpid : prog connection Z :=
  c ← get; if m_conn c : bool then ask PQbackendPID else mret 0%Z.

Definition get_default (opt : conninfo_option) : prog connection (option string) :=
  match opt_envvar opt with
  | None => mret (opt_compiled opt)
  | Some envvar =>
      var ← ask (λ h, getenv h envvar);
      mret (match var with None => opt_compiled opt | Some v => Some v end)
  end.

Fixpoint conninfo_text (params : list conninfo_option) (buf : string) : prog connection string :=
  match params with
  | [] => mret buf
  | param :: params' =>
      match opt_val param with
      | None => conninfo_text params' buf
      | Some val =>
          default_val ← get_default param;
          conninfo_text params'
            (if decide (default_val = Some val) then buf
             else (if is_empty buf then buf else buf +:+ " ") +:+ opt_keyword param +:+ "=" +:+ val)
      end
  end.

Definition pqxx_connection_string : prog connection string :=
  c ← get;
  if negb (m_conn c) then
    throw (usage_exn "Can't get connection string: connection is not open.")
  else
    params ← ask PQconninfo;
    match params with
    | None => throw (mk_exn pqxx_failure "std::bad_alloc")
    | Some params => conninfo_text params EmptyString
    end.

(** [connection::quote_name] *)
Definition quote_name (identifier : string) : prog connection string :=
  c ← get;
  buf ← (if m_conn c : bool then ask (λ h, PQescapeIdentifier h identifier) else mret None);
  match buf with
  | None => m ← err_msg; throw (failure_exn m)
  | Some buf => mret buf
  end.
End conninfo.

(** ** [nontransaction] *)

Section nontransaction.
Context `{Env}.

(** There is no rollback command. *)
Definition nt_close : prog session unit := close_n (abort_as (mret tt)) 2.

(** [{ nontransaction w{c, name}; body }] *)
Definition with_nontransaction {A} (ptr : positive) (name : string) (body : prog session A)
    : prog connection A := λ c h,
  let scope : prog session A :=
    finally (tx_register;; finally body nt_close) transaction_base_destroy in
  let '(r, s, h) := scope (mk_session c (transaction_new ptr name)) h in (r, s_conn s, h).

(** [{ connection c{options}; body }] *)
Definition with_connection {S A} (options : string) (body : prog connection A) : prog S A := λ s h,
  let scope : prog connection A := connection_init options;; finally body conn_close in
  let '(r, _, h) := scope (mk_connection false None) h in (r, s, h).

Definition exec1 (query : string) : prog session row :=
  r ← exec_n 1 query EmptyString; mret (default [] (head (rows r))).
End nontransaction.

(** ** [robusttransaction] *)

Inductive tx_stat := tx_unknown | tx_committed | tx_aborted | tx_in_progress.
#[export] Instance tx_stat_eq_dec : EqDecision tx_stat.
Proof. solve_decision. Defined.

Definition parse_status (text : string) : tx_stat :=
  match text with
  | String "a" _ => if String.eqb text "aborted" then tx_aborted else tx_unknown
  | String "c" _ => if String.eqb text "committed" then tx_committed else tx_unknown
  | String "i" _ => if String.eqb text "in progress" then tx_in_progress else tx_unknown
  | _ => tx_unknown
  end.

(** The members the constructor fills. *)
Record robust := mk_robust { m_conn_string : string; m_xid : string; m_backendpid : Z }.

Section robusttransaction.
Context `{Env} `{ConnInfoEnv}.

Definition status_query (xid : string) : string := "SELECT txid_status(" +:+ xid +:+ ")".

(** The status in the first field of the answer. *)
Definition status_of_row (status_row : row) : result exn tx_stat :=
  let status_field := row_field 0 status_row in
  if is_empty (default EmptyString status_field)
  then Throw (internal_exn "Transaction status string is empty.")
  else
    let view := default EmptyString status_field in
    let status := parse_status view in
    if decide (status = tx_unknown)
    then Throw (internal_exn ("Unknown transaction status string: " +:+ view))
    else Ok status.

Definition query_status {S} (xid conn_str : string) : prog S tx_stat :=
  with_connection conn_str
    (with_nontransaction 1 "robusttxck"
      (status_row ← exec1 (status_query xid); lift_result (status_of_row status_row))).

(** [init], after the members' initialisers. *)
Definition robust_init : prog session robust :=
  conn_str ← on_conn pqxx_connection_string;
  pid ← on_conn backendpid;
  _ ← direct_exec begin_cmd EmptyString;
  r ← direct_exec "SELECT txid_current()" EmptyString;
  mret (mk_robust conn_str (default EmptyString (row_field 0 (default [] (head (rows r))))) pid).

Definition max_attempts : nat := 500.

Definition in_doubt_message (name : string) (t : robust) : string :=
  "Transaction " +:+ name +:+ " (with transaction ID " +:+ m_xid t +:+ ") " +:+
  "lost connection while committing.  It's impossible to tell whether " +:+
  "it committed, or aborted, or is still running.  " +:+
  "Attempts to find out its outcome have failed.  " +:+
  "The backend process on the server had process ID " +:+ to_string (m_backendpid t) +:+
  ".  You may be able to check what happened to that process.".

(** The loop over the attempts. *)
Fixpoint find_out (t : robust) (attempts : nat) : prog session unit :=
  match attempts with
  | O => name ← gets (λ s, m_name (s_tx s)); throw (in_doubt_exn (in_doubt_message name t))
  | S attempts' =>
      stat ← try_catch (query_status (m_xid t) (m_conn_string t))
               (λ e, if decide (exn_kind e = pqxx_broken_connection) then mret tx_unknown else throw e);
      match stat with
      | tx_unknown => mret tt
      | tx_committed => mret tt
      | tx_aborted => do_abort
      | tx_in_progress => emit (WaitFor 300);; find_out t attempts'
      end
  end.

Definition robust_do_commit (t : robust) : prog session unit :=
  try_catch (_ ← direct_exec "SET CONSTRAINTS ALL IMMEDIATE" EmptyString; mret tt)
    (λ e, do_abort;; throw e);;
  done ← try_catch (_ ← direct_exec "COMMIT" EmptyString; mret true)
    (λ e, if decide (exn_kind e = pqxx_broken_connection) then mret false
          else
            open ← on_conn is_open;
            if open : bool then do_abort;; throw e else mret false);
  if done : bool then mret tt else find_out t max_attempts.

(** [commit] of a [robusttransaction]. *)
Definition robust_commit (t : robust) : prog session unit := commit_as (robust_do_commit t) close.

(** [{ robusttransaction<> txn(conn); body }] *)
Definition with_robust {A} (ptr : positive) (body : robust → prog session A) : prog connection A := λ c h,
  let scope : prog session A :=
    finally (t ← robust_init; finally (body t) close) transaction_base_destroy in
  let '(r, s, h) := scope (mk_session c (transaction_new ptr EmptyString)) h in (r, s_conn s, h).
End robusttransaction.

(** ** [subtransaction] *)

Section subtransaction.
Context `{Env} `{ConnInfoEnv}.

(** The session of a transaction with an object of a subtransaction in it; both
    refer to the same connection. *)
Definition in_sub {A} (m : prog session A) : prog (session * transaction) A :=
  zoom (λ p, mk_session (s_conn p.1) p.2) (λ s p, (mk_session (s_conn s) (s_tx p.1), s_tx s)) m.

(** [connection::adorn_name], for the number of names given before. *)
Definition adorn_name (unique_id : Z) (n : string) : string :=
  let id := to_string (unique_id + 1) in
  if is_empty n then "x" +:+ id else n +:+ "_" +:+ id.

Definition savepoint_cmd (verb name : string) : prog session string :=
  q ← on_conn (quote_name name); mret (verb +:+ " " +:+ q).

(** What the constructor leaves: the rollback command. *)
Definition subtransaction_init (name : string) : prog session string :=
  rollback_cmd ← savepoint_cmd "ROLLBACK TO SAVEPOINT" name;
  cmd ← savepoint_cmd "SAVEPOINT" name;
  _ ← direct_exec cmd EmptyString;
  mret rollback_cmd.

Definition sub_do_abort (rollback_cmd : string) : prog session unit :=
  _ ← direct_exec rollback_cmd EmptyString; mret tt.
Definition sub_do_commit (name : string) : prog session unit :=
  cmd ← savepoint_cmd "RELEASE SAVEPOINT" name; _ ← direct_exec cmd EmptyString; mret tt.

Definition sub_close (rollback_cmd : string) : prog session unit :=
  close_n (abort_as (sub_do_abort rollback_cmd)) 2.
Definition sub_commit (name rollback_cmd : string) : prog session unit :=
  commit_as (sub_do_commit name) (sub_close rollback_cmd).

(** [{ subtransaction sub(tx, tname); body }], for the adorned name [name]. *)
Definition with_subtransaction {A} (ptr : positive) (tname name : string)
    (body : string → prog (session * transaction) A) : prog session A := λ s h,
  let scope : prog (session * transaction) A :=
    finally (rollback_cmd ← in_sub (subtransaction_init name);
             finally (body rollback_cmd) (in_sub (sub_close rollback_cmd)))
            (in_sub transaction_base_destroy) in
  let '(r, (s, _), h) := scope (s, transaction_new ptr tname) h in (r, s, h).
End subtransaction.
