(* ===== verification/PqxxCursor.v ===== *)
(** Cursors of libpqxx (sql_cursor.cxx, cursor.cxx, cursor.hxx): the object that
    follows the position of a cursor in the server, the "stateless" interface
    that addresses rows by number, and streams of blocks of rows with the
    iterators over them, which the stream keeps in a doubly linked list. *)

From S2P Require Import Prelude Decimal Exceptions Effects PqxxResult PqxxTransaction PqxxEncoding.
From S2P Require Import PqxxStreams PqxxRobust.

Local Open Scope string_scope.

(** ** Policies and distances *)

Inductive access_policy := forward_only | random_access.
Inductive update_policy := read_only | update_rows.
Inductive ownership_policy := owned | loose.
#[export] Instance access_policy_eq_dec : EqDecision access_policy.
Proof. solve_decision. Defined.
#[export] Instance update_policy_eq_dec : EqDecision update_policy.
Proof. solve_decision. Defined.
#[export] Instance ownership_policy_eq_dec : EqDecision ownership_policy.
Proof. solve_decision. Defined.

(** [cursor_base::all] and [cursor_base::backward_all] *)
Definition all_rows : Z := 2 ^ 31 - 1 - 1.
Definition backward_all : Z := - 2 ^ 31 + 1.

Definition stridestring (n : Z) : string :=
  if (all_rows <=? n)%Z then "ALL"
  else if (n <=? backward_all)%Z then "BACKWARD ALL"
  else to_string n.

(** ** [sql_cursor] *)

Record sql_cursor := mk_sql_cursor {
  m_cursor_name : string;
  (* a [result] may hold nothing *)
  m_empty_result : option query_result;
  m_adopted : bool;
  m_ownership : ownership_policy;
  (* at the start (-1), somewhere in the middle (0), past the end (1) *)
  m_at_end : Z;
  (* -1 for unknown *)
  m_pos : Z;
  m_endpos : Z;
}.

Definition set_position (at_end pos endpos : Z) (c : sql_cursor) : sql_cursor :=
  mk_sql_cursor (m_cursor_name c) (m_empty_result c) (m_adopted c) (m_ownership c) at_end pos endpos.

(** [adjust]: the displacement, and the object after the call, which is changed
    even when the last check throws. *)
Definition adjust (hoped actual : Z) (c : sql_cursor) : result exn Z * sql_cursor :=
  if (actual <? 0)%Z then (Throw (internal_exn "Negative rows in cursor movement."), c)
  else if (hoped =? 0)%Z then (Ok 0%Z, c)
  else
    let direction := (if hoped <? 0 then -1 else 1)%Z in
    let move (at_end pos actual : Z) (hit_end : bool) : result exn Z * sql_cursor :=
      let pos := if (0 <=? pos)%Z then (pos + direction * actual)%Z else pos in
      if hit_end then
        if (0 <=? m_endpos c)%Z && negb (pos =? m_endpos c)%Z
        then (Throw (internal_exn "Inconsistent cursor end positions."), set_position at_end pos (m_endpos c) c)
        else (Ok (direction * actual)%Z, set_position at_end pos pos c)
      else (Ok (direction * actual)%Z, set_position at_end pos (m_endpos c) c) in
    if (actual =? Z.abs hoped)%Z then move 0%Z (m_pos c) actual false
    else if (Z.abs hoped <? actual)%Z
    then (Throw (internal_exn "Cursor displacement larger than requested."), c)
    else
      let actual := if (m_at_end c =? direction)%Z then actual else (actual + 1)%Z in
      if (0 <? direction)%Z then move direction (m_pos c) actual true
      else if (m_pos c =? -1)%Z then move direction actual actual false
      else if (m_pos c =? actual)%Z then move direction (m_pos c) actual false
      else (Throw (internal_exn ("Moved back to beginning, but wrong position: hoped=" +:+ to_string hoped +:+
              ", actual=" +:+ to_string actual +:+ ", m_pos=" +:+ to_string (m_pos c) +:+
              ", direction=" +:+ to_string direction +:+ ".")), c).

(** The number of rows a command was for, as a text ([PQcmdTuples]). *)
Class CursorEnv := { PQcmdTuples : pg_result → string }.

(** [atoi] on the digits of a number. *)
Fixpoint atoi_digits (n : Z) (s : string) : Z :=
  match s with
  | String c s' => if is_digit c then atoi_digits (n * 10 + digit_val c)%Z s' else n
  | EmptyString => n
  end.
Definition atoi (s : string) : Z := atoi_digits 0 s.

Section cursors.
Context `{Env} `{ConnInfoEnv} `{CursorEnv}.

Definition affected_rows (r : query_result) : Z :=
  let rows_str := PQcmdTuples (m_data r) in if is_empty rows_str then 0%Z else atoi rows_str.

(** Creating a cursor.  [adorned] is the name the connection made of the
    caller's; [unreadable] stands for what reading past the query would do. *)
Definition sql_cursor_declare (unreadable : exn) (query adorned : string) (ap : access_policy)
    (up : update_policy) (op : ownership_policy) (hold : bool) : prog session sql_cursor :=
  if is_empty query then throw (usage_exn "Cursor has empty query.")
  else
    enc ← get_scanner;
    qend ← lift_result (default (Throw unreadable) (find_query_end query enc));
    if (qend =? 0)%nat then throw (usage_exn "Cursor has effectively empty query.")
    else
      let query := substring 0 qend query in
      name ← on_conn (quote_name adorned);
      let cq := "DECLARE " +:+ name +:+ " " +:+
        (if decide (ap = forward_only) then "NO " else EmptyString) +:+ "SCROLL CURSOR " +:+
        (if hold then "WITH HOLD " else EmptyString) +:+ "FOR " +:+ query +:+ " " +:+
        (if decide (up = update_rows) then "FOR UPDATE " else "FOR READ ONLY ") in
      _ ← tx_exec cq EmptyString;
      (* init_empty_result *)
      name ← on_conn (quote_name adorned);
      empty ← tx_exec ("FETCH 0 IN " +:+ name) EmptyString;
      mret (mk_sql_cursor adorned (Some empty) false op (-1) 0 (-1)).

Definition sql_cursor_adopt (cname : string) (op : ownership_policy) : sql_cursor :=
  mk_sql_cursor cname None true op 0 (-1) (-1).

(** Operations on a cursor of a connection. *)
Abbreviation cursor_prog := (prog (connection * sql_cursor)).
Definition home {A} (m : prog connection A) : cursor_prog A := zoom fst (λ c p, (c, p.2)) m.

Definition cur_adjust (hoped actual : Z) : cursor_prog Z := λ p h,
  let '(r, cur) := adjust hoped actual p.2 in (r, (p.1, cur), h).

(** The command that moves by [rows]. *)
Definition stride_cmd (verb : string) (rows : Z) : cursor_prog string :=
  cur ← gets snd;
  name ← home (quote_name (m_cursor_name cur));
  mret (verb +:+ " " +:+ stridestring rows +:+ " IN " +:+ name).

(** The result and the displacement. *)
Definition fetch (rows_wanted : Z) : cursor_prog (option query_result * Z) :=
  if (rows_wanted =? 0)%Z then cur ← gets snd; mret (m_empty_result cur, 0%Z)
  else
    query ← stride_cmd "FETCH" rows_wanted;
    r ← home (conn_exec (c_str query) EmptyString);
    displacement ← cur_adjust rows_wanted (Z.of_nat (length (rows r)));
    mret (Some r, displacement).

(** The number of rows and the displacement. *)
Definition move (rows_wanted : Z) : cursor_prog (Z * Z) :=
  if (rows_wanted =? 0)%Z then mret (0%Z, 0%Z)
  else
    query ← stride_cmd "MOVE" rows_wanted;
    r ← home (conn_exec (c_str query) EmptyString);
    let d := affected_rows r in
    displacement ← cur_adjust rows_wanted d;
    mret (d, displacement).

Definition cursor_close : cursor_prog unit :=
  cur ← gets snd;
  if decide (m_ownership cur = owned) then
    try_catch
      (name ← home (quote_name (m_cursor_name cur));
       _ ← home (conn_exec (c_str ("CLOSE " +:+ name)) EmptyString);
       mret tt)
      (λ _, mret tt);;
    modify (λ p, (p.1, mk_sql_cursor (m_cursor_name p.2) (m_empty_result p.2) (m_adopted p.2) loose
                         (m_at_end p.2) (m_pos p.2) (m_endpos p.2)))
  else mret tt.

(** ** [stateless_cursor] *)

(** The constructor that adopts a cursor puts it in a known position. *)
Definition stateless_adopt : cursor_prog unit := _ ← move backward_all; mret tt.

(** [obtain_stateless_cursor_size] *)
Definition cursor_size : cursor_prog Z :=
  cur ← gets snd;
  (if (m_endpos cur =? -1)%Z then _ ← move all_rows; mret tt else mret tt);;
  gets (λ p, (m_endpos p.2 - 1)%Z).

Definition stateless_cursor_retrieve (size begin_pos end_pos : Z) : cursor_prog (option query_result) :=
  if (begin_pos <? 0)%Z || (size <? begin_pos)%Z
  then throw (mk_exn pqxx_range_error "Starting position out of range")
  else
    let end_pos := if (end_pos <? -1)%Z then (-1)%Z else if (size <? end_pos)%Z then size else end_pos in
    if (begin_pos =? end_pos)%Z then gets (λ p, m_empty_result p.2)
    else
      let direction := (if begin_pos <? end_pos then 1 else -1)%Z in
      cur ← gets snd;
      _ ← move ((begin_pos - direction) - (m_pos cur - 1))%Z;
      r ← fetch (end_pos - begin_pos)%Z;
      mret r.1.

Definition retrieve (begin_pos end_pos : Z) : cursor_prog (option query_result) :=
  size ← cursor_size; stateless_cursor_retrieve size begin_pos end_pos.
End cursors.
