(* ===== verification/Database.v ===== *)
(** The data access layer: database.h and database.cpp. *)

From S2P Require Import Prelude Decimal StdMap Doubles Exceptions JsonValue Effects PqxxConv.
From S2P Require Import PqxxResult PqxxTransaction.

Local Open Scope string_scope.

(** ** Data *)

Record Device := mk_device {
  d_id : Z;
  d_name : string;
  d_model : string;
  d_purchase_date : string;
  d_status : string;
}.

Record ServiceType := mk_service_type {
  st_id : Z;
  st_name : string;
  st_recommended_interval_months : Z;
  st_standard_cost : double;
}.

Record ServiceRecord := mk_service_record {
  sr_id : Z;
  sr_device_id : Z;
  sr_service_id : Z;
  sr_service_date : string;
  sr_cost : double;
  sr_notes : string;
  sr_next_due_date : string;
}.

(** [std::unique_ptr<pqxx::connection> conn] *)
Definition Database : Type := option connection.

(** The address of the local [pqxx::work txn]. *)
Definition local_txn : positive := 1%positive.

(** ** Parameters of statements *)

Section parameters.
Context `{Build}.

Definition param_string (s : string) : result exn (option string) := Ok (Some s).
Definition param_int (n : Z) : result exn (option string) :=
  text ← int_to_string t_int n; mret (Some text).
Definition param_double (d : double) : result exn (option string) :=
  Ok (Some (to_chars_double d)).

(** [s.empty() ? nullptr : s.c_str()] *)
Definition param_nullable (s : string) : result exn (option string) :=
  Ok (if is_empty s then None else Some (c_str s)).

(** [params pp(args...)] *)
Fixpoint params (args : list (result exn (option string))) : result exn (list (option string)) :=
  match args with
  | [] => Ok []
  | a :: args' => v ← a; vs ← params args'; mret (v :: vs)
  end.

Definition device_params (d : Device) : list (result exn (option string)) :=
  [param_string (d_name d); param_string (d_model d);
   param_nullable (d_purchase_date d); param_string (d_status d)].

Definition service_type_params (t : ServiceType) : list (result exn (option string)) :=
  [param_string (st_name t); param_int (st_recommended_interval_months t);
   param_double (st_standard_cost t)].

Definition service_record_params (r : ServiceRecord) : list (result exn (option string)) :=
  [param_int (sr_device_id r); param_int (sr_service_id r); param_string (sr_service_date r);
   param_double (sr_cost r); param_string (sr_notes r); param_nullable (sr_next_due_date r)].

(** ** Rows *)

Definition device_of_row (r : row) : result exn Device :=
  id ← as_int (row_field 0 r);
  name ← as_string (row_field 1 r);
  model ← as_string_default "" (row_field 2 r);
  purchase_date ← as_string_default "" (row_field 3 r);
  status ← as_string_default "active" (row_field 4 r);
  mret (mk_device id name model purchase_date status).

Definition service_type_of_row (r : row) : result exn ServiceType :=
  id ← as_int (row_field 0 r);
  name ← as_string (row_field 1 r);
  months ← as_int_default 0 (row_field 2 r);
  cost ← as_double_default dbl_zero (row_field 3 r);
  mret (mk_service_type id name months cost).

Definition service_record_of_row (r : row) : result exn ServiceRecord :=
  id ← as_int (row_field 0 r);
  device_id ← as_int (row_field 1 r);
  service_id ← as_int (row_field 2 r);
  service_date ← as_string (row_field 3 r);
  cost ← as_double_default dbl_zero (row_field 4 r);
  notes ← as_string_default "" (row_field 5 r);
  next_due_date ← as_string_default "" (row_field 6 r);
  mret (mk_service_record id device_id service_id service_date cost notes next_due_date).

(** [record["key"] = row[i].as<T>(...)], one after the other. *)
Definition history_of_row (r : row) : result exn json :=
  record_id ← as_int (row_field 0 r);
  j ← subscript_set "record_id" (JInteger record_id) JNull;
  device_name ← as_string (row_field 1 r);
  j ← subscript_set "device_name" (JString device_name) j;
  model ← as_string_default "" (row_field 2 r);
  j ← subscript_set "model" (JString model) j;
  service_name ← as_string (row_field 3 r);
  j ← subscript_set "service_name" (JString service_name) j;
  service_date ← as_string (row_field 4 r);
  j ← subscript_set "service_date" (JString service_date) j;
  cost ← as_double_default dbl_zero (row_field 5 r);
  j ← subscript_set "cost" (JFloat cost) j;
  notes ← as_string_default "" (row_field 6 r);
  j ← subscript_set "notes" (JString notes) j;
  next_due_date ← as_string_default "" (row_field 7 r);
  subscript_set "next_due_date" (JString next_due_date) j.
End parameters.

(** ** Statements *)

Definition sql_test : string := "SELECT 1".
Definition sql_get_devices : string :=
  "SELECT device_id, name, model, purchase_date, status FROM Devices ORDER BY device_id".
Definition sql_add_device : string :=
  "INSERT INTO Devices (name, model, purchase_date, status) VALUES ($1, $2, $3, $4)".
Definition sql_update_device : string :=
  "UPDATE Devices SET name=$1, model=$2, purchase_date=$3, status=$4 WHERE device_id=$5".
Definition sql_delete_device : string := "DELETE FROM Devices WHERE device_id=$1".
Definition sql_get_service_types : string :=
  "SELECT service_id, name, recommended_interval_months, standard_cost FROM Service_Types ORDER BY service_id".
Definition sql_add_service_type : string :=
  "INSERT INTO Service_Types (name, recommended_interval_months, standard_cost) VALUES ($1, $2, $3)".
Definition sql_update_service_type : string :=
  "UPDATE Service_Types SET name=$1, recommended_interval_months=$2, standard_cost=$3 WHERE service_id=$4".
Definition sql_delete_service_type : string := "DELETE FROM Service_Types WHERE service_id=$1".
Definition sql_get_service_records : string :=
  "SELECT record_id, device_id, service_id, service_date, cost, notes, next_due_date " +:+
  "FROM Service_History ORDER BY service_date DESC".
Definition sql_add_service_record : string :=
  "INSERT INTO Service_History (device_id, service_id, service_date, cost, notes, next_due_date) " +:+
  "VALUES ($1, $2, $3, $4, $5, $6)".
Definition sql_update_service_record : string :=
  "UPDATE Service_History SET device_id=$1, service_id=$2, service_date=$3, cost=$4, notes=$5, next_due_date=$6 WHERE record_id=$7".
Definition sql_delete_service_record : string := "DELETE FROM Service_History WHERE record_id=$1".
Definition sql_history : string :=
  "SELECT " +:+ "sh.record_id, " +:+ "d.name as device_name, " +:+ "d.model, " +:+
  "st.name as service_name, " +:+ "sh.service_date, " +:+ "sh.cost, " +:+ "sh.notes, " +:+
  "sh.next_due_date " +:+ "FROM Service_History sh " +:+
  "JOIN Devices d ON sh.device_id = d.device_id " +:+
  "JOIN Service_Types st ON sh.service_id = st.service_id " +:+
  "ORDER BY sh.service_date DESC".

(** ** Operations

    Every operation after construction dereferences [conn]; they are programs
    over the connection it points to. *)

Section operations.
Context `{Env, Build}.

(** The constructor: [conn] stays null when connecting throws. *)
Definition Database_new {S} (conn_str : string) : prog S Database := λ u h,
  let start := mk_connection false None in
  match connection_init conn_str start h with
  | (Ok _, c, h) =>
      let '(_, c, h) :=
        (open ← is_open;
         emit (if open : bool then Stdout "Connected to database successfully"
               else Stderr "Failed to connect to database")) c h in
      (Ok (Some c), u, h)
  | (Throw e, _, h) => (Ok None, u, Stderr ("Database connection error: " +:+ what e) :: h)
  end.

(** The destructor: that of the connection, if there is one. *)
Definition Database_destroy : prog Database unit := λ db h,
  match db with
  | None => (Ok tt, db, h)
  | Some c => let '(r, _, h) := conn_close c h in (r, None, h)
  end.

(** [conn && conn->is_open()] *)
Definition connect : prog Database bool := λ db h,
  match db with
  | None => (Ok false, db, h)
  | Some c => let '(r, c, h) := is_open c h in (r, Some c, h)
  end.

Definition testConnection : prog connection bool :=
  try_catch
    ('(_, _) ← with_local tt
       (with_work local_txn (_ ← in_session (tx_exec sql_test EmptyString); mret tt));
     mret true)
    (λ e, emit (Stderr ("Test connection failed: " +:+ what e));; mret false).

(** The shape of the functions that read a table: rows are appended to a local
    vector; an exception is reported and what was read so far is returned. *)
Definition read_rows {A} (sql error_text : string) (of_row : row → result exn A)
  : prog connection (list A) :=
  '(_, items) ← with_local []
    (try_catch
       (with_work local_txn
          (res ← in_session (tx_exec sql EmptyString);
           for_each (rows res) (λ r,
             x ← lift_result (of_row r); set_local (λ items, items ++ [x])%list);;
           in_session commit))
       (λ e, emit (Stderr (error_text +:+ what e))));
  mret items.

(** The shape of the functions that change a table. *)
Definition change_rows (sql error_text : string) (args : list (result exn (option string)))
  : prog connection bool :=
  try_catch
    ('(_, _) ← with_local tt
       (with_work local_txn
          (pp ← lift_result (params args);
           _ ← in_session (tx_exec_params sql pp);
           in_session commit));
     mret true)
    (λ e, emit (Stderr (error_text +:+ what e));; mret false).

Definition getAllDevices : prog connection (list Device) :=
  read_rows sql_get_devices "Error getting devices: " device_of_row.
Definition addDevice (device : Device) : prog connection bool :=
  change_rows sql_add_device "Error adding device: " (device_params device).
Definition updateDevice (id : Z) (device : Device) : prog connection bool :=
  change_rows sql_update_device "Error updating device: "
    (device_params device ++ [param_int id])%list.
Definition deleteDevice (id : Z) : prog connection bool :=
  change_rows sql_delete_device "Error deleting device: " [param_int id].

Definition getAllServiceTypes : prog connection (list ServiceType) :=
  read_rows sql_get_service_types "Error getting service types: " service_type_of_row.
Definition addServiceType (type : ServiceType) : prog connection bool :=
  change_rows sql_add_service_type "Error adding service type: " (service_type_params type).
Definition updateServiceType (id : Z) (type : ServiceType) : prog connection bool :=
  change_rows sql_update_service_type "Error updating service type: "
    (service_type_params type ++ [param_int id])%list.
Definition deleteServiceType (id : Z) : prog connection bool :=
  change_rows sql_delete_service_type "Error deleting service type: " [param_int id].

Definition getAllServiceRecords : prog connection (list ServiceRecord) :=
  read_rows sql_get_service_records "Error getting service records: " service_record_of_row.
Definition addServiceRecord (record : ServiceRecord) : prog connection bool :=
  change_rows sql_add_service_record "Error adding service record: "
    (service_record_params record).
Definition updateServiceRecord (id : Z) (record : ServiceRecord) : prog connection bool :=
  change_rows sql_update_service_record "Error updating service record: "
    (service_record_params record ++ [param_int id])%list.
Definition deleteServiceRecord (id : Z) : prog connection bool :=
  change_rows sql_delete_service_record "Error deleting service record: " [param_int id].

(** The rows are pushed onto a JSON array. *)
Definition getDetailedServiceHistory : prog connection json :=
  items ← read_rows sql_history "Error getting detailed history: " history_of_row;
  mret (JArray items).
End operations.
