(* ===== verification/WebServer.v ===== *)
(** The request handlers of webserver.cpp.  Each route's handler is a
    program over the connection, the logger and the metrics; the server object
    that owns them is in Server.v. *)

From stdpp Require Import gmap.
From S2P Require Import Prelude Decimal StdMap Doubles Exceptions JsonValue JsonLexer.
From S2P Require Import JsonParser JsonDump Effects Metrics Logger PqxxConv PqxxResult.
From S2P Require Import PqxxTransaction Database.

Local Open Scope string_scope.

(** ** Requests and responses *)

Record request := mk_request { remote_ip_address : string; req_body : string }.

Record response := mk_response {
  res_code : Z;
  res_headers : list (string * string);
  res_body : string;
}.

(** What the HTTP framework decides: the code of a response made without one,
    and how its event loop ends. *)
Class Crow := {
  default_code : Z;
  run_loop : history → result exn unit;
}.

(** The routes, in the order in which they are registered. *)
Inductive route :=
  | GetMetrics | GetIndex | GetFile (filename : string) | GetTestDb | PostLogin | PostLogout
  | GetDevices | PostDevices | GetServiceTypes | GetServiceHistory | PostServiceHistory
  | GetServiceRecords.

(** ** Handlers *)

(** What the handlers share. *)
Record app_state := mk_app_state {
  app_conn : connection;
  app_log : Logger;
  app_metrics : MetricsRegistry;
}.

Section handlers.
Context `{Env, Build, Platform, Crow}.

Definition on_db {A} (m : prog connection A) : prog app_state A :=
  zoom app_conn (λ c s, mk_app_state c (app_log s) (app_metrics s)) m.
Definition on_log {A} (m : prog Logger A) : prog app_state A :=
  zoom app_log (λ l s, mk_app_state (app_conn s) l (app_metrics s)) m.
Definition on_metrics (f : MetricsRegistry → MetricsRegistry) : prog app_state unit :=
  modify (λ s, mk_app_state (app_conn s) (app_log s) (f (app_metrics s))).

Definition info (message : string) : prog Logger unit := log_ctx INFO message "webserver.cpp".
Definition error (message : string) : prog Logger unit := log_ctx ERROR message "webserver.cpp".

Definition client_ip (req : request) : string :=
  if is_empty (remote_ip_address req) then "unknown" else remote_ip_address req.

Definition now {S} : prog S Z := interact Clock now_ns.

(** [duration_cast<milliseconds>(end_time - start_time).count()] *)
Definition duration_ms (start_time end_time : Z) : Z := Z.quot (end_time - start_time) 1000000.
(** [duration_ms / 1000.0] *)
Definition seconds (ms : Z) : double := dbl_div (dbl_of_Z ms) (dbl_of_Z 1000).
Definition one_ms : double := dbl_of_dec false 1 (-3).

(** [j[k] = v] for the fields in order, starting with a null value. *)
Fixpoint json_fields (fields : list (string * json)) (j : json) : result exn json :=
  match fields with
  | [] => Ok j
  | (k, v) :: fields' => j ← subscript_set k v j; json_fields fields' j
  end.

Definition json_headers : list (string * string) :=
  [("Content-Type", "application/json; charset=utf-8"); ("Access-Control-Allow-Origin", "*")].

(** [res.body = j.dump(); return res;] *)
Definition json_response (code : Z) (j : json) : prog app_state response :=
  body ← lift_result (json_dump j); mret (mk_response code json_headers body).

Definition fields_response (code : Z) (fields : list (string * json)) : prog app_state response :=
  j ← lift_result (json_fields fields JNull); json_response code j.

(** [/metrics] *)
Definition handle_metrics : prog app_state response :=
  s ← get;
  let r := app_metrics s in
  cnames ← interact Iterate (λ h, iteration h (map_to_list (counters_ r)).*1);
  hnames ← interact Iterate (λ h, iteration h (map_to_list (histograms_ r)).*1);
  mret (mk_response default_code [("Content-Type", "text/plain; version=0.0.4; charset=utf-8")]
          (format cnames hnames r)).

(** Opening a file for reading: its contents when it opens. *)
Definition open_file {S} (path : string) : prog S (option string) :=
  interact (OpenFile (c_str path)) file_contents.

(** The file at the first path that opens. *)
Definition open_www (name : string) : prog app_state (option string) :=
  f ← open_file ("www/" +:+ name);
  match f with
  | Some content => mret (Some content)
  | None => open_file ("../www/" +:+ name)
  end.

Definition handle_index : prog app_state response :=
  f ← open_www "index.html";
  mret (match f with
        | None => mk_response 404 [] "Index file not found"
        | Some content => mk_response default_code [("Content-Type", "text/html; charset=utf-8")] content
        end).

Definition content_type (filename : string) : string :=
  if scontains ".css" filename then "text/css"
  else if scontains ".js" filename then "application/javascript"
  else if scontains ".png" filename then "image/png"
  else if scontains ".jpg" filename || scontains ".jpeg" filename then "image/jpeg"
  else "text/html".

Definition handle_file (filename : string) : prog app_state response :=
  f ← open_www filename;
  mret (match f with
        | None => mk_response 404 [] ("File not found: " +:+ filename)
        | Some content => mk_response default_code [("Content-Type", content_type filename)] content
        end).

Definition handle_test_db : prog app_state response :=
  start_time ← now;
  connected ← on_db testConnection;
  time ← now;
  end_time ← now;
  let ms := duration_ms start_time end_time in
  on_metrics (recordHttpRequest "GET" "/api/test-db" 200 (seconds ms));;
  on_metrics (recordDbOperation "test_connection" connected);;
  fields_response 200
    [("database_connected", JBool connected); ("timestamp", JInteger (time / 1000000000))].

(** *** Login *)

Definition check_credentials (username password : string) : option string :=
  if String.eqb username "admin" && String.eqb password "admin123"
  then Some "Administrator login successful"
  else if String.eqb username "user" && String.eqb password "user123"
  then Some "User login successful"
  else None.

(** The [try] block. *)
Definition login_try (req : request) (start_time : Z) : prog app_state response :=
  body ← lift_result (json_parse (req_body req));
  '(body, u) ← lift_result (subscript_get "username" body);
  username ← lift_result (get_string u);
  '(body, p) ← lift_result (subscript_get "password" body);
  password ← lift_result (get_string p);
  on_log (logAuth username true (client_ip req) "Login attempt started");;
  let auth := check_credentials username password in
  let auth_success := if auth is Some _ then true else false in
  let auth_message := default "Invalid credentials" auth in
  match auth with
  | Some _ =>
      on_log (info (if String.eqb username "admin"
                    then "Admin user authenticated successfully"
                    else "Regular user authenticated successfully"))
  | None => on_log (logAuth username false (client_ip req) "Invalid username or password")
  end;;
  response ← lift_result (json_fields
    [("success", JBool auth_success); ("message", JString auth_message);
     ("username", JString username);
     ("token", JString (if auth_success then "mock-jwt-token-" +:+ username else ""))] JNull);
  end_time ← now;
  let ms := duration_ms start_time end_time in
  let code := (if auth_success then 200 else 401)%Z in
  on_log (logRequest (client_ip req) "POST" "/api/login" code ms);;
  on_metrics (recordAuthAttempt username auth_success);;
  on_metrics (recordHttpRequest "POST" "/api/login" code (seconds ms));;
  json_response code response.

(** The [catch] block. *)
Definition login_catch (req : request) (start_time : Z) (e : exn) : prog app_state response :=
  end_time ← now;
  let ms := duration_ms start_time end_time in
  on_log (logRequest (client_ip req) "POST" "/api/login" 400 ms);;
  on_log (error ("Login error: " +:+ what e));;
  on_metrics (recordAuthAttempt "unknown" false);;
  on_metrics (recordHttpRequest "POST" "/api/login" 400 (seconds ms));;
  fields_response 400 [("success", JBool false); ("error", JString (what e))].

Definition handle_login (req : request) : prog app_state response :=
  start_time ← now;
  try_catch (login_try req start_time) (login_catch req start_time).

Definition handle_logout (req : request) : prog app_state response :=
  _ ← now;
  on_log (info "User logout successful");;
  on_metrics (recordHttpRequest "POST" "/api/logout" 200 one_ms);;
  on_metrics (recordDbOperation "logout" true);;
  on_log (logRequest (client_ip req) "POST" "/api/logout" 200 1);;
  fields_response 200 [("success", JBool true); ("message", JString "Logged out successfully")].

(** *** Reading tables *)

Definition device_json (d : Device) : result exn json :=
  json_fields [("id", JInteger (d_id d)); ("name", JString (d_name d));
               ("model", JString (d_model d)); ("purchase_date", JString (d_purchase_date d));
               ("status", JString (d_status d))] JNull.

Definition service_type_json (t : ServiceType) : result exn json :=
  json_fields [("id", JInteger (st_id t)); ("name", JString (st_name t));
               ("recommended_interval_months", JInteger (st_recommended_interval_months t));
               ("standard_cost", JFloat (st_standard_cost t))] JNull.

Definition service_record_json (r : ServiceRecord) : result exn json :=
  json_fields [("id", JInteger (sr_id r)); ("device_id", JInteger (sr_device_id r));
               ("service_id", JInteger (sr_service_id r));
               ("service_date", JString (sr_service_date r)); ("cost", JFloat (sr_cost r));
               ("notes", JString (sr_notes r)); ("next_due_date", JString (sr_next_due_date r))]
    JNull.

(** [for (const auto& x : items) { ...; result.push_back(j); }] *)
Fixpoint json_rows {A} (to_json : A → result exn json) (items : list A) (result : json)
  : Prelude.result exn json :=
  match items with
  | [] => Ok result
  | x :: items' => j ← to_json x; result ← push_back j result; json_rows to_json items' result
  end.

(** A handler that returns a table. *)
Definition handle_table (path operation : string) (read : prog app_state json)
  : prog app_state response :=
  start_time ← now;
  result ← read;
  end_time ← now;
  let ms := duration_ms start_time end_time in
  on_metrics (recordHttpRequest "GET" path 200 (seconds ms));;
  on_metrics (recordDbOperation operation true);;
  json_response 200 result.

Definition handle_get_devices : prog app_state response :=
  handle_table "/api/devices" "get_devices"
    (devices ← on_db getAllDevices; lift_result (json_rows device_json devices (JArray []))).
Definition handle_get_service_types : prog app_state response :=
  handle_table "/api/service-types" "get_service_types"
    (types ← on_db getAllServiceTypes; lift_result (json_rows service_type_json types (JArray []))).
Definition handle_get_service_history : prog app_state response :=
  handle_table "/api/service-history" "get_service_history" (on_db getDetailedServiceHistory).
Definition handle_get_service_records : prog app_state response :=
  handle_table "/api/service-records" "get_service_records"
    (records ← on_db getAllServiceRecords;
     lift_result (json_rows service_record_json records (JArray []))).

(** *** Changing tables *)

(** Adding devices is blocked. *)
Definition handle_post_devices (req : request) : prog app_state response :=
  _ ← now;
  on_log (log_ctx WARNING ("Blocked device creation attempt from IP: " +:+ client_ip req)
            "webserver.cpp");;
  on_log (logDevice (-1) "create_blocked" false);;
  on_metrics (recordDeviceOperation "create_blocked" (-1) false);;
  on_metrics (recordHttpRequest "POST" "/api/devices" 403 one_ms);;
  j ← lift_result (json_fields
    [("success", JBool false); ("error", JString "Adding new devices is disabled")] JNull);
  _ ← now;
  json_response 403 j.

(** The record in the body of a request.  The code leaves [id] uninitialised;
    nothing reads it. *)
Definition record_of_body (text : string) : result exn ServiceRecord :=
  body ← json_parse text;
  '(body, v) ← subscript_get "device_id" body; device_id ← get_int v;
  '(body, v) ← subscript_get "service_id" body; service_id ← get_int v;
  '(body, v) ← subscript_get "service_date" body; service_date ← get_string v;
  '(body, v) ← subscript_get "cost" body; cost ← get_double v;
  '(body, v) ← subscript_get "notes" body; notes ← get_string v;
  '(body, v) ← subscript_get "next_due_date" body; next_due_date ← get_string v;
  mret (mk_service_record 0 device_id service_id service_date cost notes next_due_date).

Definition post_history_try (req : request) (start_time : Z) : prog app_state response :=
  record ← lift_result (record_of_body (req_body req));
  success ← on_db (addServiceRecord record);
  let record_id := (if success : bool then 1 else -1)%Z in
  on_metrics (recordServiceOperation "create" record_id success);;
  on_metrics (recordDbOperation "add_service_record" success);;
  response ← lift_result (json_fields [("success", JBool success)] JNull);
  end_time ← now;
  let ms := duration_ms start_time end_time in
  on_metrics (recordHttpRequest "POST" "/api/service-history" (if success then 200 else 400)
                (seconds ms));;
  json_response default_code response.

Definition post_history_catch (start_time : Z) (e : exn) : prog app_state response :=
  end_time ← now;
  let ms := duration_ms start_time end_time in
  on_metrics (recordServiceOperation "create" (-1) false);;
  on_metrics (recordDbOperation "add_service_record" false);;
  on_metrics (recordHttpRequest "POST" "/api/service-history" 400 (seconds ms));;
  fields_response 400 [("success", JBool false); ("error", JString (what e))].

Definition handle_post_service_history (req : request) : prog app_state response :=
  start_time ← now;
  try_catch (post_history_try req start_time) (post_history_catch start_time).

Definition handle (r : route) (req : request) : prog app_state response :=
  match r with
  | GetMetrics => handle_metrics
  | GetIndex => handle_index
  | GetFile filename => handle_file filename
  | GetTestDb => handle_test_db
  | PostLogin => handle_login req
  | PostLogout => handle_logout req
  | GetDevices => handle_get_devices
  | PostDevices => handle_post_devices req
  | GetServiceTypes => handle_get_service_types
  | GetServiceHistory => handle_get_service_history
  | PostServiceHistory => handle_post_service_history req
  | GetServiceRecords => handle_get_service_records
  end.
End handlers.
