(* ===== verification/Server.v ===== *)
(** The server object of webserver.cpp and the program's entry point in
    main.cpp: configuration, connecting, registering the routes, running. *)

From stdpp Require Import gmap.
From S2P Require Import Prelude Decimal StdMap Doubles Exceptions JsonValue JsonLexer.
From S2P Require Import JsonParser JsonDump Effects Metrics Logger PqxxConv PqxxResult.
From S2P Require Import PqxxTransaction Database WebServer.

Local Open Scope string_scope.

(** [db] is the unique pointer, [routes] what has been registered with [app];
    the logger and the metrics are the singletons. *)
Record server := mk_server {
  db : option Database;
  routes : list (string * option string);
  port : Z;
  server_log : Logger;
  server_metrics : MetricsRegistry;
}.

(** The path pattern of a route and the argument of [methods], if given. *)
Definition pattern (r : route) : string * option string :=
  match r with
  | GetMetrics => ("/metrics", None)
  | GetIndex => ("/", None)
  | GetFile _ => ("/<string>", None)
  | GetTestDb => ("/api/test-db", None)
  | PostLogin => ("/api/login", Some "POST")
  | PostLogout => ("/api/logout", Some "POST")
  | GetDevices => ("/api/devices", Some "GET")
  | PostDevices => ("/api/devices", Some "POST")
  | GetServiceTypes => ("/api/service-types", Some "GET")
  | GetServiceHistory => ("/api/service-history", Some "GET")
  | PostServiceHistory => ("/api/service-history", Some "POST")
  | GetServiceRecords => ("/api/service-records", Some "GET")
  end.

Definition all_patterns : list (string * option string) :=
  map pattern [GetMetrics; GetIndex; GetFile ""; GetTestDb; PostLogin; PostLogout; GetDevices;
    PostDevices; GetServiceTypes; GetServiceHistory; PostServiceHistory; GetServiceRecords].

(** The state at the start of the process, with an object whose only
    initialiser is [port(8080)]. *)
Definition server_start : server := mk_server None [] 8080 Logger_new empty_registry.

Section server_ops.
Context `{Env, Build, Platform, Crow}.

Definition with_log {A} (m : prog Logger A) : prog server A :=
  zoom server_log (λ l s, mk_server (db s) (routes s) (port s) l (server_metrics s)) m.
Definition set_db (d : option Database) : prog server unit :=
  modify (λ s, mk_server d (routes s) (port s) (server_log s) (server_metrics s)).
Definition set_port (p : Z) : prog server unit :=
  modify (λ s, mk_server (db s) (routes s) p (server_log s) (server_metrics s)).

(** [metrics.initialize()] and what it prints. *)
Definition initialize_metrics : prog server unit :=
  s ← get;
  let '(r, lines) := initialize (server_metrics s) in
  emit_all (map Stderr lines);;
  modify (λ s, mk_server (db s) (routes s) (port s) (server_log s) r).

Definition setupRoutes : prog server unit :=
  modify (λ s, mk_server (db s) (routes s ++ all_patterns)%list (port s) (server_log s)
                 (server_metrics s)).

(** [config[k1][k2]]: missing keys are added to the configuration. *)
Definition config_at (k1 k2 : string) (config : json) : result exn (json * json) :=
  fs ← subscript_object k1 config;
  '(inner, v) ← subscript_get k2 (default JNull (om_find k1 fs));
  mret (JObject (om_assign k1 inner fs), v).

(** The connection string.  The order in which the operands are evaluated is
    the compiler's choice; it decides only which error is reported first. *)
Definition connection_string (config : json) : result exn (json * string) :=
  '(config, v) ← config_at "database" "host" config; host ← get_string v;
  '(config, v) ← config_at "database" "port" config; port ← get_int v;
  '(config, v) ← config_at "database" "dbname" config; dbname ← get_string v;
  '(config, v) ← config_at "database" "user" config; user ← get_string v;
  '(config, v) ← config_at "database" "password" config; password ← get_string v;
  mret (config, "host=" +:+ host +:+ " " +:+ "port=" +:+ to_string port +:+ " " +:+
                "dbname=" +:+ dbname +:+ " " +:+ "user=" +:+ user +:+ " " +:+
                "password=" +:+ password).

(** [db->connect()], [db] having just been set. *)
Definition db_connect : prog server bool := λ s h,
  match db s with
  | None => (Ok false, s, h)
  | Some d =>
      let '(r, d, h) := connect d h in
      (r, mk_server (Some d) (routes s) (port s) (server_log s) (server_metrics s), h)
  end.

(** The [try] block of the constructor, on the text of the file. *)
Definition configure (text : string) : prog server unit :=
  config ← lift_result (json_read text);
  '(config, conn_str) ← lift_result (connection_string config);
  with_log (info "Connecting to database...");;
  d ← Database_new conn_str;
  set_db (Some d);;
  connected ← db_connect;
  if negb connected then
    with_log (error "Failed to connect to database");;
    with_log (logDatabase "connect" false "Connection failed")
  else
    with_log (info "Connected to database successfully");;
    with_log (logDatabase "connect" true "Database connection established");;
    '(_, v) ← lift_result (config_at "server" "port" config);
    p ← lift_result (get_int v);
    set_port p;;
    with_log (info ("Server configured for port: " +:+ to_string p));;
    initialize_metrics;;
    with_log (info "Prometheus metrics initialized");;
    setupRoutes;;
    with_log (info "Routes configured successfully").

(** The constructor. *)
Definition WebServer_init (config_file : string) : prog server unit :=
  with_log (initWithLoki "logs/webserver.log" DEBUG "localhost" 3100);;
  with_log (setServiceName "service_system");;
  with_log (logLifecycle "startup" "WebServer constructor started");;
  with_log (info "WebServer constructor started with Loki integration");;
  config_stream ← open_file config_file;
  match config_stream with
  | None => with_log (error ("Cannot open config file: " +:+ config_file))
  | Some text =>
      with_log (info ("Config file opened: " +:+ config_file));;
      try_catch (configure text) (λ e, with_log (error ("Config error: " +:+ what e)))
  end.

Definition run : prog server unit :=
  s ← get;
  emit (Stdout ("Starting server on port " +:+ to_string (port s)));;
  initialize_metrics;;
  r ← interact (ServeHttp (port s)) run_loop;
  lift_result r.

(** The destructor of the server: that of its database. *)
Definition WebServer_destroy : prog server unit := λ s h,
  match db s with
  | None => (Ok tt, s, h)
  | Some d =>
      let '(r, _, h) := Database_destroy d h in
      (r, mk_server None (routes s) (port s) (server_log s) (server_metrics s), h)
  end.

(** [main], with the arguments after the program's name: its return value. *)
Definition main (args : list string) : prog server Z :=
  let config_file := match args with [] => "config.json" | a :: _ => a end in
  try_catch
    (WebServer_init config_file;; finally run WebServer_destroy;; mret 0%Z)
    (λ e, emit (Stderr ("Server error: " +:+ what e));; mret 1%Z).

(** A request for a route: handled when the route is registered, by a handler
    that dereferences [db] and its connection. *)
Definition serve (r : route) (req : request) : prog server (option response) := λ s h,
  if decide (pattern r ∈ routes s) then
    match db s with
    | Some (Some c) =>
        let '(res, a, h) := handle r req (mk_app_state c (server_log s) (server_metrics s)) h in
        (match res with Ok x => Ok (Some x) | Throw e => Throw e end,
         mk_server (Some (Some (app_conn a))) (routes s) (port s) (app_log a) (app_metrics a), h)
    | _ => (Ok None, s, h)
    end
  else (Ok None, s, h).
End server_ops.
