(* ===== verification/EffectsFacts.v ===== *)
(** Reasoning about effectful programs: triples over the state and the events
    so far, one rule per combinator, and the SQL commands among the events. *)

From S2P Require Import Prelude Exceptions Effects.

(** ** Triples *)

(** Run from a state and events in [P], [m] ends with a result, a state and
    events in [Q]. *)
Definition triple {S A} (P : S → history → Prop) (m : prog S A)
    (Q : result exn A → S → history → Prop) : Prop :=
  ∀ s h, P s h → match m s h with (r, s', h') => Q r s' h' end.

Section rules.
Context {S : Type}.
Implicit Types P : S → history → Prop.

Lemma triple_ret {A} P (a : A) (Q : result exn A → S → history → Prop) :
  (∀ s h, P s h → Q (Ok a) s h) → triple P (mret a) Q.
Proof. intros H s h HP. by apply H. Qed.

Lemma triple_throw {A} P e (Q : result exn A → S → history → Prop) :
  (∀ s h, P s h → Q (Throw e) s h) → triple P (throw e) Q.
Proof. intros H s h HP. by apply H. Qed.

Lemma triple_bind {A B} P (m : prog S A) (f : A → prog S B) (R : A → S → history → Prop)
    (Q : result exn B → S → history → Prop) :
  triple P m (λ r s h, match r with Ok a => R a s h | Throw e => Q (Throw e) s h end) →
  (∀ a, triple (R a) (f a) Q) →
  triple P (m ≫= f) Q.
Proof.
  intros Hm Hf s h HP. specialize (Hm s h HP). unfold mbind, prog_bind.
  destruct (m s h) as [[[a|e] s'] h']; [|done]. by apply Hf.
Qed.

Lemma triple_conseq {A} P P' (m : prog S A) (Q Q' : result exn A → S → history → Prop) :
  triple P' m Q' → (∀ s h, P s h → P' s h) → (∀ r s h, Q' r s h → Q r s h) → triple P m Q.
Proof.
  intros Hm HP HQ s h H. specialize (Hm s h (HP s h H)).
  destruct (m s h) as [[r s'] h']. by apply HQ.
Qed.

Lemma triple_get P (Q : result exn S → S → history → Prop) :
  (∀ s h, P s h → Q (Ok s) s h) → triple P get Q.
Proof. intros H s h HP. by apply H. Qed.

Lemma triple_gets {A} P (f : S → A) (Q : result exn A → S → history → Prop) :
  (∀ s h, P s h → Q (Ok (f s)) s h) → triple P (gets f) Q.
Proof. intros H s h HP. by apply H. Qed.

Lemma triple_modify P f (Q : result exn unit → S → history → Prop) :
  (∀ s h, P s h → Q (Ok tt) (f s) h) → triple P (modify f) Q.
Proof. intros H s h HP. by apply H. Qed.

Lemma triple_emit P e (Q : result exn unit → S → history → Prop) :
  (∀ s h, P s h → Q (Ok tt) s (e :: h)) → triple P (emit e) Q.
Proof. intros H s h HP. by apply H. Qed.

Lemma triple_ask {A} P (f : history → A) (Q : result exn A → S → history → Prop) :
  (∀ s h, P s h → Q (Ok (f h)) s h) → triple P (ask f) Q.
Proof. intros H s h HP. by apply H. Qed.

Lemma triple_interact {A} P e (f : history → A) (Q : result exn A → S → history → Prop) :
  (∀ s h, P s h → Q (Ok (f (e :: h))) s (e :: h)) → triple P (interact e f) Q.
Proof. intros H s h HP. by apply H. Qed.

Lemma triple_lift {A} P (r : result exn A) (Q : result exn A → S → history → Prop) :
  (∀ s h, P s h → Q r s h) → triple P (lift_result r) Q.
Proof. intros H s h HP. by apply H. Qed.

Lemma triple_try {A} P (m : prog S A) handler (R : exn → S → history → Prop)
    (Q : result exn A → S → history → Prop) :
  triple P m (λ r s h, match r with Ok a => Q (Ok a) s h | Throw e => R e s h end) →
  (∀ e, triple (R e) (handler e) Q) →
  triple P (try_catch m handler) Q.
Proof.
  intros Hm Hh s h HP. specialize (Hm s h HP). unfold try_catch.
  destruct (m s h) as [[[a|e] s'] h']; [done|]. by apply Hh.
Qed.

Lemma triple_finally {A} P (m : prog S A) cleanup (R : result exn A → S → history → Prop)
    (Q : result exn A → S → history → Prop) :
  triple P m R → (∀ r, triple (R r) cleanup (λ _ s h, Q r s h)) →
  triple P (finally m cleanup) Q.
Proof.
  intros Hm Hc s h HP. specialize (Hm s h HP). unfold finally.
  destruct (m s h) as [[r s1] h1]. specialize (Hc r s1 h1 Hm).
  by destruct (cleanup s1 h1) as [[? s2] h2].
Qed.

Lemma triple_when P (b : bool) (m : prog S unit) (Q : result exn unit → S → history → Prop) :
  (b = true → triple P m Q) → (b = false → ∀ s h, P s h → Q (Ok tt) s h) →
  triple P (when b m) Q.
Proof. destruct b; intros H1 H2; [by apply H1|]. intros s h HP. by apply H2. Qed.

Lemma triple_pre {A} P (m : prog S A) (Q : result exn A → S → history → Prop) :
  (∀ s h, P s h → triple (λ s' h', s' = s ∧ h' = h) m Q) → triple P m Q.
Proof. intros H s h HP. by apply (H s h HP). Qed.

Lemma triple_false {A} (m : prog S A) (Q : result exn A → S → history → Prop) :
  triple (λ _ _, False) m Q.
Proof. intros s h []. Qed.
End rules.

Lemma triple_zoom {S T A} (view : T → S) (put : S → T → T) (m : prog S A)
    (P : T → history → Prop) (P' : S → history → Prop) Q' (Q : result exn A → T → history → Prop) t0 :
  triple P' m Q' →
  (∀ t h, P t h → t = t0 ∧ P' (view t) h) →
  (∀ r s h, Q' r s h → Q r (put s t0) h) →
  triple P (zoom view put m) Q.
Proof.
  intros Hm HP HQ t h Ht. destruct (HP t h Ht) as [-> Hv]. specialize (Hm _ _ Hv).
  unfold zoom. destruct (m (view t0) h) as [[r s'] h']. by apply HQ.
Qed.

Lemma triple_for_each {S X} (l : list X) (body : X → prog S unit) (I : S → history → Prop)
    (Q : result exn unit → S → history → Prop) :
  (∀ x, triple I (body x) (λ r s h, match r with Ok _ => I s h | Throw e => Q (Throw e) s h end)) →
  (∀ s h, I s h → Q (Ok tt) s h) →
  triple I (for_each l body) Q.
Proof.
  intros Hb HQ. induction l as [|x l IH]; cbn; [by apply triple_ret|].
  apply (triple_bind _ _ _ (λ _, I)); [apply Hb|]. intros _. exact IH.
Qed.

Lemma triple_with_local {S L A} (l0 : L) (m : prog (S * L) A)
    (P : S → history → Prop) (P' : S * L → history → Prop)
    (Q' : result exn A → S * L → history → Prop) (Q : result exn (A * L) → S → history → Prop) :
  triple P' m Q' →
  (∀ s h, P s h → P' (s, l0) h) →
  (∀ a s l h, Q' (Ok a) (s, l) h → Q (Ok (a, l)) s h) →
  (∀ e s l h, Q' (Throw e) (s, l) h → Q (Throw e) s h) →
  triple P (with_local l0 m) Q.
Proof.
  intros Hm HP Hok Hthrow s h Hs. specialize (Hm (s, l0) h (HP s h Hs)). unfold with_local.
  destruct (m (s, l0) h) as [[[a|e] [s' l']] h']; eauto.
Qed.

(** ** SQL commands *)

Definition sql_of (e : event) : list string :=
  match e with
  | PqExec q => [q]
  | PqExecParams q _ => [q]
  | PqSendQuery q => [q]
  | _ => []
  end.

(** The commands sent to the server, in the order they were sent. *)
Fixpoint sql_log (h : history) : list string :=
  match h with
  | [] => []
  | e :: h' => sql_log h' ++ sql_of e
  end.

Lemma sql_log_other e h : sql_of e = [] → sql_log (e :: h) = sql_log h.
Proof. cbn. intros ->. apply app_nil_r. Qed.

Lemma sql_log_app es h : Forall (λ e, sql_of e = []) es → sql_log (es ++ h) = sql_log h.
Proof.
  induction 1 as [|e es He _ IH]; [done|]. cbn [app]. by rewrite sql_log_other.
Qed.

(** The moments at which a command was sent: the events up to it and with it,
    from which the environment's answer to it follows. *)
Fixpoint sql_points (h : history) : list history :=
  match h with
  | [] => []
  | e :: h' => sql_points h' ++ match sql_of e with [] => [] | _ => [h] end
  end.

Lemma sql_points_other e h : sql_of e = [] → sql_points (e :: h) = sql_points h.
Proof. cbn. intros ->. apply app_nil_r. Qed.

Lemma sql_points_app es h : Forall (λ e, sql_of e = []) es → sql_points (es ++ h) = sql_points h.
Proof.
  induction 1 as [|e es He _ IH]; [done|]. cbn [app]. by rewrite sql_points_other.
Qed.

Lemma sql_points_log h : sql_log h = concat (map (λ p, match p with e :: _ => sql_of e | [] => [] end) (sql_points h)).
Proof.
  induction h as [|e h IH]; [done|]. cbn [sql_log sql_points]. rewrite map_app, concat_app, <-IH.
  destruct (sql_of e) eqn:E; cbn; by rewrite ?E, ?app_nil_r.
Qed.

(** ** Code that sends nothing *)

Definition silent {S A} (m : prog S A) : Prop :=
  ∀ s h, match m s h with (_, _, h') => sql_points h' = sql_points h end.

Lemma silent_sql {S A} (m : prog S A) s h :
  silent m → match m s h with (_, _, h') => sql_log h' = sql_log h end.
Proof. intros Hm. specialize (Hm s h). destruct (m s h) as [[r s'] h']. by rewrite !sql_points_log, Hm. Qed.

Section silent_rules.
Context {S : Type}.
Lemma silent_ret {A} (a : A) : silent (S:=S) (mret a).
Proof. by intros s h. Qed.
Lemma silent_get : silent (S:=S) get.
Proof. by intros s h. Qed.
Lemma silent_gets {A} (f : S → A) : silent (gets f).
Proof. by intros s h. Qed.
Lemma silent_modify (f : S → S) : silent (modify f).
Proof. by intros s h. Qed.
Lemma silent_ask {A} (f : history → A) : silent (S:=S) (ask f).
Proof. by intros s h. Qed.
Lemma silent_throw {A} e : silent (S:=S) (A:=A) (throw e).
Proof. by intros s h. Qed.
Lemma silent_lift {A} (r : result exn A) : silent (S:=S) (lift_result r).
Proof. by intros s h. Qed.
Lemma silent_emit e : sql_of e = [] → silent (S:=S) (emit e).
Proof. intros He s h. by apply sql_points_other. Qed.
Lemma silent_emit_all es : Forall (λ e, sql_of e = []) es → silent (S:=S) (emit_all es).
Proof. intros He s h. cbn. apply sql_points_app. by apply Forall_rev. Qed.
Lemma silent_interact {A} e (f : history → A) : sql_of e = [] → silent (S:=S) (interact e f).
Proof. intros He s h. by apply sql_points_other. Qed.
Lemma silent_bind {A B} (m : prog S A) (f : A → prog S B) :
  silent m → (∀ a, silent (f a)) → silent (m ≫= f).
Proof.
  intros Hm Hf s h. rewrite prog_bind_unfold. specialize (Hm s h).
  destruct (m s h) as [[[a|e] s1] h1]; [|done]. specialize (Hf a s1 h1).
  destruct (f a s1 h1) as [[r s2] h2]. by rewrite Hf.
Qed.
Lemma silent_try {A} (m : prog S A) handler :
  silent m → (∀ e, silent (handler e)) → silent (try_catch m handler).
Proof.
  intros Hm Hf s h. unfold try_catch. specialize (Hm s h).
  destruct (m s h) as [[[a|e] s1] h1]; [done|]. specialize (Hf e s1 h1).
  destruct (handler e s1 h1) as [[r s2] h2]. by rewrite Hf.
Qed.
Lemma silent_when b (m : prog S unit) : silent m → silent (when b m).
Proof. destruct b; [done|]. intros _. apply silent_ret. Qed.
Lemma silent_zoom {T A} (view : T → S) (put : S → T → T) (m : prog S A) :
  silent m → silent (zoom view put m).
Proof. intros Hm t h. unfold zoom. specialize (Hm (view t) h). by destruct (m _ _) as [[??]?]. Qed.
End silent_rules.

Create HintDb silent.
#[export] Hint Resolve silent_ret silent_get silent_gets silent_modify silent_ask silent_throw
  silent_lift silent_emit silent_interact : silent.

Ltac solve_silent :=
  repeat first
    [ solve [auto with silent] | apply silent_bind; [|intros ?] | apply silent_try; [|intros ?]
    | apply silent_when | apply silent_zoom | case_match ].

(** ** Events are never forgotten *)

Definition grows {S A} (m : prog S A) : Prop := ∀ s h, ∃ r s' es, m s h = (r, s', es ++ h).

Lemma grows_bind {S A B} (m : prog S A) (f : A → prog S B) :
  grows m → (∀ a, grows (f a)) → grows (m ≫= f).
Proof.
  intros Hm Hf s h. rewrite prog_bind_unfold. destruct (Hm s h) as ([a|e] & s' & es & ->); [|eauto].
  destruct (Hf a s' (es ++ h)) as (r & s'' & es' & ->). rewrite app_assoc. eauto.
Qed.
Lemma grows_try {S A} (m : prog S A) handler :
  grows m → (∀ e, grows (handler e)) → grows (try_catch m handler).
Proof.
  intros Hm Hf s h. unfold try_catch. destruct (Hm s h) as ([a|e] & s' & es & ->); [eauto|].
  destruct (Hf e s' (es ++ h)) as (r & s'' & es' & ->). rewrite app_assoc. eauto.
Qed.
Lemma grows_finally {S A} (m : prog S A) cleanup : grows m → grows cleanup → grows (finally m cleanup).
Proof.
  intros Hm Hc s h. unfold finally. destruct (Hm s h) as (r & s' & es & ->).
  destruct (Hc s' (es ++ h)) as (? & s'' & es' & ->). rewrite app_assoc. eauto.
Qed.
Lemma grows_zoom {S T A} (view : T → S) put (m : prog S A) : grows m → grows (zoom view put m).
Proof. intros Hm t h. unfold zoom. destruct (Hm (view t) h) as (r & s & es & ->). eauto. Qed.
Lemma grows_quiet {S A} (m : prog S A) : (∀ s h, ∃ r s', m s h = (r, s', h)) → grows m.
Proof. intros Hm s h. destruct (Hm s h) as (r & s' & ->). by exists r, s', []. Qed.
Lemma grows_event {S A} (m : prog S A) e : (∀ s h, ∃ r s', m s h = (r, s', e :: h)) → grows m.
Proof. intros Hm s h. destruct (Hm s h) as (r & s' & ->). by exists r, s', [e]. Qed.

Create HintDb grows.
#[export] Hint Extern 1 (grows (mret _)) => apply grows_quiet; by repeat eexists : grows.
#[export] Hint Extern 1 (grows (throw _)) => apply grows_quiet; by repeat eexists : grows.
#[export] Hint Extern 1 (grows get) => apply grows_quiet; by repeat eexists : grows.
#[export] Hint Extern 1 (grows (gets _)) => apply grows_quiet; by repeat eexists : grows.
#[export] Hint Extern 1 (grows (modify _)) => apply grows_quiet; by repeat eexists : grows.
#[export] Hint Extern 1 (grows (ask _)) => apply grows_quiet; by repeat eexists : grows.
#[export] Hint Extern 1 (grows (lift_result _)) => apply grows_quiet; by repeat eexists : grows.
#[export] Hint Extern 1 (grows (emit ?e)) => apply (grows_event _ e); by repeat eexists : grows.
#[export] Hint Extern 1 (grows (interact ?e _)) => apply (grows_event _ e); by repeat eexists : grows.

Ltac solve_grows :=
  repeat first
    [ solve [auto with grows] | apply grows_bind; [|intros ?] | apply grows_try; [|intros ?]
    | apply grows_zoom | apply grows_finally | case_match ].
