(* ===== verification/TestEnv.v ===== *)
(** Concrete environments in which the witnesses of the properties run. *)

From S2P Require Import Prelude Doubles Exceptions JsonValue Effects PqxxResult WebServer.

(** A server that accepts everything and returns one row. *)
Definition test_env : Env := {|
  now_ns := λ _, 0%Z; localtime_text := λ _, "2024-01-01T00:00:00"%string;
  open_append_ok := λ _, true; file_contents := λ _, None; iteration := λ _ l, l;
  curl_init_ok := λ _, true; curl_perform_ok := λ _, true;
  PQconnectdb := λ _, true; PQstatus_ok := λ _, true; PQprotocolVersion := λ _, 3%Z;
  PQserverVersion := λ _, 150000%Z; PQerrorMessage := λ _, EmptyString;
  PQclientEncoding := λ _, 6%Z; pg_encoding_to_char := λ _, "UTF8"%string;
  PQexec := λ _, Some (mk_pg_result PGRES_TUPLES_OK EmptyString None
    [[Some "7"; Some "pump"; None; None; Some "active"]]%string);
  PQconsumeInput := λ _, true; PQnotifies := λ _, 0%nat |}.
Definition test_build : Build := {|
  string_type_name := "std::string"; to_chars_double := λ _, "1500.5"%string |}.

(** No configuration file, and a server that answers nothing. *)
Definition quiet_env : Env := {|
  now_ns := λ _, 0%Z; localtime_text := λ _, "2024-01-01T00:00:00"%string;
  open_append_ok := λ _, true; file_contents := λ _, None; iteration := λ _ l, l;
  curl_init_ok := λ _, true; curl_perform_ok := λ _, true;
  PQconnectdb := λ _, true; PQstatus_ok := λ _, true; PQprotocolVersion := λ _, 3%Z;
  PQserverVersion := λ _, 150000%Z; PQerrorMessage := λ _, EmptyString;
  PQclientEncoding := λ _, 6%Z; pg_encoding_to_char := λ _, "UTF8"%string;
  PQexec := λ _, None; PQconsumeInput := λ _, true; PQnotifies := λ _, 0%nat |}.


Definition test_platform : Platform := {| ub_double_to_int := λ _, 0%Z |}.
Definition test_crow : Crow := {| default_code := 200%Z; run_loop := λ _, Ok tt |}.
