(* ===== verification/LoggerFacts.v ===== *)
(** The logger: no call fails or changes the logger's settings, what each
    writes, and what becomes of the entries pushed to Loki. *)

From stdpp Require Import gmap.
From S2P Require Import Prelude Decimal StdMap Doubles Exceptions JsonValue JsonLexer.
From S2P Require Import JsonParser Effects EffectsFacts Logger.

(** ** Calls that cannot fail *)

(** [m] succeeds, leaves the state alone and only adds events in [P]. *)
Definition logs {S A} (P : event → Prop) (m : prog S A) : Prop :=
  ∀ s h, ∃ a es, m s h = (Ok a, s, es ++ h) ∧ Forall P es.

Section logs_rules.
Context {S : Type} (P : event → Prop).

Lemma logs_ret {A} (a : A) : logs (S:=S) P (mret a).
Proof. intros s h. by exists a, []. Qed.
Lemma logs_get : logs (S:=S) P get.
Proof. intros s h. by exists s, []. Qed.
Lemma logs_gets {A} (f : S → A) : logs P (gets f).
Proof. intros s h. by exists (f s), []. Qed.
Lemma logs_emit e : P e → logs (S:=S) P (emit e).
Proof. intros He s h. exists tt, [e]. split; [done|by constructor]. Qed.
Lemma logs_interact {A} e (f : history → A) : P e → logs (S:=S) P (interact e f).
Proof. intros He s h. eexists _, [e]. split; [reflexivity|by constructor]. Qed.
Lemma logs_bind {A B} (m : prog S A) (f : A → prog S B) :
  logs P m → (∀ a, logs P (f a)) → logs P (m ≫= f).
Proof.
  intros Hm Hf s h. rewrite prog_bind_unfold. destruct (Hm s h) as (a & es & -> & He).
  destruct (Hf a s (es ++ h)) as (b & es' & -> & He'). exists b, (es' ++ es).
  split; [by rewrite app_assoc|by apply Forall_app].
Qed.
Lemma logs_when b (m : prog S unit) : logs P m → logs P (when b m).
Proof. intros Hm. destruct b; [done|apply logs_ret]. Qed.
End logs_rules.

Create HintDb logger.
#[export] Hint Resolve logs_ret logs_get logs_gets logs_emit logs_interact logs_when : logger.

Ltac solve_logs :=
  repeat first
    [ solve [auto with logger] | apply logs_bind; [|intros ?] | apply logs_when | case_match ].

Lemma logs_impl {S A} (P Q : event → Prop) (m : prog S A) :
  (∀ e, P e → Q e) → logs P m → logs Q m.
Proof.
  intros HPQ Hm s h. destruct (Hm s h) as (a & es & E & He). exists a, es. split; [done|].
  by eapply Forall_impl; eauto.
Qed.

(** ** Entries *)

(** Entries go to the console and the file. *)
Definition local_event (e : event) : Prop :=
  match e with Clock | Stdout _ | Stderr _ | WriteLog _ => True | _ => False end.

#[export] Hint Extern 1 (local_event _) => exact I : logger.

Section logger_facts.
Context `{Env}.

Lemma write_logs level message : logs local_event (write level message).
Proof. unfold write, getCurrentTimestamp, write_file. solve_logs. Qed.

(** The events of one entry, the latest first. *)
Definition entry_events (level : LogLevel) (message : string) (l : Logger) (h : history)
  : list event :=
  if level_lt level (minLevel l) then []
  else
    let line := entry_text (timestamp_text (now_ns (Clock :: h))) level message in
    (if fileEnabled l && is_open (logFile l) && good (logFile l) then [WriteLog line] else []) ++
    (if consoleEnabled l
     then [if decide (level = ERROR) then Stderr line else Stdout line] else []) ++
    [Clock].

(** ** Entries pushed to Loki *)

(** Loki is given the address in the settings, and a text. *)
Definition loki_event (l : Logger) (e : event) : Prop :=
  match e with
  | HttpPost url body =>
      url = c_str (loki_url (lokiHost l) (lokiPort l)) ∧
      ∃ level ts msg labels, body = c_str (loki_payload (serviceName l) level ts msg labels)
  | CurlInit | Iterate | Clock => True
  | _ => False
  end.

Lemma sendToLoki_run level message labels l h :
  ∃ a es, sendToLoki level message labels l h = (Ok a, l, es ++ h) ∧ Forall (loki_event l) es.
Proof.
  unfold sendToLoki. rewrite prog_bind_unfold. unfold interact at 1.
  destruct (curl_init_ok _).
  - unfold getCurrentTimestamp, mbind, prog_bind, get, interact. cbn [mret prog_ret].
    eexists _, [_; _; _; _]. split; [reflexivity|]. repeat constructor. by eexists _, _, _, _.
  - exists false, [CurlInit]. split; [done|by repeat constructor].
Qed.

Lemma write_and_send_run level loki_level text labels l h :
  ∃ es, write_and_send level loki_level text labels l h = (Ok tt, l, es ++ h) ∧
    Forall (λ e, local_event e ∨ loki_event l e) es ∧
    (lokiFormatEnabled l = false → Forall local_event es).
Proof.
  unfold write_and_send. rewrite prog_bind_unfold.
  destruct (write_logs level text l h) as ([] & es & -> & He).
  assert (He' : Forall (λ e, local_event e ∨ loki_event l e) es)
    by (eapply Forall_impl; [|exact He]; auto).
  rewrite prog_bind_unfold. unfold get. destruct (lokiFormatEnabled l).
  - rewrite prog_bind_unfold. destruct (sendToLoki_run loki_level text labels l (es ++ h)) as (a & es' & -> & Hs).
    exists (es' ++ es). split; [by rewrite <-app_assoc|]. split; [|done].
    apply Forall_app; split; [|done]. eapply Forall_impl; [|exact Hs]; auto.
  - exists es. by split.
Qed.

(** ** The logging functions *)

Inductive log_call :=
  | Log (level : LogLevel) (message : string)
  | LogCtx (level : LogLevel) (message context : string)
  | LogRequest (ip method path : string) (status duration_ms : Z)
  | LogAuth (username : string) (success : bool) (ip details : string)
  | LogDatabase (operation : string) (success : bool) (details : string)
  | LogDevice (deviceId : Z) (operation : string) (success : bool)
  | LogService (recordId : Z) (operation : string) (success : bool)
  | LogLifecycle (event details : string).

Definition run_log (c : log_call) : prog Logger unit :=
  match c with
  | Log level message => log level message
  | LogCtx level message context => log_ctx level message context
  | LogRequest ip method path status ms => logRequest ip method path status ms
  | LogAuth username success ip details => logAuth username success ip details
  | LogDatabase operation success details => logDatabase operation success details
  | LogDevice id operation success => logDevice id operation success
  | LogService id operation success => logService id operation success
  | LogLifecycle event details => logLifecycle event details
  end.

Lemma run_log_run c l h :
  ∃ es, run_log c l h = (Ok tt, l, es ++ h) ∧
    Forall (λ e, local_event e ∨ loki_event l e) es ∧
    (lokiFormatEnabled l = false → Forall local_event es).
Proof.
  assert (Hw : ∀ level message, ∃ es, write level message l h = (Ok tt, l, es ++ h) ∧
    Forall (λ e, local_event e ∨ loki_event l e) es ∧
    (lokiFormatEnabled l = false → Forall local_event es)).
  { intros level message. destruct (write_logs level message l h) as ([] & es & -> & He).
    exists es. split; [done|]. split; [|done]. eapply Forall_impl; [|exact He]; auto. }
  destruct c; first [apply Hw|apply write_and_send_run].
Qed.

(** ** The Loki payload *)

Definition payload_prefix : string := bq "{`streams`:[{`stream`:{`app`:`service_system`,``level`:`".

(** The parser fails before it looks at anything that varies. *)
Lemma payload_prefix_rejected rest : ∃ e, json_parse (payload_prefix +:+ rest) = Throw e.
Proof. eexists. vm_compute. reflexivity. Qed.

Lemma c_str_app_no_nul s t :
  sforall (λ c, negb (byte_of c =? 0)%Z) s = true → c_str (s +:+ t) = s +:+ c_str t.
Proof.
  induction s as [|c s IH]; [done|]. rewrite sapp_cons. cbn [sforall c_str].
  rewrite andb_true_iff. intros [Hc Hs]. destruct (byte_of c =? 0)%Z; [done|]. by rewrite IH.
Qed.

Lemma payload_starts level ts message labels :
  ∃ rest, loki_payload "service_system" level ts message labels = payload_prefix +:+ rest.
Proof. eexists. reflexivity. Qed.

(** ** Settings *)

Inductive logger_op :=
  | Init (filepath : string) (level : LogLevel)
  | InitWithLoki (filepath : string) (level : LogLevel) (host : string) (port : Z)
  | SetLevel (level : LogLevel)
  | EnableConsole (enabled : bool)
  | EnableFile (enabled : bool)
  | SetServiceName (name : string)
  | Call (c : log_call).

Definition run_op (o : logger_op) : prog Logger unit :=
  match o with
  | Init filepath level => init filepath level
  | InitWithLoki filepath level host port => initWithLoki filepath level host port
  | SetLevel level => setLevel level
  | EnableConsole enabled => enableConsole enabled
  | EnableFile enabled => enableFile enabled
  | SetServiceName name => setServiceName name
  | Call c => run_log c
  end.

(** The file is enabled only while the stream is open. *)
Definition logger_ok (l : Logger) : Prop := fileEnabled l = true → is_open (logFile l) = true.

(** Succeeding and establishing [Q]. *)
Definition succeeds (P : Logger → Prop) (m : prog Logger unit) (Q : Logger → Prop) : Prop :=
  ∀ l h, P l → ∃ l' h', m l h = (Ok tt, l', h') ∧ Q l'.

Lemma open_log_run path l h :
  ∃ f h', open_log path l h = (Ok tt, set_logFile f l, h') ∧
    (is_open (logFile l) = true → is_open f = true).
Proof.
  unfold open_log. rewrite prog_bind_unfold. unfold gets. destruct (is_open (logFile l)).
  - eexists _, _. by split.
  - rewrite prog_bind_unfold. unfold interact, modify. eexists _, _. by split.
Qed.

Lemma init_ok filepath level : succeeds (λ _, True) (init filepath level) logger_ok.
Proof.
  intros l h _. unfold init. rewrite prog_bind_unfold. unfold modify at 1.
  rewrite prog_bind_unfold. unfold emit at 1. rewrite prog_bind_unfold.
  set (l1 := mk_logger _ _ _ _ _ _ _ _ _).
  assert (Hend : ∀ h1, ∃ l' h', (open_log filepath;; f ← gets logFile;
    when (negb (is_open f)) (modify (set_fileEnabled false))) l1 h1 = (Ok tt, l', h') ∧ logger_ok l').
  { intros h1. rewrite prog_bind_unfold.
    destruct (open_log_run filepath l1 h1) as (f & h2 & -> & _).
    rewrite prog_bind_unfold. unfold gets, when, modify. cbn [logFile set_logFile].
    destruct (is_open f) eqn:Ef; cbn; eexists _, _; (split; [reflexivity|]); unfold logger_ok; by cbn. }
  destruct (find_last_slash filepath); apply Hend.
Qed.

Lemma op_succeeds o : succeeds logger_ok (run_op o) logger_ok.
Proof.
  intros l h Hl. destruct o; cbn [run_op].
  - by apply init_ok.
  - unfold initWithLoki. rewrite prog_bind_unfold.
    destruct (init_ok filepath level l h I) as (l' & h' & -> & Hl'). by eexists _, _.
  - by eexists _, _.
  - by eexists _, _.
  - unfold enableFile. rewrite prog_bind_unfold. unfold get.
    destruct (enabled && negb (is_open (logFile l))) eqn:Ee.
    + rewrite prog_bind_unfold. destruct (open_log_run (logFilePath l) l h) as (f & h' & -> & _).
      rewrite prog_bind_unfold. unfold gets, modify. cbn [logFile set_logFile].
      destruct (is_open f) eqn:Ef; (eexists _, _; (split; [reflexivity|])); unfold logger_ok; by cbn.
    + eexists _, _. split; [reflexivity|]. unfold logger_ok. cbn. intros ->.
      cbn in Ee. by destruct (is_open (logFile l)).
  - by eexists _, _.
  - destruct (run_log_run c l h) as (es & -> & _). by eexists _, _.
Qed.

(** ** Escaping *)

Definition special (c : ascii) : bool :=
  Ascii.eqb c "034" || Ascii.eqb c "010" || Ascii.eqb c "013".

Lemma escape_no_special s : sforall (λ c, negb (special c)) (escape_message s) = true.
Proof.
  induction s as [|c s IH]; [done|]. cbn [escape_message].
  destruct (Ascii.eqb c "034") eqn:E1; [done|]. destruct (Ascii.eqb c "\"); [done|].
  destruct (Ascii.eqb c "010") eqn:E2; [done|]. destruct (Ascii.eqb c "013") eqn:E3; [done|].
  cbn [sforall]. unfold special at 1. by rewrite E1, E2, E3.
Qed.

Lemma escape_plain s :
  sforall (λ c, negb (special c || Ascii.eqb c "\")) s = true → escape_message s = s.
Proof.
  induction s as [|c s IH]; [done|]. cbn [sforall escape_message]. rewrite andb_true_iff.
  intros [Hc Hs]. unfold special in Hc. rewrite !negb_orb, !andb_true_iff, !negb_true_iff in Hc.
  destruct Hc as [[[-> ->] ->] ->]. by rewrite IH.
Qed.
End logger_facts.
