(* ===== verification/LoggerSpec.v ===== *)
(** Properties of the logger. *)

From S2P Require Import Prelude Decimal StdMap Doubles Exceptions JsonValue JsonLexer.
From S2P Require Import JsonParser Effects EffectsFacts Logger LoggerFacts TestEnv.

Section specs.
Context `{Env}.

(** Writing an entry never fails and never changes the logger.  Below the
    minimal level it does nothing; otherwise it reads the clock once and
    writes the same line to the console (the error stream for errors) and to
    the open log file, as far as they are enabled. *)
Theorem write_effect level message l h :
  write level message l h = (Ok tt, l, entry_events level message l h ++ h).
Proof.
  unfold write, entry_events. rewrite prog_bind_unfold. unfold get.
  destruct (level_lt level (minLevel l)); [done|].
  unfold getCurrentTimestamp. rewrite !prog_bind_unfold. unfold interact. cbn [mret prog_ret].
  rewrite prog_bind_unfold. unfold when, write_file, emit, gets, mbind, prog_bind.
  destruct (consoleEnabled l), (fileEnabled l), (is_open (logFile l)), (good (logFile l)) eqn:Eg; cbn;
    try destruct (decide (level = ERROR)); unfold when; by rewrite ?Eg.
Qed.

(** C25. No logging function fails or changes the logger, and none of the texts
    they send to Loki under the program's service name is JSON: the parser
    rejects every one of them. *)
Theorem log_call_effect c l h :
  serviceName l = "service_system"%string →
  ∃ es, run_log c l h = (Ok tt, l, es ++ h) ∧
    ∀ url body, In (HttpPost url body) es → ∃ e, json_parse body = Throw e.
Proof.
  intros Hname. destruct (run_log_run c l h) as (es & Hrun & Hes & _). exists es. split; [done|].
  intros url body Hin. pose proof (proj1 (List.Forall_forall _ _) Hes _ Hin) as [[]|He].
  destruct He as (_ & level & ts & msg & labels & ->). rewrite Hname.
  destruct (payload_starts level ts msg labels) as [rest ->].
  rewrite c_str_app_no_nul by done. apply payload_prefix_rejected.
Qed.

(** Whatever is done with the logger, in any order, no call fails and the
    file is enabled only while the stream is open. *)
Theorem logger_invariant ops h :
  ∃ l' h', for_each ops run_op Logger_new h = (Ok tt, l', h') ∧ logger_ok l'.
Proof.
  enough (Hall : ∀ l, logger_ok l → ∃ l' h', for_each ops run_op l h = (Ok tt, l', h') ∧ logger_ok l')
    by by apply Hall.
  revert h. induction ops as [|o ops IH]; intros h l Hl; cbn [for_each]; [by eexists _, _|].
  rewrite prog_bind_unfold. destruct (op_succeeds o l h Hl) as (l1 & h1 & -> & Hl1). by apply IH.
Qed.

(** The escaped message has no quote and no line break, and a message
    without quotes, line breaks and backslashes is sent as it is; but a quote
    and a line break become the same lone backslash. *)
Theorem escape_message_spec s :
  sforall (λ c, negb (special c)) (escape_message s) = true ∧
  (sforall (λ c, negb (special c || Ascii.eqb c "\"%char)) s = true → escape_message s = s) ∧
  (∀ c t, special c = true → escape_message (String c t) = String "\"%char (escape_message t)).
Proof.
  split; [apply escape_no_special|]. split; [apply escape_plain|].
  intros c t. unfold special. cbn [escape_message].
  destruct (Ascii.eqb_spec c "034") as [->|]; [done|].
  destruct (Ascii.eqb_spec c "010") as [->|]; [done|].
  by destruct (Ascii.eqb_spec c "013") as [->|].
Qed.
End specs.

(** ** Witnesses *)

Definition loki_logger : Logger :=
  mk_logger (mk_log_stream true true) DEBUG true true true "logs/webserver.log"
    "service_system" "localhost" 3100.

Lemma log_call_effect_witness :
  ∃ es, @run_log quiet_env (LogLifecycle "startup" "") loki_logger [] = (Ok tt, loki_logger, es) ∧
    ∀ url body, In (HttpPost url body) es → ∃ e, json_parse body = Throw e.
Proof.
  destruct (@log_call_effect quiet_env (LogLifecycle "startup" "") loki_logger [] eq_refl)
    as (es & Hrun & Hes).
  exists es. rewrite app_nil_r in Hrun. exact (conj Hrun Hes).
Defined.
