(* ===== verification/PqxxEncodingFacts.v ===== *)
(** Character scanning in libpqxx: what a scanner reads and how far it moves,
    that every loop over characters ends, and that in the encodings whose
    multi-byte characters hold no ASCII byte the searches agree with the
    byte-wise ones. *)

From S2P Require Import Prelude Decimal Exceptions JsonLexer JsonUtf8 PqxxResult PqxxEncoding.

Local Open Scope nat_scope.

(** ** The scanners *)

(** Comparisons of offsets, as [b2p] does for integers. *)
Ltac n2p :=
  repeat match goal with
  | H : (_ <=? _)%nat = true |- _ => apply Nat.leb_le in H
  | H : (_ <=? _)%nat = false |- _ => apply Nat.leb_gt in H
  | H : (_ <? _)%nat = true |- _ => apply Nat.ltb_lt in H
  | H : (_ <? _)%nat = false |- _ => apply Nat.ltb_ge in H
  end.

Ltac unfold_scanners :=
  unfold glyph_scanner, scan_MONOBYTE, scan_BIG5, scan_EUC_CN, scan_EUC_KR, scan_EUC_TW,
    scan_GB18030, scan_GBK, scan_JOHAB, scan_MULE_INTERNAL, scan_UHC, scan_UTF8,
    next_seq_for_euc_jplike, next_seq_for_sjislike, throw_for_encoding_error; cbv zeta.

(** A scan moves on, by at most four bytes and not past the end, or throws. *)
Definition scan_outcome (len start : nat) (r : result exn (option nat)) : Prop :=
  match r with
  | Ok None => len ≤ start
  | Ok (Some next) => start < next ≤ len ∧ next ≤ start + 4
  | Throw e => start < len ∧ exn_kind e = pqxx_argument_error
  end.

Lemma scan_advances enc buffer len start :
  scan_outcome len start (glyph_scanner buffer len start enc).
Proof.
  destruct enc; unfold_scanners; unfold scan_outcome; cbn [exn_kind];
    repeat case_match; simplify_eq; b2p; n2p;
    first [lia|split; [lia|done]].
Qed.

(** How far behind the buffer a scanner may look. *)
Definition overread (enc : encoding_group) : nat :=
  match enc with MULE_INTERNAL => 1 | _ => 0 end.

Definition same_bytes (n : nat) (b b' : memory) : Prop := ∀ i, i < n → b i = b' i.

Lemma hex_dump_same n b b' start count :
  same_bytes n b b' → start + count ≤ n → hex_dump b start count = hex_dump b' start count.
Proof.
  intros Hb. revert start. induction count as [|count IH]; intros start Hn; [done|].
  cbn [hex_dump]. unfold get_byte. rewrite (Hb start), IH by lia. done.
Qed.

Lemma if_ext {A} (c c' : bool) (x x' y y' : A) :
  c = c' → (c' = true → x = x') → (c' = false → y = y') →
  (if c then x else y) = (if c' then x' else y').
Proof. intros -> Ht Hf. destruct c'; auto. Qed.

Lemma scan_same enc b b' len start :
  same_bytes (len + overread enc) b b' →
  glyph_scanner b len start enc = glyph_scanner b' len start enc.
Proof.
  intros Hb.
  destruct enc; cbn [overread] in Hb; unfold_scanners; unfold get_byte;
    repeat (apply if_ext;
      [by rewrite ?Hb by lia | let E := fresh in intros E; b2p; n2p ..]);
    first [rewrite (hex_dump_same _ b b' start _ Hb) by lia; reflexivity | reflexivity].
Qed.

(** ** ASCII in multi-byte characters

    In these encodings an ASCII byte is always a character of its own. *)
Definition ascii_safe (enc : encoding_group) : bool :=
  match enc with
  | MONOBYTE | EUC_CN | EUC_JP | EUC_JIS_2004 | EUC_KR | EUC_TW | UTF8 => true
  | _ => false
  end.

Lemma between_inc_true v lo hi : between_inc v lo hi = true → (lo <= v <= hi)%Z.
Proof. unfold between_inc. intros Hv. b2p. lia. Qed.

Ltac between_facts :=
  repeat match goal with
  | H : between_inc _ _ _ = true |- _ => apply between_inc_true in H
  end.

Lemma safe_scan enc buffer len start next i :
  ascii_safe enc = true → glyph_scanner buffer len start enc = Ok (Some next) →
  start ≤ i < next → (buffer i < 0x80)%Z → next = S start.
Proof.
  intros Henc Hscan Hi Hb.
  assert (i = start + 0 ∨ i = start + 1 ∨ i = start + 2 ∨ i = start + 3 ∨ 4 ≤ i - start) as Hk by lia.
  destruct enc; try done; revert Hscan; unfold_scanners; unfold get_byte;
    intros; repeat case_match; simplify_eq; try lia; b2p; between_facts;
    destruct_or! Hk; subst; lia.
Qed.

(** ** Loops over characters *)

Section loops.
Context (enc : encoding_group) (buffer : memory) (len : nat).
Let scan (here : nat) := glyph_scanner buffer len here enc.

(** A successful or failing scan inside the buffer. *)
Lemma scan_cases here :
  here < len →
  (∃ next, scan here = Ok (Some next) ∧ here < next ≤ len) ∨
  (∃ e, scan here = Throw e ∧ exn_kind e = pqxx_argument_error).
Proof.
  intros Hh. pose proof (scan_advances enc buffer len here) as Hs.
  fold (scan here) in Hs. unfold scan_outcome in Hs.
  destruct (scan here) as [[next|]|e]; [left|lia|right]; naive_solver.
Qed.

(** The loop ends, with the state an invariant describes or with the
    exception of a scanner. *)
Lemma for_glyphs_ind {St} (callback : St → nat → nat → St) (I : nat → St → Prop) fuel here st :
  (∀ h next st', h < next ≤ len → scan h = Ok (Some next) → I h st' → I next (callback st' h next)) →
  I here st → here ≤ len → len - here < fuel →
  (∃ st', for_glyphs enc buffer len callback fuel here st = Some (Ok st') ∧ I len st') ∨
  (∃ e h, for_glyphs enc buffer len callback fuel here st = Some (Throw e) ∧
          h < len ∧ scan h = Throw e ∧ exn_kind e = pqxx_argument_error ∧ ∃ st', I h st').
Proof.
  intros Hstep. revert here st.
  induction fuel as [|fuel IH]; intros here st HI Hle Hfuel; [lia|]. cbn [for_glyphs].
  destruct (Nat.ltb_spec here len) as [Hlt|Hge].
  - fold (scan here).
    destruct (scan_cases here Hlt) as [(next & Hscan & Hnext)|(e & Hscan & He)]; rewrite Hscan.
    + apply IH; [eauto|lia|lia].
    + right. exists e, here. eauto 10.
  - left. exists st. split; [done|]. by replace len with here by lia.
Qed.
End loops.

(** ** Searching for ASCII *)

Section searching.
Context (buffer : memory) (len : nat).

(** The first position from [here] on that holds one of [needle]. *)
Definition first_in (needle : list Z) (here pos : nat) : Prop :=
  here ≤ pos ≤ len ∧ (∀ i, here ≤ i < pos → buffer i ∉ needle) ∧ (pos < len → buffer pos ∈ needle).

Lemma first_in_unique needle here p q : first_in needle here p → first_in needle here q → p = q.
Proof.
  intros (Hp & Hpn & Hpy) (Hq & Hqn & Hqy).
  destruct (Nat.lt_trichotomy p q) as [Hlt|[->|Hlt]]; [|done|].
  - by destruct (Hqn p ltac:(lia) (Hpy ltac:(lia))).
  - by destruct (Hpn q ltac:(lia) (Hqy ltac:(lia))).
Qed.

Lemma find_char_cases enc needle fuel here :
  ascii_safe enc = true → Forall (λ c, c < 0x80)%Z needle → here ≤ len → len - here < fuel →
  (∃ pos, find_char enc buffer len needle fuel here = Some (Ok pos) ∧ first_in needle here pos) ∨
  (∃ e h, find_char enc buffer len needle fuel here = Some (Throw e) ∧
          glyph_scanner buffer len h enc = Throw e ∧ exn_kind e = pqxx_argument_error).
Proof.
  intros Henc Hneedle. revert here.
  induction fuel as [|fuel IH]; intros here Hle Hfuel; [lia|]. cbn [find_char].
  destruct (Nat.ltb_spec here len) as [Hlt|Hge].
  2: { left. exists len. split; [done|]. split; [lia|]. split; intros; lia. }
  destruct (scan_cases enc buffer len here Hlt) as [(next & Hscan & Hnext)|(e & Hscan & He)];
    rewrite Hscan; [|naive_solver].
  assert (∀ i, here ≤ i < next → buffer i ∈ needle → next = S here) as Hone.
  { intros i Hi Hin. refine (safe_scan enc buffer len here next i Henc Hscan Hi _).
    exact (proj1 (Forall_forall _ _) Hneedle _ (proj1 (list_elem_of_In _ _) Hin)). }
  destruct (bool_decide_reflect (buffer here ∈ needle)) as [Hin|Hnin]; cbn [andb].
  - rewrite (Hone here ltac:(lia) Hin), (proj2 (Nat.eqb_eq (S here) (here + 1))) by lia.
    left. exists here. split; [done|]. split; [lia|]. split; [intros; lia|done].
  - destruct (IH next) as [(pos & Hr & Hpos & Hnone & Hsome)|Hr]; [lia|lia|left|by right].
    exists pos. split; [done|]. split; [lia|]. split; [|done].
    intros i Hi Hin. destruct (decide (next ≤ i)) as [|Hni]; [by apply (Hnone i); [lia|]|].
    assert (i = here) as -> by (pose proof (Hone i ltac:(lia) Hin); lia). done.
Qed.
End searching.

(** ** The end of a query *)

(** Everything from [e] on is useless, and what is before it is not. *)
Definition query_ends (text : memory) (len e : nat) : Prop :=
  e ≤ len ∧ (∀ i, e ≤ i < len → useless_trail (text i) = true) ∧
  (e = 0 ∨ useless_trail (text (e - 1)) = false).

Lemma query_ends_unique text len d e : query_ends text len d → query_ends text len e → d = e.
Proof.
  assert (∀ d e, query_ends text len d → query_ends text len e → ¬ d < e) as Hlt.
  { intros d' e' (Hd & Htail & _) (He & _ & [->|Hend]) Hlt; [lia|].
    rewrite Htail in Hend by lia. done. }
  intros Hd He. pose proof (Hlt d e Hd He). pose proof (Hlt e d He Hd). lia.
Qed.

Lemma scan_backwards_ends text len e :
  e ≤ len → (∀ i, e ≤ i < len → useless_trail (text i) = true) →
  query_ends text len (scan_backwards text e).
Proof.
  induction e as [|e IH]; intros Hle Htail; cbn [scan_backwards].
  { split; [lia|]. split; [done|by left]. }
  destruct (useless_trail (text e)) eqn:Ht.
  - apply IH; [lia|]. intros i Hi. destruct (decide (i = e)) as [->|]; [done|]. apply Htail. lia.
  - split; [done|]. split; [done|]. right. by replace (S e - 1) with e by lia.
Qed.

Lemma useless_is_ascii c : useless_trail c = true → (c < 0x80)%Z.
Proof. unfold useless_trail, isspace, between_inc. intros Hc. repeat case_match; b2p; lia. Qed.

(** One character further. *)
Lemma useful_glyph_ends enc text len h next e :
  ascii_safe enc = true → h < next ≤ len → glyph_scanner text len h enc = Ok (Some next) →
  query_ends text h e → query_ends text next (useful_glyph text e h next).
Proof.
  intros Henc Hnext Hscan (He & Htail & Hend). unfold useful_glyph.
  destruct (decide (next = S h)) as [->|Hmulti].
  - rewrite (proj2 (Nat.ltb_ge 1 (S h - h))) by lia. cbn [orb].
    destruct (useless_trail (text h)) eqn:Ht; cbn [negb].
    + split; [lia|]. split; [|done]. intros i Hi.
      destruct (decide (i = h)) as [->|]; [done|]. apply Htail. lia.
    + split; [lia|]. split; [lia|]. right. by replace (S h - 1) with h by lia.
  - rewrite (proj2 (Nat.ltb_lt 1 (next - h))) by lia. cbn [orb].
    split; [lia|]. split; [lia|]. right. apply not_true_iff_false. intros Ht%useless_is_ascii.
    apply Hmulti. refine (safe_scan enc text len h next (next - 1) Henc Hscan _ Ht). lia.
Qed.

(** Stripping the end of a query forwards, character by character, gives
    what stripping it backwards gives, in every encoding whose multi-byte
    characters hold no ASCII byte; or the query holds an invalid character and
    the scanner's exception is thrown. *)
Theorem find_query_end_agrees query enc :
  ascii_safe enc = true →
  find_query_end query enc = find_query_end query MONOBYTE ∨
  ∃ e h, find_query_end query enc = Some (Throw e) ∧ exn_kind e = pqxx_argument_error ∧
         glyph_scanner (bytes_of query) (String.length query) h enc = Throw e.
Proof.
  intros Henc. unfold find_query_end. set (text := bytes_of query). set (len := String.length query).
  rewrite (bool_decide_true (MONOBYTE = MONOBYTE)) by done.
  destruct (bool_decide_reflect (enc = MONOBYTE)) as [|_]; [by left|].
  destruct (for_glyphs_ind enc text len (useful_glyph text) (query_ends text) (S len) 0 0)
    as [(e & Hr & Hend)|(e & h & Hr & _ & Hscan & He & _)].
  - intros h next e Hn Hscan. by eapply useful_glyph_ends.
  - split; [lia|]. split; [lia|by left].
  - lia.
  - lia.
  - left. rewrite Hr. do 2 f_equal. eapply query_ends_unique; [exact Hend|].
    apply scan_backwards_ends; [done|lia].
  - right. exists e, h. done.
Qed.

Lemma find_query_end_agrees_witness :
  ascii_safe EUC_JP = true ∧
  (find_query_end "SELECT 1;" EUC_JP = find_query_end "SELECT 1;" MONOBYTE ∨
   ∃ e h, find_query_end "SELECT 1;" EUC_JP = Some (Throw e) ∧ exn_kind e = pqxx_argument_error ∧
          glyph_scanner (bytes_of "SELECT 1;") (String.length "SELECT 1;") h EUC_JP = Throw e).
Proof. split; [reflexivity|]. apply (find_query_end_agrees "SELECT 1;" EUC_JP). reflexivity. Defined.

(** ** Escaping for LIKE *)

Definition wildcard (c : ascii) : bool := Ascii.eqb c "_" || Ascii.eqb c "%".

Fixpoint escape_wildcards (escape_char : ascii) (s : string) : string :=
  match s with
  | EmptyString => EmptyString
  | String c s' =>
      if wildcard c then String escape_char (String c (escape_wildcards escape_char s'))
      else String c (escape_wildcards escape_char s')
  end.

Lemma escape_wildcards_app e s t : escape_wildcards e (s +:+ t) = escape_wildcards e s +:+ escape_wildcards e t.
Proof.
  induction s as [|c s IH]; [done|]. cbn [escape_wildcards]. rewrite sapp_cons. cbn [escape_wildcards].
  rewrite IH. by destruct (wildcard c).
Qed.

Lemma escape_wildcards_id e s : sforall (λ c, negb (wildcard c)) s = true → escape_wildcards e s = s.
Proof.
  induction s as [|c s IH]; [done|]. cbn. intros [Hc Hs]%andb_true_iff. apply negb_true_iff in Hc.
  by rewrite Hc, IH.
Qed.

Lemma sforall_get P s : (∀ i c, String.get i s = Some c → P c = true) → sforall P s = true.
Proof.
  induction s as [|c s IH]; intros HP; [done|]. cbn. rewrite (HP 0 c eq_refl). apply IH.
  intros i d Hd. apply (HP (S i) d Hd).
Qed.

Lemma bytes_of_get s i c : String.get i s = Some c → bytes_of s i = byte_of c.
Proof. unfold bytes_of. by intros ->. Qed.

Lemma wildcard_byte c : wildcard c = ((byte_of c =? 95)%Z || (byte_of c =? 37)%Z).
Proof.
  apply Bool.eqb_true_iff. revert c. apply forall_chars. vm_compute. reflexivity.
Qed.

Lemma get_some s i : i < String.length s → String.get i s ≠ None.
Proof.
  revert i. induction s as [|c s IH]; intros i Hi; cbn [String.length] in Hi; [lia|].
  destruct i as [|i]; [done|]. apply IH. lia.
Qed.

Lemma esc_like_glyph_step enc text escape_char h next out :
  ascii_safe enc = true → h < next ≤ String.length text →
  glyph_scanner (bytes_of text) (String.length text) h enc = Ok (Some next) →
  out = escape_wildcards escape_char (substring 0 h text) →
  esc_like_glyph text escape_char out h next = escape_wildcards escape_char (substring 0 next text).
Proof.
  intros Henc Hn Hscan ->. unfold esc_like_glyph.
  assert (substring 0 next text = substring 0 h text +:+ substring h (next - h) text) as ->.
  { rewrite <- substring_split by lia. f_equal. lia. }
  rewrite escape_wildcards_app.
  destruct (decide (next = S h)) as [->|Hmulti].
  - rewrite (proj2 (Nat.eqb_eq (S h - h) 1)) by lia. cbn [andb].
    replace (S h - h) with 1 by lia. unfold get_byte.
    destruct (String.get h text) as [c|] eqn:Hc.
    2: { exfalso. revert Hc. apply get_some. lia. }
    rewrite (bytes_of_get _ _ _ Hc), <- wildcard_byte, (substring_one _ _ _ Hc).
    cbn [escape_wildcards]. destruct (wildcard c); [by rewrite snoc_app|done].
  - rewrite (proj2 (Nat.eqb_neq (next - h) 1)) by lia. cbn [andb]. f_equal. symmetry.
    apply escape_wildcards_id, sforall_get. intros i c Hc.
    assert (i < next - h) as Hi.
    { destruct (Nat.lt_ge_cases i (next - h)) as [|Hge]; [done|].
      by rewrite (substring_correct2 text h _ _ Hge) in Hc. }
    rewrite substring_correct1 in Hc by done. apply negb_true_iff, not_true_iff_false. intros Hw.
    apply Hmulti. refine (safe_scan enc _ _ h next (i + h) Henc Hscan _ _); [lia|].
    rewrite (bytes_of_get _ _ _ Hc). rewrite wildcard_byte in Hw.
    apply orb_true_iff in Hw as [Hw|Hw]; b2p; lia.
Qed.

(** *** UTF-8 *)

(** Decides the comparisons that the context decides. *)
Ltac decide_comparisons :=
  repeat match goal with
  | |- context [(?a <? ?b)%nat] =>
      first [rewrite (proj2 (Nat.ltb_lt a b)) by lia | rewrite (proj2 (Nat.ltb_ge a b)) by lia]
  | |- context [(?a <=? ?b)%nat] =>
      first [rewrite (proj2 (Nat.leb_le a b)) by lia | rewrite (proj2 (Nat.leb_gt a b)) by lia]
  | |- context [(?a <? ?b)%Z] =>
      first [rewrite (proj2 (Z.ltb_lt a b)) by lia | rewrite (proj2 (Z.ltb_ge a b)) by lia]
  | |- context [(?a <=? ?b)%Z] =>
      first [rewrite (proj2 (Z.leb_le a b)) by lia | rewrite (proj2 (Z.leb_gt a b)) by lia]
  end.

Lemma get_app s t i : String.get (String.length s + i) (s +:+ t) = String.get i t.
Proof. induction s as [|c s IH]; [done|]. rewrite sapp_cons. apply IH. Qed.

Lemma bytes_of_app s t i : bytes_of (s +:+ t) (String.length s + i) = bytes_of t i.
Proof. unfold bytes_of. by rewrite get_app. Qed.

Lemma utf8_ranges_cases b ranges :
  utf8_ranges b = Some ranges →
  (192 <= b <= 223 ∧ ∃ x, ranges = [x] ∧ 128 <= x.1 ∧ x.2 <= 191)%Z ∨
  (224 <= b <= 239 ∧ ∃ x y, ranges = [x; y] ∧ 128 <= x.1 ∧ x.2 <= 191 ∧ 128 <= y.1 ∧ y.2 <= 191)%Z ∨
  (240 <= b <= 247 ∧ ∃ x y z, ranges = [x; y; z] ∧ 128 <= x.1 ∧ x.2 <= 191 ∧ 128 <= y.1 ∧ y.2 <= 191 ∧
     128 <= z.1 ∧ z.2 <= 191)%Z.
Proof.
  unfold utf8_ranges. intros Hr.
  repeat case_match; simplify_eq; b2p;
    repeat match goal with Hor : (_ || _) = true |- _ => apply orb_true_iff in Hor as [Hor|Hor]; b2p end;
    first [left; split; [lia|]; eexists; split; [done|]; cbn; lia
          | right; left; split; [lia|]; eexists _, _; split; [done|]; cbn; lia
          | right; right; split; [lia|]; eexists _, _, _; split; [done|]; cbn; lia].
Qed.

(** The scanner accepts the characters of a well-formed string. *)
Lemma scan_utf8_char pre c ranges tail s :
  utf8_ranges (byte_of c) = Some ranges → tail_of ranges tail →
  let text := pre +:+ String c (tail +:+ s) in
  glyph_scanner (bytes_of text) (String.length text) (String.length pre) UTF8 =
  Ok (Some (String.length pre + S (String.length tail))).
Proof.
  intros Hr Ht text. unfold_scanners. unfold get_byte, between_inc. subst text.
  rewrite !bytes_of_app, !slength_app. cbn [String.length]. rewrite slength_app.
  destruct (utf8_ranges_cases _ _ Hr) as [(Hc & x & -> & Hx)|[(Hc & x & y & -> & Hx)|(Hc & x & y & z & -> & Hx)]];
    repeat match goal with p : (Z * Z)%type |- _ => destruct p end;
    cbn [tail_of fst snd] in Ht, Hx;
    repeat match type of Ht with
    | context [match ?t with EmptyString => _ | String _ _ => _ end] => destruct t; cbn [tail_of] in Ht; try (exfalso; tauto)
    end;
    destruct_and?; cbn [String.length]; rewrite ?sapp_cons;
    unfold bytes_of; cbn [String.get]; decide_comparisons; cbn [negb andb orb]; reflexivity.
Qed.

(** Behind [h] the text is well-formed. *)
Definition utf8_from (text : string) (h : nat) : Prop :=
  ∃ pre suf, text = pre +:+ suf ∧ h = String.length pre ∧ utf8 suf.

Lemma utf8_from_scan text h :
  utf8_from text h → h < String.length text →
  ∃ next, glyph_scanner (bytes_of text) (String.length text) h UTF8 = Ok (Some next) ∧ utf8_from text next.
Proof.
  intros (pre & suf & -> & -> & Hutf8) Hlt.
  destruct Hutf8 as [|c s Hc Hs|c ranges tail s Hr Ht Hs].
  - rewrite slength_app in Hlt. cbn in Hlt. lia.
  - exists (S (String.length pre)). split.
    + unfold_scanners. unfold get_byte. rewrite bytes_of_app.
      rewrite (proj2 (Nat.leb_gt _ _) Hlt).
      change (bytes_of (String c s) 0) with (byte_of c). decide_comparisons.
      do 2 f_equal. lia.
    + exists (snoc pre c), s. rewrite snoc_app. unfold snoc. rewrite slength_app. cbn.
      split; [done|]. split; [lia|done].
  - exists (String.length pre + S (String.length tail)). split; [by eapply scan_utf8_char|].
    exists (pre +:+ String c tail), s. rewrite <- sapp_assoc, sapp_cons.
    split; [done|]. split; [|done]. by rewrite slength_app.
Qed.

(** In every encoding whose multi-byte characters hold no ASCII byte,
    [esc_like] puts the escape character before exactly the percent signs and
    underscores, or throws for an invalid character; it does not throw for
    well-formed UTF-8. *)
Theorem esc_like_spec enc text escape_char :
  ascii_safe enc = true →
  (esc_like enc text escape_char = Some (Ok (escape_wildcards escape_char text)) ∨
   ∃ e, esc_like enc text escape_char = Some (Throw e) ∧ exn_kind e = pqxx_argument_error) ∧
  (enc = UTF8 → utf8 text →
   esc_like enc text escape_char = Some (Ok (escape_wildcards escape_char text))).
Proof.
  intros Henc. unfold esc_like.
  destruct (for_glyphs_ind enc (bytes_of text) (String.length text) (esc_like_glyph text escape_char)
    (λ h out, out = escape_wildcards escape_char (substring 0 h text) ∧
              (enc = UTF8 → utf8 text → utf8_from text h)) (S (String.length text)) 0 EmptyString)
    as [(out & -> & -> & _)|(e & h & -> & Hh & Hscan & He & out & _ & Hfrom)].
  - intros h next out Hn Hscan [Hout Hfrom]. split; [by apply (esc_like_glyph_step enc)|].
    intros -> Ht. destruct (utf8_from_scan text h) as (next' & Hscan' & Hnext); [auto|lia|].
    by rewrite Hscan in Hscan'; simplify_eq.
  - split; [by destruct text|]. intros _ Ht. by exists EmptyString, text.
  - lia.
  - lia.
  - rewrite substring_all. auto.
  - split; [eauto|]. intros -> Ht.
    destruct (utf8_from_scan text h (Hfrom eq_refl Ht) Hh) as (next & Hscan' & _).
    by rewrite Hscan in Hscan'.
Qed.

Lemma esc_like_spec_witness :
  ascii_safe UTF8 = true ∧
  esc_like UTF8 "50%_a" "\" = Some (Ok "50\%\_a"%string).
Proof.
  split; [reflexivity|]. apply (proj2 (esc_like_spec UTF8 "50%_a" "\" eq_refl) eq_refl).
  repeat (apply utf8_ascii; [vm_compute; discriminate|]). apply utf8_empty.
Defined.

(** *** Bounds and termination *)

Section termination.
Context (enc : encoding_group) (buffer : memory) (len : nat).

(** A loop that scans inside the buffer either stops or moves on. *)
Lemma scan_step {A} (here : nat) (stop : A) (raise : exn → A) (continue : nat → A) (P : A → Prop) :
  here < len → (∀ e, P (raise e)) → (∀ next, here < next ≤ len → P (continue next)) →
  P match glyph_scanner buffer len here enc with
    | Ok (Some next) => continue next
    | Ok None => stop
    | Throw e => raise e
    end.
Proof.
  intros Hlt He Hn.
  by destruct (scan_cases enc buffer len here Hlt) as [(next & -> & Hnext)|(e & -> & _)]; auto.
Qed.

Lemma find_char_total needle fuel here :
  here ≤ len → len - here < fuel → is_Some (find_char enc buffer len needle fuel here).
Proof.
  revert here. induction fuel as [|fuel IH]; intros here Hle Hfuel; [lia|]. cbn [find_char].
  destruct (Nat.ltb_spec here len) as [Hlt|_]; [|by eexists].
  apply scan_step; [done|by eexists|]. intros next Hn.
  destruct (_ && _); [by eexists|]. apply IH; lia.
Qed.

Lemma char_finder_total needle fuel here :
  here ≤ len → len - here < fuel → is_Some (char_finder enc buffer len needle fuel here).
Proof.
  revert here. induction fuel as [|fuel IH]; intros here Hle Hfuel; [lia|]. cbn [char_finder].
  destruct (Nat.leb_spec (here + 1) len); [|by eexists]. destruct (buffer here =? needle)%Z; [by eexists|].
  apply scan_step; [lia|by eexists|]. intros next Hn. apply IH; lia.
Qed.

Lemma string_finder_total needle fuel here :
  here ≤ len → len - here < fuel → is_Some (string_finder enc buffer len needle fuel here).
Proof.
  revert here. induction fuel as [|fuel IH]; intros here Hle Hfuel; [lia|]. cbn [string_finder].
  destruct (Nat.leb_spec (here + length needle) len); [|by eexists].
  destruct needle as [|c needle]; [by eexists|]. cbn [length] in *.
  destruct (memcmp_eq _ _ _); [by eexists|].
  apply scan_step; [lia|by eexists|]. intros next Hn. apply IH; lia.
Qed.
End termination.

(** C38. Every scanner moves on by one to four bytes and stays inside the
    buffer, or throws [argument_error]; it reads no byte behind the buffer,
    except that the one for MULE_INTERNAL can read the first of them; and
    every search over characters ends within as many steps as there are bytes. *)
Theorem glyph_scanner_bounds enc buffer len start :
  scan_outcome len start (glyph_scanner buffer len start enc) ∧
  (∀ buffer', same_bytes (len + overread enc) buffer buffer' →
     glyph_scanner buffer' len start enc = glyph_scanner buffer len start enc) ∧
  (∀ fuel, start ≤ len → len - start < fuel →
     (∀ needle, is_Some (find_char enc buffer len needle fuel start)) ∧
     (∀ needle, is_Some (char_finder enc buffer len needle fuel start)) ∧
     (∀ needle, is_Some (string_finder enc buffer len needle fuel start))).
Proof.
  split; [apply scan_advances|]. split; [intros b' Hb; symmetry; by apply scan_same|].
  intros fuel Hle Hfuel. split; [|split]; intros needle;
    auto using find_char_total, char_finder_total, string_finder_total.
Qed.

Lemma glyph_scanner_bounds_witness :
  glyph_scanner (bytes_of "ab") 2 1 UTF8 = glyph_scanner (bytes_of "abc") 2 1 UTF8 ∧
  is_Some (find_char UTF8 (bytes_of "ab") 2 [98%Z] 3 0).
Proof.
  split.
  - apply (glyph_scanner_bounds UTF8 (bytes_of "abc") 2 1). intros i Hi.
    destruct i as [|[|i]]; [reflexivity|reflexivity|]. cbn [overread Nat.add] in Hi. lia.
  - apply (glyph_scanner_bounds UTF8 (bytes_of "ab") 2 0); lia.
Defined.

(** The byte behind a MULE_INTERNAL buffer decides whether its last character
    is accepted. *)
Lemma mule_internal_overread :
  let b (last : Z) : memory := λ i, nth i [0x9c; 0xf0; 0xa0; 0xa0; last]%Z 0%Z in
  same_bytes 4 (b 0xa0%Z) (b 0%Z) ∧
  glyph_scanner (b 0xa0%Z) 4 0 MULE_INTERNAL = Ok (Some 4) ∧
  is_ok (glyph_scanner (b 0%Z) 4 0 MULE_INTERNAL) = false.
Proof.
  split; [|by vm_compute]. intros i Hi. by do 4 (destruct i as [|i]; [done|]); lia.
Qed.

(** The second byte of a JOHAB character is not looked at. *)
Lemma johab_ignores_second_byte (b : memory) :
  b 0 = 0xd0%Z → glyph_scanner b 2 0 JOHAB = Ok (Some 2).
Proof. intros Hb. unfold_scanners. unfold get_byte. cbn [Nat.add]. by rewrite Hb. Qed.

(** Searching for ASCII characters needs no scanner in these encodings: where
    it does not throw, the search is that in a single-byte encoding. *)
Theorem find_char_agrees enc buffer len needle fuel here :
  ascii_safe enc = true → Forall (λ c, c < 0x80)%Z needle → here ≤ len → len - here < fuel →
  find_char enc buffer len needle fuel here = find_char MONOBYTE buffer len needle fuel here ∨
  ∃ e, find_char enc buffer len needle fuel here = Some (Throw e) ∧ exn_kind e = pqxx_argument_error.
Proof.
  intros Henc Hneedle Hle Hfuel.
  destruct (find_char_cases buffer len enc needle fuel here) as [(p & -> & Hp)|?]; [done..| |naive_solver].
  destruct (find_char_cases buffer len MONOBYTE needle fuel here) as [(q & -> & Hq)|(e & h & _ & Hscan & _)];
    [done..| |].
  - left. by rewrite (first_in_unique _ _ _ _ _ _ Hp Hq).
  - exfalso. unfold glyph_scanner, scan_MONOBYTE in Hscan. by case_match.
Qed.
