(* ===== verification/PqxxGlyphs.v ===== *)
(** Characters of a text in its encoding: what a scanner finds depends only on
    the bytes of the character, ASCII is always found, and strings that a
    scanner accepts from end to end. *)

From stdpp Require Import list.
From S2P Require Import Prelude Decimal Exceptions JsonLexer JsonUtf8 PqxxResult PqxxEncoding.
From S2P Require Import PqxxEncodingFacts PqxxBufferFacts.

Local Open Scope nat_scope.

(** ** Scanners *)

(** Case distinctions on boolean connectives. *)
Ltac split_bools :=
  repeat match goal with
  | H : (_ || _)%bool = true |- _ => apply orb_true_iff in H as [H|H]
  | H : (_ && _)%bool = false |- _ => apply andb_false_iff in H as [H|H]
  end.

(** A character is found in a shorter buffer too, if it is inside. *)
Lemma scan_shrink enc b len len' p n :
  glyph_scanner b len p enc = Ok (Some n) → n ≤ len' → len' ≤ len →
  glyph_scanner b len' p enc = Ok (Some n).
Proof.
  intros Hscan Hn Hlen. pose proof (scan_advances enc b len p) as Hout. rewrite Hscan in Hout.
  cbn in Hout. destruct enc; revert Hscan; unfold_scanners; intros Hscan;
    repeat case_match; simplify_eq; b2p; n2p; try lia; try congruence;
    split_bools; b2p; n2p; first [lia|congruence].
Qed.

(** A character is the same wherever it stands, except in MULE_INTERNAL, whose
    scanner looks at the byte behind it. *)
Lemma scan_local enc b b' len len' p p' n :
  enc ≠ MULE_INTERNAL → glyph_scanner b len p enc = Ok (Some (p + n)) →
  (∀ i, i < n → b' (p' + i) = b (p + i)) → p' + n ≤ len' →
  glyph_scanner b' len' p' enc = Ok (Some (p' + n)).
Proof.
  intros Henc Hscan Hb Hlen. pose proof (scan_advances enc b len p) as Hout. rewrite Hscan in Hout.
  cbn in Hout.
  assert (n = 1 ∨ n = 2 ∨ n = 3 ∨ n = 4) as Hn by lia.
  destruct_or! Hn; subst n;
    pose proof (Hb 0 ltac:(lia)) as Hb0; try pose proof (Hb 1 ltac:(lia)) as Hb1;
    try pose proof (Hb 2 ltac:(lia)) as Hb2; try pose proof (Hb 3 ltac:(lia)) as Hb3; clear Hb;
    destruct enc; try done; revert Hscan; unfold_scanners; unfold get_byte;
    rewrite ?Hb0, ?Hb1, ?Hb2, ?Hb3; intros Hscan;
    repeat case_match; simplify_eq; b2p; n2p; try lia; try congruence;
    split_bools; b2p; n2p; try first [lia|congruence].
Qed.

Lemma scan_ascii_char enc b len p :
  p < len → (b p < 0x80)%Z → glyph_scanner b len p enc = Ok (Some (p + 1)).
Proof.
  intros Hp Hb.
  destruct enc; unfold_scanners; unfold get_byte; rewrite ?Nat.add_0_r;
    rewrite (proj2 (Nat.leb_gt _ _)) by lia; rewrite ?(proj2 (Z.ltb_lt (b p) 0x80)) by lia; done.
Qed.

(** ** Where something stands in a text *)

Definition occurs (text : string) (p : nat) (l : list ascii) : Prop :=
  take (length l) (drop p (list_ascii_of_string text)) = l.

Lemma get_lookup text i : String.get i text = list_ascii_of_string text !! i.
Proof. revert i. induction text as [|c text IH]; intros [|i]; cbn; auto. Qed.

Lemma occurs_lookup text p l i c : occurs text p l → l !! i = Some c → list_ascii_of_string text !! (p + i) = Some c.
Proof.
  unfold occurs. intros Ho Hi. rewrite <-Ho in Hi.
  pose proof (lookup_lt_Some _ _ _ Hi) as Hlt. rewrite length_take in Hlt.
  rewrite lookup_take_lt in Hi by lia. by rewrite lookup_drop in Hi.
Qed.

Lemma occurs_byte {bh : Behind} text p l i c :
  occurs text p l → l !! i = Some c → bytes_in text (p + i) = byte_of c.
Proof. intros Ho Hi. unfold bytes_in. by rewrite get_lookup, (occurs_lookup _ _ _ _ _ Ho Hi). Qed.

Lemma occurs_length text p l : occurs text p l → l ≠ [] → p + length l ≤ String.length text.
Proof.
  unfold occurs. intros Ho Hl. apply (f_equal length) in Ho.
  rewrite length_take, length_drop, length_list_ascii in Ho. destruct l; [done|]. cbn [length] in *. lia.
Qed.

Lemma occurs_app text p l k : occurs text p (l ++ k) ↔ occurs text p l ∧ occurs text (p + length l) k.
Proof.
  unfold occurs. rewrite length_app, <-drop_drop. generalize (drop p (list_ascii_of_string text)). clear p.
  intros t. split.
  - intros E. split; [|by rewrite take_drop_commute, E, drop_app_length].
    apply (f_equal (take (length l))) in E. rewrite take_take, Nat.min_l, take_app_length in E by lia. done.
  - intros [E1 E2]. rewrite <-(take_drop (length l) (take (length l + length k) t)).
    by rewrite take_take, Nat.min_l, <-take_drop_commute, E1, E2 by lia.
Qed.

Lemma occurs_cons text p c l : occurs text p (c :: l) → occurs text p [c] ∧ occurs text (p + 1) l.
Proof. intros [H1' H2']%(occurs_app text p [c] l). done. Qed.

Lemma occurs_ascii {bh : Behind} enc text p c :
  occurs text p [c] → (byte_of c < 0x80)%Z →
  glyph_scanner (bytes_in text) (String.length text) p enc = Ok (Some (p + 1)) ∧
  bytes_in text p = byte_of c ∧ p < String.length text.
Proof.
  intros Ho Hc. pose proof (occurs_length _ _ _ Ho ltac:(done)) as Hl. cbn in Hl.
  pose proof (occurs_byte _ _ _ 0 c Ho eq_refl) as Hb. rewrite Nat.add_0_r in Hb.
  split; [|split; [done|lia]]. apply scan_ascii_char; [lia|]. by rewrite Hb.
Qed.

Lemma occurs_substring text p l : occurs text p l → substring p (length l) text = string_of_list_ascii l.
Proof.
  unfold occurs. revert p l. induction text as [|c text IH]; intros p l.
  - cbn. rewrite drop_nil, take_nil. intros <-. by destruct p.
  - destruct p as [|p]; cbn.
    + destruct l as [|d l]; [done|]. cbn. intros [= -> Hl]. f_equal. by apply (IH 0).
    + intros Hl. by apply IH.
Qed.

(** Two memories in which the scanners see the same: the one for MULE_INTERNAL
    looks at the first byte behind the text. *)
Definition same_behind (enc : encoding_group) (bh bh' : Behind) : Prop :=
  enc = MULE_INTERNAL → bh 0 = bh' 0.

Lemma bytes_inside (bh bh' : Behind) text i :
  i < String.length text → bytes_in (bh:=bh) text i = bytes_in (bh:=bh') text i.
Proof.
  intros Hi. unfold bytes_in. rewrite get_lookup.
  destruct (lookup_lt_is_Some_2 (list_ascii_of_string text) i) as [c ->]; [by rewrite length_list_ascii|done].
Qed.

Lemma scan_behind enc (bh bh' : Behind) text len p :
  same_behind enc bh bh' → len ≤ String.length text →
  glyph_scanner (bytes_in (bh:=bh) text) len p enc = glyph_scanner (bytes_in (bh:=bh') text) len p enc.
Proof.
  intros Hb Hlen. apply scan_same. intros i Hi. destruct (decide (i < String.length text)) as [Hlt|Hge].
  - by apply bytes_inside.
  - assert (Hm : enc = MULE_INTERNAL ∧ i = String.length text) by (destruct enc; cbn in Hi; lia || (split; [done|lia])).
    destruct Hm as [Hm ->]. unfold bytes_in. rewrite get_lookup, lookup_ge_None_2 by (by rewrite length_list_ascii).
    rewrite Nat.sub_diag. by apply Hb.
Qed.

(** ** Strings in an encoding *)

Definition glyph (enc : encoding_group) (g : list ascii) : Prop :=
  g ≠ [] ∧ glyph_scanner (bytes_of (string_of_list_ascii g)) (length g) 0 enc = Ok (Some (length g)).

Inductive encoded (enc : encoding_group) : list ascii → Prop :=
  | encoded_nil : encoded enc []
  | encoded_glyph g l : glyph enc g → encoded enc l → encoded enc (g ++ l).

Lemma encoded_app enc l k : encoded enc l → encoded enc k → encoded enc (l ++ k).
Proof. induction 1 as [|g l Hg _ IH]; intros Hk; [done|]. rewrite <-app_assoc. by constructor; [|apply IH]. Qed.

Lemma bytes_of_list l i c : l !! i = Some c → bytes_of (string_of_list_ascii l) i = byte_of c.
Proof. intros Hi. unfold bytes_of. by rewrite get_lookup, list_ascii_of_string_of_list_ascii, Hi. Qed.

Lemma ascii_glyph enc c : (byte_of c < 0x80)%Z → glyph enc [c].
Proof.
  intros Hc. split; [done|]. apply scan_ascii_char; [cbn; lia|]. by rewrite (bytes_of_list _ _ c).
Qed.

Lemma encoded_ascii enc l : Forall (λ c, byte_of c < 0x80)%Z l → encoded enc l.
Proof.
  induction 1 as [|c l Hc _ IH]; [constructor|]. apply (encoded_glyph enc [c]); [|done]. by apply ascii_glyph.
Qed.

Lemma encoded_monobyte l : encoded MONOBYTE l.
Proof. induction l as [|c l IH]; [constructor|]. by apply (encoded_glyph MONOBYTE [c]). Qed.

(** A character that stands in a text is found there. *)
Lemma glyph_scan_any {bh : Behind} enc text p g len :
  enc ≠ MULE_INTERNAL → glyph enc g → occurs text p g → p + length g ≤ len →
  glyph_scanner (bytes_in text) len p enc = Ok (Some (p + length g)).
Proof.
  intros Henc [Hne Hg] Ho Hlen. eapply (scan_local enc _ _ _ _ 0 p (length g) Henc Hg); [|done].
  intros i Hi. destruct (lookup_lt_is_Some_2 g i Hi) as [c Hc].
  cbn [Nat.add]. by rewrite (occurs_byte _ _ _ _ _ Ho Hc), (bytes_of_list _ _ _ Hc).
Qed.

Lemma ascii_safe_local enc : ascii_safe enc = true → enc ≠ MULE_INTERNAL.
Proof. by intros ? ->. Qed.

Lemma glyph_scan {bh : Behind} enc text p g len :
  ascii_safe enc = true → glyph enc g → occurs text p g → p + length g ≤ len →
  glyph_scanner (bytes_in text) len p enc = Ok (Some (p + length g)).
Proof. intros Hsafe%ascii_safe_local. by apply glyph_scan_any. Qed.

(** ASCII is a character of its own. *)
Lemma glyph_of_ascii enc g i c :
  ascii_safe enc = true → glyph enc g → g !! i = Some c → (byte_of c < 0x80)%Z → g = [c].
Proof.
  intros Henc [Hne Hg] Hi Hc. pose proof (lookup_lt_Some _ _ _ Hi) as Hlt.
  pose proof (safe_scan enc _ _ 0 _ i Henc Hg ltac:(lia)) as Hone.
  rewrite (bytes_of_list _ _ _ Hi) in Hone. specialize (Hone Hc).
  destruct g as [|d [|d' g]]; [done| |done]. cbn in Hlt. replace i with 0 in Hi by lia. by simplify_eq/=.
Qed.

Lemma list_ascii_app (s t : string) :
  list_ascii_of_string (s +:+ t) = list_ascii_of_string s ++ list_ascii_of_string t.
Proof. induction s as [|c s IH]; [done|]. rewrite sapp_cons. cbn. by rewrite IH. Qed.

Lemma utf8_encoded text : utf8 text → encoded UTF8 (list_ascii_of_string text).
Proof.
  assert (∀ (t : string) n, utf8 t → String.length t < n → encoded UTF8 (list_ascii_of_string t)) as Hn.
  { intros t n. revert t. induction n as [|n IH]; intros t Ht Hlt; [lia|].
    destruct Ht as [|c s Hc Hs|c ranges tail s Hr Htail Hs]; [constructor| |].
    - apply (encoded_glyph UTF8 [c]); [apply ascii_glyph; lia|]. apply IH; [done|]. cbn in Hlt. lia.
    - cbn [list_ascii_of_string]. rewrite list_ascii_app. cbn in Hlt.
      rewrite slength_app in Hlt. apply (encoded_glyph UTF8 (c :: list_ascii_of_string tail)).
      + split; [done|].
        pose proof (scan_utf8_char EmptyString c ranges tail EmptyString Hr Htail) as Hscan. cbv zeta in Hscan.
        rewrite sapp_nil_l, sapp_nil_r in Hscan. cbn [String.length Nat.add] in Hscan.
        cbn [string_of_list_ascii length]. by rewrite string_of_list_ascii_of_string, length_list_ascii.
      + apply IH; [done|]. lia. }
  intros Htext. apply (Hn text (S (String.length text))); [done|lia].
Qed.
