(* ===== verification/PqxxCopyFacts.v ===== *)
(** Lines of the COPY protocol: the line written for a row has no line break
    and is taken apart into the row again; taking apart any line stays inside
    the line and the buffer. *)

From stdpp Require Import list.
From S2P Require Import Prelude Decimal Exceptions JsonLexer JsonUtf8 PqxxConv PqxxConvFacts.
From S2P Require Import PqxxBuffer PqxxBufferFacts PqxxResult PqxxEncoding PqxxEncodingFacts.
From S2P Require Import PqxxGlyphs PqxxArray PqxxCopy.

Local Open Scope nat_scope.

(** ** What is written for a text *)

Definition escape_glyph (g : list ascii) : list ascii :=
  match g with
  | [c] => if Ascii.eqb (PqxxCopy.escape 1 c) NUL then g else [backslash; PqxxCopy.escape 1 c]
  | _ => g
  end.

(** The characters of [l], each of them escaped, are [t]. *)
Inductive copy_text (enc : encoding_group) : list ascii → list ascii → Prop :=
  | copy_text_nil : copy_text enc [] []
  | copy_text_glyph g l t : glyph enc g → copy_text enc l t → copy_text enc (g ++ l) (escape_glyph g ++ t).

Lemma encoded_copy_text enc l : encoded enc l → ∃ t, copy_text enc l t.
Proof.
  induction 1 as [|g l Hg _ [t IH]]; [exists []; constructor|].
  exists (escape_glyph g ++ t). by constructor.
Qed.

Lemma escape_wide n c : n ≠ 1 → PqxxCopy.escape n c = NUL.
Proof. intros Hn. unfold PqxxCopy.escape. by rewrite (proj2 (Nat.eqb_neq _ _)). Qed.

Lemma copy_scan_end enc b n : glyph_scanner b n n enc = Ok None.
Proof.
  pose proof (scan_advances enc b n n) as H.
  destruct (glyph_scanner b n n enc) as [[e|]|e]; cbn in H; [lia|done|lia].
Qed.

Lemma string_of_app (a b : list ascii) :
  string_of_list_ascii (a ++ b) = string_of_list_ascii a +:+ string_of_list_ascii b.
Proof. induction a as [|c a IH]; [done|]. cbn. by rewrite sapp_cons, IH. Qed.

(** ** Writing *)

Section writing.
Context {bh : Behind} (enc : encoding_group) (data : string).
Hypothesis Henc : enc ≠ MULE_INTERNAL.
Let size : nat := String.length data.

Lemma substring_occurs p l : occurs data p l → substring p (length l) data = string_of_list_ascii l.
Proof. apply occurs_substring. Qed.

(** The loop at a character: the stretch [u] ends there. *)
Lemma escape_loop_spec l t : copy_text enc l t →
  ∀ p u fuel end_ buf, occurs data p (u ++ l) → p + length u + length l = size → length l < fuel →
  (l ≠ [] → glyph_scanner (bytes_in data) size (p + length u) enc = Ok end_) →
  escape_loop enc data fuel p (p + length u) end_ buf =
  Some (Ok (buf +:+ string_of_list_ascii (u ++ t))).
Proof using Henc.
  induction 1 as [|g l t Hg Ht IH]; intros p u fuel end_ buf Hocc Hsize Hfuel Hend;
    (destruct fuel as [|fuel]; [lia|]); cbn [escape_loop].
  - rewrite get_lookup, lookup_ge_None_2 by (rewrite length_list_ascii; fold size; cbn in Hsize; lia).
    rewrite app_nil_r in *. replace (p + length u - p) with (length u) by lia.
    by rewrite substring_occurs.
  - pose proof Hg as [Hne _]. apply occurs_app in Hocc as [Hu Hgl]. apply occurs_app in Hgl as [Hgo Hlo].
    rewrite length_app in Hsize, Hfuel. fold size in Hsize.
    assert (Hscan : glyph_scanner (bytes_in data) size (p + length u) enc = Ok (Some (p + length u + length g))).
    { apply glyph_scan_any; [done|done|done|lia]. }
    rewrite Hend in Hscan by (destruct g; done). injection Hscan as ->.
    assert (Hc : ∃ c, g !! 0 = Some c) by (destruct g; [done|by eexists]). destruct Hc as [c Hc].
    pose proof (occurs_lookup _ _ _ _ _ Hgo Hc) as Hget. rewrite Nat.add_0_r in Hget.
    rewrite get_lookup, Hget. cbn [position mbind reader_bind mret reader_ret].
    replace (p + length u + length g - (p + length u)) with (length g) by lia.
    replace (p + length u - p) with (length u) by lia. rewrite substring_occurs by done.
    assert (Hres : ∃ e, glyph_scanner (bytes_in data) size (p + length u + length g) enc = Ok e).
    { inversion Ht as [|g' l' t' Hg' Ht']; subst.
      - exists None. cbn in Hsize. replace (p + length u + length g) with size by lia. apply copy_scan_end.
      - apply occurs_app in Hlo as [Hgo' _]. eexists. rewrite length_app in Hsize.
        apply glyph_scan_any; [done|done|done|lia]. }
    destruct Hres as [e' He'].
    cbn [scan_to]. fold size. rewrite He'. cbn [mbind reader_bind].
    destruct (Ascii.eqb_spec (PqxxCopy.escape (length g) c) NUL) as [Ee|Ee].
    + assert (Eg : escape_glyph g = g).
      { destruct g as [|d [|d' g]]; [done| |done]. cbn in Hc. simplify_eq. cbn [length] in Ee.
        cbn [escape_glyph]. by rewrite Ee, Ascii.eqb_refl. }
      assert (Epos : p + length u + length g = p + length (u ++ g)) by (rewrite length_app; lia).
      rewrite Epos in He' |- *. rewrite (IH p (u ++ g));
        [|rewrite <-app_assoc; apply occurs_app; split; [done|]; by apply occurs_app|lia| |done].
      2: { destruct g; [done|]. cbn [length] in Hfuel. lia. }
      by rewrite Eg, <-app_assoc.
    + destruct g as [|d [|d' g]]; [done| |by rewrite escape_wide in Ee]. cbn in Hc. simplify_eq. cbn [length] in Ee.
      cbn [escape_glyph]. rewrite (proj2 (Ascii.eqb_neq _ _)) by done.
      pose proof (IH (p + length u + 1) [] fuel e'
        (buf +:+ string_of_list_ascii u +:+ String backslash (String (PqxxCopy.escape 1 c) EmptyString))) as IH'.
      cbn [length] in *. rewrite Nat.add_0_r in *. rewrite IH'; [|done|lia|lia|done].
      do 2 f_equal. rewrite !string_of_app. cbn. by rewrite <-!sapp_assoc, !sapp_cons.
Qed.
End writing.

Section to_line.
Context {bh : Behind} (enc : encoding_group).
Hypothesis Henc : enc ≠ MULE_INTERNAL.

Lemma occurs_all data : occurs data 0 (list_ascii_of_string data).
Proof. unfold occurs. by rewrite drop_0, firstn_all. Qed.

Lemma escape_field_spec data t m_buffer :
  copy_text enc (list_ascii_of_string data) t →
  escape_field_to_buffer enc data m_buffer =
  Some (Ok (snoc (m_buffer +:+ string_of_list_ascii t) TAB)).
Proof using Henc.
  intros Ht. unfold escape_field_to_buffer. destruct (is_empty data) eqn:He.
  - apply is_empty_true in He as ->. inversion Ht as [|g l t' [Hne _] _ Hg]; [|by destruct g].
    subst. cbn. by rewrite sapp_nil_r.
  - assert (Hscan : ∃ e, glyph_scanner (bytes_in data) (String.length data) 0 enc = Ok e).
    { inversion Ht as [|g l t' Hg _ El].
      - destruct data; [done|discriminate].
      - eexists. apply (glyph_scan_any enc data 0 g); [done|done| |].
        + pose proof (occurs_all data) as Ho. rewrite <-El in Ho. by apply occurs_app in Ho as [Ho _].
        + rewrite <-length_list_ascii, <-El, length_app. lia. }
    destruct Hscan as [e Hscan]. cbn [scan_to]. rewrite Hscan. cbn [mbind reader_bind].
    rewrite (escape_loop_spec enc data Henc _ t Ht 0 []); [done| | | |].
    + apply occurs_all.
    + cbn. by rewrite length_list_ascii.
    + rewrite length_list_ascii. lia.
    + done.
Qed.

(** What a field holds, and its text in the line. *)
Inductive copy_content : copy_field → option (list ascii) → list ascii → Prop :=
  | content_string s t :
      copy_text enc (list_ascii_of_string s) t →
      copy_content (CopyString s) (Some (list_ascii_of_string s)) t
  | content_arithmetic T (traits : StringTraits T) (laws : StringTraitsLaws T) (v : T) :
      is_null v = false → room v ≤ size_buf v → copy_text enc (text v) (text v) →
      copy_content (CopyArithmetic traits v) (Some (text v)) (text v)
  | content_converted T (traits : StringTraits T) (laws : StringTraitsLaws T) (v : T) t :
      is_null v = false → room v ≤ size_buf v → copy_text enc (text v) t →
      copy_content (CopyConverted traits v) (Some (text v)) t
  | content_arithmetic_null T (traits : StringTraits T) (v : T) :
      is_null v = true → copy_content (CopyArithmetic traits v) None [backslash; "N"%char]
  | content_converted_null T (traits : StringTraits T) (v : T) :
      is_null v = true → copy_content (CopyConverted traits v) None [backslash; "N"%char].

Lemma field_text_of_spec T (traits : StringTraits T) (laws : StringTraitsLaws T) (v : T) :
  is_null v = false → room v ≤ size_buf v →
  field_text_of traits v = Some (Ok (string_of_list_ascii (text v))).
Proof.
  intros Hnull Hroom. unfold field_text_of, estimate_buffer, generic_to_buf. rewrite Hnull.
  destruct (into_buf_writes v [] (replicate (size_buf v) NUL)) as (m & Hw & Hl & Hp);
    [done|apply prefix_nil|by rewrite length_replicate|].
  cbn [app length] in *. unfold in_buffer, mbind, buf_bind. rewrite Hw.
  cbn. rewrite length_app, Nat.add_1_r, Nat.sub_0_r. cbn [Nat.sub]. rewrite Nat.sub_0_r. rewrite drop_0.
  destruct Hp as [k ->]. rewrite <-app_assoc. by rewrite take_app_length.
Qed.

Lemma append_arithmetic_spec T (traits : StringTraits T) (laws : StringTraitsLaws T) (v : T) m_buffer :
  is_null v = false → room v ≤ size_buf v →
  append_arithmetic traits v m_buffer = Some (Ok (snoc (m_buffer +:+ string_of_list_ascii (text v)) TAB)).
Proof.
  intros Hnull Hroom. unfold append_arithmetic, estimate_buffer. rewrite Hnull. cbv zeta.
  set (x := list_ascii_of_string m_buffer).
  destruct (into_buf_writes v x (x ++ replicate (size_buf v) NUL)) as (m & Hw & Hl & Hp);
    [done|by apply prefix_app_r|rewrite length_app, length_replicate; lia|].
  unfold in_buffer, mbind, buf_bind. unfold x in Hw at 1. rewrite length_list_ascii in Hw. rewrite Hw.
  destruct Hp as [k ->]. unfold put. rewrite !length_app in *. cbn [length] in *.
  rewrite (proj2 (Nat.ltb_lt _ _)) by lia. cbn.
  replace (S (length x + (length (text v) + 1) - 1)) with (length (x ++ text v ++ [TAB]))
    by (rewrite !length_app; cbn; lia).
  replace (<[length x + (length (text v) + 1) - 1:=TAB]> ((x ++ text v ++ [NUL]) ++ k))
    with ((x ++ text v ++ [TAB]) ++ k).
  - rewrite take_app_length. do 2 f_equal. rewrite !string_of_app. unfold x.
    rewrite string_of_list_ascii_of_string. cbn. unfold snoc. by rewrite sapp_assoc.
  - rewrite insert_app_l by (rewrite !length_app; cbn; lia). f_equal.
    replace (length x + (length (text v) + 1) - 1) with (length (x ++ text v) + 0) by (rewrite length_app; lia).
    by rewrite !app_assoc, insert_app_r.
Qed.

Lemma append_to_buffer_spec f c t m_buffer :
  copy_content f c t →
  append_to_buffer enc f m_buffer = Some (Ok (snoc (m_buffer +:+ string_of_list_ascii t) TAB)).
Proof using Henc.
  destruct 1; cbn [append_to_buffer]; rewrite ?H; try done.
  - by apply escape_field_spec.
  - by apply append_arithmetic_spec.
  - rewrite (field_text_of_spec _ _ laws) by done. cbn [mbind reader_bind].
    apply escape_field_spec. by rewrite list_ascii_of_string_of_list_ascii.
  - unfold snoc. by rewrite <-sapp_assoc.
  - unfold snoc. by rewrite <-sapp_assoc.
Qed.

(** The fields of a row, with a tab behind each. *)
Definition tabbed (ts : list (list ascii)) : list ascii := concat (map (λ t, t ++ [TAB]) ts).

Lemma fill_buffer_spec fields cs ts m_buffer :
  Forall3 copy_content fields cs ts →
  fill_buffer enc fields m_buffer = Some (Ok (m_buffer +:+ string_of_list_ascii (tabbed ts))).
Proof using Henc.
  intros Hf. revert m_buffer. induction Hf as [|f c t fields cs ts Hc _ IH]; intros m_buffer; cbn [fill_buffer].
  - by rewrite sapp_nil_r.
  - rewrite (append_to_buffer_spec _ _ _ _ Hc). cbn [mbind reader_bind]. rewrite IH. do 2 f_equal.
    unfold tabbed. cbn [map concat]. rewrite !string_of_app. unfold snoc. cbn. by rewrite !sapp_assoc.
Qed.

(** The line: tabs only between the fields. *)
Fixpoint line_text (ts : list (list ascii)) : list ascii :=
  match ts with
  | [] => []
  | [t] => t
  | t :: ts' => t ++ TAB :: line_text ts'
  end.

Lemma tabbed_line ts : ts ≠ [] → tabbed ts = line_text ts ++ [TAB].
Proof.
  induction ts as [|t [|t' ts] IH]; [done|by cbn; rewrite app_nil_r|]. intros _.
  change (tabbed (t :: t' :: ts)) with ((t ++ [TAB]) ++ tabbed (t' :: ts)).
  rewrite IH by done. cbn [line_text]. by rewrite <-!app_assoc.
Qed.

Lemma row_line_spec fields cs ts :
  Forall3 copy_content fields cs ts →
  row_line enc fields = Some (Ok (string_of_list_ascii (line_text ts))).
Proof using Henc.
  intros Hf. unfold row_line. rewrite (fill_buffer_spec _ _ _ _ Hf), sapp_nil_l. cbn [mbind reader_bind].
  unfold line_of_buffer. destruct (decide (ts = [])) as [->|Hne]; [done|].
  rewrite tabbed_line by done. set (l := line_text ts).
  destruct (is_empty _) eqn:He.
  { apply is_empty_true, (f_equal String.length) in He. rewrite string_of_app, slength_app in He. cbn in He. lia. }
  rewrite string_of_app, slength_app. cbn [string_of_list_ascii String.length]. rewrite Nat.add_sub.
  unfold mret, reader_ret. do 2 f_equal.
  pose proof (occurs_substring (string_of_list_ascii l +:+ String TAB EmptyString) 0 l) as Hs.
  rewrite <-length_list_ascii, list_ascii_of_string_of_list_ascii. apply Hs.
  unfold occurs. rewrite drop_0, list_ascii_app, list_ascii_of_string_of_list_ascii. by rewrite take_app_length.
Qed.
End to_line.

(** ** Reading *)

Lemma unescape_escape c :
  PqxxCopy.escape 1 c ≠ NUL →
  PqxxCopy.escape 1 c ≠ "N"%char ∧ unescape (PqxxCopy.escape 1 c) = c ∧ (byte_of (PqxxCopy.escape 1 c) < 0x80)%Z.
Proof.
  refine (bool_decide_eq_true_1 _ _). revert c. apply forall_chars. vm_compute. reflexivity.
Qed.

Lemma escape_none c : PqxxCopy.escape 1 c = NUL → c ≠ TAB ∧ c ≠ backslash ∧ c ≠ "010"%char.
Proof.
  refine (bool_decide_eq_true_1 _ _). revert c. apply forall_chars. vm_compute. reflexivity.
Qed.

Section from_line.
Context {bh : Behind} (enc : encoding_group) (line : string).
Hypothesis Henc : enc ≠ MULE_INTERNAL.
Let size : nat := String.length line.

Lemma put_char_at c p x b fs m :
  x `prefix_of` m → length x < length m →
  put_char c (mk_line p (length x) b fs m) =
  Some (Ok (mk_line p (length (x ++ [c])) b fs (<[length x := c]> m))).
Proof.
  intros Hp Hlt. unfold put_char, put. cbn [l_write l_row l_read l_begin l_fields].
  rewrite (proj2 (Nat.ltb_lt _ _)) by done. by rewrite length_app, Nat.add_1_r.
Qed.

(** Characters are copied. *)
Lemma copy_glyph_at g : ∀ p x b fs m,
  occurs line p g → x `prefix_of` m → length x + length g ≤ length m →
  ∃ m', copy_glyph line (length g) (mk_line p (length x) b fs m) =
          Some (Ok (mk_line (p + length g) (length (x ++ g)) b fs m')) ∧
        length m' = length m ∧ x ++ g `prefix_of` m'.
Proof.
  induction g as [|c g IH]; intros p x b fs m Hocc Hp Hlen; cbn [length] in *.
  - exists m. rewrite Nat.add_0_r, app_nil_r. done.
  - cbn [copy_glyph l_read]. apply occurs_cons in Hocc as [Hc Hg].
    pose proof (occurs_lookup _ _ _ 0 c Hc eq_refl) as Hget. rewrite Nat.add_0_r in Hget.
    rewrite get_lookup, Hget. unfold set_read. cbn [l_read l_write l_begin l_fields l_row].
    rewrite put_char_at by (done || lia). cbn [mbind reader_bind].
    destruct (IH (p + 1) (x ++ [c]) b fs (<[length x:=c]> m)) as (m' & Hrun & Hl & Hp').
    + done.
    + apply prefix_insert; [done|lia].
    + rewrite length_app, length_insert. cbn. lia.
    + exists m'. rewrite length_insert in Hl. rewrite <-!app_assoc in *.
      replace (p + S (length g)) with (p + 1 + length g) by lia. done.
Qed.

(** The state after [k] bytes of the line were read. *)
Definition at_line (p : nat) (x : list ascii) (b : option nat) (fs : list (option (nat * nat)))
    (s : line_state) : Prop :=
  ∃ m, s = mk_line p (length x) b fs m ∧ x `prefix_of` m ∧ length m = size + 1 ∧ length x ≤ p ≤ size.

(** From [s] the loop comes to [s']. *)
Definition leads_to (s s' : line_state) : Prop :=
  ∀ fuel, size - l_read s < fuel →
    ∃ fuel', size - l_read s' < fuel' ∧ parse_loop enc line fuel s = parse_loop enc line fuel' s'.

Lemma leads_to_trans s s' s'' : leads_to s s' → leads_to s' s'' → leads_to s s''.
Proof.
  intros H1 H2 fuel Hf. destruct (H1 fuel Hf) as (f1 & Hf1 & ->). by apply H2.
Qed.

Lemma leads_to_refl s : leads_to s s.
Proof. intros fuel Hf. by exists fuel. Qed.

(** One round of the loop. *)
Lemma leads_to_step s s' c n :
  String.get (l_read s) line = Some c →
  glyph_scanner (bytes_in line) size (l_read s) enc = Ok (Some n) →
  l_read s < l_read s' ≤ size →
  (if n =? l_read s + 1 then
     let s := set_read (l_read s + 1) s in
     if Ascii.eqb c TAB then s ← end_field s; mret (set_begin (Some (l_write s)) s)
     else if Ascii.eqb c backslash then escape_sequence line s
     else put_char c s
   else copy_glyph line (n - l_read s) s) = Some (Ok s') →
  leads_to s s'.
Proof.
  intros Hget Hscan Hread Hbody fuel Hf. destruct fuel as [|fuel]; [lia|]. exists fuel. split; [lia|].
  cbn [parse_loop]. rewrite Hget. cbn [scan_to]. fold size. rewrite Hscan.
  match goal with |- (_ ≫= ?k) = _ => change (k n = parse_loop enc line fuel s') end.
  cbv beta zeta in *. by rewrite Hbody.
Qed.

(** A glyph of a text and what was written for it. *)
Lemma glyph_leads g p x b fs s :
  glyph enc g → occurs line p (escape_glyph g) → at_line p x (Some b) fs s →
  ∃ s', leads_to s s' ∧ at_line (p + length (escape_glyph g)) (x ++ g) (Some b) fs s'.
Proof using Henc.
  intros Hg Hocc (m & -> & Hp & Hm & Hxp). pose proof Hg as [Hne _].
  assert (Hne' : escape_glyph g ≠ []) by (destruct g as [|c [|d g]]; [done| |done]; cbn; by case_match).
  pose proof (occurs_length _ _ _ Hocc Hne') as Hend. fold size in Hend.
  destruct g as [|c [|d g]]; [done| |].
  - cbn [escape_glyph] in *. destruct (Ascii.eqb_spec (PqxxCopy.escape 1 c) NUL) as [Ee|Ee].
    + destruct (escape_none c Ee) as (Htab & Hbs & _). cbn [length] in *.
      pose proof (occurs_lookup _ _ _ 0 c Hocc eq_refl) as Hget. rewrite Nat.add_0_r in Hget.
      eexists. split.
      * eapply leads_to_step with (n := p + 1); cbn [l_read]; [by rewrite get_lookup| | |].
        -- by apply (glyph_scan_any enc line p [c] size).
        -- instantiate (1 := mk_line (p + 1) _ _ _ _). cbn [l_read]. lia.
        -- rewrite Nat.eqb_refl. cbv zeta. rewrite (proj2 (Ascii.eqb_neq c TAB)) by done.
           rewrite (proj2 (Ascii.eqb_neq c backslash)) by done.
           apply (put_char_at c (p + 1) x (Some b) fs m Hp). lia.
      * exists (<[length x:=c]> m). split; [done|]. split; [apply prefix_insert; [done|lia]|].
        rewrite length_insert, length_app. cbn. lia.
    + destruct (unescape_escape c Ee) as (HN & Hun & _). cbn [length] in *.
      apply occurs_cons in Hocc as [Hb Hc].
      pose proof (occurs_lookup _ _ _ 0 _ Hb eq_refl) as Hget. rewrite Nat.add_0_r in Hget.
      pose proof (occurs_lookup _ _ _ 0 _ Hc eq_refl) as Hgetc. rewrite Nat.add_0_r in Hgetc.
      eexists. split.
      * eapply leads_to_step with (n := p + 1); cbn [l_read]; [by rewrite get_lookup| | |].
        -- by apply (occurs_ascii enc line p backslash).
        -- instantiate (1 := mk_line (p + 2) _ _ _ _). cbn [l_read]. lia.
        -- rewrite Nat.eqb_refl. cbv zeta. cbn [Ascii.eqb Bool.eqb TAB backslash].
           unfold escape_sequence, set_read. cbn [l_read l_write l_begin l_fields l_row].
           rewrite get_lookup, Hgetc. rewrite (proj2 (Ascii.eqb_neq _ "N"%char)) by done. rewrite Hun.
           replace (p + 1 + 1) with (p + 2) by lia.
           apply (put_char_at c (p + 2) x (Some b) fs m Hp). lia.
      * exists (<[length x:=c]> m). split; [done|]. split; [apply prefix_insert; [done|lia]|].
        rewrite length_insert, length_app. cbn. lia.
  - change (escape_glyph (c :: d :: g)) with (c :: d :: g) in *. set (gl := c :: d :: g) in *.
    pose proof (occurs_lookup _ _ _ 0 c Hocc eq_refl) as Hget. rewrite Nat.add_0_r in Hget.
    destruct (copy_glyph_at gl p x (Some b) fs m Hocc Hp ltac:(lia)) as (m' & Hrun & Hm' & Hp').
    eexists. split.
    + eapply leads_to_step with (n := p + length gl); cbn [l_read]; [by rewrite get_lookup| | |].
      * by apply (glyph_scan_any enc line p gl size).
      * instantiate (1 := mk_line (p + length gl) _ _ _ _). cbn [l_read]. unfold gl. cbn [length]. cbn in Hend. lia.
      * rewrite (proj2 (Nat.eqb_neq _ _)) by (unfold gl; cbn [length]; lia).
        replace (p + length gl - p) with (length gl) by lia. exact Hrun.
    + exists m'. split; [done|]. split; [done|]. rewrite length_app. lia.
Qed.

Lemma text_leads l t : copy_text enc l t → ∀ p x b fs s,
  occurs line p t → at_line p x (Some b) fs s →
  ∃ s', leads_to s s' ∧ at_line (p + length t) (x ++ l) (Some b) fs s'.
Proof using Henc.
  induction 1 as [|g l t Hg _ IH]; intros p x b fs s Hocc Hs.
  - exists s. rewrite Nat.add_0_r, app_nil_r. by split; [apply leads_to_refl|].
  - apply occurs_app in Hocc as [Hg' Ht]. destruct (glyph_leads g p x b fs s Hg Hg' Hs) as (s1 & H1 & Hs1).
    destruct (IH _ _ _ _ _ Ht Hs1) as (s2 & H2 & Hs2). exists s2.
    rewrite length_app, <-app_assoc in *. rewrite Nat.add_assoc. by split; [eapply leads_to_trans|].
Qed.

(** The view of a field shows its content in what was written so far. *)
Definition shows (x : list ascii) (view : option (nat * nat)) (c : option (list ascii)) : Prop :=
  match view, c with
  | None, None => True
  | Some (b, len), Some l => len = length l ∧ ∃ y z, x = y ++ l ++ z ∧ length y = b
  | _, _ => False
  end.

Lemma shows_app x z view c : shows x view c → shows (x ++ z) view c.
Proof.
  destruct view as [[b len]|], c as [l|]; cbn; try done. intros (-> & y & z' & -> & Hy).
  split; [done|]. exists y, (z' ++ z). by rewrite <-!app_assoc.
Qed.

Lemma shows_view x view c m : shows x view c → x `prefix_of` m → view_text m view = c.
Proof.
  destruct view as [[b len]|], c as [l|]; cbn; try done. intros (-> & y & z & -> & <-) [k ->].
  f_equal. rewrite <-!app_assoc, drop_app_length. by rewrite take_app_length.
Qed.

Lemma shows_views x fs cs m : Forall2 (shows x) fs cs → x `prefix_of` m → map (view_text m) fs = cs.
Proof.
  intros Hs Hp. induction Hs as [|v c fs cs Hv _ IH]; [done|]. cbn. by rewrite (shows_view _ _ _ _ Hv Hp), IH.
Qed.

(** The content of a field and its text in a line. *)
Definition field_reads (c : option (list ascii)) (t : list ascii) : Prop :=
  match c with Some l => copy_text enc l t | None => t = [backslash; "N"%char] end.

(** The state at the end of a field that began behind [y]. *)
Definition at_end (p : nat) (y : list ascii) (c : option (list ascii)) (fs : list (option (nat * nat)))
    (s : line_state) : Prop :=
  match c with
  | Some l => at_line p (y ++ l) (Some (length y)) fs s
  | None => at_line p y None fs s
  end.

Lemma field_leads c t p y fs s :
  field_reads c t → occurs line p t → at_line p y (Some (length y)) fs s →
  ∃ s', leads_to s s' ∧ at_end (p + length t) y c fs s'.
Proof using Henc.
  destruct c as [l|]; cbn [field_reads at_end]; [intros Ht Hocc Hs; by eapply text_leads|].
  intros -> Hocc (m & -> & Hp & Hm & Hyp). exists (mk_line (p + 2) (length y) None fs m).
  pose proof (occurs_length _ _ _ Hocc ltac:(done)) as Hend. fold size in Hend. cbn [length] in Hend.
  apply occurs_cons in Hocc as [Hb Hc].
  pose proof (occurs_lookup _ _ _ 0 _ Hb eq_refl) as Hget. rewrite Nat.add_0_r in Hget.
  pose proof (occurs_lookup _ _ _ 0 _ Hc eq_refl) as Hgetc. rewrite Nat.add_0_r in Hgetc.
  split; [|exists m; cbn [length]; split; [done|]; split; [done|]; split; [done|lia]].
  eapply leads_to_step with (n := p + 1); cbn [l_read]; [by rewrite get_lookup| |lia|].
  - by apply (occurs_ascii enc line p backslash).
  - rewrite Nat.eqb_refl. cbv zeta. cbn [Ascii.eqb Bool.eqb TAB backslash].
    unfold escape_sequence, set_read. cbn [l_read l_write l_begin l_fields l_row].
    rewrite get_lookup, Hgetc. cbn [Ascii.eqb Bool.eqb].
    rewrite bool_decide_eq_true_2 by done. unfold set_begin. cbn [l_read l_write l_begin l_fields l_row].
    by replace (p + 1 + 1) with (p + 2) by lia.
Qed.

(** The end of the field: its view shows it. *)
Lemma end_field_at p y c fs m q :
  at_end p y c fs m →
  ∃ x view s', end_field (set_read q m) = Some (Ok s') ∧ shows x view c ∧ y `prefix_of` x ∧
    l_read s' = q ∧ l_write s' = length x ∧ l_fields s' = fs ++ [view] ∧ x `prefix_of` l_row s' ∧
    length (l_row s') = size + 1 ∧ length x ≤ p + 1.
Proof.
  destruct c as [l|]; intros (m' & -> & Hp & Hm & Hyp); unfold end_field, set_read;
    cbn [l_read l_write l_begin l_fields l_row].
  - replace (length (y ++ l) - length y) with (length l) by (rewrite length_app; lia).
    rewrite put_char_at by (done || lia). exists ((y ++ l) ++ [NUL]), (Some (length y, length l)).
    eexists (mk_line q _ _ _ _). split; [reflexivity|]. cbn [l_read l_write l_fields l_row].
    split; [|split; [|split; [done|]; split; [done|]; split; [done|]]].
    + split; [done|]. exists y, [NUL]. by rewrite <-app_assoc.
    + rewrite <-app_assoc. by apply prefix_app_r.
    + split; [apply prefix_insert; [done|lia]|]. rewrite length_insert, length_app. cbn. lia.
  - exists y, None. eexists (mk_line q _ _ _ _). split; [reflexivity|]. cbn. repeat split; try done. lia.
Qed.

(** At a tab the next field begins. *)
Lemma tab_leads p y c fs s :
  occurs line p [TAB] → l_read s = p → at_end p y c fs s →
  ∃ x view s', leads_to s s' ∧ at_line (p + 1) x (Some (length x)) (fs ++ [view]) s' ∧
    shows x view c ∧ y `prefix_of` x.
Proof using Henc.
  intros Hocc Hread Hend. pose proof (occurs_length _ _ _ Hocc ltac:(done)) as Hlt. fold size in Hlt. cbn in Hlt.
  pose proof (occurs_lookup _ _ _ 0 _ Hocc eq_refl) as Hget. rewrite Nat.add_0_r in Hget.
  destruct (end_field_at p y c fs s (p + 1) Hend)
    as (x & view & s' & Hef & Hshows & Hyx & Hr & Hw & Hf & Hpre & Hlen & Hx).
  exists x, view, (set_begin (Some (l_write s')) s'). split; [|split; [|done]].
  - eapply leads_to_step with (n := p + 1); rewrite ?Hread; [by rewrite get_lookup| | |].
    + by apply (occurs_ascii enc line p TAB).
    + unfold set_begin. cbn [l_read]. rewrite Hr. lia.
    + rewrite Nat.eqb_refl. cbv zeta. rewrite Ascii.eqb_refl, Hef. done.
  - exists (l_row s'). unfold set_begin. rewrite Hr, Hw, Hf. split; [done|]. split; [done|]. split; [done|]. lia.
Qed.

Lemma at_end_read p y c fs s : at_end p y c fs s → l_read s = p.
Proof. destruct c; intros (m & -> & _); done. Qed.

Lemma row_leads cs ts : Forall2 field_reads cs ts → ts ≠ [] → ∀ p x fs s cs0,
  occurs line p (line_text ts) → p + length (line_text ts) = size →
  at_line p x (Some (length x)) fs s → Forall2 (shows x) fs cs0 →
  ∃ s1 s2, leads_to s s1 ∧ l_read s1 = size ∧ end_field s1 = Some (Ok s2) ∧
    map (view_text (l_row s2)) (l_fields s2) = cs0 ++ cs.
Proof using Henc.
  induction 1 as [|c t cs ts Hc Hrest IH]; [done|]. intros _ p x fs s cs0 Hocc Hsize Hs Hshow.
  destruct ts as [|t' ts]; cbn [line_text] in *.
  - inversion Hrest; subst. destruct (field_leads c t p x fs s Hc Hocc Hs) as (s1 & Hlead & Hend).
    rewrite Hsize in Hend.
    destruct (end_field_at _ _ _ _ _ size Hend) as (x' & view & s2 & Hef & Hv & Hpre & _ & _ & Hf & Hrow & _ & _).
    exists s1, s2. pose proof (at_end_read _ _ _ _ _ Hend) as Hread. split; [done|]. split; [done|].
    rewrite <-Hread in Hef. replace (set_read (l_read s1) s1) with s1 in Hef by (by destruct s1).
    split; [done|]. rewrite Hf, map_app. f_equal.
    + eapply shows_views; [exact Hshow|]. by etrans.
    + cbn. by rewrite (shows_view _ _ _ _ Hv Hrow).
  - rewrite length_app in Hsize. cbn [length] in Hsize.
    apply occurs_app in Hocc as [Ht Htail]. apply occurs_cons in Htail as [Htab Htail].
    destruct (field_leads c t p x fs s Hc Ht Hs) as (s1 & Hlead1 & Hend).
    destruct (tab_leads _ _ _ _ _ Htab (at_end_read _ _ _ _ _ Hend) Hend)
      as (x' & view & s2 & Hlead2 & Hs2 & Hv & [z ->]).
    destruct (IH ltac:(done) (p + length t + 1) (x ++ z) (fs ++ [view]) s2 (cs0 ++ [c]))
      as (s3 & s4 & Hlead3 & Hrest'); [done|lia|done| |].
    + apply Forall2_app; [|by constructor]. eapply Forall2_impl; [|exact Hshow]. intros v c' Hvc.
      by apply shows_app.
    + exists s3, s4. split; [|by rewrite <-app_assoc in Hrest'].
      eapply leads_to_trans; [exact Hlead1|]. by eapply leads_to_trans.
Qed.

Lemma read_fields_spec cs ts :
  Forall2 field_reads cs ts → ts ≠ [] → line = string_of_list_ascii (line_text ts) →
  (Z.of_nat size < 2 ^ 63 - 1)%Z → read_fields enc line = Some (Ok cs).
Proof using Henc.
  intros Hf Hne Hline Hsmall. unfold read_fields, parse_line. fold size.
  rewrite (proj2 (Z.leb_gt _ _)) by done.
  destruct (row_leads cs ts Hf Hne 0 [] [] (mk_line 0 0 (Some 0) [] (replicate (size + 1) NUL)) [])
    as (s1 & s2 & Hlead & Hread & Hef & Hmap).
  - rewrite Hline. unfold occurs. by rewrite drop_0, list_ascii_of_string_of_list_ascii, firstn_all.
  - unfold size. by rewrite Hline, <-length_list_ascii, list_ascii_of_string_of_list_ascii.
  - eexists. split; [reflexivity|]. split; [apply prefix_nil|]. rewrite length_replicate. cbn. lia.
  - constructor.
  - destruct (Hlead (S size)) as (fuel & Hfuel & Hrun); [cbn; lia|].
    rewrite Hrun. destruct fuel as [|fuel]; [lia|]. cbn [parse_loop].
    rewrite Hread, get_lookup, lookup_ge_None_2 by (rewrite length_list_ascii; done).
    unfold mbind, reader_bind, mret, reader_ret. rewrite Hef. cbn in *. by rewrite Hmap.
Qed.
End from_line.

(** ** Any line at all *)

Section any_line.
Context {bh : Behind} (enc : encoding_group) (line : string).
Let size : nat := String.length line.

(** A view lies in the buffer, with a terminating zero's room behind it. *)
Definition view_inside (view : option (nat * nat)) : Prop :=
  match view with Some (b, len) => b + len ≤ size | None => True end.

(** Nothing was written beyond what was read. *)
Record line_inv (s : line_state) : Prop := {
  inv_read : l_read s ≤ size;
  inv_write : l_write s ≤ l_read s;
  inv_begin : match l_begin s with Some b => b ≤ l_write s | None => True end;
  inv_row : length (l_row s) = size + 1;
  inv_views : Forall view_inside (l_fields s);
}.

(** A step that may throw, and otherwise keeps the invariant and reads up to [p]. *)
Definition keeps (p : nat) (r : reader line_state) : Prop :=
  match r with Some (Ok s) => line_inv s ∧ l_read s = p | Some (Throw _) => True | None => False end.

Lemma put_char_keeps c s :
  line_inv s → l_write s < l_read s → keeps (l_read s) (put_char c s).
Proof.
  intros [Hr Hw Hb Hm Hv] Hlt. unfold put_char, put. rewrite (proj2 (Nat.ltb_lt _ _)) by lia.
  cbn. split; [|done]. split; cbn; [done|lia| |by rewrite length_insert|done].
  destruct (l_begin s); [lia|done].
Qed.

Lemma set_read_keeps s p : line_inv s → l_read s ≤ p ≤ size → line_inv (set_read p s).
Proof. intros [Hr Hw Hb Hm Hv] Hp. split; cbn; [lia|lia|done|done|done]. Qed.

Lemma copy_glyph_keeps n : ∀ s, line_inv s → l_read s + n ≤ size → keeps (l_read s + n) (copy_glyph line n s).
Proof.
  induction n as [|n IH]; intros s Hs Hn; cbn [copy_glyph]; [by rewrite Nat.add_0_r|].
  destruct (lookup_lt_is_Some_2 (list_ascii_of_string line) (l_read s)) as [c Hc].
  { rewrite length_list_ascii. fold size. lia. }
  rewrite get_lookup, Hc.
  pose proof (put_char_keeps c (set_read (l_read s + 1) s)) as Hput. cbn [l_read l_write set_read] in Hput.
  specialize (Hput ltac:(apply set_read_keeps; [done|lia]) ltac:(pose proof (inv_write s Hs); lia)).
  destruct (put_char c (set_read (l_read s + 1) s)) as [[s'|e]|]; [|done|done]. destruct Hput as [Hs' Hr].
  cbn [mbind reader_bind]. replace (l_read s + S n) with (l_read s' + n) by lia. apply IH; [done|lia].
Qed.

Lemma end_field_keeps s : line_inv s → l_write s < size + 1 →
  ∃ s', end_field s = Some (Ok s') ∧ l_read s' = l_read s ∧ l_write s' ≤ l_write s + 1 ∧
    length (l_row s') = size + 1 ∧ Forall view_inside (l_fields s').
Proof.
  intros [Hr Hw Hb Hm Hv] Hlt. unfold end_field. destruct (l_begin s) as [b|].
  - unfold put_char, put. cbn [l_write l_row]. rewrite (proj2 (Nat.ltb_lt _ _)) by lia.
    eexists. split; [reflexivity|]. cbn. split; [done|]. split; [lia|]. split; [by rewrite length_insert|].
    apply Forall_app. split; [done|]. apply List.Forall_cons; [cbn; lia|apply List.Forall_nil].
  - eexists. split; [reflexivity|]. cbn. split; [done|]. split; [lia|]. split; [done|].
    apply Forall_app. split; [done|]. apply List.Forall_cons; [done|apply List.Forall_nil].
Qed.

Lemma escape_sequence_keeps s :
  line_inv s → l_write s < l_read s →
  match escape_sequence line s with
  | Some (Ok s') => line_inv s' ∧ l_read s < l_read s'
  | Some (Throw _) => True
  | None => False
  end.
Proof.
  intros Hs Hlt. unfold escape_sequence. rewrite get_lookup.
  destruct (list_ascii_of_string line !! l_read s) as [c|] eqn:Hc; [|done].
  apply lookup_lt_Some in Hc. rewrite length_list_ascii in Hc. fold size in Hc.
  assert (Hs' : line_inv (set_read (l_read s + 1) s)) by (apply set_read_keeps; [done|lia]).
  destruct (Ascii.eqb c "N").
  - case_bool_decide; [|done]. cbn. split; [|lia]. destruct Hs'. by split.
  - pose proof (put_char_keeps (unescape c) _ Hs') as Hput. cbn [l_read l_write set_read] in Hput.
    specialize (Hput ltac:(lia)). destruct (put_char _ _) as [[s'|e]|]; [|done|done].
    destruct Hput as [Hi Hr]. split; [done|lia].
Qed.

Lemma parse_loop_keeps fuel : ∀ s, line_inv s → size - l_read s < fuel →
  keeps size (parse_loop enc line fuel s).
Proof.
  induction fuel as [|fuel IH]; intros s Hs Hf; [lia|]. cbn [parse_loop]. rewrite get_lookup.
  destruct (list_ascii_of_string line !! l_read s) as [c|] eqn:Hc.
  - apply lookup_lt_Some in Hc. rewrite length_list_ascii in Hc. fold size in Hc.
    pose proof (scan_advances enc (bytes_in line) size (l_read s)) as Hadv.
    cbn [scan_to]. fold size. destruct (glyph_scanner _ _ _ _) as [[n|]|e]; cbn in Hadv; [| |done].
    2: lia.
    match goal with |- keeps _ (_ ≫= ?k) => change (keeps size (k n)) end. cbv beta zeta.
    pose proof (inv_write s Hs) as Hw.
    assert (Hstep : match (if n =? l_read s + 1
        then if Ascii.eqb c TAB then s0 ← end_field (set_read (l_read s + 1) s); mret (set_begin (Some (l_write s0)) s0)
             else if Ascii.eqb c backslash then escape_sequence line (set_read (l_read s + 1) s)
             else put_char c (set_read (l_read s + 1) s)
        else copy_glyph line (n - l_read s) s) with
      | Some (Ok s') => line_inv s' ∧ l_read s < l_read s' | Some (Throw _) => True | None => False end).
    { assert (Hs' : line_inv (set_read (l_read s + 1) s)) by (apply set_read_keeps; [done|lia]).
      destruct (n =? l_read s + 1).
      - destruct (Ascii.eqb c TAB); [|destruct (Ascii.eqb c backslash)].
        + destruct (end_field_keeps _ Hs') as (s' & -> & Hr & Hw' & Hm & Hv); [cbn; lia|].
          cbn [l_read l_write set_read] in *. cbn. split; [|lia]. split; cbn; [lia|lia|lia|done|done].
        + pose proof (escape_sequence_keeps _ Hs') as He. cbn [l_read l_write set_read] in He.
          specialize (He ltac:(lia)). destruct (escape_sequence _ _) as [[s'|e]|]; [|done|done].
          destruct He as [? ?]. split; [done|lia].
        + pose proof (put_char_keeps c _ Hs') as Hput. cbn [l_read l_write set_read] in Hput.
          specialize (Hput ltac:(lia)). destruct (put_char _ _) as [[s'|e]|]; [|done|done].
          destruct Hput as [? ?]. split; [done|lia].
      - pose proof (copy_glyph_keeps (n - l_read s) s Hs ltac:(lia)) as Hcopy.
        destruct (copy_glyph _ _ _) as [[s'|e]|]; [|done|done]. destruct Hcopy. split; [done|lia]. }
    destruct (if n =? l_read s + 1 then _ else _) as [[s'|e]|]; [|done|done].
    destruct Hstep as [Hi Hr]. apply IH; [done|]. lia.
  - apply lookup_ge_None in Hc. rewrite length_list_ascii in Hc. fold size in Hc.
    cbn. split; [done|]. pose proof (inv_read s Hs). lia.
Qed.
End any_line.

Lemma parse_line_total {bh : Behind} enc line :
  (∃ e, parse_line enc line = Some (Throw e)) ∨
  ∃ m_fields m_row, parse_line enc line = Some (Ok (m_fields, m_row)) ∧
    length m_row = String.length line + 1 ∧ Forall (view_inside line) m_fields.
Proof.
  unfold parse_line. destruct (_ <=? _)%Z; [left; by eexists|].
  set (s0 := mk_line 0 0 (Some 0) [] (replicate (String.length line + 1) NUL)).
  assert (H0 : line_inv line s0).
  { split; cbn; [lia|lia|lia|by rewrite length_replicate|constructor]. }
  pose proof (parse_loop_keeps enc line (S (String.length line)) s0 H0 ltac:(cbn; lia)) as Hk.
  destruct (parse_loop enc line (S (String.length line)) s0) as [[s|e]|]; [|left; by eexists|done].
  right. destruct Hk as [Hs Hr]. cbn [mbind reader_bind].
  destruct (end_field_keeps line s Hs) as (s' & -> & _ & _ & Hm & Hv).
  { pose proof (inv_write _ s Hs). lia. }
  cbn. eauto.
Qed.

(** ** The properties *)

Definition NEWLINE : ascii := "010"%char.

Lemma escape_letter_line c : PqxxCopy.escape 1 c ≠ NEWLINE.
Proof. refine (bool_decide_eq_true_1 _ _). revert c. apply forall_chars. vm_compute. reflexivity. Qed.

Lemma copy_text_no_newline enc l t : ascii_safe enc = true → copy_text enc l t → NEWLINE ∉ t.
Proof.
  intros Hsafe. induction 1 as [|g l t Hg _ IH]; [by apply not_elem_of_nil|].
  rewrite elem_of_app. intros [Hin|Hin]; [|done].
  destruct g as [|c [|d g]]; [by apply not_elem_of_nil in Hin| |].
  - cbn [escape_glyph] in Hin. destruct (Ascii.eqb_spec (PqxxCopy.escape 1 c) NUL) as [Ee|Ee].
    + apply list_elem_of_singleton in Hin as <-. by destruct (escape_none _ Ee) as (_ & _ & ?).
    + rewrite !elem_of_cons in Hin. destruct Hin as [Hin|[Hin|Hin]]; [done| |by apply not_elem_of_nil in Hin].
      by apply (escape_letter_line c).
  - apply list_elem_of_lookup_1 in Hin as [i Hi].
    by apply (glyph_of_ascii enc _ i NEWLINE) in Hi.
Qed.

Lemma content_text enc f c t : copy_content enc f c t → field_reads enc c t.
Proof. by destruct 1. Qed.

Lemma content_no_newline enc f c t : ascii_safe enc = true → copy_content enc f c t → NEWLINE ∉ t.
Proof.
  intros Hsafe Hc. apply content_text in Hc. destruct c as [l|]; cbn in Hc.
  - by eapply copy_text_no_newline.
  - subst t. refine (bool_decide_eq_true_1 _ _). by vm_compute.
Qed.

Lemma line_no_newline ts : Forall (λ t, NEWLINE ∉ t) ts → NEWLINE ∉ line_text ts.
Proof.
  induction 1 as [|t [|t' ts] Ht Hts IH]; [by apply not_elem_of_nil|done|].
  change (line_text (t :: t' :: ts)) with (t ++ TAB :: line_text (t' :: ts)).
  rewrite elem_of_app, elem_of_cons. by intros [?|[?|?]].
Qed.

(** A field whose characters are valid in the encoding, and what it holds. *)
Definition copy_value (enc : encoding_group) (f : copy_field) (c : option (list ascii)) : Prop :=
  ∃ t, copy_content enc f c t.

Lemma copy_values enc fields cs :
  Forall2 (copy_value enc) fields cs → ∃ ts, Forall3 (copy_content enc) fields cs ts.
Proof.
  induction 1 as [|f c fields cs [t Ht] _ [ts IH]]; [exists []; constructor|].
  exists (t :: ts). by constructor.
Qed.

Lemma Forall3_texts enc fields cs ts :
  Forall3 (copy_content enc) fields cs ts → Forall2 (field_reads enc) cs ts.
Proof. induction 1; constructor; [by eapply content_text|done]. Qed.

(** C26. A row survives COPY: in every encoding but one the line [stream_to]
    builds for a row of strings, numbers, values with a text of their own and
    nulls is taken apart by [stream_from] into the same fields.  In encodings
    whose multi-byte characters hold no ASCII byte the line contains no line
    break, which would end it early.  In JOHAB, whose scanner does not look at
    the second byte of a character, a line break can pass unescaped. *)
Theorem copy_round_trip :
  (∀ (bh : Behind) enc fields cs,
     enc ≠ MULE_INTERNAL → Forall2 (copy_value enc) fields cs → fields ≠ [] →
     ∃ line, row_line enc fields = Some (Ok line) ∧
       ((Z.of_nat (String.length line) < 2 ^ 63 - 1)%Z → read_fields enc line = Some (Ok cs)) ∧
       (ascii_safe enc = true → NEWLINE ∉ list_ascii_of_string line)) ∧
  (let s := string_of_list_ascii [char_of 0x84; NEWLINE] in row_line (bh:=zeros) JOHAB [CopyString s] = Some (Ok s)).
Proof.
  split; [|vm_compute; reflexivity]. intros bh enc fields cs Henc Hv Hne.
  destruct (copy_values _ _ _ Hv) as [ts Hts].
  exists (string_of_list_ascii (line_text ts)). split; [by eapply row_line_spec|]. split.
  - intros Hsmall. eapply (read_fields_spec enc _ Henc cs ts); [by apply Forall3_texts in Hts| |done|done].
    inversion Hts; subst; done.
  - intros Hsafe. rewrite list_ascii_of_string_of_list_ascii. apply line_no_newline.
    clear Hv Hne. induction Hts as [|f c t fields cs ts Hc _ IH]; constructor; [by eapply content_no_newline|done].
Qed.

(** Plain ASCII is written as it is. *)
Lemma plain_copy_text enc l :
  Forall (λ c, byte_of c < 0x80 ∧ PqxxCopy.escape 1 c = NUL)%Z l → copy_text enc l l.
Proof.
  induction 1 as [|c l [Hc He] _ IH]; [constructor|].
  replace (c :: l) with (escape_glyph [c] ++ l) at 2 by (cbn [escape_glyph]; by rewrite He).
  apply (copy_text_glyph enc [c]); [by apply ascii_glyph|done].
Qed.

Lemma copy_round_trip_witness :
  let fields := [CopyString (String "a" (String TAB (String backslash EmptyString))); CopyArithmetic (integral_traits t_int) (@mk_integral t_int (-20) eq_refl);
                 CopyConverted (@option_traits string string_traits) None]%string in
  ∃ line, row_line (bh:=zeros) UTF8 fields = Some (Ok line) ∧
    read_fields (bh:=zeros) UTF8 line = Some (Ok [Some ["a"%char; TAB; backslash]; Some (list_ascii_of_string "-20"); None]).
Proof.
  intros fields. destruct copy_round_trip as [Hrt _].
  destruct (Hrt zeros UTF8 fields [Some ["a"%char; TAB; backslash]; Some (list_ascii_of_string "-20"); None])
    as (line & Hline & Hread & _); [done| |done|].
  - apply List.Forall2_cons; [|apply List.Forall2_cons; [|apply List.Forall2_cons; [|apply List.Forall2_nil]]].
    + destruct (encoded_copy_text UTF8 ["a"%char; TAB; backslash]) as [t Ht].
      { apply encoded_ascii. repeat (apply List.Forall_cons; [reflexivity|]). apply List.Forall_nil. }
      exists t. by apply (content_string UTF8 (String "a" (String TAB (String backslash EmptyString)))).
    + exists (list_ascii_of_string "-20").
      apply (content_arithmetic UTF8 _ _ (integral_laws t_int (H := ltac:(by do 2 right; left)))); [done|done|].
      apply plain_copy_text. repeat (apply List.Forall_cons; [done|]). apply List.Forall_nil.
    + eexists. by apply content_converted_null.
  - exists line. split; [exact Hline|]. apply Hread. vm_compute in Hline. injection Hline as <-. reflexivity.
Defined.

(** What is behind the line plays no part. *)
Lemma parse_loop_behind (bh bh' : Behind) enc line fuel s :
  same_behind enc bh bh' → parse_loop (bh:=bh) enc line fuel s = parse_loop (bh:=bh') enc line fuel s.
Proof.
  intros Hb. revert s. induction fuel as [|fuel IH]; intros s; [done|]. cbn [parse_loop].
  destruct (String.get (l_read s) line) as [c|]; [|reflexivity].
  assert (E : scan_to (bh:=bh) enc line (String.length line) (Some (l_read s)) =
              scan_to (bh:=bh') enc line (String.length line) (Some (l_read s))).
  { cbn [scan_to]. by rewrite (scan_behind enc bh bh'). }
  apply bind_ext; [by rewrite E|]. intros n _. apply bind_ext; [reflexivity|]. intros; apply IH.
Qed.

