(* ===== verification/PqxxArrayFacts.v ===== *)
(** Reading arrays and composite values: the readers follow the characters of
    the text, end on every input in every encoding, and give back what
    [into_buf] wrote. *)

From stdpp Require Import list sets.
From S2P Require Import Prelude Decimal Exceptions JsonLexer JsonUtf8 PqxxConv PqxxConvFacts.
From S2P Require Import PqxxBuffer PqxxBufferFacts PqxxResult PqxxEncoding PqxxEncodingFacts.
From S2P Require Import PqxxGlyphs PqxxArray.

Local Open Scope nat_scope.

(** Membership of a constant in a list of constants. *)
Ltac solve_member := refine (bool_decide_eq_true_1 _ _); vm_compute; reflexivity.

Section readers.
Context {bh : Behind} (enc : encoding_group) (text : string).
Let input : PqxxEncoding.memory := bytes_in text.
Let size : nat := String.length text.
Let scan (p : nat) := glyph_scanner input size p enc.
Let slice (p n : nat) : list ascii := take (n - p) (drop p (list_ascii_of_string text)).

Lemma slice_substring p n : n ≤ size → substring p (n - p) text = string_of_list_ascii (slice p n).
Proof.
  intros Hn. rewrite <-(occurs_substring text p (slice p n)).
  - f_equal. unfold slice. rewrite length_take, length_drop, length_list_ascii. fold size. lia.
  - unfold occurs, slice. rewrite length_take, length_drop, length_list_ascii. fold size.
    by rewrite Nat.min_l by lia.
Qed.

Lemma scan_inside p n : scan p = Ok (Some n) → p < n ≤ size.
Proof. intros Hs. pose proof (scan_advances enc input size p) as H. fold (scan p) in H. rewrite Hs in H. cbn in H. lia. Qed.

(** A scan in the first [len] bytes, at a character of the text. *)
Lemma scan_to_char len p n :
  scan p = Ok (Some n) → n ≤ len → len ≤ size → scan_to enc text len (Some p) = Some (Ok (Some n)).
Proof. intros Hs Hn Hlen. cbn. f_equal. by apply (scan_shrink enc input size len). Qed.

Lemma scan_bind {A} len p n (k : offset → reader A) :
  scan p = Ok (Some n) → n ≤ len → len ≤ size → (scan_to enc text len (Some p) ≫= k) = k (Some n).
Proof. intros Hs Hn Hlen. unfold mbind, reader_bind. by rewrite (scan_to_char len p n Hs). Qed.

Lemma scan_bind_all {A} p n (k : offset → reader A) :
  scan p = Ok (Some n) → (scan_to enc text size (Some p) ≫= k) = k (Some n).
Proof. intros Hs. apply scan_bind; [done| |done]. apply scan_inside in Hs. lia. Qed.

(** ** Quoted text

    The characters from [a] to [b] between quotes: a backslash escapes any
    character, a quote only itself; [out] is what they mean. *)
Inductive body (escapes : list Z) : nat → nat → list ascii → Prop :=
  | body_nil a : body escapes a a []
  | body_escaped a n b out :
      scan a = Ok (Some (a + 1)) → input a ∈ escapes → scan (a + 1) = Ok (Some n) →
      (input a = c_backslash ∨ n = a + 2 ∧ input (a + 1) = input a) →
      body escapes n b out → body escapes a b (slice (a + 1) n ++ out)
  | body_char a n b out :
      scan a = Ok (Some n) → ¬ (n = a + 1 ∧ input a ∈ escapes) → body escapes n b out →
      body escapes a b (slice a n ++ out).

Lemma body_le escapes a b out : body escapes a b out → a ≤ b.
Proof.
  induction 1 as [a|a n b out H1 _ H2 _ _ IH|a n b out H1 _ _ IH]; [done| |];
    apply scan_inside in H1; [apply scan_inside in H2|]; lia.
Qed.

Lemma body_app escapes a b c out out' :
  body escapes a b out → body escapes b c out' → body escapes a c (out ++ out').
Proof.
  induction 1 as [a|a n b out H1 Hin H2 Hk _ IH|a n b out H1 Hin _ IH]; intros Hc; [done| |];
    rewrite <-app_assoc; [by eapply body_escaped; eauto|by eapply body_char; eauto].
Qed.

Lemma scan_inj p n n' : scan p = Ok (Some n) → scan p = Ok (Some n') → n = n'.
Proof. congruence. Qed.

(** The first character of what a character follows ends inside. *)
Lemma body_next_le escapes a b out n :
  body escapes a b out → scan b = Ok (Some (b + 1)) → scan a = Ok (Some n) → n ≤ b + 1.
Proof.
  intros Hbody Hb Ha. destruct Hbody as [b|a n' b out Hs1 _ Hs2 _ Hrest|a n' b out Hs1 _ Hrest].
  - by rewrite (scan_inj _ _ _ Ha Hb).
  - rewrite (scan_inj _ _ _ Ha Hs1). apply scan_inside in Hs2. apply body_le in Hrest. lia.
  - rewrite (scan_inj _ _ _ Ha Hs1). apply body_le in Hrest. lia.
Qed.

Lemma append_glyph_run out p n :
  p < n → n ≤ size →
  append_glyph text out (Some p) (Some n) = Some (Ok (out +:+ string_of_list_ascii (slice p n))).
Proof.
  intros Hp Hn. unfold append_glyph. rewrite (proj2 (Nat.leb_le p n)) by lia.
  by rewrite slice_substring.
Qed.

Lemma single_next p n : single (Some p) (Some n) = bool_decide (n = p + 1).
Proof. cbn. destruct (bool_decide_reflect (n = p + 1)) as [->|Hne]; [by rewrite Nat.eqb_refl|]. by apply Nat.eqb_neq. Qed.

Lemma string_app_list out l k :
  (out +:+ string_of_list_ascii l) +:+ string_of_list_ascii k = out +:+ string_of_list_ascii (l ++ k).
Proof.
  rewrite <-sapp_assoc. f_equal. induction l as [|c l IH]; [done|]. cbn. by rewrite <-IH.
Qed.

(** The copying loop removes the escapes. *)
Lemma unescape_body escapes end_ a b out :
  body escapes a b out → scan b = Ok (Some end_) → end_ = b + 1 →
  ∀ fuel acc, b < a + fuel → ∃ next, scan a = Ok (Some next) ∧
    unescape_loop enc text escapes end_ fuel (Some a) (Some next) acc =
    Some (Ok (acc +:+ string_of_list_ascii out)).
Proof.
  intros Hbody Hb ->. pose proof (scan_inside _ _ Hb) as Hbs.
  induction Hbody as [b|a n b out H1 Hin H2 _ Hbody IH|a n b out H1 Hin Hbody IH]; intros fuel acc Hfuel.
  - exists (b + 1). split; [done|]. destruct fuel as [|fuel]; [lia|]. cbn [unescape_loop before].
    rewrite (proj2 (Nat.ltb_ge _ _)) by lia. by rewrite sapp_nil_r.
  - pose proof (body_le _ _ _ _ Hbody). apply scan_inside in H1 as Ha. apply scan_inside in H2 as Hn.
    exists (a + 1). split; [done|]. destruct fuel as [|fuel]; [lia|]. cbn [unescape_loop before].
    rewrite (proj2 (Nat.ltb_lt _ _)) by lia. rewrite single_next, bool_decide_true by done.
    cbn [is_at]. fold input. rewrite bool_decide_true by done. cbn [andb].
    destruct (IH Hb Hbs fuel (acc +:+ string_of_list_ascii (slice (a + 1) n)) ltac:(lia)) as (next & Hs & Hr).
    pose proof (scan_inside _ _ Hs) as Hnext.
    pose proof (body_next_le _ _ _ _ _ Hbody Hb Hs) as Hle.
    rewrite (scan_bind _ _ _ _ H2) by lia. unfold mbind, reader_bind. cbn [mret reader_ret].
    rewrite append_glyph_run, (scan_to_char _ _ _ Hs) by lia. by rewrite Hr, string_app_list.
  - pose proof (body_le _ _ _ _ Hbody). apply scan_inside in H1 as Ha.
    exists n. split; [done|]. destruct fuel as [|fuel]; [lia|]. cbn [unescape_loop before].
    rewrite (proj2 (Nat.ltb_lt _ _)) by lia. rewrite single_next.
    replace (bool_decide (n = a + 1) && is_at text (Some a) escapes) with false.
    2: { cbn [is_at]. fold input. by do 2 case_bool_decide; naive_solver. }
    destruct (IH Hb Hbs fuel (acc +:+ string_of_list_ascii (slice a n)) ltac:(lia)) as (next & Hs & Hr).
    pose proof (scan_inside _ _ Hs) as Hnext.
    pose proof (body_next_le _ _ _ _ _ Hbody Hb Hs) as Hle.
    unfold mbind, reader_bind. cbn [mret reader_ret].
    rewrite append_glyph_run, (scan_to_char _ _ _ Hs) by lia. by rewrite Hr, string_app_list.
Qed.

(** The end of the text is no character. *)
Lemma scan_at_end : scan_to enc text size (Some size) = Some (Ok None).
Proof.
  cbn. f_equal. pose proof (scan_advances enc input size size) as H. fold input.
  destruct (glyph_scanner input size size enc) as [[n|]|e]; cbn in H; [lia|done|lia].
Qed.

(** What follows a quoted text: nothing, or a character other than the quote. *)
Definition closed (q : Z) (e : nat) : Prop :=
  e = size ∨ ∃ n, scan e = Ok (Some n) ∧ ¬ (n = e + 1 ∧ input e = q).

Lemma scan_dq_body a b out :
  body [c_backslash; c_quote] a b out →
  scan b = Ok (Some (b + 1)) → input b = c_quote → closed c_quote (b + 1) →
  ∀ fuel, size + 1 < a + fuel → ∃ next, scan a = Ok (Some next) ∧
    scan_dq_loop enc text fuel (Some a) (Some next) false = Some (Ok (Some (b + 1))).
Proof.
  intros Hbody Hb Hq Hclosed. pose proof (scan_inside _ _ Hb) as Hbs.
  induction Hbody as [b|a n b out H1 Hin H2 Hk Hbody IH|a n b out H1 Hin Hbody IH]; intros fuel Hfuel.
  - exists (b + 1). split; [done|]. destruct fuel as [|[|fuel]]; [lia..|].
    cbn [scan_dq_loop before]. fold size. rewrite (proj2 (Nat.ltb_lt _ _)) by lia.
    rewrite single_next, bool_decide_true by done. cbn [is_at]. fold input. rewrite Hq.
    rewrite bool_decide_false, bool_decide_true by set_solver.
    destruct Hclosed as [He|(n & Hn & Hneq)].
    + unfold mbind, reader_bind. rewrite He, scan_at_end. cbn [before]. by rewrite Nat.ltb_irrefl.
    + rewrite (scan_bind_all _ _ _ Hn). cbn [before]. pose proof (scan_inside _ _ Hn) as Hns.
      rewrite (proj2 (Nat.ltb_lt _ _)) by lia. rewrite single_next. cbn [is_at]. fold input.
      replace (bool_decide (n = b + 1 + 1) && bool_decide (input (b + 1) ∈ [c_quote])) with false; [done|].
      do 2 case_bool_decide; set_solver.
  - pose proof (body_le _ _ _ _ Hbody). apply scan_inside in H1 as Ha. apply scan_inside in H2 as Hn.
    exists (a + 1). split; [done|]. destruct fuel as [|[|fuel]]; [lia..|].
    cbn [scan_dq_loop before]. fold size. rewrite (proj2 (Nat.ltb_lt _ _)) by lia.
    rewrite single_next, bool_decide_true by done. cbn [is_at]. fold input.
    case_bool_decide as Hbs'.
    + destruct (IH Hb Hq Hclosed Hbs (S fuel) ltac:(lia)) as (next & Hs & Hr).
      rewrite (scan_bind_all _ _ _ H2), (scan_bind_all _ _ _ Hs). exact Hr.
    + destruct Hk as [Hk|[-> Hk]]; [set_solver|].
      destruct (IH Hb Hq Hclosed Hbs fuel ltac:(lia)) as (next & Hs & Hr).
      assert (input a = c_quote) as Haq by set_solver. rewrite Haq in Hk |- *.
      rewrite bool_decide_true by set_solver. rewrite (scan_bind_all _ _ _ H2). cbn [before].
      rewrite (proj2 (Nat.ltb_lt _ _)) by lia. rewrite single_next, bool_decide_true by lia.
      cbn [is_at]. fold input. rewrite Hk, bool_decide_true by set_solver. cbn [andb].
      rewrite (scan_bind_all _ _ _ Hs). exact Hr.
  - pose proof (body_le _ _ _ _ Hbody). apply scan_inside in H1 as Ha.
    exists n. split; [done|]. destruct fuel as [|fuel]; [lia|].
    destruct (IH Hb Hq Hclosed Hbs fuel ltac:(lia)) as (next & Hs & Hr).
    cbn [scan_dq_loop before]. fold size. rewrite (proj2 (Nat.ltb_lt _ _)) by lia.
    rewrite single_next. cbn [is_at]. fold input.
    case_bool_decide as Hone; [|by rewrite (scan_bind_all _ _ _ Hs)].
    rewrite !bool_decide_false by set_solver. by rewrite (scan_bind_all _ _ _ Hs).
Qed.

(** A double-quoted text is found and read. *)
Lemma double_quoted_read p b out :
  scan p = Ok (Some (p + 1)) → body [c_backslash; c_quote] (p + 1) b out →
  scan b = Ok (Some (b + 1)) → input b = c_quote → closed c_quote (b + 1) →
  scan_double_quoted_string enc text p = Some (Ok (Some (b + 1))) ∧
  parse_double_quoted_string enc text (b + 1) p = Some (Ok (string_of_list_ascii out)).
Proof.
  intros Hp Hbody Hb Hq Hclosed. pose proof (scan_inside _ _ Hb) as Hbs.
  pose proof (scan_inside _ _ Hp) as Hps. pose proof (body_le _ _ _ _ Hbody) as Hle.
  destruct (scan_dq_body _ _ _ Hbody Hb Hq Hclosed (S (S size)) ltac:(lia)) as (next & Hs & Hr).
  destruct (unescape_body _ (b + 1) _ _ _ Hbody Hb eq_refl (S (b + 1)) EmptyString ltac:(lia))
    as (next' & Hs' & Hr'). rewrite (scan_inj _ _ _ Hs' Hs) in Hr'.
  pose proof (scan_inside _ _ Hs). pose proof (body_next_le _ _ _ _ _ Hbody Hb Hs).
  unfold scan_double_quoted_string, parse_double_quoted_string. fold size. split.
  - by rewrite (scan_bind_all _ _ _ Hp), (scan_bind_all _ _ _ Hs).
  - by rewrite (scan_bind _ _ _ _ Hp), (scan_bind _ _ _ _ Hs) by lia.
Qed.

(** *** Escaped strings *)

Lemma slice_occurs p l : occurs text p l → slice p (p + length l) = l.
Proof. unfold slice. by replace (p + length l - p) with (length l) by lia. Qed.

Lemma is_special_byte c : is_special c = bool_decide (byte_of c ∈ [c_backslash; c_quote]).
Proof.
  apply Bool.eqb_true_iff. revert c. apply forall_chars. vm_compute. reflexivity.
Qed.

Lemma escape_app l k : escape (l ++ k) = escape l ++ escape k.
Proof. induction l as [|c l IH]; [done|]. cbn. by rewrite IH, app_assoc. Qed.

Lemma special_ascii c : is_special c = true → (byte_of c < 0x80)%Z.
Proof. rewrite is_special_byte. intros Hc%bool_decide_eq_true. set_unfold. destruct_or! Hc; try rewrite Hc; done. Qed.

Lemma escape_ordinary l : Forall (λ c, is_special c = false) l → escape l = l.
Proof. induction 1 as [|c l Hc _ IH]; [done|]. cbn. by rewrite Hc, IH. Qed.

Lemma escape_body l a :
  ascii_safe enc = true → encoded enc l → occurs text a (escape l) →
  body [c_backslash; c_quote] a (a + length (escape l)) l.
Proof.
  intros Henc Hl. revert a. induction Hl as [|g l Hg _ IH]; intros a Ho.
  { cbn. rewrite Nat.add_0_r. constructor. }
  rewrite escape_app in Ho |- *. apply occurs_app in Ho as [Hog Hol]. rewrite length_app, Nat.add_assoc.
  specialize (IH _ Hol). destruct (decide (Forall (λ c, is_special c = false) g)) as [Hplain|Hspecial].
  - rewrite (escape_ordinary g Hplain) in *.
    enough (body [c_backslash; c_quote] a (a + length g + length (escape l)) (slice a (a + length g) ++ l))
      as Hb by by rewrite (slice_occurs a g Hog) in Hb.
    eapply body_char; [by apply glyph_scan; [..|eapply occurs_length; [done|apply Hg]]| |done].
    intros [Hone Hin]. destruct g as [|c [|d g]]; cbn in Hone; [lia| |lia].
    inversion_clear Hplain as [|? ? Hc _]. rewrite is_special_byte in Hc.
    apply bool_decide_eq_false in Hc. apply Hc.
    pose proof (occurs_byte _ _ _ 0 c Hog eq_refl) as Hb. rewrite Nat.add_0_r in Hb.
    unfold input in Hin. by rewrite Hb in Hin.
  - apply not_Forall_Exists in Hspecial; [|intros c; apply _].
    apply Exists_exists in Hspecial as (c & Hin & Hc). apply not_false_is_true in Hc.
    apply list_elem_of_In, list_elem_of_lookup in Hin as [i Hi].
    rewrite (glyph_of_ascii enc g i c Henc Hg Hi (special_ascii c Hc)) in *.
    cbn [escape app] in *. rewrite Hc in *. cbn [app length] in *.
    apply occurs_cons in Hog as [Hbs Hoc].
    destruct (occurs_ascii enc _ _ _ Hbs) as (Hs1 & Hb1 & _); [done|].
    destruct (occurs_ascii enc _ _ _ Hoc (special_ascii c Hc)) as (Hs2 & Hb2 & _).
    enough (body [c_backslash; c_quote] a (a + 2 + length (escape l)) (slice (a + 1) (a + 1 + 1) ++ l))
      as Hb by by rewrite (slice_occurs _ [c] Hoc : slice (a + 1) (a + 1 + 1) = [c]) in Hb.
    eapply body_escaped; [done| |exact Hs2|by left|].
    + unfold input. rewrite Hb1. set_solver.
    + cbn [length]. by replace (a + 1 + 1) with (a + 2) by lia.
Qed.

(** *** Unquoted text *)

(** Characters that mean themselves outside of quotes. *)
Definition plain_char (stop : list Z) (c : ascii) : Prop :=
  (byte_of c < 0x80)%Z ∧ byte_of c ∉ c_backslash :: stop.

(** The end of an unquoted text. *)
Definition stops (stop : list Z) (e : nat) : Prop :=
  e = size ∨ scan e = Ok (Some (e + 1)) ∧ input e ∈ stop.

Lemma stops_before stop e next :
  stops stop e → scan_to enc text size (Some e) = Some (Ok next) →
  before (Some e) size && (negb (single (Some e) next) || false || negb (is_at text (Some e) stop)) = false.
Proof.
  intros [->|[Hs Hin]] Hnext; [cbn [before]; by rewrite Nat.ltb_irrefl|].
  rewrite (scan_to_char size _ _ Hs) in Hnext by (apply scan_inside in Hs; lia). simplify_eq.
  rewrite single_next, bool_decide_true by done. cbn [is_at]. fold input.
  by rewrite (bool_decide_true (input e ∈ stop)), andb_false_r.
Qed.

Lemma stops_scan stop e : stops stop e → ∃ next, scan_to enc text size (Some e) = Some (Ok next).
Proof.
  intros [->|[Hs Hin]]; [by exists None; rewrite scan_at_end|]. exists (Some (e + 1)).
  apply (scan_to_char size _ _ Hs); apply scan_inside in Hs; lia.
Qed.

Lemma stops_no_backslash stop e next :
  c_backslash ∉ stop → stops stop e → scan_to enc text size (Some e) = Some (Ok next) →
  single (Some e) next && is_at text (Some e) [c_backslash] = false.
Proof.
  intros Hbs [->|[Hs Hin]] Hnext; [rewrite scan_at_end in Hnext; by simplify_eq|].
  cbn [is_at]. fold input. rewrite bool_decide_false; [apply andb_false_r|].
  intros Heq%list_elem_of_singleton. by rewrite Heq in Hin.
Qed.

Lemma plain_run stop l p :
  Forall (plain_char stop) l → occurs text p l → l ≠ [] →
  scan p = Ok (Some (p + 1)) ∧ p < size ∧ is_at text (Some p) stop = false ∧
  is_at text (Some p) [c_backslash] = false ∧
  occurs text (p + 1) (tail l) ∧ slice p (p + 1) = take 1 l.
Proof.
  destruct l as [|c l]; [done|]. intros Hl Ho _. inversion_clear Hl as [|? ? [Hc Hin] _].
  apply occurs_cons in Ho as [Hoc Hol]. destruct (occurs_ascii enc _ _ _ Hoc Hc) as (Hs & Hb & Hlt).
  split; [done|]. split; [done|]. cbn [is_at]. rewrite Hb, !bool_decide_false by set_solver.
  split; [done|]. split; [done|]. split; [done|]. exact (slice_occurs _ _ Hoc).
Qed.

Lemma scan_unquoted_plain stop l p :
  c_backslash ∉ stop → Forall (plain_char stop) l → occurs text p l → stops stop (p + length l) →
  ∀ fuel, length l < fuel → ∃ next, scan_to enc text size (Some p) = Some (Ok next) ∧
    scan_unquoted_loop enc text stop fuel (Some p) next false = Some (Ok (Some (p + length l))) ∧
    single (Some p) next && is_at text (Some p) [c_backslash] = false.
Proof.
  intros Hbs. revert p. induction l as [|c l IH]; intros p Hl Ho Hstop fuel Hfuel.
  - cbn [length] in *. rewrite Nat.add_0_r in *. destruct (stops_scan _ _ Hstop) as [next Hnext].
    exists next. split; [done|]. destruct fuel as [|fuel]; [lia|]. cbn [scan_unquoted_loop]. fold size.
    rewrite (stops_before _ _ _ Hstop Hnext). split; [done|]. by eapply stops_no_backslash.
  - destruct (plain_run _ _ _ Hl Ho ltac:(done)) as (Hs & Hlt & Hnstop & Hnbs & Hol & _).
    apply Forall_inv_tail in Hl. cbn [length tail] in *.
    destruct (IH (p + 1) Hl Hol ltac:(by rewrite <-Nat.add_assoc) (fuel - 1) ltac:(lia))
      as (next & Hnext & Hloop & Hsingle).
    exists (Some (p + 1)). split; [by apply (scan_to_char size _ _ Hs); lia|].
    destruct fuel as [|fuel]; [lia|]. cbn [scan_unquoted_loop before]. fold size.
    rewrite (proj2 (Nat.ltb_lt _ _)), Hnstop, orb_true_r, Hnbs, andb_false_r by done. cbn [andb].
    split; [|done]. unfold mbind, reader_bind. rewrite Hnext. cbn [negb andb]. rewrite Hsingle.
    rewrite Nat.sub_succ, Nat.sub_0_r, <-Nat.add_assoc in Hloop. exact Hloop.
Qed.

Lemma parse_unquoted_plain stop l p :
  Forall (plain_char stop) l → occurs text p l →
  ∀ fuel out, length l < fuel → ∃ next, scan_to enc text (p + length l) (Some p) = Some (Ok next) ∧
    parse_unquoted_loop enc text (p + length l) fuel (Some p) next false out =
    Some (Ok (out +:+ string_of_list_ascii l)).
Proof.
  revert p. induction l as [|c l IH]; intros p Hl Ho fuel out Hfuel.
  - cbn [length] in *. rewrite Nat.add_0_r in *. exists None. split.
    + cbn. f_equal. pose proof (scan_advances enc (bytes_in text) p p) as H.
      destruct (glyph_scanner (bytes_in text) p p enc) as [[n|]|e]; cbn in H; [lia|done|lia].
    + destruct fuel as [|fuel]; [lia|]. cbn [parse_unquoted_loop before].
      by rewrite Nat.ltb_irrefl, sapp_nil_r.
  - pose proof (occurs_length _ _ _ Ho ltac:(done)) as Hend. fold size in Hend.
    destruct (plain_run _ _ _ Hl Ho ltac:(done)) as (Hs & Hlt & _ & Hnbs & Hol & Hslice).
    apply Forall_inv_tail in Hl. cbn [length tail] in *.
    destruct fuel as [|fuel]; [lia|].
    destruct (IH (p + 1) Hl Hol fuel (out +:+ string_of_list_ascii [c]) ltac:(lia)) as (next & Hnext & Hloop).
    rewrite <-Nat.add_assoc in Hnext, Hloop.
    exists (Some (p + 1)). split; [by apply (scan_to_char _ _ _ Hs); lia|].
    cbn [parse_unquoted_loop before]. rewrite (proj2 (Nat.ltb_lt _ _)) by lia.
    rewrite Hnbs, !andb_false_r. unfold mbind, reader_bind.
    rewrite append_glyph_run by lia. change (take 1 (c :: l)) with [c] in Hslice. rewrite Hslice.
    change (1 + length l) with (S (length l)) in *. rewrite Hnext. cbn [negb andb].
    by rewrite Hloop, string_app_list.
Qed.

(** An unquoted text is found and read. *)
Lemma unquoted_read stop l p :
  c_backslash ∉ stop → Forall (plain_char stop) l → occurs text p l → l ≠ [] →
  stops stop (p + length l) →
  scan_unquoted_string enc text stop p = Some (Ok (Some (p + length l))) ∧
  parse_unquoted_string enc text (p + length l) p = Some (Ok (string_of_list_ascii l)).
Proof.
  intros Hbs Hl Ho Hne Hstop. pose proof (occurs_length _ _ _ Ho Hne) as Hend. fold size in Hend.
  destruct (scan_unquoted_plain _ _ _ Hbs Hl Ho Hstop (S (S size)) ltac:(lia)) as (next & Hn & Hr & _).
  destruct (parse_unquoted_plain _ _ _ Hl Ho (S (p + length l)) EmptyString ltac:(lia)) as (next' & Hn' & Hr').
  unfold scan_unquoted_string, parse_unquoted_string, mbind, reader_bind. fold size.
  rewrite Hn, Hn'. by rewrite Hr, Hr'.
Qed.

(** ** Steps of the array parser *)

(** Successive calls of [get_next]. *)
Inductive steps : nat → list (juncture * string) → nat → Prop :=
  | steps_nil p : steps p [] p
  | steps_cons p j v p' js p'' :
      get_next enc text p = Some (Ok (j, v, p')) → j ≠ done → p < p' →
      steps p' js p'' → steps p ((j, v) :: js) p''.

Lemma steps_app p js p' ks p'' : steps p js p' → steps p' ks p'' → steps p (js ++ ks) p''.
Proof. induction 1; intros Hk; [done|]. by eapply steps_cons; eauto. Qed.

Lemma steps_length p js p' : steps p js p' → p + length js ≤ p'.
Proof. induction 1; cbn [length]; lia. Qed.

(** What follows an item: a separator, which is skipped, or the end of the row
    or of the text. *)
Inductive followed (e : nat) : nat → Prop :=
  | followed_separator :
      scan e = Ok (Some (e + 1)) → input e ∈ [c_comma; c_semicolon] → followed e (e + 1)
  | followed_end : scan e = Ok (Some (e + 1)) → input e = c_rbrace → followed e e
  | followed_done : e = size → followed e e.

Lemma skip_followed e p : followed e p → skip_separator enc text e = Some (Ok p) ∧ e ≤ p.
Proof.
  intros [Hs Hin|Hs Hin| ->]; unfold skip_separator; fold size.
  - apply scan_inside in Hs as Hlt. rewrite (proj2 (Nat.ltb_lt _ _)) by lia.
    rewrite (scan_bind_all _ _ _ Hs), single_next, bool_decide_true by done. cbn [is_at]. fold input.
    rewrite bool_decide_true by done. split; [done|lia].
  - apply scan_inside in Hs as Hlt. rewrite (proj2 (Nat.ltb_lt _ _)) by lia.
    rewrite (scan_bind_all _ _ _ Hs). cbn [is_at]. fold input. rewrite Hin.
    rewrite bool_decide_false by solve_member. by rewrite andb_false_r.
  - rewrite Nat.ltb_irrefl. by split.
Qed.

Lemma followed_closed e p : followed e p → closed c_quote e.
Proof.
  intros [Hs Hin|Hs Hin| ->]; [| |by left]; right; exists (e + 1); (split; [done|]); intros [_ Hq];
    rewrite Hq in Hin; [|done]. revert Hin. solve_member.
Qed.

Lemma followed_stops e p : followed e p → stops array_stop e.
Proof.
  intros [Hs Hin|Hs Hin| ->]; [| |by left]; right; (split; [done|]).
  - set_unfold. naive_solver.
  - rewrite Hin. solve_member.
Qed.

(** One call, from the item found. *)
Lemma item_step p found v e p' :
  p < size → found ≠ done → array_item enc text p = Some (Ok (found, v, e)) → p < e → followed e p' →
  steps p [(found, v)] p'.
Proof.
  intros Hp Hdone Hitem He Hf. destruct (skip_followed _ _ Hf) as [Hskip Hle].
  apply (steps_cons _ _ _ p'); [|done|lia|constructor]. unfold get_next. fold size.
  rewrite (proj2 (Nat.leb_gt _ _)) by done. rewrite Hitem. cbn [mbind reader_bind]. by rewrite Hskip.
Qed.

(** The item at an ASCII character, by that character. *)
Lemma item_ascii p c :
  occurs text p [c] → (byte_of c < 0x80)%Z →
  ∃ next, scan p = Ok (Some (p + 1)) ∧ input p = byte_of c ∧ p < size ∧ next = Some (p + 1) ∧
    scan_to enc text size (Some p) = Some (Ok next) ∧ single (Some p) next = true.
Proof.
  intros Ho Hc. destruct (occurs_ascii enc _ _ _ Ho Hc) as (Hs & Hb & Hlt). exists (Some (p + 1)).
  split; [done|]. split; [done|]. split; [done|]. split; [done|].
  split; [apply (scan_to_char _ _ _ Hs); fold size in Hlt; lia|].
  by rewrite single_next, bool_decide_true.
Qed.

Lemma brace_item p c (found : juncture) :
  (c = "{"%char ∧ found = row_start) ∨ (c = "}"%char ∧ found = row_end) → occurs text p [c] →
  p < size ∧ array_item enc text p = Some (Ok (found, EmptyString, p + 1)).
Proof.
  intros Hc Ho. destruct (item_ascii _ _ Ho) as (next & Hs & Hb & Hlt & -> & Hn & H1).
  { by destruct Hc as [[-> _]|[-> _]]. }
  split; [done|]. unfold array_item. fold size. rewrite (scan_bind_all _ _ _ Hs), H1. cbn [negb].
  fold input. rewrite Hb. by destruct Hc as [[-> ->]|[-> ->]].
Qed.

Lemma quoted_item p l p' :
  ascii_safe enc = true → encoded enc l → occurs text p (quoted l) →
  followed (p + length (quoted l)) p' →
  steps p [(string_value, string_of_list_ascii l)] p'.
Proof.
  intros Henc Hl Ho Hf. unfold quoted in *. rewrite !length_app in Hf. cbn [length] in Hf.
  replace (p + (1 + (length (escape l) + 1))) with (p + 1 + length (escape l) + 1) in Hf by lia.
  apply occurs_app in Ho as [Hq Ho]. apply occurs_app in Ho as [Ho Hq']. cbn [length] in *.
  destruct (item_ascii _ _ Hq) as (next & Hs & Hb & Hlt & -> & Hn & H1); [done|].
  destruct (item_ascii _ _ Hq') as (next' & Hs' & Hb' & Hlt' & _ & _ & _); [done|].
  destruct (double_quoted_read p (p + 1 + length (escape l)) l Hs) as [Hscan Hparse];
    [by apply escape_body|done|done|by eapply followed_closed|].
  eapply item_step; [done|done| |idtac|exact Hf]; [|lia].
  unfold array_item. fold size. rewrite (scan_bind_all _ _ _ Hs), H1. cbn [negb]. fold input. rewrite Hb.
  cbn -[scan_double_quoted_string parse_double_quoted_string]. rewrite Hscan.
  cbn -[parse_double_quoted_string]. by rewrite Hparse.
Qed.

(** Characters an unquoted value may start with. *)
Definition bare_char (c : ascii) : Prop :=
  plain_char array_stop c ∧ byte_of c ∉ [0%Z; c_lbrace; c_apostrophe; c_quote].

Lemma unquoted_item p l p' :
  Forall bare_char l → l ≠ [] → occurs text p l → followed (p + length l) p' →
  steps p [(if String.eqb (string_of_list_ascii l) "NULL" then (null_value, EmptyString)
            else (string_value, string_of_list_ascii l))] p'.
Proof.
  intros Hl Hne Ho Hf.
  assert (Forall (plain_char array_stop) l) as Hplain by (eapply Forall_impl; [|exact Hl]; by intros c []).
  destruct (unquoted_read array_stop l p) as [Hscan Hparse];
    [solve_member|done|done|done|by eapply followed_stops|].
  destruct (plain_run _ _ _ Hplain Ho Hne) as (Hs & Hlt & _).
  assert (∃ c k, l = c :: k) as (c & k & El) by (destruct l; eauto; done).
  assert (bare_char c) as [_ Hc] by (subst l; by inversion Hl).
  assert (input p = byte_of c) as Hb.
  { subst l. pose proof (occurs_byte _ _ _ 0 c Ho eq_refl) as Hb. by rewrite Nat.add_0_r in Hb. }
  assert (input p ≠ c_rbrace) as Hr.
  { rewrite Hb. subst l. inversion_clear Hplain as [|? ? [_ Hin] _]. set_unfold. naive_solver. }
  rewrite <-Hb in Hc.
  assert (unquoted_value enc text p = Some (Ok (p + length l, string_of_list_ascii l))) as Hv.
  { unfold unquoted_value. rewrite Hscan. cbn -[parse_unquoted_string]. by rewrite Hparse. }
  assert (0 < length l) as Hlen by (subst l; cbn; lia).
  assert (∀ found v, array_item enc text p = Some (Ok (found, v, p + length l)) → found ≠ done →
            steps p [(found, v)] p') as Hstep.
  { intros found v Hitem Hd. eapply item_step; [done|done|exact Hitem|lia|done]. }
  assert (array_item enc text p =
    if String.eqb (string_of_list_ascii l) "NULL"
    then Some (Ok (null_value, EmptyString, p + length l))
    else Some (Ok (string_value, string_of_list_ascii l, p + length l))) as Hitem.
  { unfold array_item. fold size. rewrite (scan_bind_all _ _ _ Hs), single_next, bool_decide_true by done.
    cbn [negb]. fold input. rewrite !(proj2 (Z.eqb_neq _ _)) by (set_unfold; naive_solver).
    rewrite Hv. cbn [mbind reader_bind]. by destruct (String.eqb _ _). }
  destruct (String.eqb _ _); by apply Hstep.
Qed.
End readers.
