(* ===== verification/PqxxArraySpec.v ===== *)
(** Arrays and composite values written and read back. *)

From stdpp Require Import list sets.
From S2P Require Import Prelude Decimal Exceptions JsonLexer JsonUtf8 PqxxConv PqxxConvFacts.
From S2P Require Import PqxxBuffer PqxxBufferFacts PqxxResult PqxxEncoding PqxxEncodingFacts.
From S2P Require Import PqxxGlyphs PqxxArray PqxxArrayFacts.

Local Open Scope nat_scope.

(** ** Elements of arrays

    [junctures value] is what the parser returns for an element, [readable]
    when it does: the strings are valid in the encoding. *)
Class ArrayElement (T : Type) `{ElementSize T} := {
  junctures : T → list (juncture * string);
  readable : encoding_group → T → Prop;
  elt_separator : separator T = ","%char;
  elt_head : ∀ elt, ∃ c l, elt_text elt = c :: l ∧ (byte_of c < 0x80)%Z ∧ byte_of c ∉ [c_comma; c_semicolon];
  elt_steps : ∀ (bh : Behind) enc text p elt p',
    ascii_safe enc = true → readable enc elt → occurs text p (elt_text elt) →
    followed enc text (p + length (elt_text elt)) p' → steps enc text p (junctures elt) p';
}.

(** Nothing is skipped before an element. *)
Definition no_separator (enc : encoding_group) (text : string) (e : nat) : Prop :=
  ∃ c, occurs text e [c] ∧ (byte_of c < 0x80)%Z ∧ byte_of c ∉ [c_comma; c_semicolon].

Lemma skip_no_separator {bh : Behind} enc text e :
  no_separator enc text e → skip_separator enc text e = Some (Ok e).
Proof.
  intros (c & Ho & Hc & Hin). destruct (occurs_ascii enc _ _ _ Ho Hc) as (Hs & Hb & Hlt).
  unfold skip_separator. rewrite (proj2 (Nat.ltb_lt _ _)) by done.
  rewrite (scan_bind_all _ _ _ _ _ Hs). cbn [is_at]. rewrite Hb, bool_decide_false by done.
  by rewrite andb_false_r.
Qed.

Section arrays.
Context `{ArrayElement T} {bh : Behind} (enc : encoding_group) (text : string).
Hypothesis Hsafe : ascii_safe enc = true.

(** The elements of a nonempty array, up to the closing brace. *)
Lemma elements_steps value p :
  value ≠ [] → Forall (readable enc) value →
  occurs text p (removelast (elements_text value) ++ ["}"%char]) →
  steps enc text p (concat (map junctures value)) (p + length (removelast (elements_text value))).
Proof using Type*.
  intros Hne Hread. revert p. induction Hread as [|elt value He Hread IH]; [done|]. intros p Ho.
  cbn [map concat]. destruct value as [|elt' value].
  - cbn [elements_text map concat] in *. rewrite !app_nil_r in *. rewrite removelast_last in *.
    apply occurs_app in Ho as [Ho Hb].
    destruct (occurs_ascii enc _ _ _ Hb) as (Hs & Hbyte & _); [done|].
    eapply elt_steps; [done..|]. by apply followed_end.
  - set (rest := elements_text (elt' :: value)) in *.
    assert (Hrest : rest ≠ []) by by apply elements_text_nonempty.
    replace (removelast (elements_text (elt :: elt' :: value)))
      with (elt_text elt ++ [","%char] ++ removelast rest) in *.
    2: { change (elements_text (elt :: elt' :: value)) with (elt_text elt ++ [separator T] ++ rest).
         rewrite elt_separator, !removelast_app; done. }
    rewrite <-!app_assoc in Ho. apply occurs_app in Ho as [Ho Hrest']. apply occurs_app in Hrest' as [Hc Ho'].
    destruct (occurs_ascii enc _ _ _ Hc) as (Hs & Hbyte & _); [done|].
    rewrite !length_app. cbn [length] in *. rewrite !Nat.add_assoc.
    eapply steps_app; [|by apply IH]. eapply elt_steps; [done..|].
    apply followed_separator; [done|]. rewrite Hbyte. solve_member.
Qed.

Lemma array_head value p :
  occurs text p (removelast (elements_text value) ++ ["}"%char]) → no_separator enc text p.
Proof using Type*.
  destruct value as [|elt value]; cbn [elements_text].
  - intros Ho. exists "}"%char. split; [done|]. split; [done|]. solve_member.
  - destruct (elt_head elt) as (c & l & -> & Hc & Hin). intros Ho. exists c. split; [|done].
    cbn in Ho. destruct (l ++ _) eqn:E; [by destruct l|]. cbn [app] in Ho. by apply occurs_cons in Ho as [Ho _].
Qed.

(** The whole array, as a value or as an element of another one. *)
Lemma array_steps value p p' :
  Forall (readable enc) value → occurs text p (array_text value) →
  followed enc text (p + length (array_text value)) p' →
  steps enc text p ((row_start, EmptyString) :: concat (map junctures value) ++ [(row_end, EmptyString)]) p'.
Proof using Type*.
  intros Hread Ho Hf. unfold array_text in *.
  set (inner := removelast (elements_text value)) in *.
  apply occurs_cons in Ho as [Hopen Ho].
  destruct (brace_item enc text p "{" row_start) as [Hp Hitem]; [by left|done|].
  eapply steps_cons with (p' := p + 1); [|done|lia|].
  { unfold get_next. rewrite (proj2 (Nat.leb_gt _ _)) by done. rewrite Hitem. cbn [mbind reader_bind].
    by rewrite (skip_no_separator _ _ _ (array_head value (p + 1) Ho)). }
  apply occurs_app in Ho as Hclose. destruct Hclose as [_ Hclose].
  assert (Hend : steps enc text (p + 1 + length inner) [(row_end, EmptyString)] p').
  { destruct (brace_item enc text (p + 1 + length inner) "}" row_end) as [Hp' Hitem']; [by right|done|].
    eapply item_step; [done|done|exact Hitem'|lia|]. cbn [length] in Hf. rewrite length_app in Hf.
    cbn [length] in Hf.
    by replace (p + 1 + length inner + 1) with (p + S (length inner + 1)) by lia. }
  eapply steps_app; [|exact Hend]. destruct (decide (value = [])) as [->|Hne].
  - cbn in *. rewrite Nat.add_0_r. constructor.
  - by apply elements_steps.
Qed.
End arrays.

(** ** Instances *)

Lemma quoted_head l : ∃ c k, quoted l = c :: k ∧ (byte_of c < 0x80)%Z ∧ byte_of c ∉ [c_comma; c_semicolon].
Proof. eexists _, _. split; [reflexivity|]. split; [done|]. solve_member. Qed.

#[export] Program Instance string_element : ArrayElement string := {|
  junctures := λ s, [(string_value, s)];
  readable := λ enc s, encoded enc (list_ascii_of_string s);
|}.
Next Obligation. done. Qed.
Next Obligation. intros s. apply quoted_head. Qed.
Next Obligation.
  intros bh enc text p s p' Hsafe Hread Ho Hf.
  rewrite <-(string_of_list_ascii_of_string s) at 1. by apply quoted_item.
Qed.

#[export] Program Instance array_element_reads `{ArrayElement T} : ArrayElement (list T) := {|
  junctures := λ value,
    (row_start, EmptyString) :: concat (map junctures value) ++ [(row_end, EmptyString)];
  readable := λ enc, Forall (readable enc);
|}.
Next Obligation. done. Qed.
Next Obligation.
  intros. eexists _, _. split; [reflexivity|]. split; [done|]. solve_member.
Qed.
Next Obligation. intros. by apply array_steps. Qed.

(** [NULL] is read as a null value. *)
Lemma null_steps {bh : Behind} enc text p p' :
  occurs text p s_null → followed enc text (p + length s_null) p' →
  steps enc text p [(null_value, EmptyString)] p'.
Proof.
  intros Ho Hf. apply (unquoted_item enc text p s_null p'); [|done..].
  unfold s_null. cbn. repeat (apply List.Forall_cons; [split; [split; [done|]|]; solve_member|]).
  apply List.Forall_nil.
Qed.

Lemma elt_text_option `{ElementSize T} (v : T) :
  sql_array T = false → elt_text (Some v) = elt_text v.
Proof. intros Ha. unfold elt_text, direct. cbn [sql_array unquoted_safe option_traits is_null text option_laws]. by rewrite Ha. Qed.

(** Optional values of a type that is no array and has no null of its own. *)
Class Scalar (T : Type) `{StringTraits T} : Prop := {
  scalar_no_array : sql_array T = false;
  scalar_no_null : ∀ v : T, is_null v = false;
}.
#[export] Instance string_scalar : Scalar string.
Proof. done. Qed.
#[export] Instance integral_scalar t : Scalar (integral t).
Proof. done. Qed.

#[export] Program Instance option_element `{ExactSize T, !ArrayElement T, !Scalar T} : ArrayElement (option T) := {|
  junctures := λ value, match value with Some v => junctures v | None => [(null_value, EmptyString)] end;
  readable := λ enc value, match value with Some v => readable enc v | None => True end;
|}.
Next Obligation. done. Qed.
Next Obligation.
  intros T ? ? ? ? ? [v|].
  - rewrite elt_text_option by apply scalar_no_array. apply elt_head.
  - eexists _, _. split; [reflexivity|]. split; [done|]. solve_member.
Qed.
Next Obligation.
  intros T ? ? ? ? ? bh enc text p [v|] p' Hsafe Hread Ho Hf.
  - rewrite elt_text_option in * by apply scalar_no_array. by apply elt_steps.
  - by apply null_steps.
Qed.

(** Numbers need no quotes. *)
Definition number_char (c : ascii) : bool := is_digit c || Ascii.eqb c "-".

Lemma number_bare c : number_char c = true → bare_char c ∧ c ≠ "N"%char.
Proof.
  intros Hc. split; [|intros ->; discriminate Hc]. unfold bare_char, plain_char.
  eapply (bool_decide_eq_true_1 _). revert Hc. apply implb_true_iff. revert c.
  apply forall_chars. vm_compute. reflexivity.
Qed.

Lemma digits_number s : sforall is_digit s = true → sforall number_char s = true.
Proof.
  induction s as [|c s IH]; [done|]. cbn. intros [Hc Hs]%andb_true_iff.
  unfold number_char at 1. by rewrite Hc, IH.
Qed.

Lemma number_text z : sforall number_char (to_string z) = true ∧ to_string z ≠ EmptyString.
Proof.
  destruct (decide (z < 0)%Z) as [Hz|Hz].
  - rewrite to_string_negative by lia. split; [|done].
    change (sforall number_char (dec_nonneg (- z)) = true). apply digits_number, dec_nonneg_digits. lia.
  - rewrite to_string_nonnegative by lia. split; [apply digits_number, dec_nonneg_digits; lia|].
    destruct (dec_nonneg_nonempty z ltac:(lia)) as (c & s & -> & _). done.
Qed.

Lemma number_list s :
  sforall number_char s = true →
  Forall bare_char (list_ascii_of_string s) ∧ s ≠ "NULL"%string.
Proof.
  intros Hs. split.
  - induction s as [|c s IH]; [by apply List.Forall_nil|]. cbn in *. apply andb_true_iff in Hs as [Hc Hs].
    apply List.Forall_cons; [by apply number_bare|by apply IH].
  - intros ->. discriminate Hs.
Qed.

#[export] Program Instance integral_element t `{IsIntType t} : ArrayElement (integral t) := {|
  junctures := λ n, [(string_value, to_string (int_value n))];
  readable := λ _ _, True;
|}.
Next Obligation. done. Qed.
Next Obligation.
  intros t Ht n. destruct (number_text (int_value n)) as [Hs Hne].
  change (elt_text n) with (list_ascii_of_string (to_string (int_value n))).
  destruct (number_list _ Hs) as [Hbare _].
  destruct (to_string (int_value n)) as [|c s]; [done|]. cbn [list_ascii_of_string] in *.
  eexists _, _. split; [reflexivity|]. inversion_clear Hbare as [|? ? [[Hc Hin] _] _].
  split; [done|]. set_unfold. naive_solver.
Qed.
Next Obligation.
  intros t Ht bh enc text p n p' _ _ Ho Hf. destruct (number_text (int_value n)) as [Hs Hne].
  change (elt_text n) with (list_ascii_of_string (to_string (int_value n))) in *.
  destruct (number_list _ Hs) as [Hbare Hnull].
  pose proof (unquoted_item enc text p _ p' Hbare) as Hitem.
  rewrite string_of_list_ascii_of_string, (proj2 (String.eqb_neq _ _) Hnull) in Hitem.
  apply Hitem; [|done..]. by destruct (to_string (int_value n)).
Qed.

(** ** Arrays read back *)

Lemma parse_steps {bh : Behind} enc text p js fuel :
  steps enc text p js (String.length text) → length js < fuel →
  parse_array enc text fuel p = Some (Ok js).
Proof.
  intros Hs. remember (String.length text) as e eqn:He. revert fuel.
  induction Hs as [p|p j v p' js p'' Hget Hdone Hlt Hs IH]; intros fuel Hfuel;
    (destruct fuel as [|fuel]; [lia|]); cbn [parse_array].
  - unfold get_next. rewrite (proj2 (Nat.leb_le _ _)) by lia. done.
  - rewrite Hget. cbn [mbind reader_bind length] in *. rewrite IH by (done || lia).
    by destruct j.
Qed.

(** What [into_buf] leaves at the start of a buffer. *)
Lemma writes_at_start (b : nat → buf nat) (m : PqxxBuffer.memory) t :
  writes b [] m (t ++ [NUL]) →
  ∃ e m', b 0 m = Some (Ok e, m') ∧ take (e - 1) m' = t.
Proof.
  intros (m' & Hb & _ & Hp). exists (length (t ++ [NUL])), m'. split; [exact Hb|].
  rewrite length_app, Nat.add_sub. destruct Hp as [k ->]. cbn [app].
  by rewrite <-app_assoc, take_app_length.
Qed.

Lemma array_text_reads `{ArrayElement T} {bh : Behind} enc (value : list T) :
  ascii_safe enc = true → Forall (readable enc) value →
  read_array enc (string_of_list_ascii (array_text value)) = Some (Ok (junctures value)).
Proof.
  intros Hsafe Hread. set (text := string_of_list_ascii (array_text value)).
  assert (Hlist : list_ascii_of_string text = array_text value) by apply list_ascii_of_string_of_list_ascii.
  assert (Hlen : String.length text = length (array_text value)) by by rewrite <-length_list_ascii, Hlist.
  assert (Hs : steps enc text 0 (junctures value) (String.length text)).
  { apply array_steps; [done|done| |].
    - unfold occurs. by rewrite drop_0, Hlist, firstn_all.
    - rewrite Hlen. by apply followed_done. }
  unfold read_array. apply parse_steps; [done|]. apply steps_length in Hs. lia.
Qed.

(** C32. Arrays survive the way through the database's text format: what
    [into_buf] writes for a container of strings, integers, optional values of
    these, or of such containers, [array_parser] takes apart into the braces
    and the elements' values, in every encoding whose multi-byte characters
    hold no ASCII byte. *)
Theorem array_round_trip T (traits : StringTraits T) (laws : StringTraitsLaws T)
    (size : ElementSize T) (element : ArrayElement T) (bh : Behind) enc (value : list T) m :
  ascii_safe enc = true → Forall (readable enc) value → array_room value ≤ length m →
  ∃ e m', array_into_buf 0 value m = Some (Ok e, m') ∧
    read_array enc (string_of_list_ascii (take (e - 1) m')) = Some (Ok (junctures value)).
Proof.
  intros Hsafe Hread Hroom.
  destruct (writes_at_start _ _ _ (array_into_buf_writes value [] m (prefix_nil _) Hroom)) as (e & m' & Hw & Ht).
  exists e, m'. split; [exact Hw|]. rewrite Ht. by apply array_text_reads.
Qed.

Definition sample : list (list (option string)) :=
  [[Some "a,b"; Some (bq "say `hi\`"); None]; []; [Some "NULL"]]%string.

Lemma array_round_trip_witness :
  string_of_list_ascii (array_text sample) = bq "{{`a,b`,`say \`hi\\\``,NULL},{},{`NULL`}}" ∧
  ∃ e m', array_into_buf 0 sample (replicate 300 NUL) = Some (Ok e, m') ∧
    read_array (bh:=zeros) UTF8 (string_of_list_ascii (take (e - 1) m')) = Some (Ok (junctures sample)).
Proof.
  split; [vm_compute; reflexivity|].
  apply (array_round_trip (list (option string)) _ _ _ _ zeros UTF8 sample (replicate 300 NUL)); [reflexivity| |].
  - repeat (apply List.Forall_cons; [|]); try apply List.Forall_nil; cbn [readable option_element string_element];
      try exact I; apply encoded_ascii; repeat (apply List.Forall_cons; [reflexivity|]); apply List.Forall_nil.
  - apply Nat.leb_le. vm_compute. reflexivity.
Defined.

(** ** Composite values read back *)

Lemma comma_terminated_step t t' ts :
  removelast (comma_terminated (t :: t' :: ts)) = t ++ ","%char :: removelast (comma_terminated (t' :: ts)).
Proof.
  change (comma_terminated (t :: t' :: ts)) with ((t ++ [","%char]) ++ comma_terminated (t' :: ts)).
  rewrite removelast_app; [by rewrite <-app_assoc|].
  unfold comma_terminated. cbn. by destruct t'.
Qed.

Lemma comma_terminated_one t : removelast (comma_terminated [t]) = t.
Proof. unfold comma_terminated. cbn. by rewrite app_nil_r, removelast_last. Qed.

(** *** Fields *)

(** The types of fields: strings and integers, and optional ones. *)
Inductive scalar_type := TString | TInt (t : int_type).
Record field_type := mk_field_type { ft_scalar : scalar_type; ft_optional : bool }.

(** A value of any of these types. *)
Inductive typed_value := VString (s : string) | VInt (n : Z) | VNull.

(** [string_traits<T>::from_string] and [nullness<T>] of the type; [no_null]
    is the error for a type without null. *)
Definition value_from_string (ty : field_type) (text : string) : result exn typed_value :=
  match ft_scalar ty with
  | TString => Ok (VString text)
  | TInt t => n ← int_from_string t text; mret (VInt n)
  end.
Definition value_null (no_null : nat → exn) (ty : field_type) (index : nat) : result exn typed_value :=
  if ft_optional ty then Ok VNull else Throw (no_null index).

(** A value with its type; an optional one may be null. *)
Inductive typed_field :=
  | StringField (optional : bool) (s : string)
  | IntField (optional : bool) (t : int_type) (n : integral t)
  | NullField (s : scalar_type).

Definition type_of (f : typed_field) : field_type :=
  match f with
  | StringField o _ => mk_field_type TString o
  | IntField o t _ => mk_field_type (TInt t) o
  | NullField s => mk_field_type s true
  end.
Definition value_of (f : typed_field) : typed_value :=
  match f with StringField _ s => VString s | IntField _ _ n => VInt (int_value n) | NullField _ => VNull end.

(** The text of a field; nothing for a null. *)
Definition field_content (f : typed_field) : list ascii :=
  match f with
  | StringField _ s => quoted (list_ascii_of_string s)
  | IntField _ _ n => list_ascii_of_string (to_string (int_value n))
  | NullField _ => []
  end.

(** Strings valid in the encoding, and the library's integer types. *)
Definition field_valid (enc : encoding_group) (f : typed_field) : Prop :=
  match f with
  | StringField _ s => encoded enc (list_ascii_of_string s)
  | IntField _ t _ => In t int_types
  | NullField _ => True
  end.

Definition types_of (fs : list typed_field) (index : nat) : field_type :=
  default (mk_field_type TString true) (type_of <$> fs !! index).

Lemma types_of_at fs index f : fs !! index = Some f → types_of fs index = type_of f.
Proof. unfold types_of. by intros ->. Qed.

Section composite.
Context {bh : Behind} (enc : encoding_group) (text : string) (no_null : nat → exn).
Hypothesis Hsafe : ascii_safe enc = true.

(** What ends a field: a comma, or the parenthesis at the end of the text. *)
Definition ends_field (index last_field p : nat) (c : ascii) : Prop :=
  index < last_field ∧ c = ","%char ∨
  last_field ≤ index ∧ c = ")"%char ∧ p + 1 = String.length text.

Definition stop_char (c : ascii) : Prop :=
  (byte_of c < 0x80)%Z ∧ byte_of c ∈ composite_stop ∧ byte_of c ≠ c_quote.

Lemma comma_stops : stop_char ","%char.
Proof. split; [done|]. split; [solve_member|done]. Qed.

Lemma ends_field_char index last_field p c : ends_field index last_field p c → stop_char c.
Proof. intros [[_ ->]|(_ & -> & _)]; (split; [done|]; split; [solve_member|done]). Qed.

(** The field at [p] was read as [v]; it ends before [q]. *)
Definition reads_field {T} (from_string : nat → string → result exn T) (null : nat → result exn T)
    (index p : nat) (v : T) (q : nat) : Prop :=
  glyph_scanner (bytes_in text) (String.length text) p enc = Ok (Some (p + 1)) ∧
  (if is_at text (Some p) composite_stop then field ← lift (null index); mret (field, p)
   else if is_at text (Some p) [c_quote] then
     stop ← (scan_double_quoted_string enc text p ≫= position);
     t ← parse_double_quoted_string enc text stop p;
     field ← lift (from_string index t);
     mret (field, stop)
   else
     stop ← (scan_unquoted_string enc text composite_stop p ≫= position);
     t ← parse_unquoted_string enc text stop p;
     field ← lift (from_string index t);
     mret (field, stop)) = Some (Ok (v, q)).

(** A field that ends as it should. *)
Lemma field_ends {T} (from_string : nat → string → result exn T) (null : nat → result exn T)
    index p last_field q c v :
  reads_field from_string null index p v q → occurs text q [c] → ends_field index last_field q c →
  parse_composite_field enc text from_string null index p last_field = Some (Ok (v, q + 1)).
Proof.
  intros [Hs Hv] Hq Hc. destruct (ends_field_char _ _ _ _ Hc) as (Hascii & _).
  destruct (occurs_ascii enc _ _ _ Hq Hascii) as (Hsc & Hbc & _).
  unfold parse_composite_field. rewrite (scan_bind_all _ _ _ _ _ Hs), single_next, bool_decide_true by done.
  cbn [negb]. rewrite Hv. cbn [mbind reader_bind].
  rewrite (scan_bind_all _ _ _ _ _ Hsc), single_next, bool_decide_true by done.
  cbn [negb is_at]. rewrite Hbc. destruct Hc as [[Hi ->]|(Hi & -> & Hend)].
  - rewrite (proj2 (Nat.ltb_lt _ _) Hi), (proj2 (Nat.leb_gt _ _) Hi).
    rewrite bool_decide_true by solve_member. done.
  - rewrite (proj2 (Nat.ltb_ge _ _) Hi), (proj2 (Nat.leb_le _ _) Hi).
    rewrite bool_decide_false by solve_member. rewrite bool_decide_true by solve_member.
    cbn [andb negb]. by rewrite Hend, bool_decide_true.
Qed.

(** A comma behind the last field. *)
Lemma last_field_refused {T} (from_string : nat → string → result exn T) (null : nat → result exn T) index p q v :
  reads_field from_string null index p v q → occurs text q [","%char] →
  ∃ err, parse_composite_field enc text from_string null index p index = Some (Throw err).
Proof.
  intros [Hs Hv] Hq. destruct (occurs_ascii enc _ _ _ Hq ltac:(done)) as (Hsc & Hbc & _).
  unfold parse_composite_field. rewrite (scan_bind_all _ _ _ _ _ Hs), single_next, bool_decide_true by done.
  cbn [negb]. rewrite Hv. cbn [mbind reader_bind].
  rewrite (scan_bind_all _ _ _ _ _ Hsc), single_next, bool_decide_true by done.
  cbn [negb is_at]. rewrite Hbc, Nat.ltb_irrefl, Nat.leb_refl. rewrite bool_decide_true by solve_member. eauto.
Qed.

(** With the readers for the fields [fs]. *)
Definition reads_as (fs : list typed_field) (index p : nat) (f : typed_field) : Prop :=
  reads_field (λ i, value_from_string (types_of fs i)) (λ i, value_null no_null (types_of fs i) i)
    index p (value_of f) (p + length (field_content f)).

Lemma string_field_read fs o s index p c :
  let f := StringField o s in
  fs !! index = Some f → field_valid enc f →
  occurs text p (field_content f ++ [c]) → stop_char c → reads_as fs index p f.
Proof using Hsafe.
  intros f Hf Hl Ho (Hascii & _ & Hnq). cbn [field_content field_valid f] in *.
  set (l := list_ascii_of_string s) in *. set (t := quoted l) in *. apply occurs_app in Ho as [Ho Hoc].
  destruct (occurs_ascii enc _ _ _ Hoc Hascii) as (Hsc & Hbc & _).
  assert (Hlen : length t = length (PqxxBufferFacts.escape l) + 2)
    by (unfold t, quoted; rewrite !length_app; cbn; lia).
  pose proof Ho as Ho'. unfold t, quoted in Ho'.
  apply occurs_app in Ho' as [Hq Ho']. apply occurs_app in Ho' as [Hesc Hq']. cbn [length] in *.
  destruct (occurs_ascii enc _ _ _ Hq ltac:(done)) as (Hs & Hb & _).
  destruct (occurs_ascii enc _ _ _ Hq' ltac:(done)) as (Hs' & Hb' & _).
  assert (Hend : p + length t = p + 1 + length (PqxxBufferFacts.escape l) + 1) by lia. rewrite Hend in Hsc, Hbc.
  destruct (double_quoted_read enc text p (p + 1 + length (PqxxBufferFacts.escape l)) l Hs) as [Hscan Hparse];
    [by apply escape_body|done|done| |].
  { right. eexists. split; [exact Hsc|]. intros [_ Hbq]. by rewrite Hbc in Hbq. }
  unfold reads_as. change (field_content f) with t. rewrite Hend.
  split; [done|]. cbn [is_at]. rewrite Hb.
  rewrite bool_decide_false by solve_member. rewrite bool_decide_true by solve_member. rewrite Hscan.
  cbn [mbind reader_bind mret reader_ret position]. rewrite Hparse, (types_of_at _ _ _ Hf).
  cbn. unfold l. by rewrite string_of_list_ascii_of_string.
Qed.

Lemma number_plain c : number_char c = true →
  plain_char composite_stop c ∧ byte_of c ≠ c_quote.
Proof.
  intros Hc. unfold plain_char. eapply (bool_decide_eq_true_1 _). revert Hc. apply implb_true_iff. revert c.
  apply forall_chars. vm_compute. reflexivity.
Qed.

Lemma int_field_read fs o t n index p c :
  let f := IntField o t n in
  fs !! index = Some f → field_valid enc f →
  occurs text p (field_content f ++ [c]) → stop_char c → reads_as fs index p f.
Proof using Hsafe.
  intros f Hf Ht Ho (Hascii & Hstop & _). cbn [field_content field_valid f] in *.
  set (l := list_ascii_of_string (to_string (int_value n))) in *. destruct (number_text (int_value n)) as [Hnum Hne].
  assert (Hplain : Forall (λ c, plain_char composite_stop c ∧ byte_of c ≠ c_quote) l).
  { unfold l. clear -Hnum. induction (to_string (int_value n)) as [|d s IH]; [by apply List.Forall_nil|].
    cbn in Hnum. apply andb_true_iff in Hnum as [Hd Hs]. apply List.Forall_cons; [by apply number_plain|by apply IH]. }
  assert (∃ d k, l = d :: k) as (d & k & El) by (unfold l; destruct (to_string (int_value n)); [done|cbn; eauto]).
  apply occurs_app in Ho as [Ho Hoc].
  destruct (occurs_ascii enc _ _ _ Hoc Hascii) as (Hsc & Hbc & _).
  destruct (unquoted_read enc text composite_stop l p) as [Hscan Hparse];
    [solve_member|by eapply List.Forall_impl; [|exact Hplain]; intros ? []|done|by rewrite El| |].
  { right. split; [done|]. by rewrite Hbc. }
  assert (Hd : occurs text p [d]) by (rewrite El in Ho; by apply occurs_cons in Ho as [? _]).
  assert (plain_char composite_stop d ∧ byte_of d ≠ c_quote) as [[Hda Hdin] Hdq] by (rewrite El in Hplain; by inversion Hplain).
  destruct (occurs_ascii enc _ _ _ Hd Hda) as (Hs & Hb & _).
  unfold reads_as. change (field_content f) with l.
  split; [done|]. cbn [is_at]. rewrite Hb.
  rewrite bool_decide_false by set_solver. rewrite bool_decide_false by set_solver. rewrite Hscan.
  cbn [mbind reader_bind mret reader_ret position]. rewrite Hparse, (types_of_at _ _ _ Hf).
  unfold l, f, value_from_string. rewrite string_of_list_ascii_of_string. cbn [type_of ft_scalar].
  cbn [mbind reader_bind]. by rewrite int_from_string_text by first [done|apply integral_in_type].
Qed.

Lemma null_field_read fs st index p c :
  let f := NullField st in
  fs !! index = Some f → occurs text p [c] → stop_char c → reads_as fs index p f.
Proof using Hsafe.
  intros f Hf Ho (Hascii & Hstop & _). destruct (occurs_ascii enc _ _ _ Ho Hascii) as (Hs & Hb & _).
  split; [done|]. cbn [is_at]. rewrite Hb, bool_decide_true, (types_of_at _ _ _ Hf) by done.
  cbn. by rewrite Nat.add_0_r.
Qed.

Lemma field_reads_as fs f index p c :
  fs !! index = Some f → field_valid enc f → occurs text p (field_content f ++ [c]) → stop_char c →
  reads_as fs index p f.
Proof using Hsafe.
  intros Hf Hv Ho Hc. destruct f as [o s|o t n|st].
  - by apply (string_field_read fs o s index p c).
  - by apply (int_field_read fs o t n index p c).
  - by apply (null_field_read fs st index p c).
Qed.

Lemma field_read fs f index p last_field c :
  fs !! index = Some f → field_valid enc f →
  occurs text p (field_content f ++ [c]) → ends_field index last_field (p + length (field_content f)) c →
  parse_composite_field enc text (λ i, value_from_string (types_of fs i)) (λ i, value_null no_null (types_of fs i) i)
    index p last_field = Some (Ok (value_of f, p + length (field_content f) + 1)).
Proof using Hsafe.
  intros Hf Hv Ho Hc. pose proof (ends_field_char _ _ _ _ Hc) as Hstop.
  pose proof (field_reads_as fs f index p c Hf Hv Ho Hstop) as Hr. apply occurs_app in Ho as [_ Ho].
  by apply (field_ends _ _ _ _ _ _ c).
Qed.

Lemma fields_read fs done_ rest p :
  fs = done_ ++ rest → rest ≠ [] → Forall (field_valid enc) rest →
  let ts := map field_content rest in
  occurs text p (removelast (comma_terminated ts) ++ [")"%char]) →
  p + length (removelast (comma_terminated ts)) + 1 = String.length text →
  parse_composite_fields enc text (λ i, value_from_string (types_of fs i)) (λ i, value_null no_null (types_of fs i) i)
    (length rest) (length done_) p (length fs - 1) = Some (Ok (map value_of rest, String.length text)).
Proof using Hsafe.
  intros Hfs Hne Hv. revert done_ p Hfs. induction Hv as [|f rest Hf Hv IH]; [done|].
  intros done_ p Hfs. cbv zeta. cbn [length parse_composite_fields map].
  assert (Hget : fs !! length done_ = Some f) by (by rewrite Hfs, list_lookup_middle).
  assert (Hlen : length fs = length done_ + S (length rest)) by (by rewrite Hfs, length_app).
  destruct rest as [|f' rest].
  - cbn [map length] in *. rewrite comma_terminated_one. intros Ho Hend.
    rewrite (field_read fs f _ _ _ ")" Hget Hf Ho) by (right; split; [lia|by split]).
    cbn [mbind reader_bind mret reader_ret parse_composite_fields]. by rewrite Hend.
  - cbn [map length] in *. rewrite comma_terminated_step. rewrite length_app. cbn [length].
    change (field_content f' :: map field_content rest) with (map field_content (f' :: rest)).
    specialize (IH ltac:(done) (done_ ++ [f]) (p + length (field_content f) + 1)). rewrite <-app_assoc in IH. specialize (IH Hfs).
    cbv zeta in IH. cbn [map] in IH. change (field_content f' :: map field_content rest) with (map field_content (f' :: rest)) in IH.
    set (tail := removelast _) in *. rewrite <-app_assoc. intros Ho Hend.
    change ((","%char :: tail) ++ [")"%char]) with ([","%char] ++ tail ++ [")"%char]) in Ho.
    rewrite app_assoc in Ho. apply occurs_app in Ho as [Ho Hrest].
    rewrite length_app in Hrest. cbn [length] in Hrest. rewrite Nat.add_assoc in Hrest.
    rewrite (field_read fs f _ _ _ "," Hget Hf Ho) by (left; split; [lia|done]).
    cbn [mbind reader_bind]. rewrite length_app in IH. cbn [length] in IH.
    replace (length done_ + 1) with (S (length done_)) in IH by lia. by rewrite (IH Hrest) by lia.
Qed.
End composite.

(** *** Composite values *)

Lemma composite_text_reads {bh : Behind} enc no_null (fs : list typed_field) :
  ascii_safe enc = true → Forall (field_valid enc) fs → fs ≠ [] →
  parse_composite enc (string_of_list_ascii (composite_text (map field_content fs)))
    (λ i, value_from_string (types_of fs i)) (λ i, value_null no_null (types_of fs i) i) (length fs) =
  Some (Ok (map value_of fs)).
Proof.
  intros Hsafe Hv Hne. set (ts := map field_content fs). set (text := string_of_list_ascii (composite_text ts)).
  assert (Hlist : list_ascii_of_string text = composite_text ts) by apply list_ascii_of_string_of_list_ascii.
  assert (Hocc : occurs text 0 (composite_text ts)) by (unfold occurs; by rewrite drop_0, Hlist, firstn_all).
  assert (Hlen : String.length text = length (composite_text ts)) by by rewrite <-length_list_ascii, Hlist.
  unfold composite_text in Hlen, Hocc. cbn [length] in Hlen. rewrite length_app in Hlen. cbn [length] in Hlen.
  apply occurs_cons in Hocc as [Hopen Hfields].
  destruct (occurs_ascii enc _ _ _ Hopen ltac:(done)) as (Hs & Hbyte & Hlt).
  assert (Hlast : occurs text (String.length text - 1) [")"%char]).
  { apply occurs_app in Hfields as [_ Hlast]. by replace (String.length text - 1) with
      (0 + 1 + length (removelast (comma_terminated ts))) by lia. }
  destruct (occurs_ascii enc _ _ _ Hlast ltac:(done)) as (_ & Hlastb & _).
  unfold parse_composite. rewrite (proj2 (Nat.eqb_neq _ _)) by lia.
  rewrite (scan_bind_all _ _ _ _ _ Hs), single_next, bool_decide_true by done.
  cbn [is_at]. rewrite Hbyte, bool_decide_true by solve_member.
  cbn [andb negb mbind reader_bind position mret reader_ret].
  pose proof (fields_read enc text no_null Hsafe fs [] fs (0 + 1) eq_refl Hne Hv Hfields ltac:(unfold ts in *; lia)) as Hread.
  cbn [length] in Hread. rewrite Hread. cbn [mbind reader_bind]. rewrite Nat.eqb_refl. cbn [negb is_at].
  by rewrite Hlastb, bool_decide_true by solve_member.
Qed.

(** The field as [composite_into_buf] takes it; [std::nullopt] has no text
    ([string_traits<std::optional<T>>::size_buffer] asks for its value). *)
Definition written (f : typed_field) : option field_value :=
  match f with
  | StringField false s => Some (Field string_traits s)
  | StringField true s => Some (Field (@option_traits string string_traits) (Some s))
  | IntField false t n => Some (Field (integral_traits t) n)
  | IntField true t n => Some (Field (@option_traits _ (integral_traits t)) (Some n))
  | NullField _ => None
  end.

Lemma written_text enc f v : field_valid enc f → written f = Some v → field_text v (field_content f).
Proof.
  destruct f as [o s|o t n|st]; cbn; [intros _|intros Ht|done]; destruct o; intros [= <-].
  - exact (field_text_intro (option string) _ option_laws option_exact (Some s) eq_refl).
  - exact (field_text_intro string _ string_laws string_exact s eq_refl).
  - pose proof (Ht : IsIntType t).
    exact (field_text_intro (option (integral t)) _ option_laws option_exact (Some n) eq_refl).
  - pose proof (Ht : IsIntType t).
    exact (field_text_intro (integral t) _ (integral_laws t) (integral_exact t) n eq_refl).
Qed.

Lemma written_texts enc fs vs :
  Forall (field_valid enc) fs → Forall2 (λ f v, written f = Some v) fs vs →
  Forall2 field_text vs (map field_content fs).
Proof.
  intros Hv Hw. induction Hw as [|f v fs vs Hf _ IH]; cbn [map]; inversion_clear Hv; constructor;
    [by eapply written_text|by apply IH].
Qed.

(** A single field is written with the comma behind it, and needs one byte
    more than [composite_size_buffer] promises. *)
Lemma single_field_writes v t m :
  field_text v t → composite_size_buffer [v] + 1 ≤ length m →
  writes (λ here, composite_into_buf here [v]) [] m ("("%char :: t ++ [","; ")"; NUL]%char).
Proof.
  intros Ht Hm. assert (Hsize : composite_size_buffer [v] = 3 + size_composite_field_buffer v)
    by (unfold composite_size_buffer; cbn; lia).
  assert (Hw : writes (λ here, pos ← put here "("%char; pos ← write_composite_field pos v;
            pos ← put pos ")"%char; put pos NUL) [] m (["("%char] ++ (t ++ [","%char]) ++ [")"%char] ++ [NUL])).
  { apply writes_bind; [apply writes_put; [apply prefix_nil|cbn; lia]|]. intros m1 Hl1 Hp1. cbn [app] in *.
    destruct (write_composite_field_writes v t ["("%char] m1 Ht Hp1) as [Hf Hle]; [cbn; lia|].
    apply writes_bind; [done|]. intros m2 Hl2 Hp2.
    apply (writes_bind (λ here, put here ")"%char) (λ here, put here NUL) _ m2 [")"%char] [NUL]);
      [apply writes_put; [done|]|intros m3 Hl3 Hp3; apply writes_put; [done|]]; rewrite !length_app; cbn; lia. }
  destruct Hw as (m' & Hw & Hrest). exists m'. cbn [app] in *. rewrite <-app_assoc in *. cbn [app] in *.
  split; [|exact Hrest].
  rewrite <-Hw. unfold composite_into_buf, mbind, buf_bind, buf_end. cbn [length].
  rewrite (proj2 (Nat.ltb_ge _ _)) by lia. cbn [write_composite_fields].
  unfold mbind, buf_bind, mret, buf_ret. change (1 <? 1) with false.
  destruct (put 0 _ m) as [[[|] ?]|]; [|reflexivity..]. by destruct (write_composite_field _ _ _) as [[[|] ?]|].
Qed.

(** What the reader makes of the comma. *)
Lemma single_field_refused {bh : Behind} enc no_null f :
  ascii_safe enc = true → field_valid enc f →
  ∃ err, parse_composite enc (string_of_list_ascii ("("%char :: field_content f ++ [","; ")"]%char))
    (λ i, value_from_string (types_of [f] i)) (λ i, value_null no_null (types_of [f] i) i) 1 = Some (Throw err).
Proof.
  intros Hsafe Hv. set (text := string_of_list_ascii _).
  assert (Hlist : list_ascii_of_string text = "("%char :: field_content f ++ [","; ")"]%char)
    by apply list_ascii_of_string_of_list_ascii.
  assert (Hocc : occurs text 0 ("("%char :: field_content f ++ [","; ")"]%char))
    by (unfold occurs; by rewrite drop_0, Hlist, firstn_all).
  apply occurs_cons in Hocc as [Hopen Hfield].
  destruct (occurs_ascii enc _ _ _ Hopen ltac:(done)) as (Hs & Hbyte & Hlt).
  change [","; ")"]%char with ([","%char] ++ [")"%char]) in Hfield. rewrite app_assoc in Hfield.
  apply occurs_app in Hfield as [Hfield _].
  pose proof (field_reads_as enc text no_null Hsafe [f] f 0 (0 + 1) "," eq_refl Hv Hfield comma_stops) as Hr.
  apply occurs_app in Hfield as [_ Hcomma].
  destruct (last_field_refused _ _ _ _ _ _ _ _ Hr Hcomma) as [err Herr]. exists err.
  unfold parse_composite. rewrite (proj2 (Nat.eqb_neq _ _)) by lia.
  rewrite (scan_bind_all _ _ _ _ _ Hs), single_next, bool_decide_true by done.
  cbn [is_at]. rewrite Hbyte, bool_decide_true by solve_member.
  cbn [andb negb mbind reader_bind position mret reader_ret parse_composite_fields Nat.sub]. by rewrite Herr.
Qed.

(** [parse_composite] into variables of the fields' types. *)
Definition read_composite {bh : Behind} (enc : encoding_group) (no_null : nat → exn) (fs : list typed_field)
    (text : list ascii) : reader (list typed_value) :=
  parse_composite enc (string_of_list_ascii text)
    (λ i, value_from_string (types_of fs i)) (λ i, value_null no_null (types_of fs i) i) (length fs).

(** C33. Composite values survive their text format: two or more strings and
    integers, optional or not, written by [composite_into_buf] into a buffer of
    the size [composite_size_buffer] asks for, are read back by
    [parse_composite] into variables of their types.  Reading also gives back
    nulls, which the server writes as nothing; a variable whose type has no null
    refuses them.  A single field, whatever its
    value, is written with the comma that only separates fields, and the
    reader refuses it; and that comma is not counted: with the size that
    [composite_size_buffer] asks for, one empty string is written past the end
    of the buffer. *)
Theorem composite_round_trip (bh : Behind) (no_null : nat → exn) :
  (∀ enc fs vs,
     ascii_safe enc = true → Forall (field_valid enc) fs → 2 ≤ length fs →
     Forall2 (λ f v, written f = Some v) fs vs →
     ∃ e m', composite_into_buf 0 vs (replicate (composite_size_buffer vs) NUL) = Some (Ok e, m') ∧
       read_composite enc no_null fs (take (e - 1) m') = Some (Ok (map value_of fs))) ∧
  (∀ enc fs,
     ascii_safe enc = true → Forall (field_valid enc) fs → fs ≠ [] →
     read_composite enc no_null fs (composite_text (map field_content fs)) = Some (Ok (map value_of fs))) ∧
  (∀ enc, let ty := mk_field_type TString false in
     parse_composite enc "(,)" (λ _, value_from_string ty) (value_null no_null ty) 2 = Some (Throw (no_null 0))) ∧
  (∀ enc f v,
     ascii_safe enc = true → field_valid enc f → written f = Some v →
     ∃ e m' err,
       composite_into_buf 0 [v] (replicate (composite_size_buffer [v] + 1) NUL) = Some (Ok e, m') ∧
       take (e - 1) m' = "("%char :: field_content f ++ [","; ")"]%char ∧
       read_composite enc no_null [f] (take (e - 1) m') = Some (Throw err)) ∧
  (let v := Field string_traits EmptyString in
   composite_into_buf 0 [v] (replicate (composite_size_buffer [v]) NUL) = None).
Proof.
  split; [|split; [|split; [by intros []; vm_compute|split; [|vm_compute; reflexivity]]]].
  - intros enc fs vs Hsafe Hv Hn Hw. pose proof (written_texts enc fs vs Hv Hw) as Hts.
    assert (Hlen : length vs = length fs) by (by apply Forall2_length in Hw).
    destruct (writes_at_start (λ here, composite_into_buf here vs)
      (replicate (composite_size_buffer vs) NUL) (composite_text (map field_content fs))) as (e & m' & Hb & Ht).
    { apply composite_into_buf_writes; [done|lia|apply prefix_nil|]. by rewrite length_replicate. }
    exists e, m'. split; [exact Hb|]. rewrite Ht. apply composite_text_reads; [done|done|].
    destruct fs; [cbn in Hn; lia|done].
  - intros enc fs Hsafe Hv Hne. by apply composite_text_reads.
  - intros enc f v Hsafe Hv Hw.
    destruct (writes_at_start (λ here, composite_into_buf here [v]) (replicate (composite_size_buffer [v] + 1) NUL)
      ("("%char :: field_content f ++ [","; ")"]%char)) as (e & m' & Hb & Ht).
    { pose proof (single_field_writes v _ (replicate (composite_size_buffer [v] + 1) NUL) (written_text enc f v Hv Hw)) as Hs.
      cbn [app]. rewrite <-app_assoc. apply Hs. by rewrite length_replicate. }
    destruct (single_field_refused enc no_null f Hsafe Hv) as [err Herr].
    exists e, m', err. split; [exact Hb|]. split; [exact Ht|]. by rewrite Ht.
Qed.

(** A row of several types. *)
Lemma composite_round_trip_witness :
  let fs := [StringField false (bq "a`,"); IntField true t_int (@mk_integral t_int (-20) eq_refl)] in
  ∃ vs e m', composite_into_buf 0 vs (replicate (composite_size_buffer vs) NUL) = Some (Ok e, m') ∧
    read_composite (bh:=zeros) UTF8 (λ _, conversion_error "null") fs (take (e - 1) m') =
    Some (Ok [VString (bq "a`,"); VInt (-20)]).
Proof.
  intros fs. destruct (composite_round_trip zeros (λ _, conversion_error "null"%string)) as [Hrt _].
  destruct (Hrt UTF8 fs [Field string_traits (bq "a`,");
      Field (@option_traits _ (integral_traits t_int)) (Some (@mk_integral t_int (-20) eq_refl))]) as (e & m' & Hw & Hr).
  - reflexivity.
  - apply List.Forall_cons; [|apply List.Forall_cons; [|apply List.Forall_nil]].
    + apply encoded_ascii. repeat (apply List.Forall_cons; [reflexivity|]). apply List.Forall_nil.
    + cbn. tauto.
  - reflexivity.
  - apply List.Forall2_cons; [reflexivity|]. apply List.Forall2_cons; [reflexivity|]. apply List.Forall2_nil.
  - eexists _, e, m'. split; [exact Hw|exact Hr].
Defined.
