(* ===== verification/PqxxArrayTotal.v ===== *)
(** The array parser ends on every text in every encoding: each call moves on
    inside the text, reports the end, or throws. *)

From stdpp Require Import list sets.
From S2P Require Import Prelude Decimal Exceptions PqxxResult PqxxEncoding PqxxEncodingFacts.
From S2P Require Import PqxxGlyphs PqxxArray PqxxArrayFacts.

Local Open Scope nat_scope.

Section total.
Context {bh : Behind} (enc : encoding_group) (text : string).
Let input : memory := bytes_in text.
Let size : nat := String.length text.
Let scan (p : nat) := glyph_scanner input size p enc.

(** A reader that throws or returns a value with [Q]. *)
Definition total {A} (r : reader A) (Q : A → Prop) : Prop :=
  (∃ e, r = Some (Throw e)) ∨ ∃ a, r = Some (Ok a) ∧ Q a.

Lemma total_ret {A} (a : A) (Q : A → Prop) : Q a → total (mret a) Q.
Proof. right. eauto. Qed.

Lemma total_fails {A} e (Q : A → Prop) : total (fails e) Q.
Proof. left. by exists e. Qed.

Lemma total_bind {A B} (r : reader A) (f : A → reader B) (P : A → Prop) (Q : B → Prop) :
  total r P → (∀ a, P a → total (f a) Q) → total (r ≫= f) Q.
Proof. intros [[e ->]|(a & -> & HP)] Hf; [left; by exists e|by apply Hf]. Qed.

Lemma total_conseq {A} (r : reader A) (P Q : A → Prop) : total r P → (∀ a, P a → Q a) → total r Q.
Proof. intros [[e ->]|(a & -> & HP)] HQ; [left; by exists e|right; eauto]. Qed.

(** A scan: a character, or the end. *)
Definition scanned (p : nat) (next : offset) : Prop :=
  (next = None ∧ size ≤ p) ∨ ∃ n, next = Some n ∧ scan p = Ok (Some n) ∧ p < n ≤ size.

Lemma scan_total p : total (scan_to enc text size (Some p)) (scanned p).
Proof.
  cbn. pose proof (scan_advances enc input size p) as Hs. fold input size.
  destruct (glyph_scanner input size p enc) as [[n|]|e] eqn:E; cbn in Hs.
  - right. exists (Some n). split; [done|]. right. exists n. unfold scan. rewrite E. split; [done|]. split; [done|lia].
  - right. exists None. split; [done|]. by left.
  - left. by exists e.
Qed.

(** ** Double quotes *)

(** A quoted text was found from [start] to its closing quote. *)
Definition quoted_to (q : Z) (escapes : list Z) (start : nat) (e : nat) : Prop :=
  ∃ b out, e = b + 1 ∧ body enc text escapes start b out ∧ scan b = Ok (Some (b + 1)) ∧ input b = q.

Abbreviation dq := [c_backslash; c_quote].

Lemma scan_dq_loop_total start fuel pos next (at_quote : bool) :
  pos ≤ size → size - pos < fuel → scanned pos next →
  (if at_quote then quoted_to c_quote dq start pos else ∃ out, body enc text dq start pos out) →
  total (scan_dq_loop enc text fuel (Some pos) next at_quote)
    (λ e, ∃ p, e = Some p ∧ quoted_to c_quote dq start p).
Proof.
  revert pos next at_quote. induction fuel as [|fuel IH]; intros pos next at_quote Hle Hfuel Hnext Hinv; [lia|].
  cbn [scan_dq_loop before]. fold size. destruct (Nat.ltb_spec pos size) as [Hlt|Hge].
  2: { destruct at_quote; [apply total_ret; eauto|apply total_fails]. }
  destruct Hnext as [[-> ?]|(n & -> & Hs & Hn)]; [lia|]. rewrite single_next.
  assert (Hgo : ∀ q : bool, (if q then quoted_to c_quote dq start n else ∃ out, body enc text dq start n out) →
    total (next' ← scan_to enc text size (Some n); scan_dq_loop enc text fuel (Some n) next' q)
      (λ e, ∃ p, e = Some p ∧ quoted_to c_quote dq start p)).
  { intros q Hq. eapply total_bind; [apply scan_total|]. intros next' Hnext'. apply IH; [lia|lia|done|done]. }
  cbn [is_at]. fold input. destruct at_quote.
  - destruct Hinv as (b & out & -> & Hbody & Hb & Hq).
    case_bool_decide as Hone; [|apply total_ret; exists (b + 1); split; [done|]; by exists b, out].
    case_bool_decide as Hin; [|apply total_ret; exists (b + 1); split; [done|]; by exists b, out].
    cbn [andb]. apply Hgo. eexists. eapply body_app; [exact Hbody|].
    apply (body_escaped enc text dq b n n []); [done|unfold input in Hq; rewrite Hq; solve_member| | |constructor].
    + by rewrite Hone in Hs |- *.
    + right. apply list_elem_of_singleton in Hin. unfold input in *. split; [lia|congruence].
  - destruct Hinv as [out Hbody].
    case_bool_decide as Hone; [subst n|].
    2: { apply Hgo. eexists. eapply body_app; [exact Hbody|].
         apply (body_char enc text dq pos n n []); [done|naive_solver|constructor]. }
    case_bool_decide as Hbs.
    { eapply total_bind; [apply scan_total|]. intros next' [[-> Hend]|(n' & -> & Hs' & Hn')].
      - destruct fuel as [|fuel]; [lia|]. cbn. apply total_fails.
      - eapply total_bind; [apply scan_total|]. intros next'' Hnext''. apply IH; [lia|lia|done|].
        eexists. eapply body_app; [exact Hbody|].
        apply (body_escaped enc text dq pos n' n' []); [done| |done| |constructor].
        + set_solver.
        + left. by apply list_elem_of_singleton in Hbs. }
    case_bool_decide as Hq; apply Hgo.
    + exists pos, out. apply list_elem_of_singleton in Hq. done.
    + eexists. eapply body_app; [exact Hbody|].
      apply (body_char enc text dq pos (pos + 1) (pos + 1) []); [done| |constructor].
      unfold input in *. set_solver.
Qed.

(** A quoted text that was found can be read. *)
Lemma unescape_total q escapes start e :
  quoted_to q escapes start e →
  start < e ≤ size ∧ ∃ next out, scan start = Ok (Some next) ∧ next ≤ e ∧
    ∀ fuel, e ≤ start + fuel →
    unescape_loop enc text escapes e fuel (Some start) (Some next) EmptyString = Some (Ok out).
Proof.
  intros (b & out & -> & Hbody & Hb & Hq). pose proof (body_le _ _ _ _ _ _ Hbody) as Hle.
  pose proof (scan_inside _ _ _ _ Hb) as Hbs. split; [fold size in Hbs; lia|].
  destruct (unescape_body enc text escapes (b + 1) start b out Hbody Hb eq_refl (b + 1 - start) EmptyString
    ltac:(lia)) as (next & Hs & _).
  exists next, (string_of_list_ascii out). split; [done|].
  split; [by eapply body_next_le|]. intros fuel Hfuel.
  destruct (unescape_body enc text escapes (b + 1) start b out Hbody Hb eq_refl fuel EmptyString
    ltac:(lia)) as (next' & Hs' & Hr).
  by rewrite (scan_inj _ _ _ _ _ Hs Hs').
Qed.

Lemma double_quoted_total p :
  scan p = Ok (Some (p + 1)) →
  total (scan_double_quoted_string enc text p)
    (λ e, ∃ e', e = Some e' ∧ p < e' ≤ size ∧ ∃ out, parse_double_quoted_string enc text e' p = Some (Ok out)).
Proof.
  intros Hp. pose proof (scan_inside _ _ _ _ Hp) as Hps. fold size in Hps.
  unfold scan_double_quoted_string, parse_double_quoted_string. fold size.
  rewrite (scan_bind_all _ _ _ _ _ Hp). eapply total_bind; [apply scan_total|]. intros next Hnext.
  eapply total_conseq.
  { apply (scan_dq_loop_total (p + 1)); [lia|lia|done|]. eexists. constructor. }
  intros e (e' & -> & Hq). exists e'. split; [done|].
  destruct (unescape_total _ _ _ _ Hq) as (He & next' & out & Hs & Hle & Hr). split; [lia|]. exists out.
  rewrite (scan_bind _ _ _ _ _ _ Hp), (scan_bind _ _ _ _ _ _ Hs) by (fold size; lia). apply Hr. lia.
Qed.

(** ** Unquoted text *)

Lemma scan_unquoted_loop_total stop start fuel pos next at_backslash :
  pos ≤ size → size - pos < fuel → scanned pos next → (∃ out, body enc text [] start pos out) →
  total (scan_unquoted_loop enc text stop fuel (Some pos) next at_backslash)
    (λ e, ∃ p, e = Some p ∧ pos ≤ p ≤ size ∧ (∃ out, body enc text [] start p out) ∧
          (p = pos → size ≤ pos ∨ next = Some (pos + 1) ∧ input pos ∈ stop)).
Proof.
  revert pos next at_backslash.
  induction fuel as [|fuel IH]; intros pos next at_backslash Hle Hfuel Hnext Hbody; [lia|].
  cbn [scan_unquoted_loop]. fold size. destruct (before (Some pos) size && _) eqn:Econd.
  - apply andb_true_iff in Econd as [Hlt%Nat.ltb_lt _].
    destruct Hnext as [[-> ?]|(n & -> & Hs & Hn)]; [lia|].
    eapply total_bind; [apply scan_total|]. intros next' Hnext'.
    eapply total_conseq; [apply IH; [lia|lia|done|]|].
    + destruct Hbody as [out Hbody]. eexists. eapply body_app; [exact Hbody|].
      apply (body_char enc text [] pos n n []); [done|set_solver|constructor].
    + intros e (p & -> & Hp & Hb & _). exists p. split; [done|]. split; [lia|]. split; [done|lia].
  - apply total_ret. exists pos. split; [done|]. split; [lia|]. split; [done|]. intros _.
    apply andb_false_iff in Econd as [Hge|Hstop]; [left; by apply Nat.ltb_ge in Hge|].
    apply orb_false_iff in Hstop as [[Hone%negb_false_iff _]%orb_false_iff Hin%negb_false_iff].
    destruct Hnext as [[-> ?]|(n & -> & Hs & Hn)]; [by left|right].
    rewrite single_next in Hone. apply bool_decide_eq_true in Hone as ->.
    by apply bool_decide_eq_true in Hin.
Qed.

Lemma scan_to_len len : scan_to enc text len (Some len) = Some (Ok None).
Proof.
  cbn. f_equal. pose proof (scan_advances enc input len len) as H. fold input.
  destruct (glyph_scanner input len len enc) as [[n|]|e]; cbn in H; [lia|done|lia].
Qed.

Lemma parse_unquoted_loop_total a b out :
  body enc text [] a b out → b ≤ size →
  ∀ fuel at_backslash acc, b - a < fuel → ∃ next res, scan_to enc text b (Some a) = Some (Ok next) ∧
    parse_unquoted_loop enc text b fuel (Some a) next at_backslash acc = Some (Ok res).
Proof.
  induction 1 as [b|a n b out _ Hin _ _ _ _|a n b out Hs _ Hbody IH]; intros Hb fuel at_backslash acc Hfuel.
  - exists None, acc. split; [apply scan_to_len|]. destruct fuel as [|fuel]; [lia|].
    cbn [parse_unquoted_loop before]. by rewrite Nat.ltb_irrefl.
  - by apply not_elem_of_nil in Hin.
  - pose proof (body_le _ _ _ _ _ _ Hbody) as Hle. pose proof (scan_inside _ _ _ _ Hs) as Hn.
    destruct fuel as [|fuel]; [lia|].
    assert (Hgo : ∀ q acc', ∃ res, (next' ← scan_to enc text b (Some n);
              parse_unquoted_loop enc text b fuel (Some n) next' q acc') = Some (Ok res)).
    { intros q acc'. destruct (IH Hb fuel q acc' ltac:(lia)) as (next' & res & Hn' & Hr).
      exists res. cbn [mbind reader_bind]. by rewrite Hn'. }
    exists (Some n). destruct (negb at_backslash && single (Some a) (Some n) && is_at text (Some a) [c_backslash]) eqn:Eb.
    + destruct (Hgo true acc) as [res Hres]. exists res.
      split; [apply (scan_to_char _ _ _ _ _ Hs); fold size; lia|].
      cbn [parse_unquoted_loop before]. rewrite (proj2 (Nat.ltb_lt _ _)) by lia. by rewrite Eb.
    + destruct (Hgo false (acc +:+ substring a (n - a) text)) as [res Hres]. exists res.
      split; [apply (scan_to_char _ _ _ _ _ Hs); fold size; lia|].
      cbn [parse_unquoted_loop before]. rewrite (proj2 (Nat.ltb_lt _ _)) by lia. rewrite Eb.
      unfold append_glyph. rewrite (proj2 (Nat.leb_le a n)) by lia. exact Hres.
Qed.

Lemma unquoted_total stop p :
  p < size →
  total (scan_unquoted_string enc text stop p)
    (λ e, ∃ e', e = Some e' ∧ p ≤ e' ≤ size ∧
       (∃ out, parse_unquoted_string enc text e' p = Some (Ok out)) ∧
       (e' = p → scan p = Ok (Some (p + 1)) ∧ input p ∈ stop)).
Proof.
  intros Hp. unfold scan_unquoted_string, parse_unquoted_string. fold size.
  eapply total_bind; [apply scan_total|]. intros next Hnext.
  eapply total_conseq; [apply (scan_unquoted_loop_total stop p); [lia|lia|done|eexists; constructor]|].
  intros e (e' & -> & He & (out & Hbody) & Hsame). exists e'. split; [done|]. split; [done|]. split.
  - destruct (parse_unquoted_loop_total _ _ _ Hbody (proj2 He) (S e') false EmptyString ltac:(lia))
      as (next' & res & Hn & Hr). exists res. cbn [mbind reader_bind]. by rewrite Hn.
  - intros ->. destruct (Hsame eq_refl) as [?|[-> Hin]]; [lia|].
    destruct Hnext as [[? _]|(n & Heq & Hs & _)]; [done|]. by simplify_eq.
Qed.

(** ** Single quotes *)

Abbreviation sq := [c_apostrophe; c_backslash].

(** The next quote or backslash, behind characters that are neither. *)
Definition escape_at (h pos : nat) : Prop :=
  h ≤ pos ≤ size ∧ (∃ out, body enc text sq h pos out) ∧
  (pos < size → scan pos = Ok (Some (pos + 1)) ∧ input pos ∈ sq).

Lemma search_total fuel h :
  h ≤ size → size - h < fuel →
  total (find_char enc input size [c_backslash; c_apostrophe] fuel h) (escape_at h).
Proof.
  revert h. induction fuel as [|fuel IH]; intros h Hle Hfuel; [lia|]. cbn [find_char].
  destruct (Nat.ltb_spec h size) as [Hlt|Hge].
  2: { right. exists size. split; [done|]. split; [lia|].
       assert (h = size) as -> by lia. split; [eexists; constructor|lia]. }
  destruct (scan_cases enc input size h Hlt) as [(next & Hs & Hn)|(e & Hs & _)]; rewrite Hs;
    [|left; by exists e].
  destruct (bool_decide (input h ∈ _) && _) eqn:Econd.
  - apply andb_true_iff in Econd as [Hin%bool_decide_eq_true Hone%Nat.eqb_eq].
    right. exists h. split; [done|]. split; [lia|]. split; [eexists; constructor|]. intros _.
    rewrite <-Hone. split; [done|]. set_solver.
  - eapply total_conseq; [apply IH; lia|]. intros pos (Hpos & (out & Hbody) & Hend).
    split; [lia|]. split; [|done]. eexists. eapply body_char; [exact Hs| |exact Hbody].
    intros [Hone Hin]. apply andb_false_iff in Econd as [Hnin%bool_decide_eq_false|Hne%Nat.eqb_neq]; [|done].
    apply Hnin. unfold input in *. set_solver.
Qed.

Lemma find_escape_total h :
  h ≤ size → total (find_escape enc text (Some h)) (escape_at h).
Proof. intros Hle. apply search_total; [done|fold size; lia]. Qed.

Lemma scan_sq_loop_total start fuel here h :
  start ≤ h → h ≤ here → size - here < fuel → (∃ out, body enc text sq start h out) → escape_at h here →
  total (scan_sq_loop enc text fuel here) (quoted_to c_apostrophe sq start).
Proof.
  revert here h. induction fuel as [|fuel IH]; intros here h Hst Hle Hfuel (out & Hbody) (Hh & (out' & Hbody') & Hend);
    [lia|].
  pose proof (body_app _ _ _ _ _ _ _ _ Hbody Hbody') as Hall.
  cbn [scan_sq_loop]. fold size. destruct (Nat.ltb_spec here size) as [Hlt|_]; [|apply total_fails].
  destruct (Hend Hlt) as [Hs Hin]. cbn [is_at]. fold input.
  assert (Hquote : input here = c_apostrophe → quoted_to c_apostrophe sq start (here + 1)).
  { intros Hq. by exists here, (out ++ out'). }
  assert (Hgo : ∀ n, here + 1 < n ≤ size → (∃ k, body enc text sq here n k) →
    total (here ← find_escape enc text (Some n); scan_sq_loop enc text fuel here)
      (quoted_to c_apostrophe sq start)).
  { intros n Hn (k & Hk). eapply total_bind; [apply find_escape_total; lia|].
    intros here' Hesc. pose proof Hesc as (Hle' & _). apply (IH here' n); [lia|lia|lia| |done].
    eexists. eapply body_app; [exact Hall|exact Hk]. }
  case_bool_decide as Hq.
  - apply list_elem_of_singleton in Hq. destruct (Nat.leb_spec size (here + 1)) as [_|Hlt']; [by apply total_ret, Hquote|].
    case_bool_decide as Hq2; cbn [negb]; [|by apply total_ret, Hquote].
    eapply total_bind; [apply scan_total|]. intros next Hnext.
    destruct (single (Some (here + 1)) next) eqn:Hone; cbn [negb]; [|by apply total_ret, Hquote].
    destruct Hnext as [[-> ?]|(n & -> & Hs' & Hn)]; [done|]. rewrite single_next in Hone.
    apply bool_decide_eq_true in Hone as ->. apply Hgo; [lia|]. eexists.
    eapply (body_escaped enc text sq here); [done|unfold input in Hq; rewrite Hq; solve_member|exact Hs'| |constructor].
    right. apply list_elem_of_singleton in Hq2. unfold input in *. split; [lia|congruence].
  - eapply total_bind; [apply scan_total|]. intros next [[-> Hge]|(n & -> & Hs' & Hn)].
    + cbn [find_escape]. eapply total_bind; [by apply (total_ret _ (λ a, a = size))|]. intros a ->.
      destruct fuel as [|fuel]; [lia|]. cbn [scan_sq_loop]. fold size. rewrite Nat.ltb_irrefl. apply total_fails.
    + apply Hgo; [lia|]. eexists.
      eapply (body_escaped enc text sq here); [done|exact Hin|exact Hs'| |constructor].
      left. unfold input in *. set_solver.
Qed.

Lemma single_quoted_total p :
  scan p = Ok (Some (p + 1)) →
  total (scan_single_quoted_string enc text p)
    (λ e, p < e ≤ size ∧ ∃ out, parse_single_quoted_string enc text e p = Some (Ok out)).
Proof.
  intros Hp. pose proof (scan_inside _ _ _ _ Hp) as Hps. fold size in Hps.
  unfold scan_single_quoted_string, parse_single_quoted_string.
  eapply total_bind; [apply find_escape_total; lia|]. intros here Hesc. pose proof Hesc as (Hle & _).
  eapply total_conseq.
  { apply (scan_sq_loop_total (p + 1) _ here (p + 1)); [done|lia|fold size; lia| |done].
    eexists. constructor. }
  intros e Hq. destruct (unescape_total _ _ _ _ Hq) as (He & next & out & Hs & Hn & Hr). split; [lia|].
  exists out. rewrite (scan_bind _ _ _ _ _ _ Hs) by (fold size; lia). apply Hr. lia.
Qed.

(** ** The parser *)

Lemma unquoted_value_total p :
  p < size →
  total (unquoted_value enc text p) (λ '(e, _), p ≤ e ≤ size ∧
    (e = p → scan p = Ok (Some (p + 1)) ∧ input p ∈ array_stop)).
Proof.
  intros Hp. unfold unquoted_value. eapply total_bind with (P := λ e, p ≤ e ≤ size ∧
    (∃ out, parse_unquoted_string enc text e p = Some (Ok out)) ∧
    (e = p → scan p = Ok (Some (p + 1)) ∧ input p ∈ array_stop)).
  - eapply total_bind; [by apply unquoted_total|]. intros e (e' & -> & He). by apply total_ret.
  - intros e (He & (out & Hparse) & Hsame). rewrite Hparse. cbn [mbind reader_bind]. by apply total_ret.
Qed.

(** An item moves on, or is the empty text before a separator. *)
Lemma array_item_total p :
  p < size →
  total (array_item enc text p) (λ '(found, _, e), found ≠ done ∧ p ≤ e ≤ size ∧
    (e = p → scan p = Ok (Some (p + 1)) ∧ input p ∈ [c_comma; c_semicolon])).
Proof.
  intros Hp. unfold array_item. fold size. eapply total_bind; [apply scan_total|].
  intros next [[-> ?]|(n & -> & Hs & Hn)]; [lia|]. rewrite single_next.
  case_bool_decide as Hone; cbn [negb]; [subst n|].
  2: { eapply total_bind; [by apply unquoted_value_total|]. intros [e value] [He Hsame].
       apply total_ret. split; [done|]. split; [done|]. intros ->.
       destruct (Hsame eq_refl) as [Hs' _]. exfalso. apply Hone. by eapply scan_inj. }
  fold input. destruct (input p =? 0)%Z; [apply total_fails|].
  destruct (input p =? c_lbrace)%Z; [apply total_ret; split; [done|]; split; [lia|intros ?; lia]|].
  destruct (Z.eqb_spec (input p) c_rbrace) as [_|Hr]; [apply total_ret; split; [done|]; split; [lia|intros ?; lia]|].
  destruct (input p =? c_apostrophe)%Z.
  { eapply total_bind; [by apply single_quoted_total|]. intros e (He & out & Hparse). rewrite Hparse.
    apply total_ret. split; [done|]. split; [lia|intros ?; lia]. }
  destruct (input p =? c_quote)%Z.
  { eapply total_bind with (P := λ e, p < e ≤ size ∧
      ∃ out, parse_double_quoted_string enc text e p = Some (Ok out)).
    - eapply total_bind; [by apply double_quoted_total|]. intros e (e' & -> & He). by apply total_ret.
    - intros e (He & out & Hparse). rewrite Hparse. apply total_ret. split; [done|]. split; [lia|intros ?; lia]. }
  eapply total_bind; [by apply unquoted_value_total|]. intros [e value] [He Hsame].
  assert (e = p → scan p = Ok (Some (p + 1)) ∧ input p ∈ [c_comma; c_semicolon]) as Hsep.
  { intros Heq. destruct (Hsame Heq) as [_ Hin]. split; [done|]. set_solver. }
  destruct (String.eqb value "NULL"); by apply total_ret.
Qed.

Lemma skip_separator_total e :
  e ≤ size → total (skip_separator enc text e) (λ e', e ≤ e' ≤ size ∧
    (e < size → scan e = Ok (Some (e + 1)) → input e ∈ [c_comma; c_semicolon] → e' = e + 1)).
Proof.
  intros He. unfold skip_separator. fold size. destruct (Nat.ltb_spec e size) as [Hlt|Hge].
  2: { apply total_ret. split; [lia|intros ?; lia]. }
  eapply total_bind; [apply scan_total|]. intros next [[-> ?]|(n & -> & Hs & Hn)]; [lia|].
  rewrite single_next. cbn [is_at]. fold input.
  destruct (bool_decide (n = e + 1) && _) eqn:Econd; apply total_ret.
  - apply andb_true_iff in Econd as [->%bool_decide_eq_true _]. split; [lia|done].
  - split; [lia|]. intros _ Hs' Hin. apply andb_false_iff in Econd as [Hne|Hnin].
    + apply bool_decide_eq_false in Hne. destruct Hne. by eapply scan_inj.
    + by apply bool_decide_eq_false in Hnin.
Qed.

Lemma get_next_total p :
  p ≤ size →
  total (get_next enc text p) (λ '(found, _, p'),
    if decide (found = done) then p = size else p < p' ≤ size).
Proof.
  intros Hp. unfold get_next. fold size. destruct (Nat.leb_spec size p) as [Hge|Hlt].
  { apply total_ret. rewrite decide_True by done. lia. }
  eapply total_bind; [by apply array_item_total|]. intros [[found value] e] (Hfound & He & Hsame).
  eapply total_bind; [apply skip_separator_total; lia|]. intros e' (He' & Hsep). apply total_ret.
  rewrite decide_False by done. destruct (decide (e = p)) as [->|Hne]; [|lia].
  destruct (Hsame eq_refl) as [Hs Hin]. rewrite (Hsep Hlt Hs Hin) in *. lia.
Qed.
End total.

Lemma parse_array_total {bh : Behind} enc text fuel p :
  p ≤ String.length text → String.length text - p < fuel →
  total (parse_array enc text fuel p) (λ _, True).
Proof.
  revert p. induction fuel as [|fuel IH]; intros p Hp Hfuel; [lia|]. cbn [parse_array].
  eapply total_bind; [by apply get_next_total|]. intros [[found value] p'] Hnext.
  destruct (decide (found = done)) as [->|Hne]; [by apply total_ret|].
  destruct found; try done; (eapply total_bind; [apply IH; lia|]); intros rest _; by apply total_ret.
Qed.

(** ** What is behind the text

    The memory behind the text plays no part, except that the scanner for
    MULE_INTERNAL sees its first byte. *)
Section behind_the_text.
Context (bh bh' : Behind) (enc : encoding_group) (text : string) (Hb : same_behind enc bh bh').
Let size : nat := String.length text.

Lemma scan_to_same len pos :
  len ≤ size → scan_to (bh:=bh) enc text len pos = scan_to (bh:=bh') enc text len pos.
Proof using Hb. intros Hlen. destruct pos as [p|]; [|done]. cbn [scan_to]. by rewrite (scan_behind enc bh bh'). Qed.

Lemma is_at_same pos cs :
  before pos size = true → is_at (bh:=bh) text pos cs = is_at (bh:=bh') text pos cs.
Proof. destruct pos as [p|]; [|done]. intros Hp%Nat.ltb_lt. cbn [is_at]. rewrite (bytes_inside bh bh' text p Hp). reflexivity. Qed.

Lemma before_shorter pos len : len ≤ size → before pos len = true → before pos size = true.
Proof. destruct pos as [p|]; [|done]. cbn. intros ? ?%Nat.ltb_lt. apply Nat.ltb_lt. lia. Qed.

(** A character starts inside of the text. *)
Lemma single_before pos next :
  scan_to (bh:=bh) enc text size pos = Some (Ok next) → single pos next = true → before pos size = true.
Proof.
  destruct pos as [p|]; [|done]. cbn. intros [= Hs]. pose proof (scan_advances enc (bytes_in (bh:=bh) text) size p) as Ha.
  fold size in Hs. rewrite Hs in Ha. destruct next as [n|]; [|done]. intros _. apply Nat.ltb_lt. cbn in Ha. lia.
Qed.

Ltac same_scan := apply scan_to_same; unfold size in *; lia.

Lemma scan_dq_loop_same fuel pos next at_quote :
  scan_dq_loop (bh:=bh) enc text fuel pos next at_quote = scan_dq_loop (bh:=bh') enc text fuel pos next at_quote.
Proof using Hb.
  revert pos next at_quote. induction fuel as [|fuel IH]; intros pos next at_quote; [done|]. cbn [scan_dq_loop].
  fold size. destruct (before pos size) eqn:Hbefore; [|done]. rewrite !(is_at_same pos) by done.
  assert (Hgo : ∀ n (q : bool), (next' ← scan_to (bh:=bh) enc text size n; scan_dq_loop (bh:=bh) enc text fuel n next' q) =
    (next' ← scan_to (bh:=bh') enc text size n; scan_dq_loop (bh:=bh') enc text fuel n next' q)).
  { intros n q. apply bind_ext; [same_scan|]. intros; apply IH. }
  cbv zeta. destruct at_quote; [destruct (single pos next && _); [apply Hgo|reflexivity]|].
  destruct (single pos next); [|apply Hgo]. destruct (is_at text pos [c_backslash]).
  - apply bind_ext; [same_scan|]. intros; apply Hgo.
  - destruct (is_at text pos [c_quote]); apply Hgo.
Qed.

Lemma scan_double_same p :
  scan_double_quoted_string (bh:=bh) enc text p = scan_double_quoted_string (bh:=bh') enc text p.
Proof using Hb.
  unfold scan_double_quoted_string. apply bind_ext; [same_scan|]. intros next _.
  apply bind_ext; [same_scan|]. intros; apply scan_dq_loop_same.
Qed.

Lemma unescape_loop_same escapes end_ fuel here next out :
  end_ ≤ size →
  unescape_loop (bh:=bh) enc text escapes end_ fuel here next out =
  unescape_loop (bh:=bh') enc text escapes end_ fuel here next out.
Proof using Hb.
  intros Hend. revert here next out. induction fuel as [|fuel IH]; intros here next out; [done|].
  cbn [unescape_loop]. destruct (before here (end_ - 1)) eqn:Hbefore; [|done].
  rewrite (is_at_same here) by (eapply before_shorter; [|done]; lia).
  apply bind_ext.
  - case_match; [|done]. apply bind_ext; [same_scan|done].
  - intros [here' next'] _. apply bind_ext; [done|]. intros out' _. apply bind_ext; [same_scan|]. intros; apply IH.
Qed.

Lemma parse_double_same e p :
  e ≤ size → parse_double_quoted_string (bh:=bh) enc text e p = parse_double_quoted_string (bh:=bh') enc text e p.
Proof using Hb.
  intros He. unfold parse_double_quoted_string. apply bind_ext; [same_scan|]. intros here _.
  apply bind_ext; [same_scan|]. intros; by apply unescape_loop_same.
Qed.

Lemma scan_unquoted_loop_same stop fuel pos next at_backslash :
  scan_unquoted_loop (bh:=bh) enc text stop fuel pos next at_backslash =
  scan_unquoted_loop (bh:=bh') enc text stop fuel pos next at_backslash.
Proof using Hb.
  revert pos next at_backslash. induction fuel as [|fuel IH]; intros pos next at_backslash; [done|].
  cbn [scan_unquoted_loop]. fold size. destruct (before pos size) eqn:Hbefore; cbn [andb]; [|done].
  rewrite (is_at_same pos) by done. case_match; [|done]. apply bind_ext; [same_scan|]. intros next' Hn.
  rewrite IH. f_equal. destruct (single next next') eqn:Hone; [|by rewrite !andb_false_r].
  by rewrite (is_at_same next) by (by eapply single_before).
Qed.

Lemma scan_unquoted_same stop p :
  scan_unquoted_string (bh:=bh) enc text stop p = scan_unquoted_string (bh:=bh') enc text stop p.
Proof using Hb.
  unfold scan_unquoted_string. apply bind_ext; [same_scan|]. intros; apply scan_unquoted_loop_same.
Qed.

Lemma parse_unquoted_loop_same end_ fuel pos next at_backslash out :
  end_ ≤ size →
  parse_unquoted_loop (bh:=bh) enc text end_ fuel pos next at_backslash out =
  parse_unquoted_loop (bh:=bh') enc text end_ fuel pos next at_backslash out.
Proof using Hb.
  intros Hend. revert pos next at_backslash out. induction fuel as [|fuel IH]; intros pos next at_backslash out; [done|].
  cbn [parse_unquoted_loop]. destruct (before pos end_) eqn:Hbefore; [|done].
  rewrite (is_at_same pos) by (by eapply before_shorter).
  apply bind_ext; [done|]. intros out' _. apply bind_ext; [same_scan|]. intros; apply IH.
Qed.

Lemma parse_unquoted_same e p :
  e ≤ size → parse_unquoted_string (bh:=bh) enc text e p = parse_unquoted_string (bh:=bh') enc text e p.
Proof using Hb.
  intros He. unfold parse_unquoted_string. apply bind_ext; [same_scan|]. intros; by apply parse_unquoted_loop_same.
Qed.

Lemma find_char_same needle fuel h :
  find_char enc (bytes_in (bh:=bh) text) size needle fuel h = find_char enc (bytes_in (bh:=bh') text) size needle fuel h.
Proof using Hb.
  revert h. induction fuel as [|fuel IH]; intros h; [done|]. cbn [find_char].
  destruct (Nat.ltb_spec h size) as [Hlt|]; [|done]. rewrite (scan_behind enc bh bh') by done.
  rewrite (bytes_inside bh bh') by done. by destruct (glyph_scanner _ _ _ _) as [[n|]|e]; [rewrite IH|..].
Qed.

Lemma scan_sq_loop_same fuel here :
  scan_sq_loop (bh:=bh) enc text fuel here = scan_sq_loop (bh:=bh') enc text fuel here.
Proof using Hb.
  assert (Hfind : ∀ o, find_escape (bh:=bh) enc text o = find_escape (bh:=bh') enc text o).
  { intros [h|]; [apply find_char_same|done]. }
  revert here. induction fuel as [|fuel IH]; intros here; [done|]. cbn [scan_sq_loop]. fold size.
  destruct (Nat.ltb_spec here size) as [Hlt|]; [|done].
  rewrite (is_at_same (Some here)) by (by apply Nat.ltb_lt). destruct (is_at _ _ _).
  - destruct (Nat.leb_spec size (here + 1)) as [|Hlt']; [done|].
    rewrite (is_at_same (Some (here + 1))) by (by apply Nat.ltb_lt). case_match; [done|].
    apply bind_ext; [same_scan|]. intros next _. case_match; [done|].
    apply bind_ext; [apply Hfind|]. intros; apply IH.
  - apply bind_ext; [same_scan|]. intros next _. apply bind_ext; [apply Hfind|]. intros; apply IH.
Qed.

Lemma scan_single_same p :
  scan_single_quoted_string (bh:=bh) enc text p = scan_single_quoted_string (bh:=bh') enc text p.
Proof using Hb. apply bind_ext; [apply find_char_same|]. intros; apply scan_sq_loop_same. Qed.

Lemma parse_single_same e p :
  e ≤ size → parse_single_quoted_string (bh:=bh) enc text e p = parse_single_quoted_string (bh:=bh') enc text e p.
Proof using Hb.
  intros He. unfold parse_single_quoted_string. apply bind_ext; [same_scan|]. intros; by apply unescape_loop_same.
Qed.

(** What a total reader returns. *)
Lemma total_value {A} (r : reader A) (Q : A → Prop) a : total r Q → r = Some (Ok a) → Q a.
Proof. intros [[e ->]|(a' & -> & HQ)] E; by simplify_eq. Qed.

Lemma unquoted_value_same p :
  p < size → unquoted_value (bh:=bh) enc text p = unquoted_value (bh:=bh') enc text p.
Proof using Hb.
  intros Hp. unfold unquoted_value. apply bind_ext; [apply bind_ext; [apply scan_unquoted_same|done]|].
  intros e He. apply bind_ext; [|done]. apply parse_unquoted_same.
  destruct (scan_unquoted_string _ _ _ _) as [[o|]|] eqn:Es; [|done..].
  destruct (total_value _ _ _ (unquoted_total enc text array_stop p Hp) Es) as (e' & -> & Hle & _).
  assert (e' = e) as -> by (unfold mbind, reader_bind, position, mret, reader_ret in He; congruence).
    unfold size. lia.
Qed.

Lemma array_item_same p :
  p < size → array_item (bh:=bh) enc text p = array_item (bh:=bh') enc text p.
Proof using Hb.
  intros Hp. unfold array_item. apply bind_ext; [same_scan|]. intros next Hn.
  rewrite (unquoted_value_same p), (bytes_inside bh bh') by done.
  destruct (negb (single (Some p) next)) eqn:Hone; [reflexivity|]. apply negb_false_iff in Hone.
  assert (Hs : glyph_scanner (bytes_in (bh:=bh) text) size p enc = Ok (Some (p + 1))).
  { destruct next as [n|]; [|done]. cbn in Hone. apply Nat.eqb_eq in Hone as ->. cbn in Hn. by injection Hn. }
  cbv zeta. set (c := bytes_in text p). do 3 (destruct (c =? _)%Z; [reflexivity|]).
  destruct (c =? c_apostrophe)%Z; [|destruct (c =? c_quote)%Z; [|reflexivity]].
  - apply bind_ext; [apply scan_single_same|]. intros e He. apply bind_ext; [|done]. apply parse_single_same.
    destruct (total_value _ _ _ (single_quoted_total enc text p Hs) He) as [Hle _]. unfold size. lia.
  - apply bind_ext; [apply bind_ext; [apply scan_double_same|done]|]. intros e He.
    apply bind_ext; [|done]. apply parse_double_same.
    destruct (scan_double_quoted_string _ _ _) as [[o|]|] eqn:Es; [|done..].
    destruct (total_value _ _ _ (double_quoted_total enc text p Hs) Es) as (e' & -> & Hle & _).
    assert (e' = e) as -> by (unfold mbind, reader_bind, position, mret, reader_ret in He; congruence).
    unfold size. lia.
Qed.

Lemma get_next_same p : get_next (bh:=bh) enc text p = get_next (bh:=bh') enc text p.
Proof using Hb.
  unfold get_next. fold size. destruct (Nat.leb_spec size p) as [|Hp]; [done|].
  apply bind_ext; [by apply array_item_same|]. intros [[found value] e] _. apply bind_ext; [|done].
  unfold skip_separator. fold size. destruct (Nat.ltb_spec e size) as [He|]; [|done].
  apply bind_ext; [same_scan|]. intros next _. by rewrite (is_at_same (Some e)) by (by apply Nat.ltb_lt).
Qed.

Lemma parse_array_same fuel p : parse_array (bh:=bh) enc text fuel p = parse_array (bh:=bh') enc text fuel p.
Proof using Hb.
  revert p. induction fuel as [|fuel IH]; intros p; [done|]. cbn [parse_array].
  apply bind_ext; [apply get_next_same|]. intros [[found value] p'] _.
  destruct found; first [apply bind_ext; [apply IH|reflexivity]|reflexivity].
Qed.
End behind_the_text.

