(* ===== verification/PqxxTransactionFacts.v ===== *)
(** The protocol a [pqxx::work] follows, whatever the server answers: which
    SQL commands are sent and in which order, the states of the transaction
    object, and that the connection is free again at the end. *)

From S2P Require Import Prelude Exceptions Effects EffectsFacts PqxxResult PqxxTransaction.

Section protocol.
Context `{Env}.

(** The server's reply to the statement sent by event [e] was [reply], and it
    reports no error. *)
Definition answered (e : event) (reply : pg_result) (h : history) : Prop :=
  ∃ h1 h2, h = h2 ++ e :: h1 ∧ PQexec (e :: h1) = Some reply ∧
    check_status EmptyString reply = Ok tt.

Lemma answered_app e reply es h : answered e reply h → answered e reply (es ++ h).
Proof.
  intros (h1 & h2 & -> & H1). exists h1, (es ++ h2). split; [apply app_assoc|done].
Qed.

(** The server acknowledged the statement. *)
Definition acked (e : event) (h : history) : Prop := ∃ reply, answered e reply h.

(** The value a statement is executed for holds the reply. *)
Class Carries (A : Type) := carries : A → pg_result → Prop.
#[export] Instance carries_result : Carries query_result := λ r reply, m_data r = reply.
#[export] Instance carries_unit : Carries unit := λ _ _, True.

(** Being in exactly the state [s0] with the SQL commands [log] sent. *)
Definition at_state {S} (s0 : S) (log : list string) : S → history → Prop :=
  λ s h, s = s0 ∧ sql_log h = log.

Lemma grows_process_notice {S} msg : grows (S:=S) (process_notice msg).
Proof. unfold process_notice. solve_grows. Qed.
Lemma grows_conn_exec q desc : grows (conn_exec q desc).
Proof.
  unfold conn_exec, make_result, err_msg, is_open, encoding_id, get_notifs, consume_input.
  unfold is_open. solve_grows.
Qed.
Hint Resolve grows_process_notice grows_conn_exec : grows.
Lemma grows_direct_exec q desc : grows (direct_exec q desc).
Proof. unfold direct_exec, check_pending_error, set_pending_error, on_conn. solve_grows. Qed.
Hint Resolve grows_direct_exec : grows.
Lemma grows_abort_with close_ : grows close_ → grows (abort_with close_).
Proof. intros Hc. unfold abort_with, abort_as, description, do_abort, set_status. solve_grows. Qed.
Lemma grows_close_with abort_ : grows abort_ → grows (close_with abort_).
Proof.
  intros Ha. unfold close_with, check_pending_error, set_pending_error, when, set_registered,
    tx_unregister, on_conn, unregister_transaction, description.
  solve_grows.
Qed.
Lemma grows_close : grows close.
Proof. by repeat first [apply grows_close_with | apply grows_abort_with | apply grows_quiet; eauto]. Qed.
Hint Resolve grows_close : grows.

Lemma grows_commit : grows commit.
Proof.
  unfold commit, commit_as, do_commit, check_pending_error, set_pending_error, description, is_open, on_conn,
    set_status, is_open.
  solve_grows.
Qed.

(** ** Executing a statement leaves the connection object as it was *)

Definition exec_post {S A} `{Carries A} (s0 : S) (log : list string) (e : event)
  : result exn A → S → history → Prop :=
  λ r s h, s = s0 ∧ sql_log h = log ++ sql_of e ∧
    ∀ a, r = Ok a → ∃ reply, answered e reply h ∧ carries a reply.

(** Dropping the result. *)
Lemma exec_post_drop {S A} `{Carries A} (s0 : S) log e (r : result exn A) s h :
  exec_post s0 log e r s h →
  exec_post s0 log e (match r with Ok _ => Ok tt | Throw ex => Throw ex end) s h.
Proof.
  intros (-> & Hl & Ha). split; [done|]. split; [done|]. intros [] Hr. destruct r as [a|]; [|done].
  destruct (Ha a eq_refl) as (reply & Hrep & _). by exists reply.
Qed.

Lemma is_open_triple c0 log :
  triple (at_state c0 log) is_open (λ r c h, at_state c0 log c h ∧ is_ok r = true).
Proof.
  intros c h [-> <-]. unfold is_open, get, mbind, prog_bind, ask. cbn.
  by destruct (m_conn c0).
Qed.

(** Programs that only read leave state and events as they were. *)
Definition reads {S A} (m : prog S A) : Prop := ∀ s h, ∃ r, m s h = (r, s, h).

Lemma reads_bind {S A B} (m : prog S A) (f : A → prog S B) :
  reads m → (∀ a, reads (f a)) → reads (m ≫= f).
Proof.
  intros Hm Hf s h. unfold mbind, prog_bind. destruct (Hm s h) as [[a|e] ->]; [|eauto].
  apply Hf.
Qed.
Lemma reads_ret {S A} (a : A) : reads (S:=S) (mret a).
Proof. intros s h. by eexists. Qed.
Lemma reads_throw {S A} e : reads (S:=S) (A:=A) (throw e).
Proof. intros s h. by eexists. Qed.
Lemma reads_get {S} : reads (S:=S) get.
Proof. intros s h. by eexists. Qed.
Lemma reads_ask {S A} (f : history → A) : reads (S:=S) (ask f).
Proof. intros s h. by eexists. Qed.
Lemma reads_lift {S A} (r : result exn A) : reads (S:=S) (lift_result r).
Proof. intros s h. by eexists. Qed.

Create HintDb prog_reads.
Hint Resolve reads_ret reads_throw reads_get reads_ask reads_lift : prog_reads.

Ltac solve_reads :=
  repeat first
    [ apply reads_bind; [|intros ?] | solve [auto with prog_reads] | case_match ].

Lemma reads_is_open : reads is_open.
Proof. unfold is_open. solve_reads. Qed.
Lemma reads_err_msg : reads err_msg.
Proof. unfold err_msg. solve_reads. Qed.
Hint Resolve reads_is_open reads_err_msg : prog_reads.
Lemma reads_encoding_id : reads encoding_id.
Proof. unfold encoding_id. solve_reads. Qed.
Hint Resolve reads_encoding_id : prog_reads.
Lemma reads_make_result pgr q desc : reads (make_result pgr q desc).
Proof. unfold make_result. destruct pgr; solve_reads. Qed.

(** A result is made only of a reply without an error. *)
Lemma make_result_ok pgr q c h r c' h' :
  make_result pgr q EmptyString c h = (Ok r, c', h') →
  ∃ reply, pgr = Some reply ∧ check_status EmptyString reply = Ok tt ∧ m_data r = reply.
Proof.
  unfold make_result. destruct pgr as [reply|].
  - unfold mbind, prog_bind, lift_result. destruct (encoding_id c h) as [[[id|?] ?] ?]; [|done].
    destruct (enc_group _); [|done]. destruct (check_status _ reply) as [[]|] eqn:Es; [|done].
    intros [= <- _ _]. by exists reply.
  - unfold mbind, prog_bind, throw. destruct (is_open c h) as [[[[]|?] ?] ?]; [|done..].
    by destruct (err_msg _ _) as [[[?|?] ?] ?].
Qed.

(** Sending a statement, from the moment its event is recorded. *)
Lemma after_exec_triple (e : event) pgr q c0 log :
  m_conn c0 = true → sql_of e ≠ [] →
  triple (λ c h, c = c0 ∧ ∃ h0, h = e :: h0 ∧ sql_log h0 = log ∧ pgr = PQexec h)
    (res ← make_result pgr q EmptyString; _ ← get_notifs; mret res)
    (exec_post c0 log e).
Proof.
  intros Hc He c h [-> (h0 & -> & <- & ->)]. unfold mbind at 1, prog_bind at 1.
  destruct (reads_make_result (PQexec (e :: h0)) q EmptyString c0 (e :: h0)) as [r Er].
  rewrite Er. destruct r as [res|ex]; [|by repeat split].
  apply make_result_ok in Er as (reply & Hr & Hs & Hd).
  unfold get_notifs, consume_input, mbind, prog_bind, get, interact, throw, ask. rewrite Hc.
  destruct (PQconsumeInput _); cbn [negb]; [|split; [done|split; [apply app_nil_r|done]]].
  assert (Ha : answered e reply (PqConsumeInput :: e :: h0)).
  { apply (answered_app _ _ [PqConsumeInput]). by exists h0, []. }
  destruct (m_trans c0); (split; [done|split; [apply app_nil_r|]]); intros a [= <-]; eauto.
Qed.

(** *** Exactly what happens when a statement is sent

    Whether the library takes a statement, the last event of [h], for carried
    out: the server answered without an error, in a known encoding, and the
    connection could still be read. *)
Definition carried_out (h : history) : bool :=
  match PQexec h with
  | Some reply =>
      negb (PQclientEncoding h =? -1)%Z && is_ok (enc_group (pg_encoding_to_char (PQclientEncoding h))) &&
      is_ok (check_status EmptyString reply) && PQconsumeInput (PqConsumeInput :: h)
  | None => false
  end.

(** [m] sends the statement [e] and nothing else, and returns the server's reply
    exactly if the statement was carried out. *)
Definition sends_one {S} (e : event) (s0 : S) (m : prog S query_result) : Prop :=
  ∀ h, ∃ r es, m s0 h = (r, s0, es ++ e :: h) ∧ Forall (λ e', sql_of e' = []) es ∧
    is_ok r = carried_out (e :: h) ∧
    ∀ a, r = Ok a → es = [PqConsumeInput] ∧ PQexec (e :: h) = Some (m_data a).

Lemma make_result_carried pgr q c0 h :
  m_conn c0 = true →
  ∃ r, make_result pgr q EmptyString c0 h = (r, c0, h) ∧
    is_ok r = match pgr with
              | Some reply => negb (PQclientEncoding h =? -1)%Z &&
                  is_ok (enc_group (pg_encoding_to_char (PQclientEncoding h))) && is_ok (check_status EmptyString reply)
              | None => false
              end.
Proof.
  intros Hc.
  assert (Ho : is_open c0 h = (Ok (PQstatus_ok h), c0, h)).
  { unfold is_open, get, mbind, prog_bind. by rewrite Hc. }
  unfold make_result. destruct pgr as [reply|].
  - rewrite prog_bind_unfold.
    assert (encoding_id c0 h = (if (PQclientEncoding h =? -1)%Z
        then if PQstatus_ok h then Throw (failure_exn "Could not obtain client encoding.")
             else Throw (broken_exn "Lost connection to the database server.")
        else Ok (PQclientEncoding h), c0, h)) as ->.
    { unfold encoding_id. rewrite prog_bind_unfold. unfold get. rewrite Hc, prog_bind_unfold. unfold ask.
      destruct (_ =? -1)%Z; [|done]. rewrite prog_bind_unfold, Ho. by destruct (PQstatus_ok h). }
    destruct (_ =? -1)%Z; cbn [negb andb]; [by destruct (PQstatus_ok h); eexists|].
    rewrite prog_bind_unfold. unfold lift_result. destruct (enc_group _); [|by eexists].
    rewrite prog_bind_unfold. by destruct (check_status _ reply); eexists.
  - rewrite prog_bind_unfold, Ho. destruct (PQstatus_ok h); [|by eexists].
    rewrite prog_bind_unfold. unfold err_msg, get, mbind, prog_bind. rewrite Hc. by eexists.
Qed.

Lemma after_exec_one e q c0 h :
  m_conn c0 = true →
  ∃ r es, (res ← make_result (PQexec (e :: h)) q EmptyString; _ ← get_notifs; mret res) c0 (e :: h) =
      (r, c0, es ++ e :: h) ∧ Forall (λ e', sql_of e' = []) es ∧ is_ok r = carried_out (e :: h) ∧
    ∀ a, r = Ok a → es = [PqConsumeInput] ∧ PQexec (e :: h) = Some (m_data a).
Proof.
  intros Hc. rewrite prog_bind_unfold. unfold carried_out.
  destruct (make_result_carried (PQexec (e :: h)) q c0 (e :: h) Hc) as (r & Er & Hr). rewrite Er.
  destruct r as [res|ex]; cbn [is_ok] in Hr.
  2: { exists (Throw ex), []. split; [done|]. split; [constructor|]. split; [|done].
       destruct (PQexec (e :: h)); [by rewrite <-Hr|done]. }
  apply make_result_ok in Er as (reply & Hp & _ & Hd). rewrite Hp in *. rewrite <-Hr.
  unfold get_notifs, consume_input, mbind, prog_bind, get, interact, throw, ask. rewrite Hc. cbn [andb].
  destruct (PQconsumeInput _); cbn [negb].
  - exists (Ok res), [PqConsumeInput]. split; [by destruct (m_trans c0)|].
    split; [by repeat constructor|]. split; [done|]. intros a [= <-]. by rewrite Hd.
  - eexists _, [PqConsumeInput]. split; [reflexivity|]. split; [by repeat constructor|]. by split.
Qed.

Lemma conn_exec_one q c0 : m_conn c0 = true → sends_one (PqExec (c_str q)) c0 (conn_exec q EmptyString).
Proof.
  intros Hc h. unfold conn_exec. rewrite !prog_bind_unfold. unfold get, interact. rewrite Hc.
  by apply after_exec_one.
Qed.

Lemma conn_exec_params_one q args c0 :
  m_conn c0 = true →
  sends_one (PqExecParams (c_str q) (map (fmap c_str) args)) c0 (conn_exec_params q args).
Proof.
  intros Hc h. unfold conn_exec_params. rewrite !prog_bind_unfold. unfold get, interact. rewrite Hc.
  by apply after_exec_one.
Qed.

Lemma conn_exec_triple q c0 log :
  m_conn c0 = true →
  triple (at_state c0 log) (conn_exec q EmptyString) (exec_post c0 log (PqExec (c_str q))).
Proof.
  intros Hc c h [-> <-].
  pose proof (after_exec_triple (PqExec (c_str q)) (PQexec (PqExec (c_str q) :: h)) q c0
    (sql_log h) Hc ltac:(done) c0 (PqExec (c_str q) :: h)) as Ha.
  unfold conn_exec, mbind at 1 2, prog_bind at 1 2, get, interact. rewrite Hc. apply Ha. eauto.
Qed.

Lemma conn_exec_params_triple q args c0 log :
  m_conn c0 = true →
  triple (at_state c0 log) (conn_exec_params q args)
    (exec_post c0 log (PqExecParams (c_str q) (map (fmap c_str) args))).
Proof.
  intros Hc c h [-> <-]. set (e := PqExecParams _ _).
  pose proof (after_exec_triple e (PQexec (e :: h)) q c0
    (sql_log h) Hc ltac:(done) c0 (e :: h)) as Ha.
  unfold conn_exec_params, mbind at 1 2, prog_bind at 1 2, get, interact. rewrite Hc.
  apply Ha. eauto.
Qed.
(** ** The states of a transaction

    The transaction [ptr], unnamed, on a live connection: its status, and
    whether it is registered.  No focus and no pending error. *)

Definition work_guest (ptr : positive) : guest := mk_guest ptr "transaction" EmptyString.

Definition sess (ptr : positive) (st : tx_status) (reg : bool) : session :=
  mk_session (mk_connection true (if reg then Some (work_guest ptr) else None))
    (mk_transaction ptr EmptyString st reg EmptyString None).

Lemma on_conn_triple {A} (m : prog connection A) (s0 : session) log
    (Q : result exn A → connection → history → Prop) (Q' : result exn A → session → history → Prop) :
  triple (at_state (s_conn s0) log) m Q →
  (∀ r c h, Q r c h → Q' r (mk_session c (s_tx s0)) h) →
  triple (at_state s0 log) (on_conn m) Q'.
Proof.
  intros Hm HQ. eapply triple_zoom; [exact Hm| |exact HQ].
  by intros t h [-> <-].
Qed.

Lemma exec_post_session {A} `{Carries A} (s0 : session) log e (r : result exn A) c h :
  exec_post (s_conn s0) log e r c h → exec_post s0 log e r (mk_session c (s_tx s0)) h.
Proof. intros (-> & ? & ?). by destruct s0. Qed.

(** Without a pending error the check does nothing. *)
Lemma check_pending_bind {A} s0 (k : unit → prog session A) h :
  m_pending_error (s_tx s0) = EmptyString →
  (check_pending_error ≫= k) s0 h = k tt s0 h.
Proof. intros E. unfold check_pending_error, gets, mbind, prog_bind. by rewrite E. Qed.

(** Sending a statement through a session. *)
Lemma direct_exec_calm q s0 log :
  m_pending_error (s_tx s0) = EmptyString → m_conn (s_conn s0) = true →
  triple (at_state s0 log) (direct_exec q EmptyString) (exec_post s0 log (PqExec (c_str q))).
Proof.
  intros Hp Hc s h [-> <-]. unfold direct_exec. rewrite check_pending_bind by done.
  apply (on_conn_triple _ s0 (sql_log h)
    (exec_post (s_conn s0) (sql_log h) (PqExec (c_str q)))); [|apply exec_post_session|done].
  by apply conn_exec_triple.
Qed.

Lemma on_conn_one e (m : prog connection query_result) s0 :
  sends_one e (s_conn s0) m → sends_one e s0 (on_conn m).
Proof.
  intros Hm h. destruct (Hm h) as (r & es & E & Hes). exists r, es. split; [|done].
  unfold on_conn, zoom. rewrite E. by destruct s0.
Qed.

Lemma direct_exec_one q s0 :
  m_pending_error (s_tx s0) = EmptyString → m_conn (s_conn s0) = true →
  sends_one (PqExec (c_str q)) s0 (direct_exec q EmptyString).
Proof.
  intros Hp Hc h. unfold direct_exec. rewrite check_pending_bind by done.
  by apply on_conn_one, conn_exec_one.
Qed.

Lemma direct_exec_triple q ptr st reg log :
  triple (at_state (sess ptr st reg) log) (direct_exec q EmptyString)
    (exec_post (sess ptr st reg) log (PqExec (c_str q))).
Proof. by apply direct_exec_calm. Qed.

(** The session while a command holds the focus. *)
Definition focused (s : session) (f : guest) : session :=
  let t := s_tx s in
  mk_session (s_conn s) (mk_transaction (tx_ptr t) (m_name t) (m_status t)
    (m_registered t) (m_pending_error t) (Some f)).

(** The guard of a command leaves the focus as it found it. *)
Lemma command_triple {A} `{Carries A} oname (body : prog session A) s0 log e :
  m_focus (s_tx s0) = None →
  (∀ f, let s1 := focused s0 f in triple (at_state s1 log) body (exec_post s1 log e)) →
  triple (at_state s0 log) (command oname body) (exec_post s0 log e).
Proof.
  destruct s0 as [c [ptr name st reg err focus]]. cbn. intros -> Hbody s h [-> <-].
  unfold command, register_focus, set_focus, gets, mbind at 1 2 3 4,
    prog_bind at 1 2 3 4, lift_result, modify. cbn -[finally].
  set (f := mk_guest 1 "command" oname). specialize (Hbody f). cbv zeta in Hbody.
  specialize (Hbody _ h (conj eq_refl eq_refl)). cbn in Hbody.
  unfold finally. destruct (body _ h) as [[r s1] h1].
  destruct Hbody as (-> & Hlog & Hack).
  unfold unregister_focus, try_catch, gets, mbind, prog_bind, lift_result, set_focus, modify. cbn.
  by destruct (decide _).
Qed.

Lemma command_one oname (body : prog session query_result) s0 e :
  m_focus (s_tx s0) = None → (∀ f, sends_one e (focused s0 f) body) → sends_one e s0 (command oname body).
Proof.
  destruct s0 as [c [ptr name st reg err focus]]. cbn. intros -> Hbody h.
  unfold command, register_focus, set_focus, gets, mbind at 1 2 3 4,
    prog_bind at 1 2 3 4, lift_result, modify. cbn -[finally].
  set (f := mk_guest 1 "command" oname). specialize (Hbody f h). unfold focused in Hbody. cbn in Hbody.
  destruct Hbody as (r & es & E & Hes). exists r, es. split; [|done]. unfold finally. rewrite E.
  unfold unregister_focus, try_catch, gets, mbind, prog_bind, lift_result, set_focus, modify. cbn.
  by destruct (decide _).
Qed.

Lemma tx_exec_one q s0 :
  m_pending_error (s_tx s0) = EmptyString → m_conn (s_conn s0) = true →
  m_focus (s_tx s0) = None → m_status (s_tx s0) = active →
  sends_one (PqExec (c_str q)) s0 (tx_exec q EmptyString).
Proof.
  intros Hp Hc Hf Hst h. unfold tx_exec. rewrite check_pending_bind by done.
  apply (command_one _ _ s0); [done|]. intros f h'. rewrite prog_bind_unfold. unfold gets.
  cbn [s_tx m_status focused]. rewrite Hst. by apply direct_exec_one.
Qed.

Lemma tx_exec_params_one q args s0 :
  m_conn (s_conn s0) = true → m_focus (s_tx s0) = None →
  sends_one (PqExecParams (c_str q) (map (fmap c_str) args)) s0 (tx_exec_params q args).
Proof.
  intros Hc Hf. apply command_one; [done|]. intros f. by apply (on_conn_one _ _ (focused s0 f)), conn_exec_params_one.
Qed.

Lemma tx_exec_calm q s0 log :
  m_pending_error (s_tx s0) = EmptyString → m_conn (s_conn s0) = true →
  m_focus (s_tx s0) = None → m_status (s_tx s0) = active →
  triple (at_state s0 log) (tx_exec q EmptyString) (exec_post s0 log (PqExec (c_str q))).
Proof.
  intros Hp Hc Hf Hst s h [-> <-]. unfold tx_exec. rewrite check_pending_bind by done.
  apply (command_triple _ _ s0 (sql_log h) (PqExec (c_str q)) Hf); [|done].
  intros f. cbv zeta. intros s h' [-> <-]. unfold gets, mbind, prog_bind.
  cbn [s_tx m_status focused]. rewrite Hst. by apply direct_exec_calm.
Qed.

Lemma tx_exec_triple q ptr reg log :
  triple (at_state (sess ptr active reg) log) (tx_exec q EmptyString)
    (exec_post (sess ptr active reg) log (PqExec (c_str q))).
Proof. by apply tx_exec_calm. Qed.

Lemma tx_exec_params_triple q args ptr reg log :
  triple (at_state (sess ptr active reg) log) (tx_exec_params q args)
    (exec_post (sess ptr active reg) log (PqExecParams (c_str q) (map (fmap c_str) args))).
Proof.
  apply command_triple; [done|]. intros f. cbv zeta.
  apply (on_conn_triple _ (focused (sess ptr active reg) f) log
    (exec_post (s_conn (sess ptr active reg)) log
       (PqExecParams (c_str q) (map (fmap c_str) args))));
    [|apply (exec_post_session (focused (sess ptr active reg) f))].
  by apply conn_exec_params_triple.
Qed.
(** ** Registration, commit, close *)

Lemma tx_unregister_run ptr st h :
  tx_unregister (mk_session (mk_connection true (Some (work_guest ptr)))
                   (mk_transaction ptr EmptyString st false EmptyString None)) h =
  (Ok tt, sess ptr st false, h).
Proof.
  unfold tx_unregister. rewrite prog_bind_unfold. unfold gets, on_conn, zoom.
  unfold unregister_transaction. rewrite !prog_bind_unfold. unfold get, try_catch, lift_result.
  cbn. by rewrite decide_True by done.
Qed.

Lemma unregister_on ptr st log :
  let s0 := mk_session (mk_connection true (Some (work_guest ptr)))
              (mk_transaction ptr EmptyString st false EmptyString None) in
  triple (at_state s0 log) tx_unregister
    (λ r s h, r = Ok tt ∧ at_state (sess ptr st false) log s h).
Proof. cbv zeta. intros s h [-> <-]. by rewrite tx_unregister_run. Qed.

Lemma process_notice_triple {S} msg (s0 : S) log :
  triple (at_state s0 log) (process_notice msg)
    (λ r s h, r = Ok tt ∧ at_state s0 log s h).
Proof.
  intros s h [-> <-]. unfold process_notice, emit.
  destruct (is_empty msg); split; try done. by split; [|apply sql_log_other].
Qed.

Lemma notices_throw {S A} m1 m2 e (s0 : S) log :
  triple (at_state s0 log) (process_notice m1;; process_notice m2;; throw (A:=A) e)
    (λ r s h, r = Throw e ∧ at_state s0 log s h).
Proof.
  eapply (triple_bind _ _ _ (λ _, at_state s0 log)).
  { eapply triple_conseq; [apply process_notice_triple|done|]. by intros r s h [-> ?]. }
  intros _. eapply (triple_bind _ _ _ (λ _, at_state s0 log)).
  { eapply triple_conseq; [apply process_notice_triple|done|]. by intros r s h [-> ?]. }
  intros _. by apply triple_throw.
Qed.

Lemma do_commit_triple ptr reg log :
  triple (at_state (sess ptr active reg) log) do_commit
    (exec_post (sess ptr active reg) log (PqExec "COMMIT")).
Proof.
  unfold do_commit.
  apply (triple_try _ _ _ (λ _ s h, at_state (sess ptr active reg) (log ++ ["COMMIT"%string]) s h)).
  - eapply triple_bind; [eapply triple_conseq; [apply (direct_exec_triple "COMMIT")|done|]|].
    + intros [a|e] s h (-> & Hl & Ha); [|by split].
      instantiate (1 := λ _ s h, exec_post (sess ptr active reg) log (PqExec "COMMIT") (Ok tt) s h).
      exact (exec_post_drop _ _ _ (Ok a) _ h (conj eq_refl (conj Hl Ha))).
    + intros a. by apply triple_ret.
  - intros e. set (s0 := sess ptr active reg).
    assert (Hthrow : ∀ (m : prog session unit) log',
      triple (at_state s0 log') m (λ r s h, is_ok r = false ∧ at_state s0 log' s h) →
      log' = log ++ ["COMMIT"%string] →
      triple (at_state s0 log') m (exec_post s0 log (PqExec "COMMIT"))).
    { intros m log' Hm ->. eapply triple_conseq; [exact Hm|done|].
      intros r s h (Hr & -> & Hl). split; [done|]. split; [done|]. by intros a ->. }
    apply Hthrow; [|done]. generalize (log ++ ["COMMIT"%string]). clear Hthrow. intros log'.
    assert (Hn : ∀ m1 m2 e', triple (at_state s0 log')
      (process_notice m1;; process_notice m2;; throw (A:=unit) e')
      (λ r s h, is_ok r = false ∧ at_state s0 log' s h)).
    { intros m1 m2 e'. eapply triple_conseq; [apply notices_throw|done|]. by intros r s h [-> ?]. }
    apply (triple_bind _ _ _ (λ t s h, at_state s0 log' s h)); [by apply triple_gets|].
    intros t. cbv zeta. case_decide; [apply Hn|].
    apply (triple_bind _ _ _ (λ _ s h, at_state s0 log' s h)).
    { apply (on_conn_triple _ s0 log' (λ r c h, at_state (s_conn s0) log' c h ∧ is_ok r = true)).
      - apply is_open_triple.
      - intros r c h [[-> Hl] Hr]. by destruct r. }
    intros []; cbn [negb]; [|apply Hn]. by apply triple_throw.
Qed.
(** What every cleanup step ends with. *)
Definition ends_at {S A} (a : A) (s0 : S) (log : list string)
  : result exn A → S → history → Prop :=
  λ r s h, r = Ok a ∧ at_state s0 log s h.

(** The first half of [close]: pending errors and the registration. *)
Lemma close_unregister ptr st reg log {B} (k : transaction → prog session B) Q :
  triple (at_state (sess ptr st false) log)
    (k (mk_transaction ptr EmptyString st reg EmptyString None)) Q →
  triple (at_state (sess ptr st reg) log)
    (try_catch check_pending_error (λ e, process_notice (what e));;
     t ← gets s_tx;
     when (m_registered t) (set_registered false;; tx_unregister);;
     k t) Q.
Proof.
  intros Hk.
  apply (triple_bind _ _ _ (λ _, at_state (sess ptr st reg) log)).
  { by intros s h [-> <-]. }
  intros _. intros s h [-> <-]. unfold gets, mbind at 1, prog_bind at 1.
  cbn [sess s_tx m_registered]. destruct reg; [|by apply Hk].
  unfold when. pose proof (unregister_on ptr st (sql_log h)) as Hu. cbv zeta in Hu.
  specialize (Hu _ h (conj eq_refl eq_refl)).
  unfold set_registered, modify, mbind, prog_bind in *. cbn [sess s_tx s_conn tx_ptr m_name
    m_status m_pending_error m_focus].
  destruct (tx_unregister _ h) as [[r s1] h1]. destruct Hu as [-> Hu]. by apply Hk.
Qed.

Lemma close_with_ended ptr st reg log abort_ :
  st ≠ active →
  triple (at_state (sess ptr st reg) log) (close_with abort_)
    (ends_at tt (sess ptr st false) log).
Proof.
  intros Hst. unfold close_with. apply close_unregister. cbn [m_status].
  rewrite decide_True by done. by apply triple_ret.
Qed.

(** Nothing is sent or noticed when a finished transaction is closed. *)
Lemma close_with_ended_run abort_ ptr st h :
  st ≠ active → close_with abort_ (sess ptr st true) h = (Ok tt, sess ptr st false, h).
Proof.
  intros Hst.
  set (s1 := mk_session (mk_connection true (Some (work_guest ptr)))
               (mk_transaction ptr EmptyString st false EmptyString None)).
  trans (match tx_unregister s1 h with
         | (Ok _, s', h') => (Ok tt, s', h')
         | (Throw e, s', h') => (Throw e, s', h')
         end : result exn unit * session * history).
  - unfold close_with, when. rewrite prog_bind_unfold.
    change (try_catch check_pending_error _ _ h) with (@Ok exn unit tt, sess ptr st true, h).
    cbv iota beta. rewrite prog_bind_unfold.
    change (gets s_tx _ h) with (@Ok exn _ (s_tx (sess ptr st true)), sess ptr st true, h).
    cbn [sess s_tx m_registered m_status]. rewrite (decide_True _ _ Hst). reflexivity.
  - unfold s1. by rewrite tx_unregister_run.
Qed.

Lemma close_ended_run ptr st h :
  st ≠ active → close (sess ptr st true) h = (Ok tt, sess ptr st false, h).
Proof. apply close_with_ended_run. Qed.

Lemma abort_with_active ptr log close_ :
  (∀ log', triple (at_state (sess ptr aborted false) log') close_
             (ends_at tt (sess ptr aborted false) log')) →
  triple (at_state (sess ptr active false) log) (abort_with close_)
    (ends_at tt (sess ptr aborted false) (log ++ ["ROLLBACK"%string])).
Proof.
  intros Hclose. unfold abort_with, abort_as, description.
  intros s h [-> <-]. unfold gets, mbind at 1 2, prog_bind at 1 2. cbn [sess s_tx m_status].
  set (log := sql_log h). set (s0 := sess ptr active false).
  assert (Ha : triple (at_state s0 log)
    (try_catch do_abort (λ e, process_notice (what e +:+ NL)))
    (ends_at tt s0 (log ++ ["ROLLBACK"%string]))).
  { apply (triple_try _ _ _ (λ _ s h, at_state s0 (log ++ ["ROLLBACK"%string]) s h)).
    - unfold do_abort. apply (triple_bind _ _ _ (λ _, at_state s0 (log ++ ["ROLLBACK"%string]))).
      + eapply triple_conseq; [apply (direct_exec_triple "ROLLBACK")|done|].
        by intros [|] s h' (-> & Hl & _).
      + intros _. by apply triple_ret.
    - intros e. apply process_notice_triple. }
  specialize (Ha s0 h (conj eq_refl eq_refl)). unfold mbind at 1, prog_bind at 1.
  destruct (try_catch _ _ s0 h) as [[r s1] h1]. destruct Ha as [-> [-> Hl]].
  unfold set_status, modify, mbind, prog_bind. exact (Hclose _ _ h1 (conj eq_refl Hl)).
Qed.

(** Ending the scope of an active transaction rolls it back. *)
Lemma close_active ptr reg log :
  triple (at_state (sess ptr active reg) log) close
    (ends_at tt (sess ptr aborted false) (log ++ ["ROLLBACK"%string])).
Proof.
  unfold close, close_n at 1, close_with at 1. apply close_unregister. cbn [m_status m_focus].
  rewrite decide_False by auto.
  apply (triple_bind _ _ _ (λ _, at_state (sess ptr active false) log)); [by apply triple_gets|].
  intros _. apply (triple_bind _ _ _ (λ _, at_state (sess ptr active false) log)).
  { by apply triple_ret. }
  intros _. apply (triple_try _ _ _ (λ _ _ _, False)); [|intros e; apply triple_false].
  eapply triple_conseq; [apply abort_with_active|done|].
  - intros log'. by apply close_with_ended.
  - by intros r s h [-> ?].
Qed.

Lemma close_ended ptr st reg log :
  st ≠ active →
  triple (at_state (sess ptr st reg) log) close (ends_at tt (sess ptr st false) log).
Proof. apply close_with_ended. Qed.

(** The three ways a commit ends. *)
Lemma commit_triple ptr log :
  triple (at_state (sess ptr active true) log) commit
    (λ r s h,
      (r = Ok tt ∧ s = sess ptr committed false ∧ sql_log h = log ++ ["COMMIT"%string] ∧
       acked (PqExec "COMMIT") h) ∨
      (is_ok r = false ∧ at_state (sess ptr active true) log s h) ∨
      (is_ok r = false ∧ ∃ st, (st = aborted ∨ st = in_doubt) ∧
       at_state (sess ptr st true) (log ++ ["COMMIT"%string]) s h)).
Proof.
  intros s h [-> <-]. unfold commit, commit_as. rewrite check_pending_bind by done.
  unfold description, gets, mbind at 1 2, prog_bind at 1 2. cbn [sess s_tx m_status m_focus].
  set (s0 := sess ptr active true).
  pose proof (on_conn_triple is_open s0 (sql_log h)
    (λ r c h', at_state (s_conn s0) (sql_log h) c h' ∧ is_ok r = true)
    (λ r s h', at_state s0 (sql_log h) s h' ∧ is_ok r = true) (is_open_triple _ _)) as Ho.
  specialize (Ho ltac:(by intros r c h' [[-> ?] ?]) s0 h (conj eq_refl eq_refl)).
  unfold mbind at 1, prog_bind at 1. destruct (on_conn is_open s0 h) as [[r s1] h1].
  destruct Ho as [[-> Hl] Hr]. destruct r as [open|]; [|done]. clear Hr.
  destruct open; cbn [negb]; [|right; left; by split].
  pose proof (do_commit_triple ptr true (sql_log h) s0 h1 (conj eq_refl Hl)) as Hc.
  unfold mbind at 1, prog_bind at 1, try_catch, mbind at 1, prog_bind at 1.
  destruct (do_commit s0 h1) as [[r s2] h2]. destruct Hc as (-> & Hl2 & Hack).
  destruct r as [[]|e].
  - unfold set_status, modify.
    change (close _ h2) with (close (sess ptr committed true) h2).
    rewrite close_ended_run by done. left. repeat split; [done|].
    destruct (Hack tt eq_refl) as (reply & Hr & _). by exists reply.
  - right; right. unfold set_status, modify, throw, mbind, prog_bind.
    split; [done|]. exists (if decide (exn_kind e = pqxx_in_doubt_error) then in_doubt else aborted).
    split; [case_decide; auto|]. by split.
Qed.

(** ** The scope of a transaction *)

Lemma close_unregistered_run ptr st h :
  st ≠ active → close (sess ptr st false) h = (Ok tt, sess ptr st false, h).
Proof.
  intros Hst. unfold close, close_n at 1, close_with at 1, when. rewrite prog_bind_unfold.
  change (try_catch check_pending_error _ _ h) with (@Ok exn unit tt, sess ptr st false, h).
  cbv iota beta. rewrite prog_bind_unfold.
  change (gets s_tx _ h) with (@Ok exn _ (s_tx (sess ptr st false)), sess ptr st false, h).
  cbn [sess s_tx m_registered m_status]. by rewrite (decide_True _ _ Hst).
Qed.

(** The destructor frees the connection; it does nothing more to a
    transaction that was closed. *)
Lemma destroy_unregistered ptr st h :
  transaction_base_destroy (sess ptr st false) h = (Ok tt, sess ptr st false, h).
Proof. reflexivity. Qed.

Definition free : connection := mk_connection true None.

Lemma destroy_triple ptr st reg log :
  triple (at_state (sess ptr st reg) log) transaction_base_destroy
    (λ r s h, s_conn s = free ∧ sql_log h = log).
Proof.
  destruct reg; [|by intros s h [-> <-]].
  unfold transaction_base_destroy, description.
  intros s h [-> <-]. unfold gets, mbind at 1 2, prog_bind at 1 2. cbn [sess s_tx].
  unfold when. cbn [m_pending_error m_registered is_empty negb]. unfold mbind at 1, prog_bind at 1.
  cbn [mret prog_ret]. rewrite prog_bind_unfold.
  pose proof (process_notice_triple
    (describe_object "transaction" EmptyString +:+ " was never closed properly!" +:+ NL)
    (sess ptr st true) (sql_log h) _ h (conj eq_refl eq_refl)) as Hn.
  cbn [sess m_name] in *. destruct (process_notice _ _ h) as [[r s1] h1].
  destruct Hn as (-> & -> & Hl).
  unfold tx_unregister. rewrite prog_bind_unfold. unfold gets, on_conn, zoom.
  unfold unregister_transaction. rewrite !prog_bind_unfold. unfold get, try_catch, lift_result.
  cbn. by rewrite decide_True by done.
Qed.

Lemma tx_register_run ptr h :
  tx_register (sess ptr active false) h = (Ok tt, sess ptr active true, h).
Proof. reflexivity. Qed.

Lemma work_init_triple ptr log :
  triple (at_state (sess ptr active false) log) basic_transaction_init
    (exec_post (sess ptr active true) log (PqExec "BEGIN")).
Proof.
  intros s h [-> <-]. unfold basic_transaction_init. rewrite prog_bind_unfold, tx_register_run.
  cbv iota beta.
  pose proof (direct_exec_triple "BEGIN" ptr active true (sql_log h) _ h (conj eq_refl eq_refl)) as Hd.
  rewrite prog_bind_unfold. change begin_cmd with "BEGIN"%string.
  destruct (direct_exec _ _ _ h) as [[[a|e] s1] h1]; exact (exec_post_drop _ _ _ _ _ _ Hd).
Qed.

(** A body as seen by the scope: it leaves the transaction in one of its
    states. *)
Definition body_post {L A} (ptr : positive) (Q : result exn A → tx_status → bool → L → history → Prop)
  : result exn A → session * L → history → Prop :=
  λ r p h, ∃ st reg, p.1 = sess ptr st reg ∧ Q r st reg p.2 h.

Definition scope_post {L A} (log : list string) (l0 : L)
    (Q : result exn A → tx_status → bool → L → history → Prop)
  : result exn A → connection * L → history → Prop :=
  λ r p h, p.1 = free ∧
    ((is_ok r = false ∧ p.2 = l0 ∧ sql_log h = log ++ ["BEGIN"%string]) ∨
     ∃ st reg h', Q r st reg p.2 h' ∧ (∃ es, h = es ++ h') ∧
       sql_log h = sql_log h' ++ (if decide (st = active) then ["ROLLBACK"%string] else []) ∧
       (st ≠ active → reg = false → h = h')).

(** What the two cleanups do to the state a body leaves. *)
Lemma cleanups_triple ptr st reg h0 :
  triple (at_state (sess ptr st reg) (sql_log h0)) close
    (λ _ s h, ∃ st', s = sess ptr st' false ∧
       sql_log h = sql_log h0 ++ (if decide (st = active) then ["ROLLBACK"%string] else [])).
Proof.
  destruct (decide (st = active)) as [->|Hst].
  - eapply triple_conseq; [apply close_active|done|]. intros r s h (_ & -> & Hl). eauto.
  - eapply triple_conseq; [by apply close_ended|done|]. intros r s h (_ & -> & Hl).
    rewrite app_nil_r. eauto.
Qed.

Lemma with_work_triple {L A} ptr (l0 : L) (body : prog (session * L) A) log Q :
  triple (λ p h, p = (sess ptr active true, l0) ∧ sql_log h = log ++ ["BEGIN"%string])
    body (body_post ptr Q) →
  triple (λ p h, p = (free, l0) ∧ sql_log h = log) (with_work ptr body) (scope_post log l0 Q).
Proof.
  intros Hbody p h [-> <-]. unfold with_work.
  change (mk_session free (transaction_new ptr EmptyString)) with (sess ptr active false).
  unfold finally. rewrite prog_bind_unfold. unfold in_session at 1, zoom at 1. cbn [fst].
  pose proof (work_init_triple ptr (sql_log h) _ h (conj eq_refl eq_refl)) as Hi.
  destruct (basic_transaction_init _ h) as [[[[]|e] s1] h1]; destruct Hi as (-> & Hl & _);
    cbn [snd].
  - specialize (Hbody (sess ptr active true, l0) h1 (conj eq_refl Hl)).
    destruct (body _ h1) as [[r [s2 l2]] h2]. destruct Hbody as (st & reg & Hs2 & HQ).
    cbn [fst snd] in *. subst s2. unfold in_session at 1, zoom at 1. cbn [fst snd].
    pose proof (cleanups_triple ptr st reg h2 _ h2 (conj eq_refl eq_refl)) as Hc.
    pose proof (close_unregistered_run ptr st h2) as Hun.
    pose proof (grows_close (sess ptr st reg) h2) as Hg.
    destruct (close (sess ptr st reg) h2) as [[r3 s3] h3] eqn:E3. destruct Hc as (st' & -> & Hl3).
    unfold in_session, zoom. cbn [fst snd]. rewrite destroy_unregistered. cbn [fst snd].
    split; [done|]. right. exists st, reg, h2. split; [done|].
    split; [destruct Hg as (? & ? & es & Hes); exists es; by simplify_eq|]. split; [done|].
    intros Hst ->. rewrite Hun in E3 by done. by simplify_eq.
  - unfold in_session, zoom. cbn [fst snd].
    pose proof (destroy_triple ptr active true (sql_log h1) _ h1 (conj eq_refl eq_refl)) as Hd.
    destruct (transaction_base_destroy _ h1) as [[r4 s4] h4]. destruct Hd as [Hs4 Hl4].
    split; [done|]. left. split; [done|]. split; [done|]. by rewrite Hl4.
Qed.

(** While another transaction is registered nothing is sent. *)
Lemma with_work_busy {L A} ptr (l0 : L) (body : prog (session * L) A) g h :
  with_work ptr body (mk_connection true (Some g), l0) h =
  (Throw (usage_exn
     (if decide (g_ptr g = ptr)
      then "Started twice: " +:+ describe_guest g +:+ "."
      else "Started new transaction while transaction was still active.")%string),
   (mk_connection true (Some g), l0), h).
Proof. unfold with_work, finally. by rewrite prog_bind_unfold. Qed.

(** ** Statements inside the scope *)

Lemma in_session_triple {L A} (m : prog session A) (s0 : session) (l0 : L)
    (P : session → history → Prop) (Q : result exn A → session → history → Prop) :
  triple P m Q →
  triple (λ p h, p = (s0, l0) ∧ P s0 h) (in_session m) (λ r p h, p.2 = l0 ∧ Q r p.1 h).
Proof.
  intros Hm p h [-> HP]. specialize (Hm s0 h HP). unfold in_session, zoom. cbn [fst snd].
  by destruct (m s0 h) as [[r s'] h'].
Qed.

(** ** Connecting *)

(** Connecting sends no statement. *)
Lemma silent_connection_is_open : silent is_open.
Proof. unfold is_open. solve_silent. Qed.
Hint Resolve silent_connection_is_open : silent.
Lemma silent_connection_init options : silent (connection_init options).
Proof. unfold connection_init, complete_init, set_up_state, err_msg. solve_silent. Qed.

(** A connection that was opened is live and has no transaction. *)
Lemma connection_init_ok options h c h' :
  connection_init options (mk_connection false None) h = (Ok tt, c, h') →
  c = free ∧ h' = PqConnect (c_str options) :: h ∧ PQconnectdb h' = true.
Proof.
  unfold connection_init. rewrite prog_bind_unfold. unfold interact.
  rewrite prog_bind_unfold. unfold modify at 1. cbn [m_trans].
  unfold complete_init. rewrite prog_bind_unfold. unfold get at 1. cbn [m_conn].
  destruct (PQconnectdb _) eqn:Ec; cbn [negb]; [|done]. unfold try_catch.
  rewrite prog_bind_unfold. destruct (reads_is_open free (PqConnect (c_str options) :: h)) as [r Er].
  unfold free in Er at 1. rewrite Er. destruct r as [[]|]; cbn [negb]; try done.
  unfold set_up_state, mret, prog_ret, mbind, prog_bind, ask, throw.
  repeat case_match; intros E; by simplify_eq/=.
Qed.

Lemma connection_init_free options h c h' :
  connection_init options (mk_connection false None) h = (Ok tt, c, h') → c = free.
Proof. by intros [? _]%connection_init_ok. Qed.
End protocol.
#[export] Hint Resolve silent_connection_is_open silent_connection_init : silent.
#[export] Hint Resolve grows_process_notice grows_conn_exec grows_direct_exec grows_close : grows.
