(* ===== verification/PqxxStreamsSpec.v ===== *)
(** Streams into a table, whatever the server answers: while a stream is open
    nothing else happens in its transaction, and a commit that succeeds stands
    for all the rows. *)

From S2P Require Import Prelude Decimal Exceptions Effects EffectsFacts PqxxResult PqxxTransaction.
From S2P Require Import PqxxEncoding PqxxCopy PqxxTransactionFacts PqxxStreams.

Local Open Scope string_scope.
Local Open Scope list_scope.

Section protocol.
Context `{Env} `{CopyEnv} {bh : Behind}.

(** ** The data sent *)

(** From [h] on the data [d] was sent, all of it accepted, up to [h']. *)
Inductive sends : history → string → history → Prop :=
  | sends_nil h : sends h EmptyString h
  | sends_put h d h1 x :
      sends h d h1 → (0 < PQputCopyData (PqPutCopyData x :: h1))%Z →
      sends h (d +:+ x) (PqPutCopyData x :: h1).

Lemma sends_trans h d h1 d' h2 : sends h d h1 → sends h1 d' h2 → sends h (d +:+ d') h2.
Proof.
  intros Hd. induction 1 as [|h1 d' h2 x _ IH Hx]; [by rewrite sapp_nil_r|].
  rewrite sapp_assoc. constructor; [by apply IH|done].
Qed.

Lemma sends_sql h d h' : sends h d h' → sql_log h' = sql_log h.
Proof. induction 1; [done|]. by rewrite sql_log_other. Qed.

(** The end of the data was acknowledged. *)
Definition ended (h h' : history) : Prop :=
  ∃ reply, h' = PqGetResult :: PqPutCopyEnd :: h ∧ PQputCopyEnd (PqPutCopyEnd :: h) = 1%Z ∧
    PQgetResult h' = Some reply ∧ check_status end_copy reply = Ok tt.

(** ** States of the transaction *)

Definition sess_pending (ptr : positive) (err : string) : session :=
  mk_session (mk_connection true (Some (work_guest ptr)))
    (mk_transaction ptr EmptyString active true err None).

Definition conn_up (ptr : positive) : connection := mk_connection true (Some (work_guest ptr)).

(** Programs on a connection that only add events without SQL. *)
Definition adds {A} (c0 : connection) (m : prog connection A) : Prop :=
  ∀ h, ∃ r h', m c0 h = (r, c0, h') ∧ sql_log h' = sql_log h.

Lemma reads_adds {A} c0 (m : prog connection A) : reads m → adds c0 m.
Proof. intros Hm h. destruct (Hm c0 h) as [r E]. by exists r, h. Qed.

Lemma adds_bind {A B} c0 (m : prog connection A) (f : A → prog connection B) :
  adds c0 m → (∀ a, adds c0 (f a)) → adds c0 (m ≫= f).
Proof.
  intros Hm Hf h. rewrite prog_bind_unfold. destruct (Hm h) as ([a|e] & h1 & -> & Hl).
  - destruct (Hf a h1) as (r & h2 & -> & Hl2). exists r, h2. by rewrite Hl2.
  - by exists (Throw e), h1.
Qed.

Lemma adds_on_pq {A} c0 e (answer : history → A) error : sql_of e = [] → adds c0 (on_pq e answer error).
Proof.
  intros He h. unfold on_pq, get, interact. rewrite prog_bind_unfold.
  destruct (m_conn c0).
  - eexists _, (e :: h). by rewrite sql_log_other.
  - by eexists _, h.
Qed.

Create HintDb adds.
Hint Extern 1 (adds _ (on_pq _ _ _)) => by apply adds_on_pq : adds.
Hint Extern 1 (adds _ (mret _)) => apply reads_adds, reads_ret : adds.
Hint Extern 1 (adds _ (throw _)) => apply reads_adds, reads_throw : adds.
Hint Extern 1 (adds _ (lift_result _)) => apply reads_adds, reads_lift : adds.
Hint Extern 1 (adds _ err_msg) => apply reads_adds, reads_err_msg : adds.
Hint Extern 1 (adds _ (make_result _ _ _)) => apply reads_adds, reads_make_result : adds.
Ltac solve_adds :=
  repeat first [ solve [auto with adds] | case_match | apply adds_bind; [|intros ?] ].

Lemma adds_write_copy_line c0 line : adds c0 (write_copy_line line).
Proof. unfold write_copy_line. solve_adds. Qed.
Lemma adds_end_copy_write c0 : adds c0 end_copy_write.
Proof. unfold end_copy_write. solve_adds. Qed.
Lemma adds_read_copy_line c0 : adds c0 read_copy_line.
Proof. unfold read_copy_line. solve_adds. Qed.

(** A line that is written was accepted with its line break. *)
Lemma write_copy_line_ok c0 line h h' :
  m_conn c0 = true → write_copy_line line c0 h = (Ok tt, c0, h') → sends h (line +:+ NL) h'.
Proof.
  intros Hc. unfold write_copy_line, on_pq. rewrite prog_bind_unfold. unfold lift_result.
  destruct (check_cast_int _ _); [|done]. rewrite !prog_bind_unfold. unfold get. rewrite Hc.
  unfold interact. rewrite prog_bind_unfold.
  destruct (Z.leb_spec (PQputCopyData (PqPutCopyData line :: h)) 0) as [Hle|Hgt].
  { rewrite prog_bind_unfold. destruct (reads_err_msg c0 (PqPutCopyData line :: h)) as [[m|e] ->]; done. }
  cbn [mret prog_ret]. unfold mret at 1, prog_ret. rewrite !prog_bind_unfold. rewrite Hc.
  destruct (Z.leb_spec (PQputCopyData (PqPutCopyData NL :: PqPutCopyData line :: h)) 0) as [Hle'|Hgt'].
  { rewrite prog_bind_unfold. destruct (reads_err_msg c0 (PqPutCopyData NL :: PqPutCopyData line :: h)) as [[m|e] ->]; done. }
  intros [= <-]. constructor; [|lia]. rewrite <-(sapp_nil_l line) at 1. constructor; [constructor|lia].
Qed.

(** ** The end of the data *)

(** libpq reports the end of a COPY without a result, with an empty error
    text: [register_pending_error] would drop such a failure. *)
Definition unreported (h h' : history) : Prop :=
  h' = PqGetResult :: PqPutCopyEnd :: h ∧ PQputCopyEnd (PqPutCopyEnd :: h) = 1%Z ∧
    PQgetResult h' = None ∧ c_str (PQerrorMessage h') = EmptyString.

Lemma enc_group_what name e : enc_group name = Throw e → what e ≠ EmptyString.
Proof. unfold enc_group. destruct (find _ _); [done|]. by intros [= <-]. Qed.

Lemma sql_error_what Err code : what (throw_sql_error Err code) = c_str Err.
Proof. unfold throw_sql_error. by repeat case_match. Qed.

Lemma check_status_what desc r e :
  c_str desc = desc → check_status desc r = Throw e → desc ≠ EmptyString → what e ≠ EmptyString.
Proof.
  unfold check_status. intros _ Hr Hd. destruct (status_error r) as [err|ex] eqn:Es.
  - cbn [mbind result_bind] in Hr. change (@mbind (result exn) _ string unit) with (@mbind (result exn) _ string unit) in Hr.
    destruct (is_empty err) eqn:Ee; [by rewrite ?Ee in Hr|].
    destruct desc as [|c desc]; [done|]. cbn [is_empty] in Hr. injection Hr as <-.
    by rewrite sql_error_what.
  - injection Hr as <-. unfold status_error in Es. destruct (pg_status r); try done.
    by injection Es as <-.
Qed.

Lemma err_msg_up ptr h : err_msg (conn_up ptr) h = (Ok (PQerrorMessage h), conn_up ptr, h).
Proof. done. Qed.

Lemma make_end_result ptr pgr h r c h' :
  make_result pgr end_copy end_copy (conn_up ptr) h = (r, c, h') →
  c = conn_up ptr ∧ h' = h ∧
  match r with
  | Ok _ => ∃ reply, pgr = Some reply ∧ check_status end_copy reply = Ok tt
  | Throw e => what e = EmptyString → pgr = None ∧ c_str (PQerrorMessage h) = EmptyString
  end.
Proof.
  unfold make_result. destruct pgr as [reply|].
  - rewrite prog_bind_unfold. destruct (encoding_id (conn_up ptr) h) as [[rid c1] h1] eqn:Eid.
    assert (Hid : c1 = conn_up ptr ∧ h1 = h ∧ ∀ e, rid = Throw e → what e ≠ EmptyString).
    { revert Eid. unfold encoding_id, is_open. rewrite !prog_bind_unfold.
      cbn [get m_conn conn_up ask]. rewrite !prog_bind_unfold. cbn [ask].
      destruct (_ =? _)%Z; [|by intros [= <- <- <-]]. rewrite !prog_bind_unfold.
      cbn [get m_conn conn_up ask]. destruct (PQstatus_ok h); intros [= <- <- <-]; repeat split; by intros e [= <-]. }
    destruct Hid as (-> & -> & Hid). destruct rid as [id|e]; [|].
    + rewrite prog_bind_unfold. unfold lift_result. destruct (enc_group _) as [enc|e] eqn:Ee.
      * rewrite prog_bind_unfold. destruct (check_status end_copy reply) as [[]|e] eqn:Ec.
        -- intros [= <- <- <-]. split; [done|]. split; [done|]. by exists reply.
        -- intros [= <- <- <-]. split; [done|]. split; [done|]. intros Hw.
           by destruct (check_status_what end_copy reply e eq_refl Ec ltac:(done)).
      * intros [= <- <- <-]. split; [done|]. split; [done|]. intros Hw. by destruct (enc_group_what _ _ Ee).
    + intros [= <- <- <-]. split; [done|]. split; [done|]. intros Hw. by destruct (Hid e eq_refl).
  - rewrite prog_bind_unfold. unfold is_open. rewrite prog_bind_unfold. cbn [get m_conn conn_up ask].
    destruct (PQstatus_ok h); [|by intros [= <- <- <-]].
    rewrite prog_bind_unfold, err_msg_up. intros [= <- <- <-]. split; [done|]. split; [done|]. by intros Hw.
Qed.

Lemma end_copy_write_up ptr h :
  ∃ r h', end_copy_write (conn_up ptr) h = (r, conn_up ptr, h') ∧ sql_log h' = sql_log h ∧
    match r with
    | Ok _ => ended h h'
    | Throw e => what e = EmptyString → unreported h h'
    end.
Proof.
  unfold end_copy_write, on_pq. rewrite !prog_bind_unfold. cbn [get conn_up m_conn interact].
  unfold interact. set (h1 := PqPutCopyEnd :: h).
  assert (Hl1 : sql_log h1 = sql_log h) by by apply sql_log_other.
  destruct (PQputCopyEnd h1 =? -1)%Z.
  { rewrite prog_bind_unfold. change (mk_connection true _) with (conn_up ptr). rewrite err_msg_up.
    eexists _, h1. split; [reflexivity|]. by split. }
  destruct (PQputCopyEnd h1 =? 0)%Z; [eexists _, h1; split; [reflexivity|]; by split|].
  destruct (Z.eqb_spec (PQputCopyEnd h1) 1) as [E1|_]; [|eexists _, h1; split; [reflexivity|]; by split].
  set (h2 := PqGetResult :: h1).
  assert (Hb : ∀ (k : option pg_result → prog connection unit),
    (on_pq PqGetResult PQgetResult None ≫= k) (conn_up ptr) h1 = k (PQgetResult h2) (conn_up ptr) h2) by done.
  fold (on_pq PqGetResult PQgetResult None). rewrite Hb, prog_bind_unfold.
  destruct (make_result (PQgetResult h2) end_copy end_copy (conn_up ptr) h2) as [[r c] h3] eqn:Em.
  destruct (make_end_result _ _ _ _ _ _ Em) as (-> & -> & Hr).
  assert (Hl2 : sql_log h2 = sql_log h) by (unfold h2; by rewrite sql_log_other).
  destruct r as [res|e].
  - eexists _, h2. split; [reflexivity|]. split; [done|]. destruct Hr as (reply & Hreply & Hs).
    by exists reply.
  - eexists _, h2. split; [reflexivity|]. split; [done|]. intros Hw. destruct (Hr Hw). done.
Qed.
(** ** The life of a [stream_to] *)

Definition stream_guest (sptr : positive) (path : string) : guest := mk_guest sptr "stream_to" path.

Definition copy_command (path columns : string) : string :=
  if is_empty columns then "COPY " +:+ path +:+ " FROM STDIN"
  else "COPY " +:+ path +:+ "(" +:+ columns +:+ ") FROM STDIN".

Lemma on_conn_run {A} (m : prog connection A) s h r h' :
  m (s_conn s) h = (r, s_conn s, h') → on_conn m s h = (r, s, h').
Proof. intros E. unfold on_conn, zoom. rewrite E. by destruct s. Qed.

Lemma exec0_triple q ptr log :
  triple (at_state (sess ptr active true) log) (exec0 q)
    (λ r s h, s = sess ptr active true ∧ sql_log h = log ++ [c_str q]).
Proof.
  intros s h [-> <-]. unfold exec0, exec_n. rewrite prog_bind_unfold.
  pose proof (tx_exec_triple q ptr true (sql_log h) _ h (conj eq_refl eq_refl)) as Ht.
  destruct (tx_exec q EmptyString _ h) as [[[res|e] s1] h1]; destruct Ht as (-> & Hl & _); [|done].
  by destruct (_ =? _)%Z.
Qed.

Lemma get_scanner_run s h : ∃ r, get_scanner s h = (r, s, h).
Proof.
  unfold get_scanner. rewrite prog_bind_unfold. destruct (reads_encoding_id (s_conn s) h) as [r E].
  rewrite (on_conn_run _ _ _ _ _ E). destruct r; by eexists.
Qed.

(** After the constructor the stream is the focus of the transaction. *)
Lemma stream_to_init_triple sptr path columns ptr log :
  triple (at_state (sess ptr active true) log) (stream_to_init sptr path columns)
    (λ r s h,
      match r with
      | Ok st =>
          ∃ enc, st = mk_stream_to (stream_guest sptr path) true false enc ∧
          s = focused (sess ptr active true) (stream_guest sptr path) ∧
          sql_log h = log ++ [c_str (copy_command path columns)]
      | Throw _ =>
          s = sess ptr active true ∧
          (sql_log h = log ∨ sql_log h = log ++ [c_str (copy_command path columns)])
      end).
Proof.
  intros s h [-> <-]. unfold stream_to_init. rewrite prog_bind_unfold.
  destruct (get_scanner_run (sess ptr active true) h) as [r ->]. destruct r as [enc|e]; [|by auto].
  pose proof (exec0_triple (copy_command path columns) ptr (sql_log h) _ h (conj eq_refl eq_refl)) as He.
  rewrite prog_bind_unfold. unfold begin_copy. fold (copy_command path columns).
  destruct (exec0 _ _ h) as [[[res|e] s1] h1]; destruct He as [-> Hl]; [|by auto].
  by exists enc.
Qed.

Lemma unregister_focus_run ptr g h :
  unregister_focus g (focused (sess ptr active true) g) h = (Ok tt, sess ptr active true, h).
Proof.
  unfold unregister_focus, try_catch. rewrite !prog_bind_unfold. unfold lift_result.
  assert (E : check_unique_unregister (Some g) g = Ok tt).
  { unfold check_unique_unregister. by rewrite decide_True. }
  change (gets s_tx ?s h) with (@Ok exn _ (s_tx s), s, h). cbv iota beta.
  rewrite prog_bind_unfold. change (m_focus _) with (Some g). by rewrite E.
Qed.

(** The lines as they are sent. *)
Fixpoint line_data (lines : list string) : string :=
  match lines with
  | [] => EmptyString
  | line :: lines' => (line +:+ NL) +:+ line_data lines'
  end.

Section open_stream.
Variables (ptr sptr : positive) (path : string).
Let g := stream_guest sptr path.
Let s0 := sess ptr active true.
Let s1 := focused s0 g.

(** Lines are sent in order, each with its line break; nothing else changes. *)
Lemma write_lines_run lines st h :
  ∃ r h', for_each lines write_raw_line (s1, st) h = (r, (s1, st), h') ∧ sql_log h' = sql_log h ∧
    (r = Ok tt → sends h (line_data lines) h').
Proof.
  revert h. induction lines as [|line lines IH]; intros h.
  { exists (Ok tt), h. repeat split. intros _. constructor. }
  cbn [for_each line_data]. rewrite prog_bind_unfold.
  destruct (adds_write_copy_line (s_conn s1) line h) as (r & h1 & E & Hl).
  assert (Ew : write_raw_line line (s1, st) h = (r, (s1, st), h1)).
  { unfold write_raw_line, in_tx, zoom. cbn [fst snd]. by rewrite (on_conn_run _ _ _ _ _ E). }
  rewrite Ew. destruct r as [[]|e].
  - destruct (IH h1) as (r & h2 & -> & Hl2 & Hs). exists r, h2. split; [done|]. split; [by rewrite Hl2|].
    intros Hr. eapply sends_trans; [|by apply Hs]. eapply write_copy_line_ok; [|exact E]. done.
  - exists (Throw e), h1. by repeat split.
Qed.

Lemma register_pending_run err h :
  register_pending_error err s0 h = (Ok tt, if is_empty err then s0 else sess_pending ptr err, h).
Proof. by destruct err. Qed.

(** The destructor gives the transaction back; an error that it swallows
    becomes the pending error. *)
Lemma stream_to_destroy_run enc h :
  ∃ s st h', stream_to_destroy (s1, mk_stream_to g true false enc) h = (Ok tt, (s, st), h') ∧
    sql_log h' = sql_log h ∧
    ((s = s0 ∧ (ended h h' ∨ unreported h h')) ∨
     ∃ err, s = sess_pending ptr err ∧ err ≠ EmptyString).
Proof.
  destruct (end_copy_write_up ptr h) as (r & h' & E & Hl & Hr).
  assert (Ec : stream_to_complete (s1, mk_stream_to g true false enc) h =
               (r, (s0, mk_stream_to g false true enc), h')).
  { trans (in_tx (T := stream_to) (on_conn end_copy_write) (s0, mk_stream_to g false true enc) h).
    - unfold stream_to_complete. rewrite prog_bind_unfold.
      change (stream (s1, ?st) h) with (@Ok exn _ st, (s1, st), h). cbn [to_finished].
      rewrite prog_bind_unfold. unfold set_stream at 1, modify. cbn [fst snd].
      rewrite prog_bind_unfold. unfold stream_to_unregister. rewrite prog_bind_unfold.
      change (stream (s1, ?st) h) with (@Ok exn _ st, (s1, st), h). cbn [to_guest].
      rewrite prog_bind_unfold. unfold in_tx at 1, zoom at 1. cbn [fst snd].
      
      by rewrite (unregister_focus_run ptr g h : unregister_focus g s1 h = (Ok tt, s0, h)).
    - unfold in_tx, zoom. cbn [fst snd]. by rewrite (on_conn_run _ s0 _ _ _ E). }
  unfold stream_to_destroy, try_catch. rewrite Ec. destruct r as [[]|e].
  - eexists _, _, _. split; [reflexivity|]. split; [done|]. left. by auto.
  - unfold in_tx, zoom. cbn [fst snd]. rewrite register_pending_run.
    destruct (what e) as [|c w] eqn:Ew; (eexists _, _, _; split; [reflexivity|]; split; [done|]).
    + left. split; [done|]. right. by apply Hr.
    + right. by exists (String c w).
Qed.

(** An open stream keeps everything else out. *)
Lemma open_stream_excludes h :
  (∀ q, ∃ e, tx_exec q EmptyString s1 h = (Throw e, s1, h) ∧ exn_kind e = pqxx_usage_error) ∧
  ∃ e, commit s1 h = (Throw e, s1, h) ∧ exn_kind e = pqxx_failure.
Proof.
  split.
  - intros q. unfold tx_exec. rewrite check_pending_bind by done. unfold command.
    rewrite prog_bind_unfold. cbn [gets]. rewrite prog_bind_unfold. unfold register_focus.
    rewrite prog_bind_unfold. cbn [gets]. rewrite prog_bind_unfold. unfold lift_result.
    cbn [check_unique_register s1 focused s_tx m_focus]. by eexists.
  - unfold commit, commit_as. rewrite check_pending_bind by done. by eexists.
Qed.

(** A pending error is thrown by the commit, which then sends nothing. *)
Lemma commit_pending err h :
  err ≠ EmptyString → commit (sess_pending ptr err) h = (Throw (failure_exn err), s0, h).
Proof. intros He. unfold commit, commit_as, check_pending_error. rewrite !prog_bind_unfold. by destruct err. Qed.
End open_stream.

(** From [h0] on, the COPY command was sent, then its data and the end of the
    data, and by [h] COMMIT and no other command after them. *)
Definition copy_then_commit (copy data : string) (h0 h : history) : Prop :=
  ∃ es0 h1 h2 h3 es,
    (* the command *)
    h1 = es0 ++ h0 ∧ sql_log h1 = sql_log h0 ++ [copy] ∧
    (* its data *)
    sends h1 data h2 ∧ (ended h2 h3 ∨ unreported h2 h3) ∧
    (* and only then the commit *)
    h = es ++ h3 ∧ sql_log h3 = sql_log h0 ++ [copy] ∧ sql_log h = sql_log h3 ++ ["COMMIT"].

Lemma grows_stream_to_init sptr path columns : grows (stream_to_init sptr path columns).
Proof.
  unfold stream_to_init, get_scanner, begin_copy, exec0, exec_n, tx_exec, command, check_pending_error,
    set_pending_error, register_focus, unregister_focus, set_focus, on_conn, encoding_id, is_open.
  solve_grows.
Qed.

(** C11. Filling a table: a stream is opened in an active transaction, lines
    are written, the stream goes out of scope and the transaction commits.
    Whatever the server answers, COMMIT is sent only after the COPY command was
    sent, then every line with its line break was accepted, in order, and then
    the server acknowledged the end of the data - or libpq reported a failure
    of the end with an empty error text, which the library drops.  Every other
    failure, those the destructor swallows included, stops the commit; the
    transaction is free of the stream in every case.  While the stream is open
    no statement and no commit is sent at all. *)
Theorem copy_in_committed ptr sptr path columns lines h0 :
  let copy := c_str (copy_command path columns) in
  let data := line_data lines in
  let '(r, s, h) :=
    (with_stream_to sptr path columns (for_each lines write_raw_line);; commit)
      (sess ptr active true) h0 in
  m_focus (s_tx s) = None ∧
  ((is_ok r = false ∧ m_status (s_tx s) = active ∧
      (sql_log h = sql_log h0 ∨ sql_log h = sql_log h0 ++ [copy])) ∨
   (copy_then_commit copy data h0 h ∧
      (r = Ok tt → s = sess ptr committed false ∧ acked (PqExec "COMMIT") h))) ∧
  (∀ h, let s1 := focused (sess ptr active true) (stream_guest sptr path) in
    (∀ q, ∃ e, tx_exec q EmptyString s1 h = (Throw e, s1, h) ∧ exn_kind e = pqxx_usage_error) ∧
    ∃ e, commit s1 h = (Throw e, s1, h) ∧ exn_kind e = pqxx_failure).
Proof.
  intros copy data. rewrite prog_bind_unfold.
  pose proof (open_stream_excludes ptr sptr path) as Hex.
  assert (Hw : ∃ r s h, with_stream_to sptr path columns (for_each lines write_raw_line)
      (sess ptr active true) h0 = (r, s, h) ∧
    (s = sess ptr active true ∨ ∃ err, s = sess_pending ptr err ∧ err ≠ EmptyString) ∧
    (sql_log h = sql_log h0 ∨ sql_log h = sql_log h0 ++ [copy]) ∧
    (r = Ok tt → sql_log h = sql_log h0 ++ [copy] ∧
       (s = sess ptr active true → ∃ es0 h1 h2, h1 = es0 ++ h0 ∧ sql_log h1 = sql_log h0 ++ [copy] ∧
          sends h1 data h2 ∧ (ended h2 h ∨ unreported h2 h)))).
  { unfold with_stream_to.
    pose proof (stream_to_init_triple sptr path columns ptr (sql_log h0) _ h0 (conj eq_refl eq_refl)) as Hi.
    destruct (grows_stream_to_init sptr path columns (sess ptr active true) h0) as (r0 & s2 & es0 & E0).
    rewrite E0 in *. destruct r0 as [st|e]; set (h1 := es0 ++ h0) in *.
    2: { destruct Hi as [-> Hl]. exists (Throw e), (sess ptr active true), h1. split; [done|].
         split; [by left|]. by split. }
    destruct Hi as (enc & -> & -> & Hl1). clear E0. unfold finally.
    destruct (write_lines_run ptr sptr path lines
                (mk_stream_to (stream_guest sptr path) true false enc) h1) as (r & h2 & -> & Hl2 & Hs).
    destruct (stream_to_destroy_run ptr sptr path enc h2) as (s3 & st & h3 & -> & Hl3 & Hd).
    assert (Hl : sql_log h3 = sql_log h0 ++ [copy]) by (by rewrite Hl3, Hl2, Hl1).
    eexists r, s3, h3. split; [done|]. split; [by destruct Hd as [[-> _]|?]; auto|].
    split; [by right|]. intros Hr. split; [done|]. intros ->.
    destruct Hd as [[_ Hd]|(err & Herr & Hne)].
    - exists es0, h1, h2. by auto.
    - injection Herr as Herr. by destruct Hne. }
  destruct Hw as (r & s & h & -> & Hs & Hl & Hok).
  destruct r as [[]|e]; [|split; [by destruct Hs as [->|(err & -> & _)]|split; [|exact Hex]]].
  2: { left. split; [done|]. split; [by destruct Hs as [->|(err & -> & _)]|done]. }
  destruct (Hok eq_refl) as [Hl1 Hdata].
  destruct Hs as [->|(err & -> & Hne)].
  - pose proof (commit_triple ptr (sql_log h) _ h (conj eq_refl eq_refl)) as Hc.
    destruct (grows_commit (sess ptr active true) h) as (r & s & es & E). rewrite E in *.
    destruct (Hdata eq_refl) as (es0 & h1 & h2 & Hh1 & Hlh1 & Hd1 & Hd2).
    assert (Hdc : sql_log (es ++ h) = sql_log h ++ ["COMMIT"] → copy_then_commit copy data h0 (es ++ h)).
    { intros Hlc. exists es0, h1, h2, h, es. by auto 10. }
    destruct Hc as [(-> & -> & Hlc & Hack)|[(Hr & -> & Hlc)|(Hr & st & Hst & -> & Hlc)]];
      (split; [done|split; [|exact Hex]]).
    + right. by auto.
    + left. split; [done|]. split; [done|]. right. by rewrite Hlc.
    + right. split; [by apply Hdc|]. by intros ->.
  - rewrite commit_pending by done. split; [done|]. split; [|exact Hex].
    left. by auto.
Qed.
(** ** Reading *)

(** The server sends these lines, then the end of the data. *)
Inductive delivers : history → list string → history → Prop :=
  | delivers_end h reply :
      let h1 := PqGetCopyData :: h in let h2 := PqGetResult :: h1 in
      PQgetCopyData h1 = CopyEnd → PQgetResult h2 = Some reply → check_status end_copy reply = Ok tt →
      PQclientEncoding h2 ≠ (-1)%Z → is_ok (enc_group (pg_encoding_to_char (PQclientEncoding h2))) = true →
      delivers h [] h2
  | delivers_line h line lines h' :
      PQgetCopyData (PqGetCopyData :: h) = CopyLine (line +:+ NL) →
      delivers (PqGetCopyData :: h) lines h' → delivers h (line :: lines) h'.

Lemma chop_line line : substring 0 (String.length (line +:+ NL) - 1) (line +:+ NL) = line.
Proof.
  rewrite slength_app. change (String.length NL) with 1. rewrite Nat.add_sub.
  induction line as [|c line IH]; [done|]. by apply (f_equal (String c)).
Qed.

Section open_source.
Variables (ptr : positive) (g : guest) (enc : encoding_group).
Let s0 := sess ptr active true.
Let s1 := focused s0 g.

Lemma read_line_run h line :
  PQgetCopyData (PqGetCopyData :: h) = CopyLine (line +:+ NL) →
  read_copy_line (conn_up ptr) h = (Ok (Some line), conn_up ptr, PqGetCopyData :: h).
Proof.
  intros E. unfold read_copy_line. rewrite prog_bind_unfold.
  change (on_pq PqGetCopyData PQgetCopyData CopyError (conn_up ptr) h) with
    (@Ok exn _ (PQgetCopyData (PqGetCopyData :: h)), conn_up ptr, PqGetCopyData :: h).
  rewrite E. cbv iota. by rewrite chop_line.
Qed.

Lemma read_end_run h h' :
  delivers h [] h' → read_copy_line (conn_up ptr) h = (Ok None, conn_up ptr, h').
Proof.
  inversion 1 as [? reply h1 h2 E Hr Hs Hid Henc|]; subst.
  unfold read_copy_line. rewrite prog_bind_unfold.
  change (on_pq PqGetCopyData PQgetCopyData CopyError (conn_up ptr) h) with
    (@Ok exn _ (PQgetCopyData h1), conn_up ptr, h1).
  rewrite E. rewrite prog_bind_unfold.
  change (on_pq PqGetResult PQgetResult None (conn_up ptr) h1) with
    (@Ok exn _ (PQgetResult h2), conn_up ptr, h2).
  rewrite Hr, prog_bind_unfold. unfold make_result. rewrite prog_bind_unfold.
  assert (Ee : encoding_id (conn_up ptr) h2 = (Ok (PQclientEncoding h2), conn_up ptr, h2)).
  { unfold encoding_id. rewrite prog_bind_unfold. cbn [get conn_up m_conn]. rewrite prog_bind_unfold.
    cbn [ask]. unfold ask. by rewrite (proj2 (Z.eqb_neq _ _) Hid). }
  rewrite Ee, prog_bind_unfold. unfold lift_result. destruct (enc_group _); [|done].
  by rewrite prog_bind_unfold, Hs.
Qed.

Let open_from fields := mk_stream_from g true false enc fields.

Lemma read_row_run h line cs undefined_line fields :
  PQgetCopyData (PqGetCopyData :: h) = CopyLine (line +:+ NL) → read_fields enc line = Some (Ok cs) →
  read_row undefined_line (s1, open_from fields) h = (Ok (Some cs), (s1, open_from cs), PqGetCopyData :: h).
Proof.
  intros E Hr. pose proof (on_conn_run _ s1 _ _ _ (read_line_run h line E)) as Ec.
  assert (Eg : get_raw_line (s1, open_from []) h = (Ok (Some line), (s1, open_from []), PqGetCopyData :: h)).
  { unfold get_raw_line. rewrite prog_bind_unfold. 
    change (stream (s1, ?st) h) with (@Ok exn _ st, (s1, st), h). cbn [open_from from_finished].
    unfold try_catch. rewrite prog_bind_unfold. unfold in_tx, zoom. cbn [fst snd]. by rewrite Ec. }
  assert (Ep : stream_parse_line undefined_line (s1, open_from fields) h =
               (Ok tt, (s1, open_from cs), PqGetCopyData :: h)).
  { unfold stream_parse_line. rewrite prog_bind_unfold.
    change (stream (s1, ?st) h) with (@Ok exn _ st, (s1, st), h). cbn [open_from from_finished].
    rewrite prog_bind_unfold. change (set_from_fields [] _ h) with (@Ok exn _ tt, (s1, open_from []), h).
    cbv iota beta. rewrite prog_bind_unfold, Eg. cbv iota beta. rewrite prog_bind_unfold.
    change (stream (s1, ?st) ?h) with (@Ok exn _ st, (s1, st), h). cbn [open_from from_enc].
    by rewrite prog_bind_unfold, Hr. }
  unfold read_row. by rewrite prog_bind_unfold, Ep.
Qed.

Let closed_from := mk_stream_from g false true enc [].

Lemma close_run h : stream_from_close (s1, open_from []) h = (Ok tt, (s0, closed_from), h).
Proof.
  unfold stream_from_close. rewrite prog_bind_unfold.
  change (stream (s1, ?st) h) with (@Ok exn _ st, (s1, st), h). cbn [open_from from_finished].
  rewrite prog_bind_unfold.
  change (set_from_finished _ h) with (@Ok exn _ tt, (s1, mk_stream_from g true true enc []), h).
  unfold stream_from_unregister. rewrite prog_bind_unfold.
  change (stream (s1, ?st) h) with (@Ok exn _ st, (s1, st), h). cbn [from_guest].
  rewrite prog_bind_unfold. unfold in_tx, zoom. cbn [fst snd]. 
      by rewrite (unregister_focus_run ptr g h : unregister_focus g s1 h = (Ok tt, s0, h)).
Qed.

Lemma read_end_row h h' undefined_line fields :
  delivers h [] h' →
  read_row undefined_line (s1, open_from fields) h =
    (Ok None, (s0, closed_from), h').
Proof.
  intros Hd. pose proof (on_conn_run _ s1 _ _ _ (read_end_run h h' Hd)) as Ec.
  assert (Eg : get_raw_line (s1, open_from []) h = (Ok None, (s0, closed_from), h')).
  { unfold get_raw_line. rewrite prog_bind_unfold. 
    change (stream (s1, ?st) h) with (@Ok exn _ st, (s1, st), h). cbn [open_from from_finished].
    unfold try_catch. rewrite prog_bind_unfold. unfold in_tx at 1, zoom at 1. cbn [fst snd]. rewrite Ec.
    by rewrite prog_bind_unfold, close_run. }
  assert (Ep : stream_parse_line undefined_line (s1, open_from fields) h = (Ok tt, (s0, closed_from), h')).
  { unfold stream_parse_line. rewrite prog_bind_unfold.
    change (stream (s1, ?st) h) with (@Ok exn _ st, (s1, st), h). cbn [open_from from_finished].
    rewrite prog_bind_unfold. change (set_from_fields [] _ h) with (@Ok exn _ tt, (s1, open_from []), h).
    cbv iota beta. by rewrite prog_bind_unfold, Eg. }
  unfold read_row. by rewrite prog_bind_unfold, Ep.
Qed.

(** Reading all the rows. *)
Lemma read_all_rows_run lines rows fields h h' fuel out_of_fuel undefined_line :
  Forall2 (λ line cs, read_fields enc line = Some (Ok cs)) lines rows → delivers h lines h' →
  length lines < fuel →
  read_all_rows fuel out_of_fuel undefined_line (s1, open_from fields) h = (Ok rows, (s0, closed_from), h').
Proof.
  intros Hr. revert fields h fuel. induction Hr as [|line cs lines rows Hcs _ IH]; intros fields h fuel Hd Hf;
    (destruct fuel as [|fuel]; cbn in Hf; [lia|]; cbn [read_all_rows]; rewrite prog_bind_unfold).
  - by rewrite (read_end_row h h').
  - inversion Hd as [|? ? ? ? E Hd']; subst. rewrite (read_row_run h line cs) by done.
    rewrite prog_bind_unfold, (IH cs _ fuel Hd') by lia. done.
Qed.
End open_source.

Definition source_guest (sptr : positive) (table : string) : guest := mk_guest sptr "stream_from" table.

Lemma stream_from_init_ok sptr table columns ptr h0 st s h :
  stream_from_init sptr table columns (sess ptr active true) h0 = (Ok st, s, h) →
  ∃ enc, st = mk_stream_from (source_guest sptr table) true false enc [] ∧
    s = focused (sess ptr active true) (source_guest sptr table) ∧
    sql_log h = sql_log h0 ++ [c_str (copy_out table columns)].
Proof.
  unfold stream_from_init. rewrite prog_bind_unfold.
  destruct (get_scanner_run (sess ptr active true) h0) as [r ->]. destruct r as [enc|e]; [|done].
  pose proof (exec0_triple (copy_out table columns) ptr (sql_log h0) _ h0 (conj eq_refl eq_refl)) as He.
  rewrite prog_bind_unfold.
  destruct (exec0 _ _ h0) as [[[res|e] s1] h1]; destruct He as [-> Hl]; [|done].
  intros [= <- <- <-]. by exists enc.
Qed.

Lemma delivers_sql h lines h' : delivers h lines h' → sql_log h' = sql_log h.
Proof.
  induction 1 as [h reply h1 h2 _ _ _ _ _|h line lines h' _ _ IH].
  - unfold h2, h1. by rewrite !sql_log_other.
  - rewrite IH. by apply sql_log_other.
Qed.

(** C28. Reading a table: when the COPY statement is accepted and the server
    sends lines and the end of the data, the loop over [read_row] returns the
    fields of the lines in order and ends, with any fuel above their number;
    one statement was sent, the stream has left the transaction before its
    scope ends, and the transaction is as it was. *)
Theorem copy_out_rows ptr sptr table columns h0 st s1 h1 lines rows h fuel out_of_fuel undefined_line
    (Hinit : stream_from_init sptr table columns (sess ptr active true) h0 = (Ok st, s1, h1))
    (Hsent : delivers h1 lines h)
    (Hread : Forall2 (λ line fields, read_fields (from_enc st) line = Some (Ok fields)) lines rows)
    (Hfuel : length lines < fuel) :
  with_stream_from (stream_from_init sptr table columns) (read_all_rows fuel out_of_fuel undefined_line)
    (sess ptr active true) h0 = (Ok rows, sess ptr active true, h) ∧
  sql_log h = sql_log h0 ++ [c_str (copy_out table columns)].
Proof.
  destruct (stream_from_init_ok _ _ _ _ _ _ _ _ Hinit) as (enc & -> & -> & Hl).
  split; [|by rewrite (delivers_sql _ _ _ Hsent)]. unfold with_stream_from. rewrite Hinit. unfold finally.
  by rewrite (read_all_rows_run ptr (source_guest sptr table) enc lines rows [] h1 h fuel).
Qed.
End protocol.

(** ** A server that accepts everything *)

#[local] Existing Instance zeros.

#[local] Instance copy_test_env : Env := {|
  now_ns := λ _, 0%Z; localtime_text := λ _, EmptyString;
  open_append_ok := λ _, true; file_contents := λ _, None; iteration := λ _ l, l;
  curl_init_ok := λ _, true; curl_perform_ok := λ _, true;
  PQconnectdb := λ _, true; PQstatus_ok := λ _, true; PQprotocolVersion := λ _, 3%Z;
  PQserverVersion := λ _, 150000%Z; PQerrorMessage := λ _, EmptyString;
  PQclientEncoding := λ _, 6%Z; pg_encoding_to_char := λ _, "UTF8";
  PQexec := λ _, Some (mk_pg_result PGRES_COPY_IN EmptyString None []);
  PQconsumeInput := λ _, true; PQnotifies := λ _, 0%nat |}.
#[local] Instance copy_test_data : CopyEnv := {|
  PQputCopyData := λ _, 1%Z; PQputCopyEnd := λ _, 1%Z; PQgetCopyData := λ _, CopyEnd;
  PQgetResult := λ _, Some (mk_pg_result PGRES_COMMAND_OK EmptyString None []) |}.

(** Two lines are copied and committed. *)
Example copy_two_lines :
  let '(r, s, h) :=
    (with_stream_to 2 "devices" "id,name" (for_each ["1"; "2"] write_raw_line);; commit)
      (sess 1 active true) [] in
  r = Ok tt ∧ s = sess 1 committed false ∧
  rev h = [PqExec "COPY devices(id,name) FROM STDIN"; PqConsumeInput; PqPutCopyData "1"; PqPutCopyData NL;
           PqPutCopyData "2"; PqPutCopyData NL; PqPutCopyEnd; PqGetResult; PqExec "COMMIT"; PqConsumeInput].
Proof. vm_compute. repeat split; reflexivity. Qed.

(** One line is sent. *)
#[local] Instance read_test_data : CopyEnv := {|
  PQputCopyData := λ _, 1%Z; PQputCopyEnd := λ _, 1%Z;
  PQgetCopyData := λ h,
    match h with PqGetCopyData :: PqGetCopyData :: _ => CopyEnd | _ => CopyLine ("7\\" +:+ NL) end;
  PQgetResult := λ _, Some (mk_pg_result PGRES_COMMAND_OK EmptyString None []) |}.

Lemma copy_out_rows_witness :
  ∃ h, with_stream_from (stream_from_init 2 "devices" EmptyString)
    (read_all_rows 2 (internal_exn "fuel") (internal_exn "undefined")) (sess 1 active true) [] =
  (Ok [[Some ["7"; "\"]%char]], sess 1 active true, h).
Proof.
  destruct (stream_from_init 2 "devices" EmptyString (sess 1 active true) []) as [[r s1] h1] eqn:E.
  vm_compute in E. injection E as Er Es Eh. subst r.
  eexists. eapply (copy_out_rows 1 2 "devices" EmptyString [] _ s1 h1 ["7\\"]).
  - subst s1 h1. vm_compute. reflexivity.
  - subst h1. eapply delivers_line; [reflexivity|]. eapply delivers_end; [reflexivity..|discriminate|reflexivity].
  - constructor; [reflexivity|constructor].
  - cbn. lia.
Defined.
