(* ===== verification/PqxxRobustFacts.v ===== *)
(** Robust transactions, whatever the server answers: what a commit that
    succeeds, fails or is in doubt stands for; and nested transactions. *)

From S2P Require Import Prelude Decimal Exceptions Effects EffectsFacts PqxxResult PqxxTransaction.
From S2P Require Import PqxxTransactionFacts PqxxStreams PqxxRobust.

Local Open Scope string_scope.
Local Open Scope list_scope.

Section robust.
Context `{Env} `{ConnInfoEnv}.

(** ** What the server makes of a command *)

(** Right after [h] the command [q] was sent and carried out, up to [h']. *)
Definition acknowledged (q : string) (h h' : history) : Prop :=
  h' = PqConsumeInput :: PqExec (c_str q) :: h ∧ carried_out (PqExec (c_str q) :: h) = true.

(** Right after [h] the command [q] was sent, nothing else up to [h'], and it
    was not carried out, as far as one can tell. *)
Definition refused (q : string) (h h' : history) : Prop :=
  ∃ es, h' = es ++ PqExec (c_str q) :: h ∧ Forall (λ e, sql_of e = []) es ∧
    carried_out (PqExec (c_str q) :: h) = false.

Lemma acknowledged_sql q h h' : acknowledged q h h' → sql_log h' = sql_log h ++ [c_str q].
Proof. intros [-> _]. by rewrite sql_log_other. Qed.
Lemma refused_sql q h h' : refused q h h' → sql_log h' = sql_log h ++ [c_str q].
Proof. intros (es & -> & Hes & _). by rewrite sql_log_app. Qed.

Lemma direct_exec_answer q ptr st reg h :
  let s0 := sess ptr st reg in
  let '(r, s, h') := direct_exec q EmptyString s0 h in
  s = s0 ∧ match r with Ok _ => acknowledged q h h' | Throw _ => refused q h h' end.
Proof.
  cbv zeta. destruct (direct_exec_one q (sess ptr st reg) eq_refl eq_refl h) as (r & es & -> & Hes & Hr & Ha).
  split; [done|]. destruct r as [a|e]; cbn [is_ok] in Hr.
  - destruct (Ha a eq_refl) as [-> _]. by split.
  - by exists es.
Qed.

(** ** Asking for the status of a transaction *)

Definition asked (t : robust) : string := c_str (status_query (m_xid t)).

(** From [h] to [h'] another connection was opened, the server told on it that
    the status of the transaction is [st], and it was closed. *)
Definition answers_status (t : robust) (st : tx_stat) (h h' : history) : Prop :=
  let h1 := PqConnect (c_str (m_conn_string t)) :: h in
  let h2 := PqExec (asked t) :: h1 in
  h' = PqFinish :: PqConsumeInput :: h2 ∧ PQconnectdb h1 = true ∧ carried_out h2 = true ∧
  ∃ reply r, PQexec h2 = Some reply ∧ pg_tuples reply = [r] ∧ status_of_row r = Ok st.

Lemma status_of_row_known r st : status_of_row r = Ok st → st ≠ tx_unknown.
Proof. unfold status_of_row. repeat case_match; congruence. Qed.

(** The nontransaction in which the status is asked, and when it is closed. *)
Definition asking (st : tx_status) (reg : bool) : session :=
  mk_session (mk_connection true (if reg then Some (mk_guest 1 "transaction" "robusttxck") else None))
    (mk_transaction 1 "robusttxck" st reg EmptyString None).

Lemma asking_end h :
  nt_close (asking active true) h = (Ok tt, asking aborted false, h) ∧
  transaction_base_destroy (asking aborted false) h = (Ok tt, asking aborted false, h) ∧
  conn_close free h = (Ok tt, mk_connection false None, PqFinish :: h).
Proof. split; [|split]; reflexivity. Qed.

Lemma ask_status t h :
  let '(r, s, h') := (status_row ← exec1 (status_query (m_xid t)); lift_result (status_of_row status_row))
    (asking active true) h in
  s = asking active true ∧ sql_log h' = sql_log h ++ [asked t] ∧
  ∀ st, r = Ok st →
    h' = PqConsumeInput :: PqExec (asked t) :: h ∧ carried_out (PqExec (asked t) :: h) = true ∧
    ∃ reply r, PQexec (PqExec (asked t) :: h) = Some reply ∧ pg_tuples reply = [r] ∧ status_of_row r = Ok st.
Proof.
  unfold asked. set (q := status_query (m_xid t)). rewrite prog_bind_unfold. unfold exec1, exec_n.
  rewrite !prog_bind_unfold.
  destruct (tx_exec_one q (asking active true) eq_refl eq_refl eq_refl eq_refl h) as (r & es & -> & Hes & Hr & Ha).
  assert (Hl : sql_log (es ++ PqExec (c_str q) :: h) = sql_log h ++ [c_str q]) by by rewrite sql_log_app.
  destruct r as [res|e]; [|by split]. destruct (Ha res eq_refl) as [-> Hp].
  destruct (Z.eqb_spec (Z.of_nat (length (rows res))) 1) as [H1|Hn]; [|by split].
  unfold mret, prog_ret, lift_result. cbv beta iota. split; [done|]. split; [done|]. intros st Hst.
  split; [done|]. split; [done|]. exists (m_data res). unfold rows in *.
  destruct (pg_tuples (m_data res)) as [|r0 [|]] eqn:Et; [done| |cbn in H1; lia]. by exists r0.
Qed.

(** The status is asked on a connection of its own. *)
Lemma query_status_answer {S} t (s0 : S) h :
  let '(r, s, h') := query_status (m_xid t) (m_conn_string t) s0 h in
  s = s0 ∧ match r with
    | Ok st => answers_status t st h h'
    | Throw _ => sql_log h' = sql_log h ∨ sql_log h' = sql_log h ++ [asked t]
    end.
Proof.
  unfold query_status, with_connection, with_nontransaction, finally at 1. rewrite prog_bind_unfold.
  pose proof (silent_sql _ (mk_connection false None) h (silent_connection_init (m_conn_string t))) as Hli.
  pose proof (connection_init_ok (m_conn_string t) h) as Hok.
  destruct (connection_init (m_conn_string t) _ h) as [[[[]|e] c] h1]; [|by split; [|left]].
  destruct (Hok c h1 eq_refl) as (-> & -> & Hc). clear Hok. set (h1 := _ :: h) in *.
  unfold finally. rewrite prog_bind_unfold.
  change (tx_register (mk_session free (transaction_new 1 "robusttxck")) h1)
    with (@Ok exn unit tt, asking active true, h1). cbv beta iota.
  pose proof (ask_status t h1) as Hs. set (m := exec1 _ ≫= _) in *.
  destruct (m (asking active true) h1) as [[r s1] h2]. destruct Hs as (-> & Hl & Hr).
  destruct (asking_end h2) as (-> & -> & _). change (s_conn (asking aborted false)) with free.
  destruct (asking_end h2) as (_ & _ & ->). split; [done|]. destruct r as [st|e].
  - destruct (Hr st eq_refl) as (-> & Hc2 & Hrep). by repeat split.
  - right. rewrite sql_log_other by done. by rewrite Hl, Hli.
Qed.

(** ** Nothing but [find_out] throws [in_doubt_error] *)

Definition no_doubt {S A} (m : prog S A) : Prop :=
  ∀ s h e, (m s h).1.1 = Throw e → exn_kind e ≠ pqxx_in_doubt_error.

Lemma no_doubt_bind {S A B} (m : prog S A) (f : A → prog S B) :
  no_doubt m → (∀ a, no_doubt (f a)) → no_doubt (m ≫= f).
Proof.
  intros Hm Hf s h e. rewrite prog_bind_unfold. specialize (Hm s h).
  destruct (m s h) as [[[a|e'] s1] h1]; [apply Hf|]. intros [= <-]. by apply Hm.
Qed.
Lemma no_doubt_try {S A} (m : prog S A) handler :
  no_doubt m → (∀ e, exn_kind e ≠ pqxx_in_doubt_error → no_doubt (handler e)) →
  no_doubt (try_catch m handler).
Proof.
  intros Hm Hf s h e. unfold try_catch. specialize (Hm s h).
  destruct (m s h) as [[[a|e'] s1] h1]; [done|]. apply Hf. by apply Hm.
Qed.
Lemma no_doubt_zoom {S T A} (view : T → S) put (m : prog S A) : no_doubt m → no_doubt (zoom view put m).
Proof. intros Hm t h e. unfold zoom. specialize (Hm (view t) h e). by destruct (m _ _) as [[??]?]. Qed.
Lemma no_doubt_finally {S A} (m : prog S A) cleanup : no_doubt m → no_doubt (finally m cleanup).
Proof.
  intros Hm s h e. unfold finally. specialize (Hm s h e). destruct (m s h) as [[r s1] h1].
  by destruct (cleanup s1 h1) as [[??]?].
Qed.
Lemma no_doubt_throw {S A} e : exn_kind e ≠ pqxx_in_doubt_error → no_doubt (S:=S) (A:=A) (throw e).
Proof. intros He s h e'. by intros [= <-]. Qed.
Lemma no_doubt_lift {S A} (r : result exn A) :
  (∀ e, r = Throw e → exn_kind e ≠ pqxx_in_doubt_error) → no_doubt (S:=S) (lift_result r).
Proof. intros Hr s h e. apply Hr. Qed.

Lemma throw_sql_error_no_doubt Err code : exn_kind (throw_sql_error Err code) ≠ pqxx_in_doubt_error.
Proof. unfold throw_sql_error. by repeat case_match. Qed.
Lemma check_status_no_doubt desc r e : check_status desc r = Throw e → exn_kind e ≠ pqxx_in_doubt_error.
Proof.
  unfold check_status, status_error. destruct (pg_status r);
    try (by intros [= <-]); cbn [mbind result_bind];
    destruct (is_empty (pg_error_message r)); try done;
    intros [= <-]; apply throw_sql_error_no_doubt.
Qed.
Lemma enc_group_no_doubt name e : enc_group name = Throw e → exn_kind e ≠ pqxx_in_doubt_error.
Proof. unfold enc_group. case_match; [done|]. by intros [= <-]. Qed.
Lemma check_unique_register_no_doubt o g e :
  check_unique_register o g = Throw e → exn_kind e ≠ pqxx_in_doubt_error.
Proof. unfold check_unique_register. case_match; [|done]. by intros [= <-]. Qed.
Lemma status_of_row_no_doubt r e : status_of_row r = Throw e → exn_kind e ≠ pqxx_in_doubt_error.
Proof. unfold status_of_row. repeat case_match; try done; by intros [= <-]. Qed.
Lemma no_doubt_done {S A} (m : prog S A) : (∀ s h, is_ok (m s h).1.1 = true) → no_doubt m.
Proof. intros Hm s h e He. specialize (Hm s h). by rewrite He in Hm. Qed.

Create HintDb no_doubt.
Ltac solve_no_doubt :=
  repeat first
    [ solve [auto with no_doubt nocore] | solve [by apply no_doubt_done] | solve [by apply no_doubt_throw]
    | apply no_doubt_lift; first [apply check_status_no_doubt | apply enc_group_no_doubt
        | apply check_unique_register_no_doubt | apply status_of_row_no_doubt]
    | apply no_doubt_bind; [|intros ?] | apply no_doubt_try; [|intros ??] | apply no_doubt_zoom
    | apply no_doubt_finally | progress cbv zeta | case_match ].

Lemma no_doubt_conn_exec q desc : no_doubt (conn_exec q desc).
Proof.
  unfold conn_exec, make_result, err_msg, encoding_id, is_open, get_notifs, consume_input. solve_no_doubt.
Qed.
Hint Resolve no_doubt_conn_exec : no_doubt.
Lemma no_doubt_direct_exec q desc : no_doubt (direct_exec q desc).
Proof.
  unfold direct_exec, check_pending_error, set_pending_error, on_conn.
  solve_no_doubt.
Qed.
Hint Resolve no_doubt_direct_exec : no_doubt.
Lemma no_doubt_query_status {S} xid conn_str : no_doubt (S:=S) (query_status xid conn_str).
Proof.
  unfold query_status, with_connection, with_nontransaction. intros s h e.
  match goal with |- context [finally ?b transaction_base_destroy] => assert (Hb : no_doubt b) end.
  { unfold tx_register, exec1, exec_n, tx_exec, command, register_transaction, register_focus,
      set_focus, set_registered, direct_exec, check_pending_error, set_pending_error, on_conn.
    solve_no_doubt. }
  assert (Hc : no_doubt (connection_init conn_str)).
  { unfold connection_init, complete_init, set_up_state, err_msg, is_open. solve_no_doubt. }
  unfold finally at 1. rewrite prog_bind_unfold. specialize (Hc (mk_connection false None) h).
  destruct (connection_init _ _ h) as [[[[]|e0] c] h1]; [|intros [= <-]; by apply Hc].
  match goal with |- context [finally ?b transaction_base_destroy ?s0 ?h0] =>
    pose proof (no_doubt_finally b transaction_base_destroy Hb s0 h0) as Hn;
    destruct (finally b transaction_base_destroy s0 h0) as [[r2 s2] h2] end.
  destruct (conn_close _ h2) as [[r3 s3] h3]. intros [= ->]. by apply Hn.
Qed.

(** ** Finding out *)

(** The state of the caller plays no part. *)
Lemma query_status_state {S} xid conn_str (s0 : S) h :
  query_status xid conn_str s0 h = let '(r, _, h') := query_status xid conn_str tt h in (r, s0, h').
Proof.
  unfold query_status, with_connection.
  set (x := (connection_init _ ≫= _) _ _). by destruct x as [[??]?].
Qed.

(** Another connection could not be opened, or was lost. *)
Definition unreachable (t : robust) (h h' : history) : Prop :=
  ∃ e, query_status (m_xid t) (m_conn_string t) tt h = (Throw e, tt, h') ∧ exn_kind e = pqxx_broken_connection.

(** From [h] to [h'] the server told [n] times that the transaction is in
    progress, and each time was asked again after a while. *)
Inductive polls (t : robust) : nat → history → history → Prop :=
  | polls_none h : polls t 0 h h
  | polls_more n h h1 h' :
      answers_status t tx_in_progress h h1 → polls t n (WaitFor 300 :: h1) h' → polls t (S n) h h'.

(** What a commit whose outcome was unknown is taken for a success for. *)
Definition settled (t : robust) (h h' : history) : Prop :=
  answers_status t tx_committed h h' ∨ unreachable t h h' ∨
  ∃ h1, answers_status t tx_aborted h h1 ∧ acknowledged "ROLLBACK" h1 h'.

(** What it is taken for a failure for. *)
Definition given_up (t : robust) (h h' : history) : Prop :=
  sql_log h' = sql_log h ∨ sql_log h' = sql_log h ++ [asked t] ∨
  ∃ h1, answers_status t tx_aborted h h1 ∧ refused "ROLLBACK" h1 h'.

(** What is known when [find_out] ends after at most [n] attempts. *)
Definition found_out (t : robust) (n : nat) (h : history) (r : result exn unit) (h' : history) : Prop :=
  match r with
  | Ok _ => ∃ k h1, (k < n)%nat ∧ polls t k h h1 ∧ settled t h1 h'
  | Throw e =>
      (exn_kind e = pqxx_in_doubt_error ∧ polls t n h h') ∨
      (exn_kind e ≠ pqxx_in_doubt_error ∧ ∃ k h1, (k < n)%nat ∧ polls t k h h1 ∧ given_up t h1 h')
  end.

Lemma found_out_now t n h r h' :
  match r with
  | Ok _ => settled t h h'
  | Throw e => exn_kind e ≠ pqxx_in_doubt_error ∧ given_up t h h'
  end → found_out t (S n) h r h'.
Proof.
  destruct r as [u|e]; cbn; [intros Hs|intros [He Hs]; right; split; [done|]];
    exists 0%nat, h; (split; [lia|]); (split; [constructor|done]).
Qed.

Lemma found_out_later t n h h1 r h' :
  answers_status t tx_in_progress h h1 → found_out t n (WaitFor 300 :: h1) r h' → found_out t (S n) h r h'.
Proof.
  intros Ha. destruct r as [u|e]; cbn.
  - intros (k & h2 & Hk & Hp & Hs). exists (S k), h2. split; [lia|]. split; [by econstructor|done].
  - intros [[He Hp]|(He & k & h2 & Hk & Hp & Hs)]; [left|right]; (split; [done|]); [by econstructor|].
    exists (S k), h2. split; [lia|]. split; [by econstructor|done].
Qed.

Lemma find_out_ends t n ptr h :
  let s0 := sess ptr active false in
  let '(r, s, h') := find_out t n s0 h in s = s0 ∧ found_out t n h r h'.
Proof.
  cbv zeta. set (s0 := sess ptr active false). revert h. induction n as [|n IH]; intros h; cbn [find_out].
  { unfold gets, mbind, prog_bind, throw. split; [done|]. left. split; [done|constructor]. }
  rewrite prog_bind_unfold. unfold try_catch. rewrite (query_status_state _ _ s0).
  pose proof (query_status_answer t tt h) as Hq.
  pose proof (no_doubt_query_status (m_xid t) (m_conn_string t) tt h) as Hn.
  destruct (query_status _ _ tt h) as [[r []] h1] eqn:Eq. destruct Hq as [_ Hq].
  destruct r as [st|e].
  - assert (Hst : st ≠ tx_unknown).
    { destruct Hq as (_ & _ & _ & reply & r & _ & _ & Hst). by apply status_of_row_known in Hst. }
    destruct st; [done| | |].
    + split; [done|]. apply found_out_now. by left.
    + unfold do_abort. rewrite prog_bind_unfold.
      pose proof (direct_exec_answer "ROLLBACK" ptr active false h1) as Hd. cbv zeta in Hd. fold s0 in Hd.
      pose proof (no_doubt_direct_exec "ROLLBACK" EmptyString s0 h1) as Hnd.
      destruct (direct_exec _ _ s0 h1) as [[[a|e] s] h2]; destruct Hd as [-> Hd];
        (split; [done|]); apply found_out_now.
      * right; right. by exists h1.
      * split; [by apply Hnd|]. right; right. by exists h1.
    + rewrite prog_bind_unfold. unfold emit. specialize (IH (WaitFor 300 :: h1)).
      destruct (find_out t n s0 _) as [[r s] h2]. destruct IH as [-> IH]. split; [done|].
      by eapply found_out_later.
  - case_decide as Hd; unfold throw, mret, prog_ret; (split; [done|]); apply found_out_now.
    + right; left. by exists e.
    + split; [by apply Hn|]. destruct Hq as [Hq|Hq]; [by left|by right; left].
Qed.

(** ** Commit *)

Definition set_constraints : string := "SET CONSTRAINTS ALL IMMEDIATE".

(** [COMMIT] failed because the connection was lost. *)
Definition lost (s0 : session) (h h' : history) : Prop :=
  refused "COMMIT" h h' ∧
  ∃ e, direct_exec "COMMIT" EmptyString s0 h = (Throw e, s0, h') ∧
       (exn_kind e = pqxx_broken_connection ∨ PQstatus_ok h' = false).

(** The ways a commit goes that was started at [h0]. *)
Definition do_commit_ends (t : robust) (s0 : session) (h0 : history) (r : result exn unit) (h : history) : Prop :=
  match r with
  | Ok _ => ∃ h1, acknowledged set_constraints h0 h1 ∧
      (acknowledged "COMMIT" h1 h ∨ ∃ h2 k h3, lost s0 h1 h2 ∧ (k < max_attempts)%nat ∧ polls t k h2 h3 ∧ settled t h3 h)
  | Throw e =>
      (exn_kind e = pqxx_in_doubt_error ∧
       ∃ h1 h2, acknowledged set_constraints h0 h1 ∧ lost s0 h1 h2 ∧ polls t max_attempts h2 h) ∨
      (exn_kind e ≠ pqxx_in_doubt_error ∧
       ((∃ h1, refused set_constraints h0 h1 ∧ sql_log h = sql_log h1 ++ ["ROLLBACK"]) ∨
        (∃ h1 h2, acknowledged set_constraints h0 h1 ∧ refused "COMMIT" h1 h2 ∧
           (sql_log h = sql_log h2 ++ ["ROLLBACK"] ∨
            ∃ k h3, (k < max_attempts)%nat ∧ polls t k h2 h3 ∧ given_up t h3 h))))
  end.

(** An exception passed on after a [ROLLBACK]. *)
Lemma rollback_throw ptr e h :
  exn_kind e ≠ pqxx_in_doubt_error →
  let s0 := sess ptr active false in
  ∃ e' h', (do_abort;; throw (A:=unit) e) s0 h = (Throw e', s0, h') ∧ exn_kind e' ≠ pqxx_in_doubt_error ∧
    sql_log h' = sql_log h ++ ["ROLLBACK"].
Proof.
  cbv zeta. intros He. unfold do_abort. rewrite !prog_bind_unfold.
  pose proof (direct_exec_answer "ROLLBACK" ptr active false h) as Hd. cbv zeta in Hd.
  pose proof (no_doubt_direct_exec "ROLLBACK" EmptyString (sess ptr active false) h) as Hnd.
  destruct (direct_exec _ _ _ h) as [[[a|e'] s] h1]; destruct Hd as [-> Hd]; unfold mret, prog_ret, throw;
    (eexists _, h1; split; [reflexivity|]).
  - split; [done|]. by apply acknowledged_sql in Hd.
  - split; [by apply Hnd|]. by apply refused_sql in Hd.
Qed.

(** After a [COMMIT] that was lost. *)
Lemma lost_commit_ends t ptr h0 h1 h2 :
  let s0 := sess ptr active false in
  acknowledged set_constraints h0 h1 → lost s0 h1 h2 →
  let '(r, s, h) := find_out t max_attempts s0 h2 in s = s0 ∧ do_commit_ends t s0 h0 r h.
Proof.
  cbv zeta. intros H1 H2. pose proof (find_out_ends t max_attempts ptr h2) as Hf. cbv zeta in Hf.
  destruct (find_out _ _ _ _) as [[[u|e] s] h]; destruct Hf as [-> Hf]; (split; [done|]).
  - destruct Hf as (k & h3 & Hf). exists h1. split; [done|]. right. by exists h2, k, h3.
  - destruct Hf as [[He Hf]|(He & k & h3 & Hf)]; [left|right]; (split; [done|]).
    + by exists h1, h2.
    + right. exists h1, h2. split; [done|]. split; [apply H2|]. right. by exists k, h3.
Qed.

Lemma robust_do_commit_ends t ptr h0 :
  let s0 := sess ptr active false in
  let '(r, s, h) := robust_do_commit t s0 h0 in s = s0 ∧ do_commit_ends t s0 h0 r h.
Proof.
  cbv zeta. unfold robust_do_commit. set (s0 := sess ptr active false).
  rewrite prog_bind_unfold. unfold try_catch at 1. rewrite prog_bind_unfold. fold set_constraints.
  pose proof (direct_exec_answer set_constraints ptr active false h0) as Hd. cbv zeta in Hd. fold s0 in Hd.
  pose proof (no_doubt_direct_exec set_constraints EmptyString s0 h0) as Hnd.
  destruct (direct_exec _ _ s0 h0) as [[[a|e] s1] h1]; destruct Hd as [-> H1].
  2:{ destruct (rollback_throw ptr e h1 (Hnd e eq_refl)) as (e' & h & E & He & Hl). fold s0 in E. rewrite E.
      split; [done|]. right. split; [done|]. left. by exists h1. }
  unfold mret at 1, prog_ret. cbv iota beta. clear Hnd. rewrite prog_bind_unfold. unfold try_catch.
  rewrite prog_bind_unfold.
  pose proof (direct_exec_answer "COMMIT" ptr active false h1) as Hd. cbv zeta in Hd. fold s0 in Hd.
  pose proof (no_doubt_direct_exec "COMMIT" EmptyString s0 h1) as Hnd.
  destruct (direct_exec _ _ s0 h1) as [[[b|e] s2] h2] eqn:Ed; destruct Hd as [-> H2].
  { unfold mret, prog_ret. split; [done|]. exists h1. split; [done|]. by left. }
  assert (Hlost : exn_kind e = pqxx_broken_connection ∨ PQstatus_ok h2 = false → lost s0 h1 h2).
  { intros Hc. split; [done|]. by exists e. }
  assert (Hgo : lost s0 h1 h2 → let '(r, s, h) := find_out t max_attempts s0 h2 in s = s0 ∧ do_commit_ends t s0 h0 r h).
  { intros Hl. exact (lost_commit_ends t ptr h0 h1 h2 H1 Hl). }
  case_decide as Hb; [apply Hgo; auto|]. rewrite prog_bind_unfold.
  assert (on_conn is_open s0 h2 = (Ok (PQstatus_ok h2), s0, h2)) as -> by done.
  destruct (PQstatus_ok h2) eqn:Eo; [|apply Hgo; auto].
  destruct (rollback_throw ptr e h2 (Hnd e eq_refl)) as (e' & h & E & He & Hl). fold s0 in E.
  rewrite prog_bind_unfold in E. rewrite !prog_bind_unfold.
  destruct (do_abort s0 h2) as [[[[]|ea] sa] ha]; unfold throw in *; injection E as -> -> ->;
    (split; [done|]); right; (split; [done|]); right; exists h1, h2; by auto.
Qed.


(** C13. When the connection is lost during [COMMIT] and no other connection can
    be opened to find out, [commit] of a robust transaction returns normally
    and the transaction counts as committed. *)
Theorem unknown_outcome_committed t ptr h0 h1 h2 h3 a e1 e2 :
  let s0 := sess ptr active false in
  PQstatus_ok h0 = true →
  direct_exec set_constraints EmptyString s0 h0 = (Ok a, s0, h1) →
  direct_exec "COMMIT" EmptyString s0 h1 = (Throw e1, s0, h2) →
  exn_kind e1 = pqxx_broken_connection →
  query_status (m_xid t) (m_conn_string t) s0 h2 = (Throw e2, s0, h3) →
  exn_kind e2 = pqxx_broken_connection →
  robust_commit t s0 h0 = (Ok tt, sess ptr committed false, h3).
Proof.
  cbv zeta. intros Ho H1 H2 He1 H3 He2.
  unfold robust_commit, commit_as. rewrite check_pending_bind by done.
  unfold description, gets, mbind at 1 2, prog_bind at 1 2. cbn [sess s_tx m_status m_focus].
  set (s0 := sess ptr active false) in *. rewrite prog_bind_unfold.
  assert (on_conn is_open s0 h0 = (Ok (PQstatus_ok h0), s0, h0)) as -> by done. rewrite Ho. cbn [negb].
  assert (robust_do_commit t s0 h0 = (Ok tt, s0, h3)) as Hd.
  { unfold robust_do_commit. rewrite prog_bind_unfold. unfold try_catch at 1.
    rewrite prog_bind_unfold. fold set_constraints. rewrite H1. unfold mret at 1, prog_ret.
    rewrite prog_bind_unfold. unfold try_catch. rewrite prog_bind_unfold, H2, decide_True by done.
    unfold max_attempts, mret, prog_ret. cbn [find_out]. rewrite prog_bind_unfold. unfold try_catch.
    by rewrite H3, decide_True. }
  rewrite prog_bind_unfold. unfold try_catch. rewrite prog_bind_unfold, Hd.
  unfold set_status, modify. change (close _ h3) with (close (sess ptr committed false) h3).
  by rewrite close_unregistered_run.
Qed.
End robust.

(** A server that is gone as soon as it gets the [COMMIT]. *)
Definition is_commit (e : event) : bool := match e with PqExec q => String.eqb q "COMMIT" | _ => false end.
Definition lossy_env : Env := {|
  now_ns := λ _, 0%Z; localtime_text := λ _, "2024-01-01T00:00:00";
  open_append_ok := λ _, true; file_contents := λ _, None; iteration := λ _ l, l;
  curl_init_ok := λ _, true; curl_perform_ok := λ _, true;
  PQconnectdb := λ _, true; PQstatus_ok := λ h, negb (existsb is_commit h);
  PQprotocolVersion := λ _, 3%Z; PQserverVersion := λ _, 150000%Z;
  PQerrorMessage := λ _, "server closed the connection unexpectedly";
  PQclientEncoding := λ _, 6%Z; pg_encoding_to_char := λ _, "UTF8";
  PQexec := λ h, if existsb is_commit h then None
                 else Some (mk_pg_result PGRES_TUPLES_OK EmptyString None [[Some "741"]]);
  PQconsumeInput := λ _, true; PQnotifies := λ _, 0%nat |}.
Definition lossy_info : ConnInfoEnv := {|
  PQbackendPID := λ _, 4711%Z; PQconninfo := λ _, Some [];
  getenv := λ _ _, None; PQescapeIdentifier := λ _ s, Some s |}.

Lemma unknown_outcome_committed_witness :
  let '(r, s, h) := robust_commit (H := lossy_env) (mk_robust EmptyString "741" 4711) (sess 1 active false) [] in
  r = Ok tt ∧ m_status (s_tx s) = committed ∧ PQexec (Env := lossy_env) h = None.
Proof.
  rewrite (unknown_outcome_committed (H := lossy_env) (mk_robust EmptyString "741" 4711) 1 []
    [PqConsumeInput; PqExec set_constraints] [PqExec "COMMIT"; PqConsumeInput; PqExec set_constraints]
    [PqFinish; PqConnect EmptyString; PqExec "COMMIT"; PqConsumeInput; PqExec set_constraints]
    (mk_query_result (mk_pg_result PGRES_TUPLES_OK EmptyString None [[Some "741"]]) set_constraints UTF8)
    (broken_exn "Lost connection to the database server.")
    (broken_exn "server closed the connection unexpectedly")); vm_compute; done.
Defined.

(** ** Nested transactions *)

Section subtransaction.
Context `{Env} `{ConnInfoEnv}.

(** The object of a subtransaction, which registers with nothing. *)
Definition sub (ptr : positive) (tname : string) (st : tx_status) : transaction :=
  mk_transaction ptr tname st false EmptyString None.

Lemma in_sub_triple {A} (m : prog session A) (s : session) (t : transaction) log
    (Q : result exn A → session → history → Prop) (Q' : result exn A → session * transaction → history → Prop) :
  triple (at_state (mk_session (s_conn s) t) log) m Q →
  (∀ r s' h, Q r s' h → Q' r (mk_session (s_conn s') (s_tx s), s_tx s') h) →
  triple (at_state (s, t) log) (in_sub m) Q'.
Proof.
  intros Hm HQ. eapply (triple_zoom _ _ m _ _ Q Q' (s, t)); [exact Hm| |exact HQ]. by intros p h [-> <-].
Qed.

Context (c : connection) (Hc : m_conn c = true) (ptr : positive) (tname : string).

Lemma close_with_ended_sub abort_ st h :
  st ≠ active →
  close_with abort_ (mk_session c (sub ptr tname st)) h = (Ok tt, mk_session c (sub ptr tname st), h).
Proof.
  intros Hst. unfold close_with, when. rewrite prog_bind_unfold.
  change (try_catch check_pending_error _ _ h) with (@Ok exn unit tt, mk_session c (sub ptr tname st), h).
  cbv iota beta. rewrite prog_bind_unfold.
  change (gets s_tx _ h) with (@Ok exn _ (sub ptr tname st), mk_session c (sub ptr tname st), h).
  cbn [sub m_registered m_status]. by rewrite (decide_True _ _ Hst).
Qed.

Lemma sub_abort_run rb h :
  let s0 := mk_session c (sub ptr tname active) in
  let '(r, s, h') := try_catch (sub_do_abort rb) (λ e, process_notice (what e +:+ NL)) s0 h in
  r = Ok tt ∧ at_state s0 (sql_log h ++ [c_str rb]) s h'.
Proof.
  cbv zeta. set (s0 := mk_session c (sub ptr tname active)).
  assert (Ha : triple (at_state s0 (sql_log h))
    (try_catch (sub_do_abort rb) (λ e, process_notice (what e +:+ NL)))
    (ends_at tt s0 (sql_log h ++ [c_str rb]))).
  { apply (triple_try _ _ _ (λ _ s h', at_state s0 (sql_log h ++ [c_str rb]) s h')).
    - apply (triple_bind _ _ _ (λ _, at_state s0 (sql_log h ++ [c_str rb]))).
      + eapply triple_conseq; [by apply (direct_exec_calm rb s0)|done|].
        by intros [|] s h' (-> & Hl & _).
      + intros _. by apply triple_ret.
    - intros e. apply process_notice_triple. }
  exact (Ha s0 h (conj eq_refl eq_refl)).
Qed.

(** Closing a subtransaction that is still active rolls back to the savepoint. *)
Lemma sub_close_active rb h :
  let '(r, s, h') := sub_close rb (mk_session c (sub ptr tname active)) h in
  s = mk_session c (sub ptr tname aborted) ∧ sql_log h' = sql_log h ++ [c_str rb].
Proof.
  unfold sub_close. cbn [close_n]. unfold close_with at 1, when. rewrite prog_bind_unfold.
  set (s0 := mk_session c (sub ptr tname active)).
  change (try_catch check_pending_error _ s0 h) with (@Ok exn unit tt, s0, h). cbv iota beta.
  rewrite prog_bind_unfold. change (gets s_tx _ h) with (@Ok exn _ (sub ptr tname active), s0, h).
  cbn [sub m_registered m_status m_focus]. rewrite decide_False by auto.
  rewrite !prog_bind_unfold. unfold description, gets. unfold mret at 1, prog_ret.
  rewrite !prog_bind_unfold. unfold mret at 1, prog_ret. unfold try_catch at 1, abort_as at 1.
  rewrite prog_bind_unfold. unfold gets. cbn [s0 s_tx sub m_status]. rewrite !prog_bind_unfold.
  unfold description, gets.
  pose proof (sub_abort_run rb h) as Ha. cbv zeta in Ha. fold s0 in Ha |- *.
  rewrite prog_bind_unfold.
  destruct (try_catch (sub_do_abort rb) _ s0 h) as [[r s1] h1]. destruct Ha as [-> [-> Hl]].
  rewrite prog_bind_unfold. unfold set_status, modify.
  change (mk_session (s_conn s0) _) with (mk_session c (sub ptr tname aborted)).
  by rewrite close_with_ended_sub.
Qed.

(** Committing releases the savepoint. *)
Lemma sub_commit_ends name q rb log :
  (∀ h, PQescapeIdentifier h name = Some q) →
  triple (at_state (mk_session c (sub ptr tname active)) log) (sub_commit name rb)
    (λ r s h, ∃ st, s = mk_session c (sub ptr tname st) ∧
      match r with
      | Ok _ => st = committed ∧ sql_log h = log ++ [c_str ("RELEASE SAVEPOINT " +:+ q)] ∧
          acked (PqExec (c_str ("RELEASE SAVEPOINT " +:+ q))) h
      | Throw _ => (st = active ∧ sql_log h = log) ∨
          (st ≠ active ∧ sql_log h = log ++ [c_str ("RELEASE SAVEPOINT " +:+ q)])
      end).
Proof.
  intros Hq s h [-> <-]. unfold sub_commit, commit_as. rewrite check_pending_bind by done.
  unfold description, gets, mbind at 1 2, prog_bind at 1 2. cbn [s_tx sub m_status m_focus].
  set (s0 := mk_session c (sub ptr tname active)). rewrite prog_bind_unfold.
  assert (on_conn is_open s0 h = (Ok (PQstatus_ok h), s0, h)) as ->.
  { unfold on_conn, zoom, is_open, get, mbind, prog_bind. cbn. by rewrite Hc. }
  destruct (PQstatus_ok h); cbn [negb]; [|exists active; split; [done|by left]].
  rewrite prog_bind_unfold. unfold try_catch. rewrite prog_bind_unfold.
  assert (Hd : triple (at_state s0 (sql_log h)) (sub_do_commit name)
    (exec_post s0 (sql_log h) (PqExec (c_str ("RELEASE SAVEPOINT " +:+ q))))).
  { intros s h' [-> <-]. unfold sub_do_commit, savepoint_cmd. rewrite !prog_bind_unfold.
    assert (on_conn (quote_name name) s0 h' = (Ok q, s0, h')) as ->.
    { unfold on_conn, zoom, quote_name, get, mbind, prog_bind, ask. cbn. by rewrite Hc, Hq. }
    unfold mret at 1, prog_ret. rewrite prog_bind_unfold.
    pose proof (direct_exec_calm ("RELEASE SAVEPOINT " +:+ q) s0 (sql_log h') eq_refl Hc s0 h'
      (conj eq_refl eq_refl)) as Hx.
    destruct (direct_exec _ _ _ h') as [[[a|e] s1] h1]; exact (exec_post_drop _ _ _ _ _ _ Hx). }
  specialize (Hd s0 h (conj eq_refl eq_refl)).
  destruct (sub_do_commit name s0 h) as [[r s] h']. destruct Hd as (-> & Hl & Ha).
  destruct r as [[]|e]; unfold set_status, modify.
  - change (mk_session (s_conn s0) _) with (mk_session c (sub ptr tname committed)).
    unfold sub_close. cbn [close_n]. rewrite close_with_ended_sub by done. exists committed.
    split; [done|]. split; [done|]. split; [done|]. destruct (Ha tt eq_refl) as (reply & Hr & _). by exists reply.
  - rewrite prog_bind_unfold. unfold throw. eexists. split; [reflexivity|]. right.
    split; [by case_decide|done].
Qed.

(** The statements of a subtransaction. *)
Lemma sub_statements (s : session) qs :
  s_conn s = c → ∀ h,
  let '(r, p, h') := for_each qs (λ x, in_sub (_ ← tx_exec x EmptyString; mret tt)) (s, sub ptr tname active) h in
  p = (s, sub ptr tname active) ∧
  ∃ k, sql_log h' = sql_log h ++ take k (map c_str qs) ∧ (r = Ok tt → k = length qs).
Proof.
  intros Hs. induction qs as [|x qs IH]; intros h; cbn [for_each].
  { split; [done|]. exists 0%nat. by rewrite app_nil_r. }
  rewrite prog_bind_unfold.
  assert (Hx : triple (at_state (s, sub ptr tname active) (sql_log h)) (in_sub (_ ← tx_exec x EmptyString; mret tt))
    (λ r p h', p = (s, sub ptr tname active) ∧ sql_log h' = sql_log h ++ [c_str x])).
  { set (s0 := mk_session c (sub ptr tname active)).
    eapply (in_sub_triple _ s _ (sql_log h) (λ r s' h', s' = s0 ∧ sql_log h' = sql_log h ++ [c_str x])).
    - intros s1 h1 [-> <-]. rewrite Hs. fold s0. rewrite prog_bind_unfold.
      pose proof (tx_exec_calm x s0 (sql_log h1) eq_refl Hc eq_refl eq_refl s0 h1 (conj eq_refl eq_refl)) as Ht.
      destruct (tx_exec x _ s0 h1) as [[[a|e] s2] h2]; destruct Ht as (-> & Hl & _); by split.
    - intros r s' h' [-> Hl]. split; [|done]. cbn. rewrite <-Hs. by destruct s. }
  specialize (Hx (s, sub ptr tname active) h (conj eq_refl eq_refl)).
  destruct (in_sub _ _ h) as [[[[]|e] p] h1]; destruct Hx as (-> & Hl).
  - specialize (IH h1). destruct (for_each qs _ _ h1) as [[r p] h2]. destruct IH as (-> & k & Hk & Hr).
    split; [done|]. exists (S k). rewrite Hk, Hl, <-app_assoc. split; [done|]. intros Ho. by rewrite Hr.
  - split; [done|]. exists 1%nat. by rewrite Hl.
Qed.

(** What the subtransaction [q] with the statements [qs] sends. *)
Definition sub_outcome (q : string) (qs : list string) (log : list string) (r : result exn unit) (h : history) : Prop :=
  let savepoint := c_str ("SAVEPOINT " +:+ q) in
  let release := c_str ("RELEASE SAVEPOINT " +:+ q) in
  let rollback := c_str ("ROLLBACK TO SAVEPOINT " +:+ q) in
  match r with
  | Ok _ => sql_log h = log ++ [savepoint] ++ map c_str qs ++ [release] ∧ acked (PqExec release) h
  | Throw _ => sql_log h = log ++ [savepoint] ∨
      (∃ k, sql_log h = log ++ [savepoint] ++ take k (map c_str qs) ++ [rollback]) ∨
      sql_log h = log ++ [savepoint] ++ map c_str qs ++ [release]
  end.

Lemma sub_scope_ends (s : session) name q qs log :
  s_conn s = c → (∀ h, PQescapeIdentifier h name = Some q) →
  triple (at_state (s, sub ptr tname active) (log ++ [c_str ("SAVEPOINT " +:+ q)]))
    (finally (for_each qs (λ x, in_sub (_ ← tx_exec x EmptyString; mret tt));;
              in_sub (sub_commit name ("ROLLBACK TO SAVEPOINT " +:+ q)))
             (in_sub (sub_close ("ROLLBACK TO SAVEPOINT " +:+ q))))
    (λ r p h, p.1 = s ∧ (∃ st, p.2 = sub ptr tname st) ∧ sub_outcome q qs log r h).
Proof.
  intros Hs Hq p h [-> Hl0]. unfold finally. rewrite prog_bind_unfold.
  assert (Hback : ∀ t : transaction, (mk_session c (s_tx s), t) = (s, t)) by (intros t; rewrite <-Hs; by destruct s).
  pose proof (sub_statements s qs Hs h) as Hst.
  destruct (for_each qs _ _ h) as [[r1 p1] h1]. destruct Hst as (-> & k & Hl1 & Hk).
  rewrite Hl0 in Hl1.
  assert (Hrb : ∀ h', sql_log h' = sql_log h1 →
    let '(_, p, h2) := in_sub (sub_close ("ROLLBACK TO SAVEPOINT " +:+ q)) (s, sub ptr tname active) h' in
    p = (s, sub ptr tname aborted) ∧ ∀ e, sub_outcome q qs log (Throw e) h2).
  { intros h' Hl'. unfold in_sub, zoom. cbn [fst snd]. rewrite Hs.
    pose proof (sub_close_active ("ROLLBACK TO SAVEPOINT " +:+ q) h') as Hcl.
    destruct (sub_close _ _ h') as [[r2 s2] h2]. destruct Hcl as [-> Hl2]. cbn [s_conn s_tx].
    rewrite Hback. split; [done|]. intros e. right; left. exists k. rewrite Hl2, Hl', Hl1. by rewrite <-!app_assoc. }
  destruct r1 as [[]|e].
  2:{ specialize (Hrb h1 eq_refl). destruct (in_sub _ _ h1) as [[r2 p2] h2]. destruct Hrb as [-> Ho].
      split; [done|]. split; [by exists aborted|]. apply Ho. }
  specialize (Hk eq_refl). subst k. rewrite take_ge in Hl1 by (by rewrite length_map).
  unfold in_sub at 1, zoom at 1. cbn [fst snd]. rewrite Hs.
  pose proof (sub_commit_ends name q ("ROLLBACK TO SAVEPOINT " +:+ q) (sql_log h1) Hq _ h1 (conj eq_refl eq_refl)) as Hcm.
  destruct (sub_commit _ _ _ h1) as [[r2 s2] h2]. destruct Hcm as (st & -> & Hr2). cbn [s_conn s_tx].
  rewrite Hback.
  assert (Hend : st ≠ active → in_sub (sub_close ("ROLLBACK TO SAVEPOINT " +:+ q)) (s, sub ptr tname st) h2 =
    (Ok tt, (s, sub ptr tname st), h2)).
  { intros Hne. unfold in_sub, zoom. cbn [fst snd]. rewrite Hs. unfold sub_close. cbn [close_n].
    rewrite close_with_ended_sub by done. cbn [s_conn s_tx]. by rewrite Hback. }
  destruct r2 as [[]|e].
  - destruct Hr2 as (-> & Hl2 & Hack). rewrite Hend by done. split; [done|]. split; [by exists committed|].
    split; [|done]. rewrite Hl2, Hl1. by rewrite <-!app_assoc.
  - destruct Hr2 as [[-> Hl2]|[Hne Hl2]].
    + specialize (Hrb h2 Hl2). destruct (in_sub _ _ h2) as [[r3 p3] h3]. destruct Hrb as [-> Ho].
      split; [done|]. split; [by exists aborted|]. apply Ho.
    + rewrite Hend by done. split; [done|]. split; [by exists st|]. right; right.
      rewrite Hl2, Hl1. by rewrite <-!app_assoc.
Qed.
End subtransaction.

(** C14. A subtransaction with any statements in it, whatever the server answers:
    the transaction around it is left as it was; [commit] succeeds only if the
    release of the savepoint was acknowledged after all the statements were
    sent; when a statement fails the subtransaction is rolled back to its
    savepoint, and only it. *)
Theorem subtransaction_protocol `{Env} `{ConnInfoEnv} ptr tname name q qs (s : session) log :
  m_conn (s_conn s) = true → (∀ h, PQescapeIdentifier h name = Some q) →
  triple (at_state s log)
    (with_subtransaction ptr tname name (λ rollback_cmd,
       for_each qs (λ x, in_sub (_ ← tx_exec x EmptyString; mret tt));; in_sub (sub_commit name rollback_cmd)))
    (λ r s' h, s' = s ∧ sub_outcome q qs log r h).
Proof.
  intros Hc Hq s0 h [-> <-]. unfold with_subtransaction, finally at 1. rewrite prog_bind_unfold.
  change (transaction_new ptr tname) with (sub ptr tname active).
  set (s1 := mk_session (s_conn s) (sub ptr tname active)).
  assert (Hi : triple (at_state s1 (sql_log h)) (subtransaction_init name)
    (λ r s' h', s' = s1 ∧ sql_log h' = sql_log h ++ [c_str ("SAVEPOINT " +:+ q)] ∧
      ∀ a, r = Ok a → a = "ROLLBACK TO SAVEPOINT " +:+ q)).
  { intros s' h' [-> <-]. unfold subtransaction_init, savepoint_cmd.
    assert (Hn : on_conn (quote_name name) s1 h' = (Ok q, s1, h')).
    { unfold on_conn, zoom, quote_name, get, mbind, prog_bind, ask. cbn. by rewrite Hc, Hq. }
    rewrite !prog_bind_unfold, Hn. unfold mret, prog_ret. rewrite !prog_bind_unfold, Hn.
    rewrite prog_bind_unfold.
    pose proof (direct_exec_calm ("SAVEPOINT " +:+ q) s1 (sql_log h') eq_refl Hc s1 h'
      (conj eq_refl eq_refl)) as Hx. change ("SAVEPOINT" +:+ " " +:+ q) with ("SAVEPOINT " +:+ q).
    destruct (direct_exec _ _ _ h') as [[[a|e] s2] h2]; destruct Hx as (-> & Hl & _); (split; [done|]; split; [done|]).
    - by intros a' [= <-].
    - done. }
  specialize (Hi s1 h (conj eq_refl eq_refl)). unfold in_sub at 1, zoom at 1. cbn [fst snd].
  fold s1. destruct (subtransaction_init name s1 h) as [[r1 s2] h1]. destruct Hi as (-> & Hl1 & Hr1).
  assert (Hback : ∀ t : transaction, (mk_session (s_conn s1) (s_tx s), t) = (s, t)) by (intros t; by destruct s).
  rewrite Hback. change (s_tx s1) with (sub ptr tname active).
  destruct r1 as [a|e].
  - rewrite (Hr1 a eq_refl).
    pose proof (sub_scope_ends (s_conn s) Hc ptr tname s name q qs (sql_log h) eq_refl Hq _ h1 (conj eq_refl Hl1)) as Hsc.
    destruct (finally _ _ _ h1) as [[r2 [s2 t2]] h2]. destruct Hsc as (Hs2 & [st Ht2] & Ho). cbn [fst snd] in *. subst s2 t2.
    change (in_sub transaction_base_destroy (s, sub ptr tname st) h2)
      with (@Ok exn unit tt, (mk_session (s_conn s) (s_tx s), sub ptr tname st), h2).
    split; [by destruct s|done].
  - change (in_sub transaction_base_destroy (s, sub ptr tname active) h1)
      with (@Ok exn unit tt, (mk_session (s_conn s) (s_tx s), sub ptr tname active), h1).
    split; [by destruct s|]. by left.
Qed.

(** In a server that accepts everything. *)
Lemma subtransaction_protocol_witness :
  let '(r, s', h) := with_subtransaction (H := lossy_env) (H0 := lossy_info) 2 "item" "item_1" (λ rollback_cmd,
       for_each ["INSERT"; "UPDATE"] (λ x, in_sub (_ ← tx_exec (H := lossy_env) x EmptyString; mret tt));;
       in_sub (sub_commit (H := lossy_env) (H0 := lossy_info) "item_1" rollback_cmd))
     (sess 1 active true) [] in
  s' = sess 1 active true ∧ r = Ok tt ∧ sub_outcome (H := lossy_env) "item_1" ["INSERT"; "UPDATE"] [] r h.
Proof.
  pose proof (subtransaction_protocol (H := lossy_env) (H0 := lossy_info) 2 "item" "item_1" "item_1"
    ["INSERT"; "UPDATE"] (sess 1 active true) [] eq_refl (λ _, eq_refl) _ [] (conj eq_refl eq_refl)) as Hp.
  remember (with_subtransaction _ _ _ _ _ _) as x eqn:E. vm_compute in E. subst x.
  destruct Hp as [-> Ho]. split; [done|]. split; [done|]. exact Ho.
Defined.
