(* ===== verification/PqxxCursorSpec.v ===== *)
(** Cursors against a server that moves them as PostgreSQL documents it: the
    position the object keeps is the one in the server, and the rows a range
    of numbers stands for are the ones fetched. *)

From S2P Require Import Prelude Decimal Exceptions Effects EffectsFacts PqxxResult PqxxTransaction.
From S2P Require Import PqxxTransactionFacts PqxxStreams PqxxRobust PqxxCursor.

Local Open Scope string_scope.
Local Open Scope list_scope.
Local Open Scope Z_scope.

(** ** The cursor in the server *)

(** Position 0 is before the first row and [length R + 1] past the last one. *)
Definition end_position (R : list row) : Z := Z.of_nat (length R) + 1.

Definition destination (R : list row) (p k : Z) : Z :=
  if k <? 0 then Z.max (p + k) 0 else Z.min (p + k) (end_position R).

(** The rows passed, in the order they are passed. *)
Definition passed (R : list row) (p k : Z) : list row :=
  if k <? 0 then take (Z.to_nat (- k)) (reverse (take (Z.to_nat (p - 1)) R))
  else take (Z.to_nat k) (drop (Z.to_nat p) R).

(** A move falls short when it ends on neither row it counted to. *)
Lemma passed_length R p k :
  0 ≤ p ≤ end_position R → k ≠ 0 →
  let n := Z.of_nat (length (passed R p k)) in
  let q := destination R p k in
  0 ≤ n ≤ Z.abs k ∧ 0 ≤ q ≤ end_position R ∧
  (n = Z.abs k → 0 < q < end_position R ∧ q = p + (if k <? 0 then - n else n)) ∧
  (n ≠ Z.abs k → if k <? 0 then q = 0 ∧ n = Z.max (p - 1) 0 else q = end_position R ∧ n = Z.max (end_position R - 1 - p) 0).
Proof.
  unfold passed, destination, end_position. intros Hp Hk. cbv zeta.
  destruct (Z.ltb_spec k 0).
  - rewrite length_take, length_reverse, length_take. lia.
  - rewrite length_take, length_drop. lia.
Qed.

(** ** The position the object keeps *)

Definition end_flag (R : list row) (p : Z) : Z :=
  if p =? 0 then -1 else if p =? end_position R then 1 else 0.

Record tracks (R : list row) (p : Z) (c : sql_cursor) : Prop := {
  tracks_at : 0 ≤ p ≤ end_position R;
  tracks_pos : m_pos c = p;
  tracks_end : m_at_end c = end_flag R p;
  tracks_endpos : m_endpos c = -1 ∨ m_endpos c = end_position R;
}.

Lemma tracks_moved R q endpos c :
  0 ≤ q ≤ end_position R → endpos = -1 ∨ endpos = end_position R →
  tracks R q (set_position (end_flag R q) q endpos c).
Proof. intros. by split. Qed.

(** The new position is learnt from the number of rows alone. *)
Lemma adjust_tracks R p k c :
  tracks R p c → k ≠ 0 →
  let q := destination R p k in
  ∃ endpos, adjust k (Z.of_nat (length (passed R p k))) c =
    (Ok (q - p), set_position (end_flag R q) q endpos c) ∧
  tracks R q (set_position (end_flag R q) q endpos c) ∧ (endpos = -1 → q < end_position R).
Proof.
  intros [Hp Hpos Hend Hep] Hk. cbv zeta.
  destruct (passed_length R p k Hp Hk) as (Hn & Hq & Hfull & Hshort).
  set (n := Z.of_nat (length (passed R p k))) in *. set (q := destination R p k) in *.
  assert (He : 0 < end_position R) by (unfold end_position; lia).
  unfold adjust. rewrite Hpos, Hend.
  destruct (Z.ltb_spec n 0); [lia|]. destruct (Z.eqb_spec k 0); [lia|].
  destruct (Z.eqb_spec n (Z.abs k)) as [Hnk|Hnk].
  - destruct (Hfull Hnk) as [Hq1 Hq2]. rewrite (proj2 (Z.leb_le 0 p)) by lia.
    exists (m_endpos c). assert (end_flag R q = 0) as Hfl.
    { unfold end_flag. destruct (Z.eqb_spec q 0), (Z.eqb_spec q (end_position R)); lia. }
    split; [|by split; [apply tracks_moved|lia]].
    rewrite Hfl. assert ((if k <? 0 then -1 else 1) * n = q - p) as -> by (destruct (k <? 0); lia).
    by replace (p + (q - p)) with q by lia.
  - specialize (Hshort Hnk). destruct (Z.ltb_spec (Z.abs k) n); [lia|].
    destruct (Z.ltb_spec k 0) as [Hneg|Hpos'].
    + destruct Hshort as [Hq0 Hn0].
      assert (Ha : (if end_flag R p =? -1 then n else n + 1) = p).
      { unfold end_flag. destruct (Z.eqb_spec p 0), (Z.eqb_spec p (end_position R)); cbn; lia. }
      rewrite Ha. destruct (Z.eqb_spec p (-1)); [lia|]. rewrite Z.eqb_refl.
      change (0 <? -1) with false. cbv iota. rewrite (proj2 (Z.leb_le 0 p)) by lia.
      exists (m_endpos c). split; [|by split; [apply tracks_moved|lia]].
      replace (-1 * p) with (q - p) by lia. replace (p + (q - p)) with q by lia.
      unfold end_flag. by rewrite Hq0.
    + destruct Hshort as [HqE Hn0].
      assert (Ha : (if end_flag R p =? 1 then n else n + 1) = q - p).
      { unfold end_flag. destruct (Z.eqb_spec p 0), (Z.eqb_spec p (end_position R)); cbn; lia. }
      rewrite Ha. change (0 <? 1) with true. cbv iota. rewrite (proj2 (Z.leb_le 0 p)) by lia.
      replace (p + 1 * (q - p)) with q by lia. replace (1 * (q - p)) with (q - p) by lia.
      assert ((0 <=? m_endpos c) && negb (q =? m_endpos c) = false) as ->.
      { destruct Hep as [-> | ->]; [done|]. rewrite HqE, Z.eqb_refl. by rewrite andb_false_r. }
      exists q. split; [|split; [apply tracks_moved; auto|lia]].
      unfold end_flag. destruct (Z.eqb_spec q 0); [lia|]. by rewrite HqE, Z.eqb_refl.
Qed.

(** A cursor object made by adoption learns its position by going back to the
    beginning. *)
Lemma adjust_adopted R p c :
  0 ≤ p ≤ end_position R → end_position R ≤ all_rows →
  m_at_end c = 0 → m_pos c = -1 → m_endpos c = -1 →
  ∃ d, adjust backward_all (Z.of_nat (length (passed R p backward_all))) c =
    (Ok d, set_position (-1) 0 (-1) c) ∧ tracks R 0 (set_position (-1) 0 (-1) c).
Proof.
  intros Hp HR Ha Hpos Hep. unfold all_rows, backward_all in *.
  destruct (passed_length R p (- 2 ^ 31 + 1) Hp ltac:(done)) as (Hn & _ & Hfull & Hshort).
  set (n := Z.of_nat _) in *.
  assert (n ≠ Z.abs (- 2 ^ 31 + 1)) as Hnk.
  { intros Hc. destruct (Hfull Hc) as [? Hq]. change (- 2 ^ 31 + 1 <? 0) with true in Hq. cbv iota in Hq.
    unfold destination in *. lia. }
  destruct (Hshort Hnk) as [_ Hn0]. unfold adjust. rewrite Ha, Hpos, Hep.
  destruct (Z.ltb_spec n 0); [lia|]. change (- 2 ^ 31 + 1 =? 0) with false.
  change (- 2 ^ 31 + 1 <? 0) with true. cbv iota.
  rewrite (proj2 (Z.eqb_neq _ _) Hnk). destruct (Z.ltb_spec (Z.abs (- 2 ^ 31 + 1)) n); [lia|].
  change (0 =? -1) with false. change (0 <? -1) with false. change (-1 =? -1) with true. cbv iota.
  rewrite (proj2 (Z.leb_le 0 (n + 1))) by lia. replace (n + 1 + -1 * (n + 1)) with 0 by lia.
  eexists. split; [reflexivity|]. split; [unfold end_position; lia|done|done|by left].
Qed.

(** ** The server *)

Section server.
Context `{Env} `{ConnInfoEnv} `{CursorEnv}.

(** The event of a command that moves the cursor [q]. *)
Definition stride_event (verb q : string) (k : Z) : event :=
  PqExec (c_str (verb +:+ " " +:+ stridestring k +:+ " IN " +:+ q)).

(** The cursor [name] over the rows [R], at [at_ h] after the events [h]. *)
Record cursor_server (name q : string) (R : list row) (at_ : history → Z) : Prop := {
  server_size : end_position R ≤ all_rows;
  server_name : ∀ h, PQescapeIdentifier h name = Some q;
  server_encoding : ∀ h, PQclientEncoding h ≠ -1 ∧ pg_encoding_to_char (PQclientEncoding h) = "UTF8";
  server_input : ∀ h, PQconsumeInput h = true ∧ at_ (PqConsumeInput :: h) = at_ h;
  server_fetch : ∀ k h, k ≠ 0 → in_s 32 k →
    let e := stride_event "FETCH" q k in
    at_ (e :: h) = destination R (at_ h) k ∧
    ∃ reply, PQexec (e :: h) = Some reply ∧ check_status EmptyString reply = Ok tt ∧
      pg_tuples reply = passed R (at_ h) k;
  server_move : ∀ k h, k ≠ 0 → in_s 32 k →
    let e := stride_event "MOVE" q k in
    at_ (e :: h) = destination R (at_ h) k ∧
    ∃ reply, PQexec (e :: h) = Some reply ∧ check_status EmptyString reply = Ok tt ∧
      PQcmdTuples reply = to_string (Z.of_nat (length (passed R (at_ h) k)));
}.

Context (name q : string) (R : list row) (at_ : history → Z) (Hserver : cursor_server name q R at_).

(** The object follows the server's cursor. *)
Definition follows (c : connection) (cur : sql_cursor) (h : history) : Prop :=
  m_conn c = true ∧ m_cursor_name cur = name ∧ tracks R (at_ h) cur.

Lemma conn_exec_answered c q' h reply :
  m_conn c = true → PQexec (PqExec (c_str q') :: h) = Some reply → check_status EmptyString reply = Ok tt →
  conn_exec q' EmptyString c h =
  (Ok (mk_query_result reply q' UTF8), c, PqConsumeInput :: PqExec (c_str q') :: h).
Proof.
  intros Hc Hr Hs. unfold conn_exec, mbind at 1 2, prog_bind at 1 2, get, interact. rewrite Hc, Hr.
  set (h1 := PqExec (c_str q') :: h). rewrite prog_bind_unfold.
  assert (make_result (Some reply) q' EmptyString c h1 = (Ok (mk_query_result reply q' UTF8), c, h1)) as ->.
  { destruct (server_encoding _ _ _ _ Hserver h1) as [He Hn]. apply Z.eqb_neq in He.
    unfold make_result, encoding_id, mbind, prog_bind, get, ask, lift_result. rewrite Hc, He.
    cbn [mret prog_ret]. by rewrite Hn, Hs. }
  rewrite prog_bind_unfold. unfold get_notifs, consume_input, mbind, prog_bind, get, interact, ask.
  rewrite Hc, (proj1 (server_input _ _ _ _ Hserver _)). cbn [negb]. by destruct (m_trans c).
Qed.

Lemma stride_cmd_run verb k c cur h :
  m_conn c = true → m_cursor_name cur = name →
  stride_cmd verb k (c, cur) h =
  (Ok (verb +:+ " " +:+ stridestring k +:+ " IN " +:+ q), (c, cur), h).
Proof.
  intros Hc Hn. unfold stride_cmd, home, zoom, gets, quote_name, mbind, prog_bind, get, ask, mret, prog_ret.
  cbn [fst snd]. by rewrite Hc, Hn, (server_name _ _ _ _ Hserver).
Qed.

(** What a move of the object does: a position learnt, and two events. *)
Definition moved (c : connection) (cur cur' : sql_cursor) (verb : string) (k : Z) (h h' : history) : Prop :=
  h' = PqConsumeInput :: stride_event verb q k :: h ∧ at_ h' = destination R (at_ h) k ∧
  follows c cur' h' ∧ m_empty_result cur' = m_empty_result cur ∧
  (m_endpos cur' = -1 → at_ h' < end_position R).

Lemma moved_intro c cur verb k h endpos :
  follows c cur h →
  let h' := PqConsumeInput :: stride_event verb q k :: h in
  let p := destination R (at_ h) k in
  let cur' := set_position (end_flag R p) p endpos cur in
  at_ (stride_event verb q k :: h) = p → tracks R p cur' → (endpos = -1 → p < end_position R) →
  moved c cur cur' verb k h h'.
Proof.
  intros (Hc & Hn & _). cbv zeta. intros Ha Ht Hep.
  assert (at_ (PqConsumeInput :: stride_event verb q k :: h) = destination R (at_ h) k) as Hat.
  { by rewrite (proj2 (server_input _ _ _ _ Hserver _)). }
  split; [done|]. split; [done|]. split; [split; [done|split; [done|by rewrite Hat]]|].
  split; [done|]. by rewrite Hat.
Qed.

Lemma fetch_run k c cur h :
  follows c cur h → k ≠ 0 → in_s 32 k →
  ∃ r cur' h', fetch k (c, cur) h = (Ok (Some r, at_ h' - at_ h), (c, cur'), h') ∧
    rows r = passed R (at_ h) k ∧ moved c cur cur' "FETCH" k h h'.
Proof.
  intros Hf Hk Hk32. pose proof Hf as (Hc & Hn & Ht).
  destruct (server_fetch _ _ _ _ Hserver k h Hk Hk32) as (Ha & reply & Hr & Hs & Hrows).
  destruct (adjust_tracks R (at_ h) k cur Ht Hk) as (endpos & Hadj & Ht' & Hep).
  unfold fetch. rewrite (proj2 (Z.eqb_neq _ _) Hk), prog_bind_unfold, stride_cmd_run by done.
  rewrite prog_bind_unfold. unfold home, zoom. cbn [fst snd].
  unfold stride_event in Hr. rewrite <-c_str_idem in Hr. rewrite (conn_exec_answered c _ h reply) by done.
  rewrite c_str_idem. rewrite prog_bind_unfold. unfold cur_adjust, rows. cbn [fst snd m_data].
  rewrite Hrows, Hadj. eexists _, _, _. split.
  - unfold mret, prog_ret. do 4 f_equal. by rewrite (proj2 (server_input _ _ _ _ Hserver _)), <-Ha.
  - split; [done|]. by apply moved_intro.
Qed.

Lemma affected_rows_count n : 0 ≤ n → (let s := to_string n in if is_empty s then 0 else atoi s) = n.
Proof.
  intros Hn. cbv zeta. unfold to_string. rewrite (proj2 (Z.ltb_ge n 0)) by lia.
  destruct (dec_nonneg_nonempty n Hn) as (d & s & Es & _). rewrite Es. cbn [is_empty]. rewrite <-Es.
  unfold atoi. pose proof (dec_nonneg_digits n Hn) as Hd. pose proof (dec_value_nonneg n Hn) as Hv.
  unfold dec_value in Hv. rewrite <-Hv at 2.
  assert (Hgo : ∀ t, sforall is_digit t = true → ∀ acc, atoi_digits acc t = dec_value_from acc t).
  { induction t as [|a t IH]; intros Ht acc; [done|].
    cbn [sforall atoi_digits dec_value_from] in Ht |- *.
    apply andb_true_iff in Ht as [Ha Ht]. rewrite Ha, IH by done. f_equal. lia. }
  by apply Hgo.
Qed.

Lemma move_run k c cur h :
  follows c cur h → k ≠ 0 → in_s 32 k →
  ∃ cur' h', move k (c, cur) h =
    (Ok (Z.of_nat (length (passed R (at_ h) k)), at_ h' - at_ h), (c, cur'), h') ∧
    moved c cur cur' "MOVE" k h h'.
Proof.
  intros Hf Hk Hk32. pose proof Hf as (Hc & Hn & Ht).
  destruct (server_move _ _ _ _ Hserver k h Hk Hk32) as (Ha & reply & Hr & Hs & Hrows).
  destruct (adjust_tracks R (at_ h) k cur Ht Hk) as (endpos & Hadj & Ht' & Hep).
  unfold move. rewrite (proj2 (Z.eqb_neq _ _) Hk), prog_bind_unfold, stride_cmd_run by done.
  rewrite prog_bind_unfold. unfold home, zoom. cbn [fst snd].
  unfold stride_event in Hr. rewrite <-c_str_idem in Hr. rewrite (conn_exec_answered c _ h reply) by done.
  rewrite c_str_idem. rewrite prog_bind_unfold. unfold cur_adjust, affected_rows. cbn [fst snd m_data].
  rewrite Hrows, affected_rows_count, Hadj by lia. eexists _, _. split.
  - unfold mret, prog_ret. do 4 f_equal. by rewrite (proj2 (server_input _ _ _ _ Hserver _)), <-Ha.
  - by apply moved_intro.
Qed.

(** ** Rows by number *)

(** Moving to a position that may be the present one. *)
Lemma move_to_run d c cur h :
  follows c cur h → in_s 32 d →
  ∃ n cur' h', move d (c, cur) h = (Ok n, (c, cur'), h') ∧ follows c cur' h' ∧
    at_ h' = destination R (at_ h) d ∧ m_empty_result cur' = m_empty_result cur.
Proof.
  intros Hf Hd. destruct (decide (d = 0)) as [->|Hd0].
  - exists (0, 0), cur, h. split; [done|]. split; [done|]. split; [|done].
    destruct Hf as (_ & _ & Ht). pose proof (tracks_at _ _ _ Ht). unfold destination. cbn. lia.
  - destruct (move_run d c cur h Hf Hd0 Hd) as (cur' & h' & E & _ & Ha & Hf' & He & _).
    rewrite E. by eexists _, cur', h'.
Qed.

Lemma cursor_size_run c cur h :
  follows c cur h →
  ∃ cur' h', cursor_size (c, cur) h = (Ok (Z.of_nat (length R)), (c, cur'), h') ∧ follows c cur' h' ∧
    m_empty_result cur' = m_empty_result cur.
Proof.
  intros Hf. pose proof Hf as (_ & _ & Ht). unfold cursor_size. rewrite prog_bind_unfold. unfold gets. cbn [snd].
  assert (Hend : Z.of_nat (length R) = end_position R - 1) by (unfold end_position; lia).
  destruct (tracks_endpos _ _ _ Ht) as [He|He]; rewrite He.
  - change (-1 =? -1) with true. cbv iota. rewrite prog_bind_unfold, prog_bind_unfold.
    destruct (move_run all_rows c cur h Hf ltac:(done)) as (cur' & h' & -> & _ & Ha & Hf' & Hem & Hep).
    { unfold in_s, all_rows. lia. }
    unfold mret, prog_ret. cbn [snd]. exists cur', h'. split; [|done].
    pose proof Hf' as (_ & _ & Ht'). pose proof (tracks_at _ _ _ Ht). pose proof (server_size _ _ _ _ Hserver).
    destruct (tracks_endpos _ _ _ Ht') as [He'|He']; [|by rewrite He', Hend].
    specialize (Hep He'). rewrite Ha in Hep. unfold destination in Hep.
    change (all_rows <? 0) with false in Hep. cbv iota in Hep. lia.
  - destruct (Z.eqb_spec (end_position R) (-1)); [unfold end_position in *; lia|].
    rewrite prog_bind_unfold. unfold mret, prog_ret. cbn [snd]. exists cur, h. by rewrite He, Hend.
Qed.

(** Adopting a cursor that is anywhere puts it, and the object, at the start. *)
Lemma stateless_adopt_follows c op h :
  m_conn c = true → 0 ≤ at_ h ≤ end_position R →
  ∃ cur' h', stateless_adopt (c, sql_cursor_adopt name op) h = (Ok tt, (c, cur'), h') ∧ at_ h' = 0 ∧ follows c cur' h'.
Proof.
  intros Hc Hat. set (cur := sql_cursor_adopt name op).
  destruct (server_move _ _ _ _ Hserver backward_all h ltac:(done)) as (Ha & reply & Hr & Hs & Hrows).
  { unfold in_s, backward_all. lia. }
  pose proof (server_size _ _ _ _ Hserver) as Hsz.
  destruct (adjust_adopted R (at_ h) cur Hat Hsz eq_refl eq_refl eq_refl) as (d & Hadj & Ht').
  unfold stateless_adopt, move. rewrite prog_bind_unfold. change (backward_all =? 0) with false. cbv iota.
  rewrite prog_bind_unfold, stride_cmd_run by done.
  rewrite prog_bind_unfold. unfold home, zoom. cbn [fst snd].
  unfold stride_event in Hr. rewrite <-c_str_idem in Hr. rewrite (conn_exec_answered c _ h reply) by done.
  rewrite c_str_idem. rewrite prog_bind_unfold. unfold cur_adjust, affected_rows. cbn [fst snd m_data].
  rewrite Hrows, affected_rows_count, Hadj by lia. unfold mret, prog_ret.
  assert (Hat0 : at_ (PqConsumeInput :: stride_event "MOVE" q backward_all :: h) = 0).
  { rewrite (proj2 (server_input _ _ _ _ Hserver _)), Ha. unfold destination.
    change (backward_all <? 0) with true. cbv iota. unfold backward_all, all_rows in *. lia. }
  eexists _, _. split; [reflexivity|]. split; [exact Hat0|]. split; [done|]. split; [done|].
  unfold stride_event in Hat0. by rewrite Hat0.
Qed.

(** The rows from number [b] on, up to number [e], which is excluded, in either
    direction. *)
Definition between (b e : Z) : list row :=
  if b <=? e then drop (Z.to_nat b) (take (Z.to_nat e) R)
  else reverse (drop (Z.to_nat (e + 1)) (take (Z.to_nat (b + 1)) R)).

Lemma passed_forward b e :
  0 ≤ b < e → passed R b (e - b) = between b e.
Proof.
  intros Hb. unfold passed, between. rewrite (proj2 (Z.ltb_ge (e - b) 0)), (proj2 (Z.leb_le b e)) by lia.
  rewrite skipn_firstn_comm. do 2 f_equal. lia.
Qed.

Lemma passed_backward b e :
  -1 ≤ e < b → b < Z.of_nat (length R) → passed R (b + 2) (e - b) = between b e.
Proof.
  intros He Hb. unfold passed, between. rewrite (proj2 (Z.ltb_lt (e - b) 0)), (proj2 (Z.leb_gt b e)) by lia.
  replace (b + 2 - 1) with (b + 1) by lia. set (l := take _ R).
  assert (length l = Z.to_nat (b + 1)) by (unfold l; rewrite length_take; lia).
  rewrite <-(take_drop (Z.to_nat (e + 1)) l) at 1. rewrite reverse_app, take_app_le.
  - rewrite take_ge; [done|]. rewrite length_reverse, length_drop. lia.
  - rewrite length_reverse, length_drop. lia.
Qed.

(** From past the last row backwards, the row [e] is one of those passed. *)
Lemma passed_from_end e :
  let n := Z.of_nat (length R) in
  -1 ≤ e < n → passed R (end_position R) (e - n) = between n (e - 1).
Proof.
  cbv zeta. intros He. unfold passed, between, end_position.
  rewrite (proj2 (Z.ltb_lt _ 0)), (proj2 (Z.leb_gt _ _)) by lia.
  replace (Z.of_nat (length R) + 1 - 1) with (Z.of_nat (length R)) by lia.
  rewrite (take_ge R), (take_ge R) by lia. replace (e - 1 + 1) with e by lia.
  destruct (decide (e = -1)) as [->|].
  { rewrite take_ge; [done|]. rewrite length_reverse. lia. }
  assert (reverse R = reverse (drop (Z.to_nat e) R) ++ reverse (take (Z.to_nat e) R)) as ->.
  { by rewrite <-reverse_app, take_drop. }
  rewrite take_app_le by (rewrite length_reverse, length_drop; lia).
  apply take_ge. rewrite length_reverse, length_drop. lia.
Qed.

(** The end of a range, as [stateless_cursor_retrieve] clips it. *)
Definition clip (e : Z) : Z := Z.max (-1) (Z.min e (Z.of_nat (length R))).

(** The rows [retrieve] gives: the range that was asked for, except that a range
    that starts past the last row and goes backwards ends one row too late. *)
Definition retrieved (b e : Z) : list row :=
  if (b =? Z.of_nat (length R)) && (e <? b) then between b (e - 1) else between b e.

(** C15. Retrieving a range of rows by number through a cursor that may be
    anywhere: after moving and fetching relative to the position the object
    keeps, the rows are those of the range (see [retrieved] for the exception),
    the object still knows the cursor's position, and a start out of range
    throws. *)
Theorem retrieve_rows b e c cur h :
  follows c cur h → in_s 32 b → in_s 32 e →
  ∃ r cur' h', retrieve b e (c, cur) h = (r, (c, cur'), h') ∧ follows c cur' h' ∧
    m_empty_result cur' = m_empty_result cur ∧
    if decide (0 ≤ b ≤ Z.of_nat (length R)) then
      if decide (b = clip e) then r = Ok (m_empty_result cur)
      else ∃ res, r = Ok (Some res) ∧ rows res = retrieved b (clip e)
    else r = Throw (mk_exn pqxx_range_error "Starting position out of range").
Proof.
  intros Hf Hb He. unfold retrieve. rewrite prog_bind_unfold.
  destruct (cursor_size_run c cur h Hf) as (cur1 & h1 & -> & Hf1 & Hem1). cbv iota beta.
  set (n := Z.of_nat (length R)). unfold stateless_cursor_retrieve.
  assert (Hsz : n + 1 ≤ all_rows) by exact (server_size _ _ _ _ Hserver). unfold all_rows in Hsz.
  destruct (decide (0 ≤ b ≤ n)) as [Hbn|Hbn].
  2:{ assert ((b <? 0) || (n <? b) = true) as ->.
      { destruct (Z.ltb_spec b 0), (Z.ltb_spec n b); try done; lia. }
      by exists (Throw (mk_exn pqxx_range_error "Starting position out of range")), cur1, h1. }
  rewrite (proj2 (Z.ltb_ge b 0)), (proj2 (Z.ltb_ge n b)) by lia. cbn [orb].
  assert ((if e <? -1 then -1 else if n <? e then n else e) = clip e) as ->.
  { unfold clip. fold n. destruct (Z.ltb_spec e (-1)), (Z.ltb_spec n e); lia. }
  assert (Hclip : -1 ≤ clip e ≤ n) by (unfold clip; fold n; lia).
  destruct (decide (b = clip e)) as [->|Hne].
  { rewrite Z.eqb_refl. exists (Ok (m_empty_result cur1)), cur1, h1. split; [done|]. split; [done|].
    split; [done|]. by rewrite Hem1. }
  rewrite (proj2 (Z.eqb_neq _ _) Hne). rewrite prog_bind_unfold. unfold gets. cbn [snd].
  pose proof Hf1 as (_ & _ & Ht1). rewrite (tracks_pos _ _ _ Ht1). pose proof (tracks_at _ _ _ Ht1) as Hat1.
  unfold end_position in Hat1. fold n in Hat1. set (dir := if b <? clip e then 1 else -1).
  assert (Hdir : dir = 1 ∨ dir = -1) by (unfold dir; destruct (b <? clip e); auto).
  destruct (move_to_run (b - dir - (at_ h1 - 1)) c cur1 h1 Hf1) as (m & cur2 & h2 & Em & Hf2 & Ha2 & Hem2).
  { unfold in_s. lia. }
  rewrite prog_bind_unfold, Em, prog_bind_unfold.
  destruct (fetch_run (clip e - b) c cur2 h2 Hf2) as (res & cur3 & h3 & -> & Hr & _ & _ & Hf3 & Hem3 & _).
  { lia. } { unfold in_s. lia. }
  unfold mret, prog_ret. exists (Ok (Some res)), cur3, h3. split; [done|]. split; [done|].
  split; [by rewrite Hem3, Hem2|]. exists res. split; [done|]. rewrite Hr, Ha2.
  unfold retrieved, dir, destination, end_position. fold n.
  destruct (Z.ltb_spec b (clip e)) as [Hlt|Hge].
  - rewrite (proj2 (Z.ltb_ge (clip e) b)), andb_false_r by lia.
    destruct (Z.ltb_spec (b - 1 - (at_ h1 - 1)) 0).
    + replace (Z.max _ 0) with b by lia. apply passed_forward. lia.
    + replace (Z.min _ _) with b by lia. apply passed_forward. lia.
  - rewrite (proj2 (Z.ltb_lt (clip e) b)), andb_true_r by lia.
    destruct (Z.eqb_spec b n) as [Hbe|Hbe].
    + assert (Hd : (if b - -1 - (at_ h1 - 1) <? 0 then Z.max (at_ h1 + (b - -1 - (at_ h1 - 1))) 0
                    else Z.min (at_ h1 + (b - -1 - (at_ h1 - 1))) (n + 1)) = end_position R).
      { unfold end_position. fold n. destruct (Z.ltb_spec (b - -1 - (at_ h1 - 1)) 0); lia. }
      rewrite Hd, Hbe. apply passed_from_end. fold n. lia.
    + assert (Hd : (if b - -1 - (at_ h1 - 1) <? 0 then Z.max (at_ h1 + (b - -1 - (at_ h1 - 1))) 0
                    else Z.min (at_ h1 + (b - -1 - (at_ h1 - 1))) (n + 1)) = b + 2).
      { destruct (Z.ltb_spec (b - -1 - (at_ h1 - 1)) 0); lia. }
      rewrite Hd. apply passed_backward; fold n; lia.
Qed.
End server.

(** ** A server to retrieve from *)

Section table_server.
Context (R : list row) (HR : end_position R ≤ all_rows).

Fixpoint sdrop (n : nat) (s : string) : string :=
  match n, s with S n', String _ s' => sdrop n' s' | _, _ => s end.

(** The distance in a command, after its verb. *)
Definition stride_value (s : string) : Z :=
  match s with
  | String "A" _ => all_rows
  | String "B" _ => backward_all
  | String "-" s' => - atoi s'
  | _ => atoi s
  end.
Definition stride_of (t : string) : option Z :=
  if String.prefix "FETCH " t then Some (stride_value (sdrop 6 t))
  else if String.prefix "MOVE " t then Some (stride_value (sdrop 5 t))
  else None.

Fixpoint table_at (h : history) : Z :=
  match h with
  | [] => 0
  | PqExec t :: h' =>
      match stride_of t with Some k => destination R (table_at h') k | None => table_at h' end
  | _ :: h' => table_at h'
  end.

Definition table_reply (h : history) : pg_result :=
  mk_pg_result PGRES_TUPLES_OK EmptyString None
    (match h with
     | PqExec t :: h' => match stride_of t with Some k => passed R (table_at h') k | None => [] end
     | _ => []
     end).

Definition table_env : Env := {|
  now_ns := λ _, 0; localtime_text := λ _, "2024-01-01T00:00:00";
  open_append_ok := λ _, true; file_contents := λ _, None; iteration := λ _ l, l;
  curl_init_ok := λ _, true; curl_perform_ok := λ _, true;
  PQconnectdb := λ _, true; PQstatus_ok := λ _, true; PQprotocolVersion := λ _, 3;
  PQserverVersion := λ _, 150000; PQerrorMessage := λ _, EmptyString;
  PQclientEncoding := λ _, 6; pg_encoding_to_char := λ _, "UTF8";
  PQexec := λ h, Some (table_reply h);
  PQconsumeInput := λ _, true; PQnotifies := λ _, 0%nat |}.
Definition table_info : ConnInfoEnv := {|
  PQbackendPID := λ _, 1; PQconninfo := λ _, None; getenv := λ _ _, None;
  PQescapeIdentifier := λ _ s, Some s |}.
Definition table_counts : CursorEnv := {| PQcmdTuples r := to_string (Z.of_nat (length (pg_tuples r))) |}.

Definition clamp (k : Z) : Z :=
  if all_rows <=? k then all_rows else if k <=? backward_all then backward_all else k.

Lemma atoi_dec n s : 0 ≤ n → (∀ c s', s = String c s' → is_digit c = false) → atoi (dec_nonneg n +:+ s) = n.
Proof.
  intros Hn Hs. unfold atoi. rewrite <-(dec_value_nonneg n Hn) at 2. unfold dec_value.
  pose proof (dec_nonneg_digits n Hn) as Hd. revert Hd. generalize 0 as acc.
  induction (dec_nonneg n) as [|c t IH]; intros acc Hd.
  - rewrite sapp_nil_l. destruct s as [|c s]; [done|]. cbn [atoi_digits]. by rewrite (Hs c s eq_refl).
  - rewrite sapp_cons. cbn [atoi_digits dec_value_from sforall] in Hd |- *.
    apply andb_true_iff in Hd as [Hc Hd]. rewrite Hc, IH by done. f_equal. lia.
Qed.

Lemma stride_value_text k s :
  (∀ c s', s = String c s' → is_digit c = false) → stride_value (stridestring k +:+ s) = clamp k.
Proof.
  intros Hs. unfold stridestring, clamp. destruct (all_rows <=? k); [done|].
  destruct (k <=? backward_all); [done|]. unfold to_string. destruct (Z.ltb_spec k 0).
  - change (- atoi (dec_nonneg (- k) +:+ s) = k). rewrite atoi_dec by (done || lia). lia.
  - destruct (dec_nonneg_nonempty k ltac:(lia)) as (d & t & Ed & Hd).
    trans (atoi (dec_nonneg k +:+ s)); [|by apply atoi_dec]. rewrite Ed, sapp_cons.
    unfold stride_value. destruct d as [b0 b1 b2 b3 b4 b5 b6 b7].
    by destruct b0, b1, b2, b3, b4, b5, b6, b7.
Qed.

Lemma clamp_moves p k :
  0 ≤ p ≤ end_position R → in_s 32 k →
  destination R p (clamp k) = destination R p k ∧ passed R p (clamp k) = passed R p k.
Proof.
  unfold in_s, clamp, all_rows, backward_all, end_position in *. intros Hp Hk.
  destruct (Z.leb_spec (2 ^ 31 - 1 - 1) k).
  - split.
    + unfold destination, end_position. destruct (Z.ltb_spec (2 ^ 31 - 1 - 1) 0), (Z.ltb_spec k 0); lia.
    + unfold passed. destruct (Z.ltb_spec (2 ^ 31 - 1 - 1) 0), (Z.ltb_spec k 0); try lia.
      rewrite !take_ge; [done|rewrite length_drop; lia..].
  - destruct (Z.leb_spec k (- 2 ^ 31 + 1)); [|done]. split.
    + unfold destination, end_position. destruct (Z.ltb_spec (- 2 ^ 31 + 1) 0), (Z.ltb_spec k 0); lia.
    + unfold passed. destruct (Z.ltb_spec (- 2 ^ 31 + 1) 0), (Z.ltb_spec k 0); try lia.
      rewrite !(take_ge (reverse _)); [done|rewrite length_reverse, length_take; lia..].
Qed.

Lemma table_at_range h : 0 ≤ table_at h ≤ end_position R.
Proof.
  induction h as [|e h IH]; [unfold end_position; cbn; lia|]. destruct e; try exact IH. cbn [table_at].
  destruct (stride_of query) as [k|]; [|exact IH]. unfold destination. destruct (Z.ltb_spec k 0); lia.
Qed.

Lemma stridestring_no_nul k : sforall (λ c, negb (byte_of c =? 0)) (stridestring k) = true.
Proof.
  unfold stridestring. destruct (all_rows <=? k); [done|]. destruct (k <=? backward_all); [done|].
  assert (Hd : ∀ n, 0 ≤ n → sforall (λ c, negb (byte_of c =? 0)) (dec_nonneg n) = true).
  { intros n Hn. eapply sforall_impl; [|by apply dec_nonneg_digits]. intros c Hc.
    unfold is_digit in Hc. b2p. destruct (Z.eqb_spec (byte_of c) 0); [lia|done]. }
  unfold to_string. destruct (Z.ltb_spec k 0); [|apply Hd; lia].
  cbn [sforall]. rewrite Hd by lia. done.
Qed.

(** The text of a command has no NUL and is read back. *)
Lemma stride_of_cmd verb k :
  verb = "FETCH" ∨ verb = "MOVE" →
  stride_of (c_str (verb +:+ " " +:+ stridestring k +:+ " IN " +:+ "cursor_1")) = Some (clamp k).
Proof.
  intros Hv. rewrite c_str_no_nul.
  - trans (Some (stride_value (stridestring k +:+ " IN cursor_1"))); [|].
    { destruct Hv as [-> | ->].
      - change ("FETCH" +:+ " " +:+ stridestring k +:+ " IN " +:+ "cursor_1")
          with ("FETCH " +:+ (stridestring k +:+ " IN cursor_1")).
        unfold stride_of. by rewrite prefix_app.
      - change ("MOVE" +:+ " " +:+ stridestring k +:+ " IN " +:+ "cursor_1")
          with ("MOVE " +:+ (stridestring k +:+ " IN cursor_1")).
        unfold stride_of. by rewrite prefix_app. }
    rewrite stride_value_text; [done|]. by intros c s' [= <- <-].
  - rewrite !sforall_app, stridestring_no_nul. by destruct Hv as [-> | ->].
Qed.

Lemma table_is_server :
  cursor_server (H := table_env) (H0 := table_info) (H1 := table_counts) "cursor_1" "cursor_1" R table_at.
Proof.
  split; [done|done|done|done|..]; intros k h Hk Hk32; cbv zeta; unfold stride_event; cbn [table_at];
    (rewrite stride_of_cmd by auto);
    destruct (clamp_moves (table_at h) k (table_at_range h) Hk32) as [Hd Hp]; (split; [done|]);
    (eexists; split; [reflexivity|]); (split; [done|]);
    unfold table_reply; (rewrite stride_of_cmd by auto); by rewrite <-Hp.
Qed.
End table_server.

(** Three rows, and the cursor past the last of them; going backwards from
    number 3 to number 1 gives the rows 2 and 1. *)
Definition three_rows : list row := [[Some "a"]; [Some "b"]; [Some "c"]].

Lemma retrieve_rows_witness :
  let cur := mk_sql_cursor "cursor_1" None false owned (-1) 0 (-1) in
  ∃ r cur' h', retrieve (H := table_env three_rows) (H0 := table_info) (H1 := table_counts) 3 1 (mk_connection true None, cur) [] =
      (r, (mk_connection true None, cur'), h') ∧
    ∃ res, r = Ok (Some res) ∧ rows res = [[Some "c"]; [Some "b"]] ∧ between three_rows 3 1 = [[Some "c"]].
Proof.
  cbv zeta. set (cur := mk_sql_cursor _ _ _ _ _ _ _).
  assert (HR : end_position three_rows ≤ all_rows) by (vm_compute; discriminate).
  assert (Hf : follows "cursor_1" three_rows (table_at three_rows) (mk_connection true None) cur []).
  { split; [done|]. split; [done|]. split; [by vm_compute|done|done|by left]. }
  destruct (retrieve_rows (H := table_env three_rows) (H0 := table_info) (H1 := table_counts)
    "cursor_1" "cursor_1" three_rows (table_at three_rows) (table_is_server three_rows HR)
    3 1 (mk_connection true None) cur [] Hf) as (r & cur' & h' & E & _ & _ & Hr).
  1, 2: unfold in_s; lia.
  exists r, cur', h'. split; [exact E|]. rewrite decide_True, decide_False in Hr by (vm_compute; congruence || (split; discriminate)).
  destruct Hr as (res & Hr & Hrows). exists res. split; [exact Hr|]. split; [rewrite Hrows|]; reflexivity.
Defined.
