(* ===== verification/PqxxLive.v ===== *)
(** A transaction with a server that accepts every statement: the exact run of
    each step, from which liveness follows. *)

From S2P Require Import Prelude Exceptions Effects EffectsFacts PqxxResult PqxxTransaction.
From S2P Require Import PqxxTransactionFacts.

(** The connection stays up, and every statement is answered by [reply]
    without an error. *)
Record healthy `{Env} (reply : event → pg_result) : Prop := {
  healthy_open : ∀ h, PQstatus_ok h = true;
  healthy_encoding : ∀ h, PQclientEncoding h ≠ (-1)%Z ∧
    pg_encoding_to_char (PQclientEncoding h) = "UTF8"%string;
  healthy_input : ∀ h, PQconsumeInput h = true;
  healthy_reply : ∀ e h, sql_of e ≠ [] → PQexec (e :: h) = Some (reply e);
  healthy_status : ∀ e, check_status EmptyString (reply e) = Ok tt;
}.

(** A program that succeeds with [a] from [s] and adds the events [es]. *)
Definition runs {S A} (m : prog S A) (s : S) (a : A) (s' : S) (es : list event) : Prop :=
  ∀ h, m s h = (Ok a, s', es ++ h).

Section runs.
Context `{Env}.

Lemma runs_bind {S A B} (m : prog S A) (f : A → prog S B) s a s' es b s'' es' :
  runs m s a s' es → runs (f a) s' b s'' es' → runs (m ≫= f) s b s'' (es' ++ es).
Proof. intros Hm Hf h. by rewrite prog_bind_unfold, Hm, Hf, app_assoc. Qed.

Lemma runs_ret {S A} (a : A) (s : S) : runs (mret a) s a s [].
Proof. by intros h. Qed.

Lemma runs_try {S A} (m : prog S A) handler s a s' es :
  runs m s a s' es → runs (try_catch m handler) s a s' es.
Proof. intros Hm h. unfold try_catch. by rewrite Hm. Qed.

Lemma runs_zoom {S T A} (view : T → S) put (m : prog S A) t a s' es :
  runs m (view t) a s' es → runs (zoom view put m) t a (put s' t) es.
Proof. intros Hm h. unfold zoom. by rewrite Hm. Qed.

Lemma runs_finally {S A} (m : prog S A) cleanup s a s' es s'' es' :
  runs m s a s' es → runs cleanup s' tt s'' es' → runs (finally m cleanup) s a s'' (es' ++ es).
Proof. intros Hm Hc h. unfold finally. by rewrite Hm, Hc, app_assoc. Qed.

Context (reply : event → pg_result) (Hup : healthy reply).

(** What is recorded when a statement is executed. *)
Definition exchange (e : event) : list event := [PqConsumeInput; e].

Lemma make_result_runs e q c :
  m_conn c = true →
  runs (make_result (Some (reply e)) q EmptyString) c (mk_query_result (reply e) q UTF8) c [].
Proof.
  intros Hc h. destruct Hup as [Ho He Hi Hr Hs].
  unfold make_result, encoding_id, mbind, prog_bind, get, ask, lift_result. rewrite Hc.
  destruct (He h) as [Hne Hname]. apply Z.eqb_neq in Hne. rewrite Hne.
  cbn [mret prog_ret]. by rewrite Hname, Hs.
Qed.

Lemma get_notifs_runs c g :
  m_conn c = true → m_trans c = Some g → runs get_notifs c 0%nat c [PqConsumeInput].
Proof.
  intros Hc Hg h. unfold get_notifs, consume_input, mbind, prog_bind, get, interact.
  rewrite Hc, (healthy_input _ Hup). cbn [negb]. by rewrite Hg.
Qed.

Lemma conn_exec_runs q c g :
  m_conn c = true → m_trans c = Some g →
  let e := PqExec (c_str q) in
  runs (conn_exec q EmptyString) c (mk_query_result (reply e) q UTF8) c (exchange e).
Proof.
  cbv zeta. intros Hc Hg h. unfold conn_exec, mbind at 1 2, prog_bind at 1 2, get, interact.
  rewrite Hc, (healthy_reply _ Hup) by done.
  by rewrite prog_bind_unfold, make_result_runs, prog_bind_unfold, (get_notifs_runs c g).
Qed.

Lemma conn_exec_params_runs q args c g :
  m_conn c = true → m_trans c = Some g →
  let e := PqExecParams (c_str q) (map (fmap c_str) args) in
  runs (conn_exec_params q args) c (mk_query_result (reply e) q UTF8) c (exchange e).
Proof.
  cbv zeta. intros Hc Hg h. unfold conn_exec_params, mbind at 1 2, prog_bind at 1 2, get, interact.
  rewrite Hc, (healthy_reply _ Hup) by done.
  by rewrite prog_bind_unfold, make_result_runs, prog_bind_unfold, (get_notifs_runs c g).
Qed.

Lemma direct_exec_runs q s :
  m_pending_error (s_tx s) = EmptyString → m_conn (s_conn s) = true →
  is_Some (m_trans (s_conn s)) →
  let e := PqExec (c_str q) in
  runs (direct_exec q EmptyString) s (mk_query_result (reply e) q UTF8) s (exchange e).
Proof.
  cbv zeta. intros Hp Hc [g Hg] h. unfold direct_exec. rewrite check_pending_bind by done.
  unfold on_conn, zoom. rewrite (conn_exec_runs q _ g) by done. by destruct s.
Qed.

(** A command runs with the focus set and leaves none. *)
Lemma command_runs {A} oname (body : prog session A) ptr st reg a es :
  (∀ f, runs body (focused (sess ptr st reg) f) a (focused (sess ptr st reg) f) es) →
  runs (command oname body) (sess ptr st reg) a (sess ptr st reg) es.
Proof.
  intros Hbody h. unfold command, register_focus, set_focus, gets, mbind at 1 2 3 4,
    prog_bind at 1 2 3 4, lift_result, modify. cbn -[finally].
  set (f := mk_guest 1 "command" oname). pose proof (Hbody f h) as Hb.
  unfold focused in Hb. cbn in Hb. unfold finally. cbn. rewrite Hb.
  unfold unregister_focus, try_catch, gets, mbind, prog_bind, lift_result, set_focus, modify. cbn.
  by destruct (decide _).
Qed.

Lemma tx_exec_runs q ptr :
  let e := PqExec (c_str q) in
  runs (tx_exec q EmptyString) (sess ptr active true) (mk_query_result (reply e) q UTF8)
    (sess ptr active true) (exchange e).
Proof.
  cbv zeta. intros h. unfold tx_exec. rewrite check_pending_bind by done.
  apply command_runs. intros f h'. rewrite prog_bind_unfold. unfold gets. cbn [sess s_tx m_status focused].
  by apply direct_exec_runs.
Qed.

Lemma tx_exec_params_runs q args ptr :
  let e := PqExecParams (c_str q) (map (fmap c_str) args) in
  runs (tx_exec_params q args) (sess ptr active true) (mk_query_result (reply e) q UTF8)
    (sess ptr active true) (exchange e).
Proof.
  cbv zeta. apply command_runs. intros f h'. unfold on_conn, zoom.
  by rewrite (conn_exec_params_runs q args _ (work_guest ptr)).
Qed.

Lemma commit_runs ptr :
  runs commit (sess ptr active true) tt (sess ptr committed false) (exchange (PqExec "COMMIT")).
Proof.
  intros h. unfold commit, commit_as. rewrite check_pending_bind by done.
  unfold description, gets, mbind at 1 2, prog_bind at 1 2. cbn [sess s_tx m_status m_focus].
  set (s0 := sess ptr active true).
  assert (Ho : runs (on_conn is_open) s0 true s0 []).
  { intros h'. unfold on_conn, zoom, is_open, mbind, prog_bind, get, ask. cbn.
    by rewrite (healthy_open _ Hup). }
  rewrite prog_bind_unfold, Ho. cbn [app negb].
  assert (Hd : runs do_commit s0 tt s0 (exchange (PqExec "COMMIT"))).
  { apply runs_try. intros h'. rewrite prog_bind_unfold.
    by rewrite (direct_exec_runs "COMMIT" s0) by done. }
  rewrite prog_bind_unfold. unfold try_catch. rewrite prog_bind_unfold, Hd.
  change (set_status committed s0 ?h) with (@Ok exn unit tt, sess ptr committed true, h).
  cbv iota beta. by rewrite close_ended_run.
Qed.

Lemma work_init_runs ptr :
  runs basic_transaction_init (sess ptr active false) tt (sess ptr active true)
    (exchange (PqExec "BEGIN")).
Proof.
  intros h. unfold basic_transaction_init. rewrite prog_bind_unfold, tx_register_run.
  cbv iota beta. rewrite prog_bind_unfold.
  by rewrite (direct_exec_runs begin_cmd (sess ptr active true)) by done.
Qed.

(** A scope whose body commits. *)
Lemma with_work_runs {L A} ptr (l0 l : L) (body : prog (session * L) A) a es :
  runs body (sess ptr active true, l0) a (sess ptr committed false, l) es →
  runs (with_work ptr body) (free, l0) a (free, l) (es ++ exchange (PqExec "BEGIN")).
Proof.
  intros Hb h. unfold with_work.
  change (mk_session free (transaction_new ptr EmptyString)) with (sess ptr active false).
  unfold finally. rewrite prog_bind_unfold. unfold in_session at 1, zoom at 1. cbn [fst].
  rewrite work_init_runs, Hb. cbn [snd].
  unfold in_session, zoom. cbn [fst snd].
  rewrite close_unregistered_run by done. cbn [fst snd]. rewrite destroy_unregistered.
  cbn [fst snd s_conn sess]. by rewrite <-app_assoc.
Qed.
End runs.
