(* ===== verification/DatabaseFacts.v ===== *)
(** The bodies of the data access functions inside the scope of their
    transaction, and the functions around them. *)

From stdpp Require Import sets.
From S2P Require Import Prelude Exceptions Effects EffectsFacts PqxxConv PqxxResult.
From S2P Require Import PqxxTransaction PqxxTransactionFacts Database.

Section bodies.
Context `{Env, Build}.
#[local] Existing Instance carries_result.
#[local] Existing Instance carries_unit.

(** Inside the scope, before the commit. *)
Definition in_scope {L} (ptr : positive) (l0 : L) (log : list string) : session * L → history → Prop :=
  λ p h, p = (sess ptr active true, l0) ∧ sql_log h = log.

(** A statement leaves the transaction as it was. *)
Definition stmt_post {L} (ptr : positive) (l0 : L) (log : list string) (e : event)
  : result exn query_result → session * L → history → Prop :=
  λ r p h, in_scope ptr l0 (log ++ sql_of e) p h ∧
    ∀ a, r = Ok a → answered e (m_data a) h.

Lemma stmt_of_exec {L} ptr (l0 : L) log e (m : prog session query_result) :
  triple (at_state (sess ptr active true) log) m (exec_post (sess ptr active true) log e) →
  triple (in_scope ptr l0 log) (in_session m) (stmt_post ptr l0 log e).
Proof.
  intros Hm [s l] h [[= -> ->] <-].
  pose proof (in_session_triple m (sess ptr active true) l0 _ _ Hm _ h
    (conj eq_refl (conj eq_refl eq_refl))) as Ht.
  destruct (in_session m _ h) as [[r [s l]] h']. destruct Ht as (Hl & Hs & Hlog & Ha).
  cbn [fst snd] in *. subst. split; [done|]. intros a ->.
  destruct (Ha a eq_refl) as (reply & Hans & <-). done.
Qed.

Lemma exec_in_scope {L} ptr (l0 : L) log q :
  triple (in_scope ptr l0 log) (in_session (tx_exec q EmptyString))
    (stmt_post ptr l0 log (PqExec (c_str q))).
Proof. apply stmt_of_exec, tx_exec_triple. Qed.

Lemma exec_params_in_scope {L} ptr (l0 : L) log q args :
  triple (in_scope ptr l0 log) (in_session (tx_exec_params q args))
    (stmt_post ptr l0 log (PqExecParams (c_str q) (map (fmap c_str) args))).
Proof. apply stmt_of_exec, tx_exec_params_triple. Qed.

(** The end of a body: everything the statements before it established still
    holds after the commit. *)
Definition commit_post {L} (l0 : L) (log : list string) (K : history → Prop)
  : result exn unit → tx_status → bool → L → history → Prop :=
  λ r st reg l h, l = l0 ∧ K h ∧
    ((r = Ok tt ∧ st = committed ∧ reg = false ∧ sql_log h = log ++ ["COMMIT"%string] ∧
      acked (PqExec "COMMIT") h) ∨
     (is_ok r = false ∧ st = active ∧ sql_log h = log) ∨
     (is_ok r = false ∧ st ≠ active ∧ sql_log h = log ++ ["COMMIT"%string])).

Lemma commit_in_scope {L} ptr (l0 : L) log (K : history → Prop) :
  (∀ es h, K h → K (es ++ h)) →
  triple (λ p h, in_scope ptr l0 log p h ∧ K h) (in_session commit)
    (body_post ptr (commit_post l0 log K)).
Proof.
  intros HK p h [[-> <-] Hk]. unfold in_session, zoom. cbn [fst snd].
  pose proof (commit_triple ptr (sql_log h) _ h (conj eq_refl eq_refl)) as Hc.
  destruct (grows_commit (sess ptr active true) h) as (r & s & es & Er). rewrite Er in *.
  destruct Hc as [(-> & -> & Hl & Ha)|[(Hr & -> & Hl)|(Hr & st & Hst & -> & Hl)]];
    eexists _, _; (split; [reflexivity|]); (split; [done|]); (split; [by apply HK|]); [eauto 8..|].
  right; right. split; [done|]. split; [by destruct Hst as [->| ->]|done].
Qed.

(** ** Functions that change a table *)

Definition change_post {L} (sql : string) (args : list (result exn (option string))) (log : list string)
  : result exn unit → tx_status → bool → L → history → Prop :=
  λ r st reg _ h,
    (r = Ok tt ∧ st = committed ∧ reg = false ∧
     sql_log h = log ++ [c_str sql; "COMMIT"%string] ∧
     (∃ vs, params args = Ok vs ∧
            acked (PqExecParams (c_str sql) (map (fmap c_str) vs)) h) ∧
     acked (PqExec "COMMIT") h) ∨
    (is_ok r = false ∧ st = active ∧ (sql_log h = log ∨ sql_log h = log ++ [c_str sql])) ∨
    (is_ok r = false ∧ st ≠ active ∧ sql_log h = log ++ [c_str sql; "COMMIT"%string]).

Lemma change_body {L} ptr (l0 : L) sql args log :
  triple (in_scope ptr l0 log)
    (pp ← lift_result (params args); _ ← in_session (tx_exec_params sql pp); in_session commit)
    (body_post ptr (change_post sql args log)).
Proof.
  destruct (params args) as [vs|ex] eqn:Eargs.
  2:{ intros p h [-> <-]. eexists active, true. split; [done|]. right; left. eauto. }
  set (e := PqExecParams (c_str sql) (map (fmap c_str) vs)).
  eapply (triple_bind _ _ _ (λ v p h, v = vs ∧ in_scope ptr l0 log p h)).
  { by apply triple_lift. }
  intros pp. apply triple_pre. intros p0 h0 [-> Hp0].
  eapply (triple_bind _ _ _ (λ _ p h, in_scope ptr l0 (log ++ [c_str sql]) p h ∧ acked e h)).
  - eapply triple_conseq; [apply (exec_params_in_scope ptr l0 log)|by intros ? ? [-> ->]|].
    intros [a|ex] [s l] h [Hin Ha].
    + split; [done|]. exists (m_data a). by apply Ha.
    + destruct Hin as [[= -> ->] Hl]. eexists active, true. split; [done|]. right; left. eauto.
  - intros _. eapply triple_conseq; [apply (commit_in_scope ptr l0 (log ++ [c_str sql]) (acked e))|done|].
    { intros es h [reply Hr]. exists reply. by apply answered_app. }
    intros r p h (st & reg & Hs & _ & Hk & Hcase). exists st, reg. split; [done|].
    rewrite <-app_assoc in Hcase. unfold change_post. naive_solver.
Qed.

(** The command sequences of a change that is not known to have been made. *)
Definition failed_commands (sql : string) : list (list string) :=
  [["BEGIN"]; ["BEGIN"; "ROLLBACK"]; ["BEGIN"; sql; "ROLLBACK"]; ["BEGIN"; sql; "COMMIT"]]%string.

Definition change_outcome (sql : string) (args : list (result exn (option string)))
    (log : list string) (ok : bool) (h : history) : Prop :=
  if ok then
    sql_log h = (log ++ ["BEGIN"; sql; "COMMIT"]%string)%list ∧
    acked (PqExec "COMMIT") h ∧
    ∃ vs, params args = Ok vs ∧ acked (PqExecParams sql (map (fmap c_str) vs)) h
  else ∃ cmds, cmds ∈ failed_commands sql ∧ sql_log h = (log ++ cmds)%list.

Lemma change_rows_spec sql error_text args log h :
  sql_log h = log →
  match change_rows sql error_text args free h with
  | (r, c, h') => c = free ∧ ∃ ok, r = Ok ok ∧ change_outcome (c_str sql) args log ok h'
  end.
Proof.
  intros Hlog.
  set (post := λ (r : result exn bool) (c : connection) (h : history),
    c = free ∧ ∃ ok, r = Ok ok ∧ change_outcome (c_str sql) args log ok h).
  enough (triple (λ c h, c = free ∧ sql_log h = log) (change_rows sql error_text args) post) as Ht.
  { by apply Ht. }
  unfold change_rows.
  set (failed := λ (e : exn) (c : connection) (h : history),
    c = free ∧ ∃ cmds, cmds ∈ failed_commands (c_str sql) ∧ sql_log h = log ++ cmds).
  apply (triple_try _ _ _ failed).
  2:{ intros e. apply (triple_bind _ _ _ (λ _, failed e)).
      - apply triple_emit. intros s h' (-> & cmds & Hin & Hl). split; [done|]. exists cmds.
        by rewrite sql_log_other.
      - intros _. apply triple_ret. intros s h' [-> Hc]. split; [done|]. by exists false. }
  eapply triple_bind with (R := λ _ c h, post (Ok true) c h).
  2:{ intros [[] []]. by apply triple_ret. }
  eapply triple_with_local; [apply (with_work_triple _ tt _ log _ (change_body _ _ sql args _))|..].
  - by intros s h' [-> <-].
  - intros [] s [] h' [Hs [(Hr & _)|(st & reg & h2 & HQ & _ & Hl & Hh)]]; [done|].
    cbn in Hs. subst s. split; [done|]. exists true. split; [done|].
    destruct HQ as [(_ & -> & -> & Hl2 & (vs & Hvs & Ha) & Hc)|[(Hr & _)|(Hr & _)]]; [|done..].
    rewrite <-Hh in * by done. rewrite <-app_assoc in Hl2. cbn in Hl2. split; [done|].
    split; [done|]. by exists vs.
  - intros e s [] h' [Hs HQ]. cbn in Hs. subst s. split; [done|].
    unfold failed_commands.
    destruct HQ as [(_ & _ & ->)|(st & reg & h2 & HQ & _ & -> & _)]; [|].
    { eexists; split; [|reflexivity]. set_solver. }
    destruct HQ as [(? & _)|[(_ & -> & [->| ->])|(_ & Hst & ->)]]; [done| | |].
    + rewrite decide_True, <-app_assoc by done. eexists; split; [|reflexivity]. set_solver.
    + rewrite decide_True, <-!app_assoc by done. eexists; split; [|reflexivity]. set_solver.
    + rewrite decide_False, app_nil_r, <-app_assoc by done.
      eexists; split; [|reflexivity]. set_solver.
Qed.

(** ** The connection test *)

Definition test_outcome (log : list string) (ok : bool) (h : history) : Prop :=
  if ok then acked (PqExec sql_test) h ∧ sql_log h = log ++ ["BEGIN"; sql_test; "ROLLBACK"]%string
  else ∃ cmds, cmds ∈ [["BEGIN"]; ["BEGIN"; sql_test; "ROLLBACK"]]%string ∧ sql_log h = log ++ cmds.

Lemma test_body {L} ptr (l0 : L) log :
  triple (in_scope ptr l0 log)
    (_ ← in_session (tx_exec sql_test EmptyString); mret tt)
    (body_post ptr (λ r st _ _ h, st = active ∧ sql_log h = log ++ [sql_test] ∧
       (is_ok r = true → acked (PqExec sql_test) h))).
Proof.
  eapply (triple_bind _ _ _ (λ _ p h, in_scope ptr l0 (log ++ [sql_test]) p h ∧
    acked (PqExec sql_test) h)).
  - eapply triple_conseq; [apply (exec_in_scope ptr l0 log sql_test)|done|].
    intros [a|ex] [s l] h [[[= -> ->] Hl] Ha].
    + split; [done|]. exists (m_data a). by apply Ha.
    + by eexists active, true.
  - intros _. apply triple_ret. intros p h [[-> Hl] Ha]. by eexists active, true.
Qed.

Lemma test_spec log h :
  sql_log h = log →
  match testConnection free h with
  | (r, c, h') => c = free ∧ ∃ ok, r = Ok ok ∧ test_outcome log ok h'
  end.
Proof.
  intros Hlog. set (post := λ (r : result exn bool) (c : connection) (h : history),
    c = free ∧ ∃ ok, r = Ok ok ∧ test_outcome log ok h).
  enough (triple (λ c h, c = free ∧ sql_log h = log) testConnection post) as Ht by by apply Ht.
  unfold testConnection.
  set (failed := λ (e : exn) (c : connection) (h : history), c = free ∧ test_outcome log false h).
  apply (triple_try _ _ _ failed).
  2:{ intros e. apply (triple_bind _ _ _ (λ _, failed e)).
      - apply triple_emit. intros s h' (-> & cmds & Hin & Hl). split; [done|]. exists cmds.
        by rewrite sql_log_other.
      - intros _. apply triple_ret. intros s h' [-> Hc]. split; [done|]. by exists false. }
  eapply triple_bind with (R := λ _ c h, post (Ok true) c h).
  2:{ intros [[] []]. by apply triple_ret. }
  eapply triple_with_local; [apply (with_work_triple _ tt _ log _ (test_body _ _ _))|..].
  - by intros s h' [-> <-].
  - intros [] s [] h' [Hs [(Hr & _)|(st & reg & h2 & (-> & Hl2 & Ha) & [es ->] & Hl & _)]]; [done|].
    cbn in Hs. subst s. split; [done|]. exists true. split; [done|]. split.
    + destruct (Ha eq_refl) as [reply Hr]. exists reply. by apply answered_app.
    + by rewrite Hl, Hl2, decide_True, <-!app_assoc.
  - intros e s [] h' [Hs HQ]. cbn in Hs. subst s. split; [done|]. unfold test_outcome.
    destruct HQ as [(_ & _ & ->)|(st & reg & h2 & (-> & Hl2 & _) & _ & Hl & _)].
    + eexists; split; [|reflexivity]. set_solver.
    + rewrite Hl, Hl2, decide_True, <-!app_assoc by done.
      eexists; split; [|reflexivity]. set_solver.
Qed.

(** ** Functions that read a table *)

(** The values of the rows up to the first one that cannot be read, and the
    exception of that row. *)
Fixpoint read_prefix {A} (of_row : row → result exn A) (rs : list row) : list A * option exn :=
  match rs with
  | [] => ([], None)
  | r :: rs' =>
      match of_row r with
      | Ok x => let '(xs, e) := read_prefix of_row rs' in (x :: xs, e)
      | Throw e => ([], Some e)
      end
  end.

Lemma for_rows_run {S A} (of_row : row → result exn A) rs (s : S) acc h :
  for_each rs (λ r, x ← lift_result (of_row r); set_local (λ items, items ++ [x])) (s, acc) h =
  (match (read_prefix of_row rs).2 with None => Ok tt | Some e => Throw e end,
   (s, acc ++ (read_prefix of_row rs).1), h).
Proof.
  revert acc. induction rs as [|r rs IH]; intros acc; cbn [for_each read_prefix].
  { by rewrite app_nil_r. }
  rewrite !prog_bind_unfold. unfold lift_result at 1. destruct (of_row r) as [x|e]; cbn [fst snd].
  - unfold set_local, modify. cbn [fst snd]. rewrite IH. destruct (read_prefix of_row rs). cbn.
    by rewrite <-app_assoc.
  - by rewrite app_nil_r.
Qed.

Definition read_post {A} (sql : string) (of_row : row → result exn A) (log : list string)
  : result exn unit → tx_status → bool → list A → history → Prop :=
  λ r st reg items h,
    (is_ok r = false ∧ st = active ∧ items = [] ∧ sql_log h = log ++ [c_str sql]) ∨
    ∃ reply, answered (PqExec (c_str sql)) reply h ∧
      items = (read_prefix of_row (pg_tuples reply)).1 ∧
      ((is_ok r = false ∧ st = active ∧ sql_log h = log ++ [c_str sql]) ∨
       (st ≠ active ∧ (is_ok r = true → reg = false ∧ acked (PqExec "COMMIT") h) ∧
        sql_log h = log ++ [c_str sql; "COMMIT"%string] ∧
        (read_prefix of_row (pg_tuples reply)).2 = None)).

Lemma read_body {A} ptr sql (of_row : row → result exn A) log :
  triple (in_scope ptr [] log)
    (res ← in_session (tx_exec sql EmptyString);
     for_each (rows res) (λ r, x ← lift_result (of_row r); set_local (λ items, items ++ [x]));;
     in_session commit)
    (body_post ptr (read_post sql of_row log)).
Proof.
  set (e := PqExec (c_str sql)).
  eapply (triple_bind _ _ _ (λ res p h,
    in_scope ptr [] (log ++ [c_str sql]) p h ∧ answered e (m_data res) h)).
  { eapply triple_conseq; [apply (exec_in_scope ptr [] log)|done|].
    intros [a|ex] [s l] h [Hin Ha]; [split; [done|by apply Ha]|].
    destruct Hin as [[= -> ->] Hl]. eexists active, true. split; [done|]. left. eauto. }
  intros res p h [[-> Hl] Ha]. rewrite prog_bind_unfold, for_rows_run. cbn [app].
  unfold rows. destruct (read_prefix of_row _) as [items [ex|]] eqn:Erd; cbn [fst snd].
  - eexists active, true. split; [done|]. right. exists (m_data res). rewrite Erd. cbn. eauto 8.
  - pose proof (commit_in_scope ptr items (log ++ [c_str sql]) (answered e (m_data res))
      (λ es h', answered_app e (m_data res) es h') (sess ptr active true, items) h
      (conj (conj eq_refl Hl) Ha)) as Hc.
    destruct (in_session commit _ h) as [[r p] h']. destruct Hc as (st & reg & Hs & Hi & Hk & Hcase).
    exists st, reg. split; [done|]. right. exists (m_data res). rewrite Erd. cbn [fst snd].
    split; [done|]. split; [done|]. rewrite <-app_assoc in Hcase.
    destruct Hcase as [(-> & -> & -> & Hl' & Hack)|[(? & ? & ?)|(Hr & ? & ?)]]; [right|left|right].
    + done.
    + done.
    + split; [done|]. split; [by rewrite Hr|]. done.
Qed.

(** What the rows returned are, and the commands sent. *)
Definition read_outcome {A} (sql : string) (of_row : row → result exn A) (log : list string)
    (items : list A) (h : history) : Prop :=
  (items = [] ∧ ∃ cmds, cmds ∈ [["BEGIN"]; ["BEGIN"; sql; "ROLLBACK"]]%string ∧
     sql_log h = (log ++ cmds)%list) ∨
  ∃ reply, answered (PqExec sql) reply h ∧
    items = (read_prefix of_row (pg_tuples reply)).1 ∧
    (sql_log h = (log ++ ["BEGIN"; sql; "ROLLBACK"]%string)%list ∨
     (sql_log h = (log ++ ["BEGIN"; sql; "COMMIT"]%string)%list ∧
      (read_prefix of_row (pg_tuples reply)).2 = None)).

Lemma read_scope_outcome {A} sql (of_row : row → result exn A) log r (p : connection * list A) h :
  scope_post log [] (read_post sql of_row (log ++ ["BEGIN"%string])) r p h →
  p.1 = free ∧ read_outcome (c_str sql) of_row log p.2 h.
Proof.
  intros [Hs HQ]. split; [done|]. unfold read_outcome.
  destruct HQ as [(_ & -> & ->)|(st & reg & h2 & HQ & [es ->] & Hl & _)].
  { left. split; [done|]. eexists; split; [|reflexivity]. set_solver. }
  destruct HQ as [(_ & -> & -> & Hl2)|(reply & Ha & Hi & HQ)].
  - left. split; [done|]. rewrite Hl, Hl2, decide_True, <-!app_assoc by done.
    eexists; split; [|reflexivity]. set_solver.
  - right. exists reply. split; [by apply answered_app|]. split; [done|].
    destruct HQ as [(_ & -> & Hl2)|(Hst & _ & Hl2 & Hn)]; [left|right].
    + rewrite Hl, Hl2, decide_True, <-!app_assoc by done. done.
    + split; [|done]. rewrite Hl, Hl2, decide_False, app_nil_r, <-app_assoc by done. done.
Qed.

Lemma read_rows_spec {A} sql error_text (of_row : row → result exn A) log h :
  sql_log h = log →
  match read_rows sql error_text of_row free h with
  | (r, c, h') => c = free ∧ ∃ items, r = Ok items ∧ read_outcome (c_str sql) of_row log items h'
  end.
Proof.
  intros Hlog. set (out := λ (c : connection) (items : list A) (h : history),
    c = free ∧ read_outcome (c_str sql) of_row log items h).
  enough (triple (λ c h, c = free ∧ sql_log h = log) (read_rows sql error_text of_row)
    (λ r c h, ∃ items, r = Ok items ∧ out c items h)) as Ht.
  { specialize (Ht free h (conj eq_refl Hlog)). destruct (read_rows _ _ _ _ _) as [[r c] h'].
    destruct Ht as (items & -> & -> & Ho). eauto. }
  unfold read_rows. apply (triple_bind _ _ _ (λ al c h, out c al.2 h)).
  2:{ intros [[] items]. apply triple_ret. eauto. }
  eapply triple_with_local with (Q' := λ r p h, is_ok r = true ∧ out p.1 p.2 h).
  - apply (triple_try _ _ _ (λ _ p h, out p.1 p.2 h)).
    + eapply triple_conseq; [apply (with_work_triple local_txn [] _ log _ (read_body _ sql of_row _))
        |intros p h'; exact id|].
      intros r p h' Hp%read_scope_outcome. by destruct r.
    + intros e. apply triple_emit. intros p h' [Hp Ho]. split; [done|]. split; [done|].
      destruct Ho as [(Hi & cmds & Hin & Hl)|(reply & Ha & Hi & Hl)]; [left|right].
      * split; [done|]. exists cmds. by rewrite sql_log_other.
      * exists reply. split; [by apply (answered_app _ _ [_])|]. rewrite sql_log_other by done. done.
  - by intros s h' [-> <-].
  - by intros [] s l h' [_ Ho].
  - by intros e s l h' [Hr _].
Qed.
End bodies.
