(* ===== verification/SqlTrace.v ===== *)
(** The commands a program sends, each with whether it was carried out, and
    what the functions of the data access layer add to them. *)

From stdpp Require Import sets.
From S2P Require Import Prelude Exceptions Effects EffectsFacts PqxxConv PqxxResult.
From S2P Require Import PqxxTransaction PqxxTransactionFacts Database DatabaseFacts.

Section traces.
Context `{Env, Build}.

(** ** Commands and their outcomes *)

Fixpoint sql_trace (h : history) : list (string * bool) :=
  match h with
  | [] => []
  | e :: h' => sql_trace h' ++ map (λ q, (q, carried_out h)) (sql_of e)
  end.

Lemma trace_commands h : (sql_trace h).*1 = sql_log h.
Proof.
  induction h as [|e h IH]; [done|]. cbn [sql_trace sql_log]. rewrite fmap_app, IH. f_equal.
  change fmap with (@map (string * bool) string). rewrite map_map. by apply map_id.
Qed.

Lemma trace_points h h' : sql_points h' = sql_points h → sql_trace h' = sql_trace h.
Proof.
  assert (Hp : ∀ h, sql_trace h = concat (map (λ p, match p with
      | e :: _ => map (λ q, (q, carried_out p)) (sql_of e) | [] => [] end) (sql_points h))).
  { clear. intros h. induction h as [|e h IH]; [done|]. cbn [sql_trace sql_points].
    rewrite map_app, concat_app, <-IH. destruct (sql_of e) eqn:E; cbn; by rewrite ?E, ?app_nil_r. }
  intros E. by rewrite !Hp, E.
Qed.

Lemma trace_quiet es h : Forall (λ e, sql_of e = []) es → sql_trace (es ++ h) = sql_trace h.
Proof. intros Hes. by apply trace_points, sql_points_app. Qed.

(** What is added to the commands is added to their trace. *)
Lemma trace_grow h es cmds :
  sql_log (es ++ h) = sql_log h ++ cmds → ∃ l, sql_trace (es ++ h) = sql_trace h ++ l ∧ l.*1 = cmds.
Proof.
  intros Hl. assert (∃ l, sql_trace (es ++ h) = sql_trace h ++ l) as [l E].
  { clear. induction es as [|e es [l IH]]; [exists []; by rewrite app_nil_r|]. cbn [app sql_trace].
    rewrite IH, <-app_assoc. by eexists. }
  exists l. split; [done|]. rewrite <-!trace_commands, E, fmap_app in Hl. by apply app_inv_head in Hl.
Qed.

Lemma trace_grow_one h es q :
  sql_log (es ++ h) = sql_log h ++ [q] → ∃ b, sql_trace (es ++ h) = sql_trace h ++ [(q, b)].
Proof.
  intros Hl. destruct (trace_grow h es [q] Hl) as (l & E & Hl1).
  destruct l as [|[q' b] [|]]; [done| |done]. injection Hl1 as ->. by exists b.
Qed.

Lemma trace_sends_one {S} e q (s0 : S) m h :
  sends_one e s0 m → sql_of e = [q] →
  match m s0 h with (r, s, h') => s = s0 ∧ sql_trace h' = sql_trace h ++ [(q, is_ok r)] end.
Proof.
  intros Hm He. destruct (Hm h) as (r & es & -> & Hes & Hr & _). split; [done|].
  rewrite trace_quiet by done. cbn [sql_trace]. by rewrite He, Hr.
Qed.

(** ** One transaction *)

(** A transaction with the one statement [q]: nothing follows a [BEGIN] that
    was not carried out, and only a statement that was is committed. *)
Inductive work_trace (q : string) : list (string * bool) → Prop :=
  | work_not_begun : work_trace q [("BEGIN", false)]
  | work_unused b : work_trace q [("BEGIN", true); ("ROLLBACK", b)]
  | work_undone ok b : work_trace q [("BEGIN", true); (q, ok); ("ROLLBACK", b)]
  | work_done b : work_trace q [("BEGIN", true); (q, true); ("COMMIT", b)].

(** What the body of its scope adds, and leaves to the end of the scope. *)
Inductive body_trace (q : string) : tx_status → list (string * bool) → Prop :=
  | body_nothing : body_trace q active []
  | body_asked ok : body_trace q active [(q, ok)]
  | body_committed st b : st ≠ active → body_trace q st [(q, true); ("COMMIT", b)].

Definition body_traces {L A} (q : string) (ptr : positive) (l0 : L) (body : prog (session * L) A) : Prop :=
  ∀ h, match body (sess ptr active true, l0) h with
  | (r, p, h') => ∃ st reg l, p.1 = sess ptr st reg ∧ body_trace q st l ∧ sql_trace h' = sql_trace h ++ l
  end.

Lemma silent_destroy : silent transaction_base_destroy.
Proof.
  unfold transaction_base_destroy, description, when, tx_unregister, on_conn, unregister_transaction,
    process_notice. solve_silent.
Qed.

Lemma close_trace ptr st reg h :
  match close (sess ptr st reg) h with
  | (r, s, h') => ∃ st', s = sess ptr st' false ∧
      if decide (st = active) then ∃ b, sql_trace h' = sql_trace h ++ [("ROLLBACK"%string, b)]
      else sql_trace h' = sql_trace h
  end.
Proof.
  pose proof (cleanups_triple ptr st reg h _ h (conj eq_refl eq_refl)) as Hc.
  destruct (grows_close (sess ptr st reg) h) as (r & s & es & E). rewrite E in *.
  destruct Hc as (st' & -> & Hl). exists st'. split; [done|]. case_decide.
  - by apply trace_grow_one.
  - destruct (trace_grow _ _ _ Hl) as (l & -> & El). destruct l; [|done]. by rewrite app_nil_r.
Qed.

Lemma with_work_traces {L A} q ptr (l0 : L) (body : prog (session * L) A) h :
  body_traces q ptr l0 body →
  match with_work ptr body (free, l0) h with
  | (r, p, h') => p.1 = free ∧ ∃ l, work_trace q l ∧ sql_trace h' = sql_trace h ++ l
  end.
Proof.
  intros Hbody. unfold with_work.
  change (mk_session free (transaction_new ptr EmptyString)) with (sess ptr active false).
  unfold finally. rewrite prog_bind_unfold. unfold in_session at 1, zoom at 1. cbn [fst].
  unfold basic_transaction_init. rewrite prog_bind_unfold, tx_register_run. cbv iota beta. rewrite prog_bind_unfold.
  pose proof (trace_sends_one _ "BEGIN"%string _ _ h (direct_exec_one begin_cmd (sess ptr active true) eq_refl eq_refl) eq_refl) as Hi.
  destruct (direct_exec _ _ _ h) as [[[a|e] s1] h1]; destruct Hi as [-> Hi]; cbn [is_ok] in Hi.
  - unfold mret at 1, prog_ret. cbv iota beta. cbn [snd].
    specialize (Hbody h1). destruct (body _ h1) as [[r [s2 l2]] h2].
    destruct Hbody as (st & reg & l & Hs2 & Hb & Ht). cbn [fst snd] in *. subst s2.
    unfold in_session, zoom. cbn [fst snd]. pose proof (close_trace ptr st reg h2) as Hc.
    destruct (close (sess ptr st reg) h2) as [[r3 s3] h3]. destruct Hc as (st' & -> & Hc).
    cbn [fst snd]. rewrite destroy_unregistered. cbn [fst snd]. split; [done|].
    destruct Hb as [|ok|st b Hst]; [destruct Hc as [b Hc]..|].
    + eexists. split; [by apply (work_unused q b)|]. by rewrite Hc, Ht, Hi, <-!app_assoc.
    + eexists. split; [by apply (work_undone q ok b)|]. by rewrite Hc, Ht, Hi, <-!app_assoc.
    + eexists. split; [by apply (work_done q b)|]. rewrite decide_False in Hc by done.
      by rewrite Hc, Ht, Hi, <-!app_assoc.
  - unfold in_session, zoom. cbn [fst snd].
    pose proof (destroy_triple ptr active true (sql_log h1) _ h1 (conj eq_refl eq_refl)) as Hd.
    pose proof (silent_destroy (sess ptr active true) h1) as Hq.
    destruct (transaction_base_destroy _ h1) as [[r4 s4] h4]. destruct Hd as [Hs4 _].
    split; [done|]. exists [("BEGIN"%string, false)]. split; [constructor|]. by rewrite (trace_points _ _ Hq), Hi.
Qed.

(** ** The bodies *)

Lemma commit_trace {L} q ptr (l0 : L) h h0 :
  sql_trace h = sql_trace h0 ++ [(q, true)] →
  match in_session commit (sess ptr active true, l0) h with
  | (r, p, h') => ∃ st reg l, p.1 = sess ptr st reg ∧ body_trace q st l ∧ sql_trace h' = sql_trace h0 ++ l
  end.
Proof.
  intros Hh. unfold in_session, zoom. cbn [fst snd].
  pose proof (commit_triple ptr (sql_log h) _ h (conj eq_refl eq_refl)) as Hc.
  destruct (grows_commit (sess ptr active true) h) as (r & s & es & E). rewrite E in *. cbn [fst].
  destruct Hc as [(_ & -> & Hl & _)|[(_ & -> & Hl)|(_ & st & Hst & -> & Hl)]].
  - destruct (trace_grow_one _ _ _ Hl) as [b Eb]. eexists committed, false, _. split; [done|].
    split; [by apply (body_committed q committed b)|]. by rewrite Eb, Hh, <-app_assoc.
  - rewrite <-(app_nil_r (sql_log h)) in Hl. destruct (trace_grow _ _ _ Hl) as (l & El & Hl0).
    destruct l; [|done]. rewrite app_nil_r in El. eexists active, true, _. split; [done|].
    split; [apply (body_asked q true)|]. by rewrite El.
  - destruct (trace_grow_one _ _ _ Hl) as [b Eb]. eexists st, true, _. split; [done|].
    split; [apply (body_committed q st b); by destruct Hst as [->| ->]|]. by rewrite Eb, Hh, <-app_assoc.
Qed.

Lemma change_body_traces {L} ptr (l0 : L) sql args :
  body_traces (c_str sql) ptr l0
    (pp ← lift_result (params args); _ ← in_session (tx_exec_params sql pp); in_session commit).
Proof.
  intros h. rewrite prog_bind_unfold. unfold lift_result. destruct (params args) as [vs|ex].
  2: { eexists active, true, []. split; [done|]. split; [constructor|by rewrite app_nil_r]. }
  rewrite prog_bind_unfold. unfold in_session at 1, zoom at 1. cbn [fst snd].
  pose proof (trace_sends_one _ (c_str sql) _ _ h
    (tx_exec_params_one sql vs (sess ptr active true) eq_refl eq_refl) eq_refl) as Ht.
  destruct (tx_exec_params sql vs _ h) as [[[a|e] s1] h1]; destruct Ht as [-> Ht]; cbn [is_ok] in Ht.
  - by apply commit_trace.
  - eexists active, true, _. split; [done|]. split; [apply (body_asked _ false)|done].
Qed.

Lemma read_body_traces {A} ptr sql (of_row : row → result exn A) :
  body_traces (c_str sql) ptr []
    (res ← in_session (tx_exec sql EmptyString);
     for_each (rows res) (λ r, x ← lift_result (of_row r); set_local (λ items, items ++ [x]));;
     in_session commit).
Proof.
  intros h. rewrite prog_bind_unfold. unfold in_session at 1, zoom at 1. cbn [fst snd].
  pose proof (trace_sends_one _ (c_str sql) _ _ h
    (tx_exec_one sql (sess ptr active true) eq_refl eq_refl eq_refl eq_refl) eq_refl) as Ht.
  destruct (tx_exec sql _ _ h) as [[[res|e] s1] h1]; destruct Ht as [-> Ht]; cbn [is_ok] in Ht.
  - rewrite prog_bind_unfold, for_rows_run. destruct (read_prefix of_row _) as [items [ex|]]; cbn [fst snd].
    + eexists active, true, _. split; [done|]. split; [apply (body_asked _ true)|done].
    + by apply commit_trace.
  - eexists active, true, _. split; [done|]. split; [apply (body_asked _ false)|done].
Qed.

Lemma test_body_traces {L} ptr (l0 : L) :
  body_traces sql_test ptr l0 (_ ← in_session (tx_exec sql_test EmptyString); mret tt).
Proof.
  intros h. rewrite prog_bind_unfold. unfold in_session, zoom. cbn [fst snd].
  pose proof (trace_sends_one _ sql_test _ _ h
    (tx_exec_one sql_test (sess ptr active true) eq_refl eq_refl eq_refl eq_refl) eq_refl) as Ht.
  destruct (tx_exec sql_test _ _ h) as [[[res|e] s1] h1]; destruct Ht as [-> Ht];
    (eexists active, true, _; split; [done|]; split; [apply body_asked|exact Ht]).
Qed.

(** ** The functions of the data access layer *)

(** A call on a free connection: one transaction, and the connection is free. *)
Definition call_traces {A} (q : string) (m : prog connection A) : Prop :=
  ∀ h, match m free h with
  | (r, c, h') => c = free ∧ ∃ l, work_trace q l ∧ sql_trace h' = sql_trace h ++ l
  end.

Lemma change_rows_traces sql error_text args : call_traces (c_str sql) (change_rows sql error_text args).
Proof.
  intros h. unfold change_rows, try_catch. rewrite prog_bind_unfold. unfold with_local.
  pose proof (with_work_traces _ local_txn tt _ h (change_body_traces local_txn tt sql args)) as Hw.
  destruct (with_work _ _ _ h) as [[[a|e] [c l]] h']; cbn in Hw; destruct Hw as (-> & tr & Htr & Hl); (split; [done|]);
    exists tr; (split; [done|]); [done|].
  rewrite <-Hl. apply (trace_quiet [_]). by repeat constructor.
Qed.

Lemma read_rows_traces {A} sql error_text (of_row : row → result exn A) :
  call_traces (c_str sql) (read_rows sql error_text of_row).
Proof.
  intros h. unfold read_rows. rewrite prog_bind_unfold. unfold with_local, try_catch.
  pose proof (with_work_traces _ local_txn [] _ h (read_body_traces local_txn sql of_row)) as Hw.
  destruct (with_work _ _ _ h) as [[[a|e] [c l]] h']; cbn in Hw; destruct Hw as (-> & tr & Htr & Hl); (split; [done|]);
    exists tr; (split; [done|]); [done|].
  rewrite <-Hl. apply (trace_quiet [_]). by repeat constructor.
Qed.

Lemma test_traces : call_traces sql_test testConnection.
Proof.
  intros h. unfold testConnection, try_catch. rewrite prog_bind_unfold. unfold with_local.
  pose proof (with_work_traces _ local_txn tt _ h (test_body_traces local_txn tt)) as Hw.
  destruct (with_work _ _ _ h) as [[[a|e] [c l]] h']; cbn in Hw; destruct Hw as (-> & tr & Htr & Hl); (split; [done|]);
    exists tr; (split; [done|]); [done|].
  rewrite <-Hl. apply (trace_quiet [_]). by repeat constructor.
Qed.
End traces.
