(* ===== verification/Concurrent.v ===== *)
(** Requests handled at the same time: the event loop serves requests on
    several threads ([multithreaded()], webserver.cpp), and all of them use
    the one connection of the [Database].

    Neither the program nor libpqxx locks the connection, so another thread
    can run between any two accesses to it.  The steps here are coarser than
    that (only the test and the assignment of
    [connection::register_transaction] are steps of their own): every
    schedule of these steps is one the program can show, and the file only
    claims that some schedule exists. *)

From stdpp Require Import relations.
From S2P Require Import Prelude Exceptions Effects EffectsFacts PqxxConv PqxxResult.
From S2P Require Import PqxxTransaction PqxxTransactionFacts Database DatabaseFacts SqlTrace TestEnv.

(** ** Threads *)

(** Where a thread is.  Its body is what it calls between the construction of
    its [pqxx::work] and the end of the scope.  Behind [Closing] and
    [Destroying] is whether the scope ended normally; the destructors run in
    any case. *)
Inductive thread :=
  | Starting (body : list (prog session unit))
  (* [check_unique_register] has passed, [m_trans] is not assigned yet *)
  | Checked (body : list (prog session unit))
  | Working (t : transaction) (rest : list (prog session unit))
  | Closing (t : transaction) (ok : bool)
  | Destroying (t : transaction) (ok : bool)
  | Finished (st : tx_status) (ok : bool).

Section threads.
Context `{Env}.

(** The rest of the constructor: [m_trans = t], [m_registered = true], and
    the [BEGIN]. *)
Definition assign_and_begin : prog session unit :=
  t ← gets s_tx;
  on_conn (modify (λ c, mk_connection (m_conn c) (Some (tx_guest t))));;
  set_registered true;;
  _ ← direct_exec begin_cmd EmptyString; mret tt.

(** One step of the thread whose work object is at [ptr]. *)
Definition thread_step (ptr : positive) (th : thread) (c : connection) (h : history)
    : thread * connection * history :=
  let t0 := transaction_new ptr EmptyString in
  match th with
  | Starting body =>
      match check_unique_register (m_trans c) (tx_guest t0) with
      | Ok _ => (Checked body, c, h)
      | Throw _ => (Destroying t0 false, c, h)
      end
  | Checked body =>
      let '(r, s, h) := assign_and_begin (mk_session c t0) h in
      (match r with Ok _ => Working (s_tx s) body | Throw _ => Destroying (s_tx s) false end, s_conn s, h)
  | Working t [] => (Closing t true, c, h)
  | Working t (call :: rest) =>
      let '(r, s, h) := call (mk_session c t) h in
      (match r with Ok _ => Working (s_tx s) rest | Throw _ => Closing (s_tx s) false end, s_conn s, h)
  | Closing t ok =>
      let '(_, s, h) := close (mk_session c t) h in (Destroying (s_tx s) ok, s_conn s, h)
  | Destroying t ok =>
      let '(_, s, h) := transaction_base_destroy (mk_session c t) h in
      (Finished (m_status t) ok, s_conn s, h)
  | Finished st ok => (Finished st ok, c, h)
  end.

(** The threads, the connection they share, and which thread sent which
    command, with whether it was carried out. *)
Record world := mk_world {
  w_conn : connection;
  w_hist : history;
  w_threads : list thread;
  w_log : list (nat * (string * bool));
}.

(** The commands sent between two histories. *)
Definition new_commands (h h' : history) : list (string * bool) :=
  drop (length (sql_trace h)) (sql_trace h').

Definition step_thread (i : nat) (th : thread) (w : world) : world :=
  let '(th', c, h) := thread_step (Pos.of_succ_nat i) th (w_conn w) (w_hist w) in
  mk_world c h (<[i := th']> (w_threads w)) (w_log w ++ map (pair i) (new_commands (w_hist w) h)).

Inductive world_step : world → world → Prop :=
  | step_of i th w : w_threads w !! i = Some th → world_step w (step_thread i th w).

(** Any number of threads on a connection without a transaction. *)
Definition world_init (bodies : list (list (prog session unit))) (h : history) : world :=
  mk_world free h (map Starting bodies) [].

Definition reachable (bodies : list (list (prog session unit))) (h : history) (w : world) : Prop :=
  rtc world_step (world_init bodies h) w.

(** The body of the functions that change a table ([change_rows]). *)
Definition change_calls (sql : string) (args : list (result exn (option string)))
    : list (prog session unit) :=
  [(pp ← lift_result (params args); _ ← tx_exec_params sql pp; mret tt); commit].

(** Running threads in the order given. *)
Fixpoint run_schedule (order : list nat) (w : world) : world :=
  match order with
  | [] => w
  | i :: order' =>
      run_schedule order' (match w_threads w !! i with Some th => step_thread i th w | None => w end)
  end.

Lemma run_schedule_reachable bodies h order w :
  reachable bodies h w → reachable bodies h (run_schedule order w).
Proof.
  revert w. induction order as [|i order IH]; intros w Hw; [done|]. cbn. apply IH.
  destruct (w_threads w !! i) as [th|] eqn:E; [|done]. eapply rtc_r; [done|]. by constructor.
Qed.

(** ** A thread on its own

    From a free connection the two steps of the constructor are
    [basic_transaction_init]. *)
Lemma constructor_steps ptr c h :
  m_trans c = None →
  assign_and_begin (mk_session c (transaction_new ptr EmptyString)) h =
  basic_transaction_init (mk_session c (transaction_new ptr EmptyString)) h.
Proof. destruct c as [b t]. cbn. by intros ->. Qed.

(** ** Calls on a connection that others use *)

(** Whether a statement is carried out depends on the statement only. *)
Record answering (good : event → bool) : Prop := {
  answering_open : ∀ h, PQstatus_ok h = true;
  answering_carried : ∀ e h, sql_of e ≠ [] → carried_out (e :: h) = good e;
}.

Context (good : event → bool) (Hgood : answering good).

Lemma sent {S} e q (s0 : S) m h :
  sends_one e s0 m → sql_of e = [q] →
  ∃ r h', m s0 h = (r, s0, h') ∧ is_ok r = good e ∧ sql_trace h' = sql_trace h ++ [(q, good e)].
Proof.
  intros Hm He. pose proof (trace_sends_one e q s0 m h Hm He) as Ht. destruct (Hm h) as (r & es & E & _ & Hr & _).
  rewrite E in *. destruct Ht as [_ Ht]. rewrite (answering_carried _ Hgood) in Hr by (done || by rewrite He).
  exists r, (es ++ e :: h). by rewrite <-Hr.
Qed.

(** A transaction object at [ptr], without focus or pending error. *)
Definition plain (ptr : positive) (st : tx_status) (reg : bool) : transaction :=
  mk_transaction ptr EmptyString st reg EmptyString None.

Lemma notice_run {S} msg (s : S) h :
  ∃ h', process_notice msg s h = (Ok tt, s, h') ∧ sql_trace h' = sql_trace h.
Proof.
  unfold process_notice, emit. destruct (is_empty msg); [by exists h|].
  eexists. split; [reflexivity|]. cbn [sql_trace sql_of map]. by rewrite app_nil_r.
Qed.

(** [unregister_transaction] clears the field, whoever is registered. *)
Lemma unregister_run c t h :
  ∃ h', tx_unregister (mk_session c t) h = (Ok tt, mk_session (mk_connection (m_conn c) None) t, h') ∧
        sql_trace h' = sql_trace h.
Proof.
  unfold tx_unregister. rewrite prog_bind_unfold. unfold gets, on_conn, zoom, unregister_transaction.
  cbn [s_tx s_conn]. rewrite !prog_bind_unfold. unfold get, try_catch, lift_result.
  destruct (check_unique_unregister _ _) as [|e]; [by exists h|].
  cbv beta iota. destruct (notice_run (what e) c h) as (h' & E & Ht). rewrite prog_bind_unfold. cbv beta. rewrite E. by exists h'.
Qed.

Definition closed (st : tx_status) : tx_status := match st with active => aborted | _ => st end.

Lemma close_with_run abort_ c ptr st reg h :
  ∃ c' h', m_conn c' = m_conn c ∧ sql_trace h' = sql_trace h ∧
    close_with abort_ (mk_session c (plain ptr st reg)) h =
    match st with
    | active => try_catch abort_ (λ e, process_notice (what e)) (mk_session c' (plain ptr st false)) h'
    | _ => (Ok tt, mk_session c' (plain ptr st false), h')
    end.
Proof.
  unfold close_with. rewrite prog_bind_unfold.
  change (try_catch check_pending_error _ _ h) with (@Ok exn unit tt, mk_session c (plain ptr st reg), h).
  cbv iota beta. rewrite prog_bind_unfold. unfold gets at 1. cbn [s_tx plain m_registered m_status m_focus].
  rewrite prog_bind_unfold. destruct reg; cbn [when].
  - rewrite prog_bind_unfold. unfold set_registered at 1, modify at 1. cbn [s_tx s_conn plain].
    destruct (unregister_run c (plain ptr st false) h) as (h' & Hu & Ht).
    exists (mk_connection (m_conn c) None), h'. split; [done|]. split; [done|].
    unfold plain in Hu |- *. cbn [tx_ptr m_name m_status m_pending_error m_focus]. rewrite Hu. by destruct st.
  - exists c, h. split; [done|]. split; [done|]. by destruct st.
Qed.

Lemma close_any_run c ptr st reg h :
  m_conn c = true →
  ∃ c' h', close (mk_session c (plain ptr st reg)) h = (Ok tt, mk_session c' (plain ptr (closed st) false), h') ∧
    m_conn c' = true ∧
    sql_trace h' = sql_trace h ++ match st with
      | active => [("ROLLBACK"%string, good (PqExec "ROLLBACK"))] | _ => [] end.
Proof.
  intros Hc. change close with (close_with (abort_with (close_n abort_with 1))).
  destruct (close_with_run (abort_with (close_n abort_with 1)) c ptr st reg h) as (c1 & h1 & Hc1 & Ht1 & E).
  rewrite E. rewrite Hc in Hc1. destruct st; try (exists c1, h1; by rewrite app_nil_r).
  destruct (sent (PqExec "ROLLBACK") "ROLLBACK"%string _ _ h1 (direct_exec_one "ROLLBACK" (mk_session c1 (plain ptr active false)) eq_refl Hc1) eq_refl)
    as (r & h2 & Er & Hr & Ht2).
  assert (∃ h3, try_catch do_abort (λ e, process_notice (what e +:+ NL)) (mk_session c1 (plain ptr active false)) h1 =
      (Ok tt, mk_session c1 (plain ptr active false), h3) ∧ sql_trace h3 = sql_trace h2) as (h3 & E3 & Ht3).
  { unfold try_catch, do_abort. rewrite prog_bind_unfold, Er. destruct r as [a|e]; [by exists h2|]. apply notice_run. }
  destruct (close_with_run (abort_with (close_n abort_with 0)) c1 ptr aborted false h3) as (c4 & h4 & Hc4 & Ht4 & E4).
  exists c4, h4. rewrite Hc1 in Hc4. split; [|split; [done|by rewrite Ht4, Ht3, Ht2, Ht1]].
  unfold try_catch at 1, abort_with at 1, abort_as, description, gets, mbind at 1 2, prog_bind at 1 2.
  cbn [s_tx plain m_status]. rewrite prog_bind_unfold, E3. rewrite prog_bind_unfold.
  unfold set_status, modify. cbn [s_tx s_conn plain tx_ptr m_name m_registered m_pending_error m_focus].
  change (close_n abort_with 1) with (close_with (abort_with (close_n abort_with 0))).
  unfold plain in E4 |- *. by rewrite E4.
Qed.

Lemma commit_run c ptr h :
  m_conn c = true → good (PqExec "COMMIT") = true →
  ∃ c' h', commit (mk_session c (plain ptr active true)) h =
      (Ok tt, mk_session c' (plain ptr committed false), h') ∧
    m_conn c' = true ∧ sql_trace h' = sql_trace h ++ [("COMMIT"%string, true)].
Proof.
  intros Hc Hg. set (s0 := mk_session c (plain ptr active true)).
  destruct (sent (PqExec "COMMIT") "COMMIT"%string _ _ h (direct_exec_one "COMMIT" s0 eq_refl Hc) eq_refl) as (r & h1 & Er & Hr & Ht).
  rewrite Hg in Hr, Ht. destruct r as [a|]; [|done].
  destruct (close_any_run c ptr committed true h1 Hc) as (c' & h2 & Ec & Hc' & Ht2).
  exists c', h2. split; [|split; [done|by rewrite Ht2, Ht, app_nil_r]].
  unfold commit, commit_as. rewrite check_pending_bind by done.
  unfold description, gets, mbind at 1 2, prog_bind at 1 2. cbn [s_tx plain m_status m_focus].
  assert (Ho : on_conn is_open s0 h = (Ok true, s0, h)).
  { unfold on_conn, zoom, is_open, mbind, prog_bind, get, ask. cbn [s_conn s0].
    by rewrite Hc, (answering_open _ Hgood). }
  assert (Hd : (do_commit;; set_status committed) s0 h = (Ok tt, mk_session c (plain ptr committed true), h1)).
  { rewrite prog_bind_unfold. unfold do_commit, try_catch. by rewrite prog_bind_unfold, Er. }
  change (m_status (s_tx s0)) with active. change (m_focus (s_tx s0)) with (@None guest). cbv iota.
  rewrite prog_bind_unfold, Ho. cbn [negb]. rewrite prog_bind_unfold. unfold try_catch. by rewrite Hd, Ec.
Qed.

Lemma begin_run c ptr h :
  m_conn c = true → good (PqExec "BEGIN") = true →
  ∃ c' h', assign_and_begin (mk_session c (plain ptr active false)) h =
      (Ok tt, mk_session c' (plain ptr active true), h') ∧
    m_conn c' = true ∧ sql_trace h' = sql_trace h ++ [("BEGIN"%string, true)].
Proof.
  intros Hc Hg. set (c' := mk_connection (m_conn c) (Some (tx_guest (plain ptr active false)))).
  set (s0 := mk_session c' (plain ptr active true)).
  destruct (sent (PqExec "BEGIN") "BEGIN"%string _ _ h (direct_exec_one "BEGIN" s0 eq_refl Hc) eq_refl) as (r & h1 & Er & Hr & Ht).
  rewrite Hg in Hr, Ht. destruct r as [a|]; [|done]. exists c', h1. split; [|done].
  change (assign_and_begin (mk_session c (plain ptr active false)) h)
    with ((_ ← direct_exec begin_cmd EmptyString; mret tt) s0 h).
  rewrite prog_bind_unfold. change begin_cmd with "BEGIN"%string. by rewrite Er.
Qed.

Lemma params_run sql args pp c ptr h :
  m_conn c = true → params args = Ok pp →
  let e := PqExecParams (c_str sql) (map (fmap c_str) pp) in
  ∃ r h', (pp ← lift_result (params args); _ ← tx_exec_params sql pp; mret tt)
            (mk_session c (plain ptr active true)) h = (r, mk_session c (plain ptr active true), h') ∧
    is_ok r = good e ∧ sql_trace h' = sql_trace h ++ [(c_str sql, good e)].
Proof.
  intros Hc -> e.
  destruct (sent _ (c_str sql) _ _ h (tx_exec_params_one sql pp (mk_session c (plain ptr active true)) Hc eq_refl) eq_refl)
    as (r & h1 & Er & Hr & Ht).
  exists (match r with Ok _ => Ok tt | Throw ex => Throw ex end), h1.
  rewrite prog_bind_unfold. unfold lift_result. rewrite prog_bind_unfold, Er. by destruct r.
Qed.

(** ** Steps of a schedule *)

Lemma schedule_step i order c h ths log th th' c' h' new :
  ths !! i = Some th →
  thread_step (Pos.of_succ_nat i) th c h = (th', c', h') →
  sql_trace h' = sql_trace h ++ new →
  run_schedule (i :: order) (mk_world c h ths log) =
  run_schedule order (mk_world c' h' (<[i := th']> ths) (log ++ map (pair i) new)).
Proof.
  intros Hi Hs Ht. cbn [run_schedule w_threads]. rewrite Hi. unfold step_thread. cbn [w_conn w_hist w_threads w_log].
  rewrite Hs. unfold new_commands. by rewrite Ht, drop_app_length.
Qed.

(** A scope that ends: [close], then the destructor. *)
Lemma scope_end i order c h ths log st reg ok :
  m_conn c = true → ths !! i = Some (Closing (plain (Pos.of_succ_nat i) st reg) ok) →
  ∃ c' h', m_conn c' = true ∧
    run_schedule (i :: i :: order) (mk_world c h ths log) =
    run_schedule order (mk_world c' h' (<[i := Finished (closed st) ok]> ths)
      (log ++ map (pair i) match st with
         | active => [("ROLLBACK"%string, good (PqExec "ROLLBACK"))] | _ => [] end)).
Proof.
  intros Hc Hi. destruct (close_any_run c (Pos.of_succ_nat i) st reg h Hc) as (c' & h' & E & Hc' & Ht).
  exists c', h'. split; [done|]. pose proof (lookup_lt_Some _ _ _ Hi) as Hlt.
  erewrite schedule_step; [|done|cbn [thread_step]; rewrite E; reflexivity|done]. cbn [s_tx s_conn].
  erewrite schedule_step; [|by apply list_lookup_insert_eq|reflexivity|symmetry; apply app_nil_r].
  cbn [map]. by rewrite app_nil_r, list_insert_insert_eq.
Qed.

(** A thread whose statement was carried out commits, and its scope ends. *)
Lemma commit_end i order c h ths log :
  m_conn c = true → good (PqExec "COMMIT") = true →
  ths !! i = Some (Working (plain (Pos.of_succ_nat i) active true) [commit]) →
  ∃ c' h', m_conn c' = true ∧
    run_schedule (i :: i :: i :: i :: order) (mk_world c h ths log) =
    run_schedule order (mk_world c' h' (<[i := Finished committed true]> ths)
      (log ++ [(i, ("COMMIT"%string, true))])).
Proof.
  intros Hc Hg Hi. destruct (commit_run c (Pos.of_succ_nat i) h Hc Hg) as (c1 & h1 & E & Hc1 & Ht).
  pose proof (lookup_lt_Some _ _ _ Hi) as Hlt.
  destruct (scope_end i order c1 h1 (<[i := Closing (plain (Pos.of_succ_nat i) committed false) true]> ths)
    (log ++ [(i, ("COMMIT"%string, true))]) committed false true Hc1 (list_lookup_insert_eq _ _ _ Hlt))
    as (c2 & h2 & Hc2 & E2).
  exists c2, h2. split; [done|].
  erewrite schedule_step; [|done|cbn [thread_step]; rewrite E; reflexivity|done]. cbn [s_tx s_conn].
  erewrite schedule_step; [|by apply list_lookup_insert_eq|reflexivity|symmetry; apply app_nil_r].
  cbn [map] in *. rewrite app_nil_r, list_insert_insert_eq, E2. by rewrite app_nil_r, list_insert_insert_eq.
Qed.

Lemma check_step i order c h ths log body :
  m_trans c = None → ths !! i = Some (Starting body) →
  run_schedule (i :: order) (mk_world c h ths log) =
  run_schedule order (mk_world c h (<[i := Checked body]> ths) log).
Proof.
  intros Hc Hi. rewrite (schedule_step i order c h ths log (Starting body) (Checked body) c h []).
  - cbn [map]. by rewrite app_nil_r.
  - done.
  - cbn [thread_step]. by rewrite Hc.
  - by rewrite app_nil_r.
Qed.

(** A thread whose check has passed begins, whoever is registered by now. *)
Lemma begin_step i order c h ths log body :
  m_conn c = true → good (PqExec "BEGIN") = true → ths !! i = Some (Checked body) →
  ∃ c' h', m_conn c' = true ∧
    run_schedule (i :: order) (mk_world c h ths log) =
    run_schedule order (mk_world c' h' (<[i := Working (plain (Pos.of_succ_nat i) active true) body]> ths)
      (log ++ [(i, ("BEGIN"%string, true))])).
Proof.
  intros Hc Hg Hi. destruct (begin_run c (Pos.of_succ_nat i) h Hc Hg) as (c1 & h1 & E & Hc1 & Ht).
  exists c1, h1. split; [done|].
  erewrite schedule_step; [|done|cbn [thread_step]|exact Ht]; [reflexivity|].
  change (transaction_new ?p EmptyString) with (plain p active false). by rewrite E.
Qed.

(** A thread sends the statement of its change; it goes on, or its scope ends. *)
Lemma statement_step i order c h ths log sql args pp :
  m_conn c = true → params args = Ok pp →
  let e := PqExecParams (c_str sql) (map (fmap c_str) pp) in
  let t := plain (Pos.of_succ_nat i) active true in
  ths !! i = Some (Working t (change_calls sql args)) →
  ∃ h', run_schedule (i :: order) (mk_world c h ths log) =
    run_schedule order (mk_world c h' (<[i := if good e then Working t [commit] else Closing t false]> ths)
      (log ++ [(i, (c_str sql, good e))])).
Proof.
  intros Hc Hp e t Hi. destruct (params_run sql args pp c (Pos.of_succ_nat i) h Hc Hp) as (r & h1 & E & Hr & Ht).
  exists h1. erewrite schedule_step; [|exact Hi|unfold change_calls; cbn [thread_step]|exact Ht]; [reflexivity|].
  unfold t. rewrite E. cbn [s_tx s_conn]. fold e in Hr. rewrite <-Hr. by destruct r.
Qed.

(** After its statement a thread ends its scope: it commits, or [close] rolls
    back; a thread that has finished does nothing more. *)
Lemma statement_end i order c h ths log (done : bool) :
  let t := plain (Pos.of_succ_nat i) active true in
  m_conn c = true → good (PqExec "COMMIT") = true →
  ths !! i = Some (if done then Working t [commit] else Closing t false) →
  ∃ c' h', m_conn c' = true ∧
    run_schedule (i :: i :: i :: i :: order) (mk_world c h ths log) =
    run_schedule order (mk_world c' h' (<[i := Finished (if done then committed else aborted) done]> ths)
      (log ++ [(i, if done then ("COMMIT"%string, true)
                   else ("ROLLBACK"%string, good (PqExec "ROLLBACK")))])).
Proof.
  intros t Hc Hg Hi. destruct done; [by apply commit_end|].
  destruct (scope_end i (i :: i :: order) c h ths log active true false Hc Hi) as (c1 & h1 & Hc1 & ->).
  exists c1, h1. split; [done|]. pose proof (lookup_lt_Some _ _ _ Hi) as Hlt. cbn [closed map].
  do 2 (erewrite schedule_step; [|by apply list_lookup_insert_eq|reflexivity|symmetry; apply app_nil_r];
        cbn [map]; rewrite app_nil_r, list_insert_insert_eq).
  done.
Qed.

(** Two changes, the second check before the first registration. *)
Definition overlap : list nat := [0; 1; 0; 1; 0; 1; 1; 1; 1; 1; 0; 0; 0; 0]%nat.

(** C4. Nothing keeps the transactions of concurrent requests apart: two
    requests for a change ([change_rows]), served at the same time, can both
    pass the check of [connection::register_transaction] before either has
    set [m_trans].  Then, with any server that carries out [BEGIN], [COMMIT]
    and the first change, the second [BEGIN] is sent inside the first
    transaction, and both statements go into it.  If the second statement is
    refused, its thread sends the [ROLLBACK] that ends this one transaction,
    and the first thread's [COMMIT] comes after it: its change is undone, and
    the thread reports success.  Otherwise the second thread's [COMMIT] ends
    the one transaction with both statements, before the first thread has
    asked for that.  No exception tells the first thread. *)
Theorem transactions_overlap sql0 args0 pp0 sql1 args1 pp1 h :
  params args0 = Ok pp0 → params args1 = Ok pp1 →
  good (PqExec "BEGIN") = true → good (PqExec "COMMIT") = true →
  good (PqExecParams (c_str sql0) (map (fmap c_str) pp0)) = true →
  let done := good (PqExecParams (c_str sql1) (map (fmap c_str) pp1)) in
  ∃ w, reachable [change_calls sql0 args0; change_calls sql1 args1] h w ∧
    w_threads w = [Finished committed true; Finished (if done then committed else aborted) done] ∧
    w_log w = [(0%nat, ("BEGIN"%string, true)); (1%nat, ("BEGIN"%string, true));
               (0%nat, (c_str sql0, true)); (1%nat, (c_str sql1, done));
               (1%nat, if done then ("COMMIT"%string, true)
                       else ("ROLLBACK"%string, good (PqExec "ROLLBACK")));
               (0%nat, ("COMMIT"%string, true))].
Proof.
  intros Hp0 Hp1 Hb Hcm Hs0 done.
  exists (run_schedule overlap (world_init [change_calls sql0 args0; change_calls sql1 args1] h)).
  split; [apply run_schedule_reachable, rtc_refl|]. unfold overlap, world_init. cbn [map].
  set (b0 := change_calls sql0 args0). set (b1 := change_calls sql1 args1).
  rewrite (check_step 0 _ free h _ _ b0) by done. cbn [insert list_insert].
  rewrite (check_step 1 _ free h _ _ b1) by done. cbn [insert list_insert].
  set (t0 := plain (Pos.of_succ_nat 0) active true). set (t1 := plain (Pos.of_succ_nat 1) active true).
  destruct (begin_step 0 [1; 0; 1; 1; 1; 1; 1; 0; 0; 0; 0]%nat free h [Checked b0; Checked b1] [] b0)
    as (c1 & h1 & Hc1 & ->); [done..|]. cbn [insert list_insert app]. fold t0.
  destruct (begin_step 1 [0; 1; 1; 1; 1; 1; 0; 0; 0; 0]%nat c1 h1 [Working t0 b0; Checked b1]
    [(0%nat, ("BEGIN"%string, true))] b1) as (c2 & h2 & Hc2 & ->); [done..|]. cbn [insert list_insert app]. fold t1.
  destruct (statement_step 0 [1; 1; 1; 1; 1; 0; 0; 0; 0]%nat c2 h2 [Working t0 b0; Working t1 b1]
    [(0%nat, ("BEGIN"%string, true)); (1%nat, ("BEGIN"%string, true))] sql0 args0 pp0 Hc2 Hp0 eq_refl)
    as (h3 & ->).
  rewrite Hs0. cbn [insert list_insert app]. fold t0.
  edestruct (statement_step 1 [1; 1; 1; 1; 0; 0; 0; 0]%nat c2 h3 [Working t0 [commit]; Working t1 b1])
    as (h4 & ->); [exact Hc2|exact Hp1|exact eq_refl|]. fold done t1. cbn [insert list_insert app].
  match goal with |- context [mk_world c2 h4 ?ths ?log] =>
    destruct (statement_end 1 [0; 0; 0; 0]%nat c2 h4 ths log done Hc2 Hcm eq_refl) as (c5 & h5 & Hc5 & ->) end.
  cbn [insert list_insert app].
  match goal with |- context [mk_world c5 h5 ?ths ?log] =>
    destruct (commit_end 0 [] c5 h5 ths log Hc5 Hcm eq_refl) as (c6 & h6 & _ & ->) end.
  by split.
Qed.
End threads.

(** Two requests to delete a device, and a server that refuses the second
    statement (the device is referred to by a service record, say). *)
Definition not_refused (e : event) : bool :=
  match e with PqExecParams _ [Some "8"%string] => false | _ => true end.
Definition refusing_env : Env := {|
  now_ns := λ _, 0%Z; localtime_text := λ _, "2024-01-01T00:00:00"%string;
  open_append_ok := λ _, true; file_contents := λ _, None; iteration := λ _ l, l;
  curl_init_ok := λ _, true; curl_perform_ok := λ _, true;
  PQconnectdb := λ _, true; PQstatus_ok := λ _, true; PQprotocolVersion := λ _, 3%Z;
  PQserverVersion := λ _, 150000%Z; PQerrorMessage := λ _, EmptyString;
  PQclientEncoding := λ _, 6%Z; pg_encoding_to_char := λ _, "UTF8"%string;
  PQexec := λ h, match h with
    | e :: _ => if not_refused e then Some (mk_pg_result PGRES_COMMAND_OK EmptyString None [])
                else Some (mk_pg_result PGRES_FATAL_ERROR "foreign key" (Some "23503"%string) [])
    | [] => None
    end;
  PQconsumeInput := λ _, true; PQnotifies := λ _, 0%nat |}.
Lemma refusing_answers : answering (H:=refusing_env) not_refused.
Proof.
  split; [done|]. intros e h _. unfold carried_out. cbn [refusing_env PQexec].
  by destruct (not_refused e).
Qed.

(** One delete is refused and the other one undone, but reported as done. *)
Lemma transactions_overlap_witness :
  ∃ w, reachable (H:=refusing_env) [change_calls (H:=refusing_env) sql_delete_device [param_int 7];
      change_calls (H:=refusing_env) sql_delete_device [param_int 8]] [] w ∧
    w_threads w = [Finished committed true; Finished aborted false] ∧
    (w_log w).*1 = [0; 1; 0; 1; 1; 0]%nat ∧
    (w_log w).*2.*1 = ["BEGIN"; "BEGIN"; c_str sql_delete_device; c_str sql_delete_device;
                       "ROLLBACK"; "COMMIT"]%string.
Proof.
  destruct (transactions_overlap (H:=refusing_env) not_refused refusing_answers
    sql_delete_device [param_int 7] [Some "7"%string] sql_delete_device [param_int 8] [Some "8"%string] []
    eq_refl eq_refl eq_refl eq_refl eq_refl) as (w & Hw & Hth & Hlog).
  exists w. split; [exact Hw|]. split; [exact Hth|]. rewrite Hlog. by split.
Defined.
