(* ===== verification/DatabaseSpec.v ===== *)
(** Properties of the data access layer: what a change or a query sends to the
    server and what its result says about the server's answers, for every
    behaviour of the server; that it succeeds when the server does; and that
    what is stored is what is read back. *)

From stdpp Require Import sets.
From S2P Require Import Prelude Decimal StdMap Doubles Exceptions JsonValue Effects.
From S2P Require Import EffectsFacts PqxxConv PqxxConvFacts PqxxResult PqxxTransaction.
From S2P Require Import PqxxTransactionFacts PqxxLive Database DatabaseFacts TestEnv.

(** ** The changes *)

Inductive change :=
  | AddDevice (d : Device)
  | UpdateDevice (id : Z) (d : Device)
  | DeleteDevice (id : Z)
  | AddServiceType (t : ServiceType)
  | UpdateServiceType (id : Z) (t : ServiceType)
  | DeleteServiceType (id : Z)
  | AddServiceRecord (r : ServiceRecord)
  | UpdateServiceRecord (id : Z) (r : ServiceRecord)
  | DeleteServiceRecord (id : Z).

Section specs.
Context `{Env, Build}.

Definition run_change (op : change) : prog connection bool :=
  match op with
  | AddDevice d => addDevice d
  | UpdateDevice id d => updateDevice id d
  | DeleteDevice id => deleteDevice id
  | AddServiceType t => addServiceType t
  | UpdateServiceType id t => updateServiceType id t
  | DeleteServiceType id => deleteServiceType id
  | AddServiceRecord r => addServiceRecord r
  | UpdateServiceRecord id r => updateServiceRecord id r
  | DeleteServiceRecord id => deleteServiceRecord id
  end.

(** The statement of a change: its text is fixed, its values travel apart. *)
Definition change_sql (op : change) : string :=
  match op with
  | AddDevice _ => sql_add_device
  | UpdateDevice _ _ => sql_update_device
  | DeleteDevice _ => sql_delete_device
  | AddServiceType _ => sql_add_service_type
  | UpdateServiceType _ _ => sql_update_service_type
  | DeleteServiceType _ => sql_delete_service_type
  | AddServiceRecord _ => sql_add_service_record
  | UpdateServiceRecord _ _ => sql_update_service_record
  | DeleteServiceRecord _ => sql_delete_service_record
  end.

Definition change_args (op : change) : list (result exn (option string)) :=
  match op with
  | AddDevice d => device_params d
  | UpdateDevice id d => device_params d ++ [param_int id]
  | DeleteDevice id => [param_int id]
  | AddServiceType t => service_type_params t
  | UpdateServiceType id t => service_type_params t ++ [param_int id]
  | DeleteServiceType id => [param_int id]
  | AddServiceRecord r => service_record_params r
  | UpdateServiceRecord id r => service_record_params r ++ [param_int id]
  | DeleteServiceRecord id => [param_int id]
  end.

Definition change_error (op : change) : string :=
  match op with
  | AddDevice _ => "Error adding device: "
  | UpdateDevice _ _ => "Error updating device: "
  | DeleteDevice _ => "Error deleting device: "
  | AddServiceType _ => "Error adding service type: "
  | UpdateServiceType _ _ => "Error updating service type: "
  | DeleteServiceType _ => "Error deleting service type: "
  | AddServiceRecord _ => "Error adding service record: "
  | UpdateServiceRecord _ _ => "Error updating service record: "
  | DeleteServiceRecord _ => "Error deleting service record: "
  end.

Lemma run_change_rows op :
  run_change op = change_rows (change_sql op) (change_error op) (change_args op).
Proof. by destruct op. Qed.

Lemma c_str_change_sql op : c_str (change_sql op) = change_sql op.
Proof. by destruct op. Qed.

(** C1. A change never throws and gives the connection back unregistered.  It
    reports success only if the server acknowledged the statement, with the
    values of the arguments, and then [COMMIT]; otherwise it sent a prefix of
    the transaction, rolled back unless [BEGIN] or [COMMIT] itself failed. *)
Theorem change_protocol op h :
  match run_change op free h with
  | (r, c, h') =>
      c = free ∧ ∃ ok, r = Ok ok ∧ change_outcome (change_sql op) (change_args op) (sql_log h) ok h'
  end.
Proof.
  rewrite run_change_rows. pose proof (change_rows_spec (change_sql op)
    (change_error op) (change_args op) _ h eq_refl) as Hs.
  by rewrite c_str_change_sql in Hs.
Qed.

(** ** The queries *)

(** What a function that reads a table promises. *)
Definition read_contract {A} (sql : string) (of_row : row → result exn A)
    (m : prog connection (list A)) : Prop :=
  ∀ h, match m free h with
  | (r, c, h') => c = free ∧ ∃ items, r = Ok items ∧ read_outcome sql of_row (sql_log h) items h'
  end.

Lemma read_contract_rows {A} sql error_text (of_row : row → result exn A) :
  c_str sql = sql → read_contract sql of_row (read_rows sql error_text of_row).
Proof.
  intros Hsql h. pose proof (read_rows_spec sql error_text of_row _ h eq_refl) as Hs.
  by rewrite Hsql in Hs.
Qed.

(** C7. A query never throws and gives the connection back unregistered.  What
    it returns is empty, or the rows of the server's reply up to the first one
    that cannot be read; it commits only if all of them were read. *)
Theorem query_protocol :
  read_contract sql_get_devices device_of_row getAllDevices ∧
  read_contract sql_get_service_types service_type_of_row getAllServiceTypes ∧
  read_contract sql_get_service_records service_record_of_row getAllServiceRecords ∧
  ∀ h, match getDetailedServiceHistory free h with
    | (r, c, h') => c = free ∧ ∃ items, r = Ok (JArray items) ∧
        read_outcome sql_history history_of_row (sql_log h) items h'
    end.
Proof.
  split; [|split; [|split]].
  - exact (read_contract_rows sql_get_devices "Error getting devices: " device_of_row eq_refl).
  - exact (read_contract_rows sql_get_service_types "Error getting service types: "
      service_type_of_row eq_refl).
  - exact (read_contract_rows sql_get_service_records "Error getting service records: "
      service_record_of_row eq_refl).
  - intros h. unfold getDetailedServiceHistory. rewrite prog_bind_unfold.
    pose proof (read_contract_rows sql_history "Error getting detailed history: " history_of_row
      eq_refl h) as Hc.
    destruct (read_rows _ _ _ _ _) as [[r c] h']. destruct Hc as (-> & items & -> & Ho).
    split; [done|]. by exists items.
Qed.

(** [testConnection] never throws, says whether the server acknowledged
    [SELECT 1], and always rolls back what it began. *)
Theorem testConnection_protocol h :
  match testConnection free h with
  | (r, c, h') => c = free ∧
      ∃ ok, r = Ok ok ∧ test_outcome (sql_log h) ok h'
  end.
Proof. by apply test_spec. Qed.

(** ** Lemmas *)

Lemma read_rows_busy {A} sql error_text (of_row : row → result exn A) g h :
  ∃ line, read_rows sql error_text of_row (mk_connection true (Some g)) h =
    (Ok [], mk_connection true (Some g), Stderr line :: h).
Proof.
  unfold read_rows. rewrite prog_bind_unfold. unfold with_local, try_catch.
  rewrite with_work_busy. by eexists.
Qed.

Lemma change_body_runs reply (Hup : healthy reply) {L} ptr (l0 : L) sql args vs :
  params args = Ok vs →
  runs (pp ← lift_result (params args); _ ← in_session (tx_exec_params sql pp); in_session commit)
    (sess ptr active true, l0) tt (sess ptr committed false, l0)
    (exchange (PqExec "COMMIT") ++
     exchange (PqExecParams (c_str sql) (map (fmap c_str) vs))).
Proof.
  intros Hvs h. rewrite Hvs, prog_bind_unfold. unfold lift_result, in_session, zoom.
  rewrite prog_bind_unfold. cbn [fst snd]. rewrite (tx_exec_params_runs reply Hup). cbn [fst snd].
  by rewrite (commit_runs reply Hup).
Qed.

Lemma read_body_runs reply (Hup : healthy reply) {A} ptr sql (of_row : row → result exn A) items :
  read_prefix of_row (pg_tuples (reply (PqExec (c_str sql)))) = (items, None) →
  runs (res ← in_session (tx_exec sql EmptyString);
        for_each (rows res) (λ r, x ← lift_result (of_row r); set_local (λ items, items ++ [x]));;
        in_session commit)
    (sess ptr active true, []) tt (sess ptr committed false, items)
    (exchange (PqExec "COMMIT") ++ exchange (PqExec (c_str sql))).
Proof.
  intros Hitems h. rewrite prog_bind_unfold. unfold in_session at 1, zoom at 1. cbn [fst snd].
  rewrite (tx_exec_runs reply Hup). cbn [fst snd]. rewrite prog_bind_unfold, for_rows_run.
  unfold rows. cbn [m_data]. rewrite Hitems. cbn [fst snd app].
  unfold in_session, zoom. cbn [fst snd]. by rewrite (commit_runs reply Hup).
Qed.

Lemma param_int_text n : in_type t_int n → param_int n = Ok (Some (to_string n)).
Proof. intros Hn. unfold param_int. by rewrite int_to_string_text by (try done; by do 3 constructor). Qed.

Lemma as_int_text n : in_type t_int n → as_int (Some (c_str (to_string n))) = Ok n.
Proof.
  intros Hn. unfold as_int, as_value. rewrite c_str_to_string.
  by rewrite int_from_string_text by (try done; by do 3 constructor).
Qed.

(** ** Sharing the connection *)

(** While another transaction is registered with the connection, as when
    two requests run at the same time, nothing is sent: a change reports
    failure, a query an empty table. *)
Theorem busy_connection g h :
  let busy := mk_connection true (Some g) in
  let refused {A} (m : prog connection A) (a : A) :=
    ∃ line, m busy h = (Ok a, busy, Stderr line :: h) in
  (∀ op, refused (run_change op) false) ∧
  refused testConnection false ∧ refused getAllDevices [] ∧ refused getAllServiceTypes [] ∧
  refused getAllServiceRecords [] ∧ refused getDetailedServiceHistory (JArray []).
Proof.
  cbv zeta. repeat split.
  - intros op. rewrite run_change_rows. unfold change_rows, try_catch.
    rewrite prog_bind_unfold. unfold with_local at 1. rewrite with_work_busy. by eexists.
  - unfold testConnection, try_catch.
    rewrite prog_bind_unfold. unfold with_local at 1. rewrite with_work_busy. by eexists.
  - exact (read_rows_busy sql_get_devices "Error getting devices: " device_of_row g h).
  - exact (read_rows_busy sql_get_service_types "Error getting service types: "
      service_type_of_row g h).
  - exact (read_rows_busy sql_get_service_records "Error getting service records: "
      service_record_of_row g h).
  - unfold getDetailedServiceHistory. rewrite prog_bind_unfold.
    destruct (read_rows_busy sql_history "Error getting detailed history: " history_of_row g h)
      as [line ->]. by eexists.
Qed.

(** ** When the server accepts everything *)

(** C22. With a server that accepts every statement a change whose values can
    be written succeeds. *)
Theorem change_succeeds reply op vs h :
  healthy reply → params (change_args op) = Ok vs →
  ∃ h', run_change op free h = (Ok true, free, h') ∧
    sql_log h' = sql_log h ++ ["BEGIN"; change_sql op; "COMMIT"]%string.
Proof.
  intros Hup Hvs. rewrite run_change_rows. unfold change_rows, try_catch.
  rewrite prog_bind_unfold. unfold with_local.
  erewrite (with_work_runs reply Hup) by by apply (change_body_runs reply Hup).
  rewrite c_str_change_sql. eexists; split; [reflexivity|]. cbn. by rewrite !app_nil_r, <-!app_assoc.
Qed.

(** With a server that accepts every statement a query returns every row
    of the server's reply, in order. *)
Theorem query_succeeds reply {A} sql error_text (of_row : row → result exn A) items h :
  healthy reply →
  read_prefix of_row (pg_tuples (reply (PqExec (c_str sql)))) = (items, None) →
  ∃ h', read_rows sql error_text of_row free h = (Ok items, free, h').
Proof.
  intros Hup Hitems. unfold read_rows. rewrite prog_bind_unfold. unfold with_local, try_catch.
  erewrite (with_work_runs reply Hup) by by eapply (read_body_runs reply Hup).
  by eexists.
Qed.

(** ** What is stored is what is read *)

(** The row the server returns for stored values: C strings. *)
Definition stored (vs : list (option string)) : row := map (fmap c_str) vs.

(** A device written as the parameters of a statement and read back from
    a row with the same values is the same device, up to a NUL byte in its
    texts; an empty purchase date is stored as null and read as empty. *)
Theorem device_round_trip id d :
  in_type t_int id →
  ∃ id_text vs, param_int id = Ok id_text ∧ params (device_params d) = Ok vs ∧
    device_of_row (stored (id_text :: vs)) =
    Ok (mk_device id (c_str (d_name d)) (c_str (d_model d)) (c_str (d_purchase_date d))
          (c_str (d_status d))).
Proof.
  intros Hid. eexists _, _. split; [by apply param_int_text|]. split; [reflexivity|].
  unfold device_of_row, stored. cbn -[to_string as_int c_str]. rewrite as_int_text by done.
  destruct (d_purchase_date d) as [|c s]; [done|]. cbn -[c_str]. by rewrite c_str_idem.
Qed.

(** Likewise a service record, when the text of its cost reads back as the
    cost, as the shortest text of a double does. *)
Theorem service_record_round_trip id r :
  in_type t_int id → in_type t_int (sr_device_id r) → in_type t_int (sr_service_id r) →
  double_from_string (c_str (to_chars_double (sr_cost r))) = Ok (sr_cost r) →
  ∃ id_text vs, param_int id = Ok id_text ∧ params (service_record_params r) = Ok vs ∧
    service_record_of_row (stored (id_text :: vs)) =
    Ok (mk_service_record id (sr_device_id r) (sr_service_id r) (c_str (sr_service_date r))
          (sr_cost r) (c_str (sr_notes r)) (c_str (sr_next_due_date r))).
Proof.
  intros Hid Hd Hs Hc. eexists _, _. split; [by apply param_int_text|].
  split.
  { unfold service_record_params. cbn. rewrite !param_int_text by done. reflexivity. }
  unfold service_record_of_row, stored. cbn -[to_string as_int as_double_default c_str].
  rewrite !as_int_text by done. cbn -[as_double_default c_str].
  unfold as_double_default, as_default. rewrite Hc.
  destruct (sr_next_due_date r) as [|c s]; [done|]. cbn -[c_str]. by rewrite c_str_idem.
Qed.
End specs.

(** ** Witnesses *)

Definition test_reply : event → pg_result := λ _,
  mk_pg_result PGRES_TUPLES_OK EmptyString None
    [[Some "7"; Some "pump"; None; None; Some "active"]]%string.

Lemma test_healthy : @healthy test_env test_reply.
Proof. by split. Qed.

Definition test_device : Device :=
  mk_device 0 "pump" "" "" "active".
Definition test_record : ServiceRecord :=
  mk_service_record 0 7 3 "2024-05-01" (dbl_of_dec false 15005 (-1)) "" "".

Lemma change_succeeds_witness :
  ∃ h', @run_change test_env test_build (DeleteDevice 7) free [] = (Ok true, free, h') ∧
    sql_log h' = ["BEGIN"; sql_delete_device; "COMMIT"]%string.
Proof.
  exact (@change_succeeds test_env test_build test_reply (DeleteDevice 7) [Some "7"%string] []
           test_healthy eq_refl).
Defined.

Lemma query_succeeds_witness :
  ∃ h', @getAllDevices test_env test_build free [] =
    (Ok [mk_device 7 "pump" "" "" "active"], free, h').
Proof.
  apply (@query_succeeds test_env test_reply Device sql_get_devices
    "Error getting devices: " (@device_of_row test_build) _ [] test_healthy).
  vm_compute. reflexivity.
Defined.

Lemma device_round_trip_witness :
  ∃ id_text vs, param_int 7 = Ok id_text ∧ params (device_params test_device) = Ok vs ∧
    @device_of_row test_build (stored (id_text :: vs)) = Ok (mk_device 7 "pump" "" "" "active").
Proof.
  apply (@device_round_trip test_build 7 test_device). unfold in_type. vm_compute. split; discriminate.
Defined.

Lemma service_record_round_trip_witness :
  ∃ id_text vs, param_int 1 = Ok id_text ∧
    params (@service_record_params test_build test_record) = Ok vs ∧
    @service_record_of_row test_build (stored (id_text :: vs)) =
    Ok (mk_service_record 1 7 3 "2024-05-01" (sr_cost test_record) "" "").
Proof.
  apply (@service_record_round_trip test_build 1 test_record);
    [unfold in_type; vm_compute; split; discriminate..|vm_compute; reflexivity].
Defined.
