(* ===== verification/ServerFacts.v ===== *)
(** What the handlers do to the connection and the database, and the runs of
    the logging and metrics calls inside them. *)

From stdpp Require Import gmap.
From S2P Require Import Prelude Decimal StdMap Doubles Exceptions JsonValue JsonLexer.
From S2P Require Import JsonParser JsonDump Effects EffectsFacts Metrics Logger LoggerFacts.
From S2P Require Import PqxxConv PqxxResult PqxxTransaction PqxxTransactionFacts Database.
From S2P Require Import DatabaseFacts WebServer Server.

(** ** Programs and the connection *)

(** [m] uses neither the connection nor the database. *)
Definition offline {A} (m : prog app_state A) : Prop :=
  ∀ s h, match m s h with
         | (_, s', h') => app_conn s' = app_conn s ∧ sql_points h' = sql_points h
         end.

(** [m] gives a free connection back free. *)
Definition keeps_free {A} (m : prog app_state A) : Prop :=
  ∀ s h, app_conn s = free → match m s h with (_, s', _) => app_conn s' = free end.

Lemma offline_keeps {A} (m : prog app_state A) : offline m → keeps_free m.
Proof. intros Hm s h Hs. specialize (Hm s h). destruct (m s h) as [[r s'] h']. by destruct Hm as [-> _]. Qed.

Section offline_rules.
Lemma offline_ret {A} (a : A) : offline (mret a).
Proof. by intros s h. Qed.
Lemma offline_get : offline get.
Proof. by intros s h. Qed.
Lemma offline_lift {A} (r : result exn A) : offline (lift_result r).
Proof. by intros s h. Qed.
Lemma offline_interact {A} e (f : history → A) : sql_of e = [] → offline (interact e f).
Proof. intros He s h. unfold interact. split; [done|]. by apply sql_points_other. Qed.
Lemma offline_metrics f : offline (on_metrics f).
Proof. by intros s h. Qed.
Lemma offline_bind {A B} (m : prog app_state A) (f : A → prog app_state B) :
  offline m → (∀ a, offline (f a)) → offline (m ≫= f).
Proof.
  intros Hm Hf s h. rewrite prog_bind_unfold. specialize (Hm s h).
  destruct (m s h) as [[[a|e] s1] h1]; [|done]. specialize (Hf a s1 h1).
  destruct (f a s1 h1) as [[r s2] h2]. destruct Hm as [<- <-]. done.
Qed.
Lemma offline_try {A} (m : prog app_state A) handler :
  offline m → (∀ e, offline (handler e)) → offline (try_catch m handler).
Proof.
  intros Hm Hf s h. unfold try_catch. specialize (Hm s h).
  destruct (m s h) as [[[a|e] s1] h1]; [done|]. specialize (Hf e s1 h1).
  destruct (handler e s1 h1) as [[r s2] h2]. destruct Hm as [<- <-]. done.
Qed.

Lemma keeps_bind {A B} (m : prog app_state A) (f : A → prog app_state B) :
  keeps_free m → (∀ a, keeps_free (f a)) → keeps_free (m ≫= f).
Proof.
  intros Hm Hf s h Hs. rewrite prog_bind_unfold. specialize (Hm s h Hs).
  destruct (m s h) as [[[a|e] s1] h1]; [|done]. by apply Hf.
Qed.
Lemma keeps_try {A} (m : prog app_state A) handler :
  keeps_free m → (∀ e, keeps_free (handler e)) → keeps_free (try_catch m handler).
Proof.
  intros Hm Hf s h Hs. unfold try_catch. specialize (Hm s h Hs).
  destruct (m s h) as [[[a|e] s1] h1]; [done|]. by apply Hf.
Qed.
End offline_rules.

Create HintDb offline.
#[export] Hint Resolve offline_ret offline_get offline_lift offline_interact offline_metrics : offline.

Ltac solve_offline :=
  repeat first
    [ solve [auto with offline] | apply offline_bind; [|intros ?] | apply offline_try; [|intros ?]
    | case_match ].
Ltac solve_keeps :=
  repeat first
    [ solve [auto with offline] | apply offline_keeps; solve [auto with offline]
    | apply keeps_bind; [|intros ?] | apply keeps_try; [|intros ?] | case_match ].

Section handlers.
Context `{Env, Build, Platform, Crow}.

(** A logging call only adds events that are not SQL. *)
Lemma on_log_run c s h :
  ∃ es, on_log (run_log c) s h = (Ok tt, s, es ++ h) ∧ Forall (λ e, sql_of e = []) es.
Proof.
  unfold on_log, zoom. destruct (run_log_run c (app_log s) h) as (es & -> & Hes & _).
  exists es. split; [by destruct s|]. eapply Forall_impl; [|exact Hes].
  intros e [He|He]; by destruct e.
Qed.

Lemma offline_log c : offline (on_log (run_log c)).
Proof.
  intros s h. destruct (on_log_run c s h) as (es & -> & Hes). split; [done|]. by apply sql_points_app.
Qed.

Lemma offline_info m : offline (on_log (info m)).
Proof. apply (offline_log (LogCtx INFO m "webserver.cpp")). Qed.
Lemma offline_error m : offline (on_log (error m)).
Proof. apply (offline_log (LogCtx ERROR m "webserver.cpp")). Qed.
Lemma offline_log_ctx l m c : offline (on_log (log_ctx l m c)).
Proof. apply (offline_log (LogCtx l m c)). Qed.
Lemma offline_logRequest ip m p st d : offline (on_log (logRequest ip m p st d)).
Proof. apply (offline_log (LogRequest ip m p st d)). Qed.
Lemma offline_logAuth u ok ip d : offline (on_log (logAuth u ok ip d)).
Proof. apply (offline_log (LogAuth u ok ip d)). Qed.
Lemma offline_logDevice id op ok : offline (on_log (logDevice id op ok)).
Proof. apply (offline_log (LogDevice id op ok)). Qed.
Lemma offline_now : offline now.
Proof. by apply offline_interact. Qed.
Hint Resolve offline_info offline_error offline_log_ctx offline_logRequest offline_logAuth
  offline_logDevice offline_now : offline.

Lemma offline_json_response code j : offline (json_response code j).
Proof. unfold json_response. solve_offline. Qed.
Hint Resolve offline_json_response : offline.
Lemma offline_fields_response code fields : offline (fields_response code fields).
Proof. unfold fields_response. solve_offline. Qed.
Hint Resolve offline_fields_response : offline.
Lemma offline_open_www name : offline (open_www name).
Proof. unfold open_www, open_file. solve_offline. Qed.
Hint Resolve offline_open_www : offline.

Lemma offline_login req : offline (handle_login req).
Proof. unfold handle_login, login_try, login_catch. cbv zeta. solve_offline. Qed.

(** The routes that never touch the database. *)
Definition offline_route (r : route) : bool :=
  match r with
  | GetMetrics | GetIndex | GetFile _ | PostLogin | PostLogout | PostDevices => true
  | _ => false
  end.

Lemma handle_offline r req : offline_route r = true → offline (handle r req).
Proof.
  destruct r; try done; intros _; cbn [handle].
  - unfold handle_metrics. solve_offline.
  - unfold handle_index. solve_offline.
  - unfold handle_file. solve_offline.
  - apply offline_login.
  - unfold handle_logout. solve_offline.
  - unfold handle_post_devices. solve_offline.
Qed.

(** The data access functions give the connection back. *)
Lemma keeps_read_rows {A} sql error_text (of_row : row → result exn A) :
  keeps_free (on_db (read_rows sql error_text of_row)).
Proof.
  intros s h Hs. unfold on_db, zoom. rewrite Hs.
  pose proof (read_rows_spec sql error_text of_row _ h eq_refl) as Hr.
  destruct (read_rows _ _ _ _ _) as [[r c] h']. by destruct Hr as [-> _].
Qed.
Lemma keeps_change_rows sql error_text args : keeps_free (on_db (change_rows sql error_text args)).
Proof.
  intros s h Hs. unfold on_db, zoom. rewrite Hs.
  pose proof (change_rows_spec sql error_text args _ h eq_refl) as Hr.
  destruct (change_rows _ _ _ _ _) as [[r c] h']. by destruct Hr as [-> _].
Qed.
Lemma keeps_test : keeps_free (on_db testConnection).
Proof.
  intros s h Hs. unfold on_db, zoom. rewrite Hs. pose proof (test_spec _ h eq_refl) as Hr.
  destruct (testConnection _ _) as [[r c] h']. by destruct Hr as [-> _].
Qed.
Lemma keeps_history : keeps_free (on_db getDetailedServiceHistory).
Proof.
  intros s h Hs. pose proof (keeps_read_rows sql_history "Error getting detailed history: "
    history_of_row s h Hs) as Hr.
  unfold on_db, zoom, getDetailedServiceHistory in *. rewrite prog_bind_unfold.
  destruct (read_rows _ _ _ _ h) as [[[items|e] c] h']; exact Hr.
Qed.
Hint Resolve keeps_read_rows keeps_change_rows keeps_test keeps_history : offline.

Lemma keeps_table path operation read : keeps_free read → keeps_free (handle_table path operation read).
Proof. intros Hr. unfold handle_table. cbv zeta. solve_keeps. Qed.

Lemma handle_keeps r req : keeps_free (handle r req).
Proof.
  destruct (offline_route r) eqn:Er; [by apply offline_keeps, handle_offline|].
  destruct r; try done; cbn [handle].
  - unfold handle_test_db. cbv zeta. solve_keeps.
  - unfold handle_get_devices, getAllDevices. apply keeps_table, keeps_bind; [apply keeps_read_rows|].
    intros ?. solve_keeps.
  - unfold handle_get_service_types, getAllServiceTypes. apply keeps_table, keeps_bind; [apply keeps_read_rows|].
    intros ?. solve_keeps.
  - unfold handle_get_service_history. apply keeps_table, keeps_history.
  - unfold handle_post_service_history, post_history_try, post_history_catch. cbv zeta.
    apply keeps_bind; [solve_keeps|]. intros ?. apply keeps_try; [|intros ?; solve_keeps].
    apply keeps_bind; [solve_keeps|]. intros ?. apply keeps_bind; [unfold addServiceRecord; apply keeps_change_rows|].
    intros ?. solve_keeps.
  - unfold handle_get_service_records, getAllServiceRecords. apply keeps_table, keeps_bind; [apply keeps_read_rows|].
    intros ?. solve_keeps.
Qed.
End handlers.
