(* ===== verification/ServerSpec.v ===== *)
(** Properties of the server: routes exist only with a connection, the
    connection is free between requests, and how the program ends. *)

From stdpp Require Import gmap.
From S2P Require Import Prelude Decimal StdMap Doubles Exceptions JsonValue JsonLexer.
From S2P Require Import JsonParser JsonDump Effects EffectsFacts Metrics Logger LoggerFacts.
From S2P Require Import PqxxConv PqxxResult PqxxTransaction PqxxTransactionFacts Database.
From S2P Require Import DatabaseFacts WebServer Server ServerFacts TestEnv.

(** A server without routes, or with all of them and a free connection. *)
Definition server_ok (s : server) : Prop :=
  routes s = [] ∨ (routes s = all_patterns ∧ db s = Some (Some free)).

(** ** Construction *)

Section construction.
Context `{Env, Build, Platform, Crow}.

Definition frame (d : option Database) (rs : list (string * option string))
  : server → history → Prop :=
  λ s _, db s = d ∧ routes s = rs ∧ logger_ok (server_log s).

(** Logging in the constructor. *)
Lemma log_step {B} o (k : unit → prog server B) d rs Q :
  triple (frame d rs) (k tt) Q → triple (frame d rs) (with_log (run_op o) ≫= k) Q.
Proof.
  intros Hk s h (Hd & Hr & Hl). rewrite prog_bind_unfold. unfold with_log, zoom.
  destruct (op_succeeds o (server_log s) h Hl) as (l' & h' & -> & Hl'). by apply Hk.
Qed.

Lemma log_end o d rs :
  triple (frame d rs) (with_log (run_op o)) (λ r s h, r = Ok tt ∧ frame d rs s h).
Proof.
  intros s h (Hd & Hr & Hl). unfold with_log, zoom.
  by destruct (op_succeeds o (server_log s) h Hl) as (l' & h' & -> & Hl').
Qed.

Lemma Database_new_spec {S} conn_str (s0 : S) h :
  ∃ d h', Database_new conn_str s0 h = (Ok d, s0, h') ∧ (d = None ∨ d = Some free).
Proof.
  unfold Database_new. destruct (connection_init _ _ h) as [[[[]|e] c] h1] eqn:E; [|eauto].
  apply connection_init_free in E as ->. rewrite prog_bind_unfold.
  destruct (reads_is_open free h1) as [r ->]. destruct r; eauto.
Qed.

Lemma db_connect_spec d rs :
  d = None ∨ d = Some free →
  triple (frame (Some d) rs) db_connect
    (λ r s h, frame (Some d) rs s h ∧ ∃ b, r = Ok b ∧ (b = true → d = Some free)).
Proof.
  intros Hd s h (Hs & Hr & Hl). unfold db_connect. rewrite Hs.
  destruct Hd as [->| ->]; cbn [connect]; [by split; [|exists false]|].
  pose proof (is_open_triple free (sql_log h) free h (conj eq_refl eq_refl)) as Ho.
  destruct (PqxxTransaction.is_open free h) as [[[b|] c] h1]; destruct Ho as [[-> _] Ho]; [|done].
  split; [done|]. eauto.
Qed.

(** The [try] block either registers all routes with a free connection, or
    none. *)
Lemma configure_spec text :
  triple (λ s _, routes s = [] ∧ logger_ok (server_log s)) (configure text)
    (λ r s h, logger_ok (server_log s) ∧
       (routes s = [] ∨ (r = Ok tt ∧ routes s = all_patterns ∧ db s = Some (Some free)))).
Proof.
  set (Q := λ (r : result exn unit) s (h : history), logger_ok (server_log s) ∧
    (routes s = [] ∨ (r = Ok tt ∧ routes s = all_patterns ∧ db s = Some (Some free)))).
  assert (Hstop : ∀ d r s h, frame d [] s h → Q r s h) by (intros d r s h (? & ? & ?); split; auto).
  apply triple_pre. intros s0 h0 [Hr0 Hl0].
  eapply triple_conseq with (P' := frame (db s0) []) (Q' := Q); [|intros s h [-> ->]; done|done].
  unfold configure. set (d0 := db s0).
  apply (triple_bind _ _ _ (λ _, frame d0 [])).
  { apply triple_lift. intros s h Hf. destruct (json_read text); eauto. }
  intros config. apply (triple_bind _ _ _ (λ _, frame d0 [])).
  { apply triple_lift. intros s h Hf. destruct (connection_string config); eauto. }
  intros [config' conn_str]. apply (log_step (Call (LogCtx INFO _ _))).
  apply (triple_bind _ _ _ (λ d s h, frame d0 [] s h ∧ (d = None ∨ d = Some free))).
  { intros s h Hf. destruct (Database_new_spec conn_str s h) as (d & h' & -> & Hd). by split. }
  intros d. apply triple_pre. intros s1 h1 [Hf1 Hd].
  eapply triple_conseq with (P' := frame d0 []) (Q' := Q); [|intros s h [-> ->]; exact Hf1|done].
  apply (triple_bind _ _ _ (λ _, frame (Some d) [])).
  { apply triple_modify. by intros s h (_ & ? & ?). }
  intros _. apply (triple_bind _ _ _ (λ b s h, frame (Some d) [] s h ∧ (b = true → d = Some free))).
  { eapply triple_conseq; [by apply db_connect_spec|done|]. by intros r s h (Hf & b & -> & Hb). }
  intros b. apply triple_pre. intros s2 h2 [Hf2 Hb].
  eapply triple_conseq with (P' := frame (Some d) []) (Q' := Q); [|intros s h [-> ->]; exact Hf2|done].
  destruct b; cbn [negb].
  2:{ apply (log_step (Call (LogCtx ERROR _ _))).
      eapply triple_conseq;
        [exact (log_end (Call (LogDatabase "connect" false "Connection failed")) (Some d) [])|done|].
      intros r s h [_ Hf]. eauto. }
  rewrite (Hb eq_refl). clear Hb Hf2 Hf1 Hd.
  apply (log_step (Call (LogCtx INFO _ _))).
  apply (log_step (Call (LogDatabase "connect" true "Database connection established"))).
  apply (triple_bind _ _ _ (λ _, frame (Some (Some free)) [])).
  { apply triple_lift. intros s h Hf. destruct (config_at _ _ _); eauto. }
  intros [config'' v]. apply (triple_bind _ _ _ (λ _, frame (Some (Some free)) [])).
  { apply triple_lift. intros s h Hf. destruct (get_int v); eauto. }
  intros p. apply (triple_bind _ _ _ (λ _, frame (Some (Some free)) [])).
  { by apply triple_modify. }
  intros _. apply (log_step (Call (LogCtx INFO _ _))).
  apply (triple_bind _ _ _ (λ _, frame (Some (Some free)) [])).
  { intros s h Hf. unfold initialize_metrics. rewrite prog_bind_unfold. unfold get.
    by destruct (initialize _). }
  intros _. apply (log_step (Call (LogCtx INFO _ _))).
  apply (triple_bind _ _ _ (λ _, frame (Some (Some free)) all_patterns)).
  { apply triple_modify. intros s h (? & Hr & ?). split; [done|]. cbn. by rewrite Hr. }
  intros _. eapply triple_conseq;
    [exact (log_end (Call (LogCtx INFO "Routes configured successfully" "webserver.cpp"))
       (Some (Some free)) all_patterns)|done|].
  intros r s h [-> (? & ? & ?)]. split; auto.
Qed.

Lemma start_ok : routes server_start = [] ∧ logger_ok (server_log server_start).
Proof. by split. Qed.

Lemma WebServer_init_spec config_file :
  triple (λ s _, routes s = [] ∧ logger_ok (server_log s)) (WebServer_init config_file)
    (λ r s h, r = Ok tt ∧ server_ok s).
Proof.
  apply triple_pre. intros s0 h0 [Hr0 Hl0]. set (d0 := db s0).
  eapply triple_conseq with (P' := frame d0 []); [|by intros s h [-> ->]|intros r s h HQ; exact HQ].
  unfold WebServer_init.
  apply (log_step (InitWithLoki "logs/webserver.log" DEBUG "localhost" 3100)).
  apply (log_step (SetServiceName "service_system")).
  apply (log_step (Call (LogLifecycle "startup" "WebServer constructor started"))).
  apply (log_step (Call (LogCtx INFO _ _))).
  apply (triple_bind _ _ _ (λ _, frame d0 [])).
  { unfold open_file. by apply triple_interact. }
  intros [text|].
  - apply (log_step (Call (LogCtx INFO _ _))).
    apply (triple_try _ _ _ (λ _ s _, routes s = [] ∧ logger_ok (server_log s))).
    + eapply triple_conseq; [apply configure_spec|by intros s h (_ & ? & ?)|].
      intros [[]|e] s h [Hl [Hr|(Hok & Hr & Hd)]]; try done; (split; [done|]); [by left|by right].
    + intros e. apply triple_pre. intros s1 h1 [Hr1 Hl1].
      eapply triple_conseq with (P' := frame (db s1) []);
        [apply (log_end (Call (LogCtx ERROR _ _)))|by intros s h [-> ->]|].
      intros r s h (-> & _ & Hr & _). split; [done|by left].
  - eapply triple_conseq; [apply (log_end (Call (LogCtx ERROR _ _)))|done|].
    intros r s h (-> & _ & Hr & _). split; [done|by left].
Qed.

Lemma conn_close_run c h :
  ∃ h', conn_close c h = (Ok tt, mk_connection false (m_trans c), h').
Proof. destruct c as [[] [g|]]; by eexists. Qed.

(** ** Requests *)

Lemma serve_ok r req s h :
  server_ok s → match serve r req s h with (_, s', _) => server_ok s' end.
Proof.
  intros Hs. unfold serve. destruct (decide _) as [Hin|]; [|exact Hs].
  destruct Hs as [Hr|[Hr Hd]]; [by rewrite Hr in Hin; inversion Hin|]. rewrite Hd.
  pose proof (handle_keeps r req (mk_app_state free (server_log s) (server_metrics s)) h eq_refl) as Hk.
  destruct (handle _ _ _ _) as [[res a] h']. right. cbn. by rewrite Hr, Hk.
Qed.

(** Requests one after the other, whatever each of them answers. *)
Fixpoint serve_all (reqs : list (route * request)) (s : server) (h : history) : server * history :=
  match reqs with
  | [] => (s, h)
  | (r, req) :: reqs' => let '(_, s, h) := serve r req s h in serve_all reqs' s h
  end.

(** C2. The constructor never throws, whatever the configuration file and the
    database server do.  It registers either no route or all of them, and the
    routes only with an open connection without a transaction; the connection
    is in that state again after every request. *)
Theorem server_invariant config_file reqs h :
  match WebServer_init config_file server_start h with
  | (r, s, h) => r = Ok tt ∧ server_ok s ∧ server_ok (serve_all reqs s h).1
  end.
Proof.
  pose proof (WebServer_init_spec config_file server_start h start_ok) as Hi.
  destruct (WebServer_init _ _ _) as [[r s] h1]. destruct Hi as [-> Hs]. split; [done|].
  split; [done|]. clear h. revert s h1 Hs.
  induction reqs as [|[rt req] reqs IH]; intros s h Hs; cbn [serve_all]; [done|].
  pose proof (serve_ok rt req s h Hs) as Hs'. destruct (serve rt req s h) as [[r s'] h'].
  by apply IH.
Qed.

(** [main] always returns, 0 if the event loop ended and 1 if it threw;
    nothing else ends it, not even a configuration that cannot be used. *)
Theorem main_exit_code args h :
  ∃ p h1 s' h', main args server_start h =
    (Ok (match run_loop (ServeHttp p :: h1) with Ok _ => 0 | Throw _ => 1 end)%Z, s', h').
Proof.
  unfold main, try_catch. set (cfg := match args with [] => _ | a :: _ => a end).
  rewrite prog_bind_unfold.
  pose proof (WebServer_init_spec cfg server_start h start_ok) as Hi.
  destruct (WebServer_init _ _ _) as [[r s] h1]. destruct Hi as [-> Hs].
  rewrite prog_bind_unfold. unfold finally, run.
  rewrite prog_bind_unfold. unfold get, emit at 1. rewrite prog_bind_unfold.
  rewrite prog_bind_unfold. unfold initialize_metrics at 1. rewrite prog_bind_unfold. unfold get.
  destruct (initialize _) as [m lines]. rewrite prog_bind_unfold. unfold emit_all, modify.
  rewrite prog_bind_unfold. unfold interact, lift_result. set (h2 := rev _ ++ _).
  exists (port s), h2.
  set (s2 := mk_server _ _ _ _ _). set (h3 := _ :: h2).
  assert (Hd : ∃ s3 h4, WebServer_destroy s2 h3 = (Ok tt, s3, h4)).
  { unfold WebServer_destroy, Database_destroy. destruct (db s2) as [[c|]|]; [|by eexists _, _..].
    destruct (conn_close_run c h3) as [h' ->]. by eexists _, _. }
  destruct Hd as (s3 & h4 & ->). destruct (run_loop h3); eauto.
Qed.

(** Without a readable configuration file the server still runs: on the
    default port, without a database and without any route. *)
Theorem runs_without_configuration config_file h :
  (∀ h, file_contents (OpenFile (c_str config_file) :: h) = None) →
  match WebServer_init config_file server_start h with
  | (r, s, h) => r = Ok tt ∧ routes s = [] ∧ db s = None ∧ port s = 8080%Z ∧
      ∀ rt req h', serve rt req s h' = (Ok None, s, h')
  end.
Proof.
  intros Hfile.
  enough (triple (λ s _, db s = None ∧ routes s = [] ∧ port s = 8080%Z ∧ logger_ok (server_log s))
    (WebServer_init config_file)
    (λ r s _, r = Ok tt ∧ db s = None ∧ routes s = [] ∧ port s = 8080%Z)) as Ht.
  { specialize (Ht server_start h ltac:(by repeat split)).
    destruct (WebServer_init _ _ _) as [[r s] h1]. destruct Ht as (-> & Hd & Hr & Hp).
    repeat split; auto. intros rt req h'. unfold serve. destruct (decide _) as [Hin|]; [|done].
    by rewrite Hd. }
  assert (Hlog : ∀ o, triple (λ s _, db s = None ∧ routes s = [] ∧ port s = 8080%Z ∧
    logger_ok (server_log s)) (with_log (run_op o)) (λ r s _, r = Ok tt ∧ db s = None ∧
    routes s = [] ∧ port s = 8080%Z ∧ logger_ok (server_log s))).
  { intros o s h0 (Hd & Hr & Hp & Hl). unfold with_log, zoom.
    by destruct (op_succeeds o (server_log s) h0 Hl) as (l' & h' & -> & Hl'). }
  assert (Hstep : ∀ {B} o (k : unit → prog server B) Q,
    triple (λ s _, db s = None ∧ routes s = [] ∧ port s = 8080%Z ∧ logger_ok (server_log s)) (k tt) Q →
    triple (λ s _, db s = None ∧ routes s = [] ∧ port s = 8080%Z ∧ logger_ok (server_log s))
      (with_log (run_op o) ≫= k) Q).
  { intros B o k Q Hk s h0 Hs. specialize (Hlog o s h0 Hs). rewrite prog_bind_unfold.
    destruct (with_log _ _ _) as [[r s'] h']. destruct Hlog as [-> Hs']. by apply Hk. }
  unfold WebServer_init.
  apply (Hstep _ (InitWithLoki "logs/webserver.log" DEBUG "localhost" 3100)).
  apply (Hstep _ (SetServiceName "service_system")).
  apply (Hstep _ (Call (LogLifecycle "startup" "WebServer constructor started"))).
  apply (Hstep _ (Call (LogCtx INFO _ _))).
  intros s h0 Hs. rewrite prog_bind_unfold. unfold open_file, interact. rewrite Hfile.
  pose proof (Hlog (Call (LogCtx ERROR ("Cannot open config file: " +:+ config_file) "webserver.cpp")) s
    (OpenFile (c_str config_file) :: h0) Hs) as He.
  change (with_log (error _)) with (with_log (run_op (Call (LogCtx ERROR
    ("Cannot open config file: " +:+ config_file) "webserver.cpp")))).
  destruct (with_log _ _ _) as [[r s'] h']. naive_solver.
Qed.
End construction.

(** ** Witness *)

Lemma runs_without_configuration_witness :
  match @WebServer_init quiet_env test_platform "config.json" server_start [] with
  | (r, s, _) => r = Ok tt ∧ routes s = [] ∧ db s = None ∧ port s = 8080%Z
  end.
Proof.
  pose proof (@runs_without_configuration quiet_env test_build test_platform test_crow "config.json" []
    (λ _, eq_refl)) as Hr.
  destruct (@WebServer_init quiet_env test_platform "config.json" server_start []) as [[r s] h].
  destruct Hr as (H1 & H2 & H3 & H4 & _). by repeat split.
Defined.

(** ** The connection string *)

Section conninfo.
Context `{Platform}.

Lemma config_at_found k1 k2 cfg fs v :
  om_sorted cfg → om_find k1 cfg = Some (JObject fs) → om_find k2 fs = Some v →
  config_at k1 k2 (JObject cfg) = Ok (JObject cfg, v).
Proof.
  intros Hs H1 H2. unfold config_at, subscript_get, subscript_object, om_emplace.
  rewrite H1. cbn. rewrite H1. cbn. rewrite H2. cbn. rewrite H2. cbn.
  by rewrite om_assign_same.
Qed.

#[local] Opaque config_at wrap_s to_string.

(** C39. The libpq connection string of a configuration that has the five
    settings: the values as they are, without the quotes a value with a space
    needs, and the port modulo [2^32]. *)
Theorem connection_string_spec cfg fs host p dbname user password :
  om_sorted cfg → om_find "database" cfg = Some (JObject fs) →
  om_find "host" fs = Some (JString host) → om_find "port" fs = Some (JUnsigned p) →
  om_find "dbname" fs = Some (JString dbname) → om_find "user" fs = Some (JString user) →
  om_find "password" fs = Some (JString password) →
  connection_string (JObject cfg) =
    Ok (JObject cfg, "host=" +:+ host +:+ " port=" +:+ to_string (wrap_s 32 p) +:+
      " dbname=" +:+ dbname +:+ " user=" +:+ user +:+ " password=" +:+ password).
Proof.
  intros Hs Hd H1 H2 H3 H4 H5. unfold connection_string.
  rewrite (config_at_found _ _ _ _ _ Hs Hd H1). cbn.
  rewrite (config_at_found _ _ _ _ _ Hs Hd H2). cbn.
  rewrite (config_at_found _ _ _ _ _ Hs Hd H3). cbn.
  rewrite (config_at_found _ _ _ _ _ Hs Hd H4). cbn.
  rewrite (config_at_found _ _ _ _ _ Hs Hd H5). reflexivity.
Qed.
#[local] Transparent config_at.
End conninfo.

(** The blank in the database name adds a second user; the port is 5432 plus
    [2^32]. *)
Lemma connection_string_spec_witness :
  let fs := [("dbname", JString "db user=postgres"); ("host", JString "db"); ("password", JString "pw");
             ("port", JUnsigned 4294972728); ("user", JString "app")] in
  @connection_string test_platform (JObject [("database", JObject fs)]) =
    Ok (JObject [("database", JObject fs)],
        "host=db port=5432 dbname=db user=postgres user=app password=pw").
Proof.
  intros fs. apply (@connection_string_spec test_platform [("database", JObject fs)] fs "db" 4294972728
    "db user=postgres" "app" "pw"); vm_compute; repeat (split || constructor).
Defined.
