(* ===== verification/ServerSql.v ===== *)
(** What the program says to the database server: a refinement of an abstract
    client that speaks in transactions of one fixed statement each. *)

From stdpp Require Import gmap sets.
From S2P Require Import Prelude Decimal StdMap Doubles Exceptions JsonValue JsonLexer.
From S2P Require Import JsonParser JsonDump Effects EffectsFacts Metrics Logger LoggerFacts.
From S2P Require Import PqxxConv PqxxResult PqxxTransaction PqxxTransactionFacts Database.
From S2P Require Import DatabaseFacts SqlTrace WebServer Server ServerFacts ServerSpec TestEnv.

(** ** The abstract client

    Between transactions, after a [BEGIN] that was carried out, or after the
    statement of the transaction, with whether that was carried out.  A command
    comes with whether the library takes it for carried out. *)
Inductive phase := Idle | Begun | Asked (ok : bool).

Inductive client_step (statements : list string) : phase → string * bool → phase → Prop :=
  | client_begin : client_step statements Idle ("BEGIN", true) Begun
  | client_no_begin : client_step statements Idle ("BEGIN", false) Idle
  | client_ask q ok : q ∈ statements → client_step statements Begun (q, ok) (Asked ok)
  | client_commit ok : client_step statements (Asked true) ("COMMIT", ok) Idle
  | client_rollback p ok : p ≠ Idle → client_step statements p ("ROLLBACK", ok) Idle.

Inductive client_run (statements : list string) : phase → list (string * bool) → phase → Prop :=
  | client_stop p : client_run statements p [] p
  | client_go p q p' l p'' :
      client_step statements p q p' → client_run statements p' l p'' →
      client_run statements p (q :: l) p''.

Lemma client_run_app sts p l p' l' p'' :
  client_run sts p l p' → client_run sts p' l' p'' → client_run sts p (l ++ l') p''.
Proof. induction 1 as [|p q p1 l p2 Hs _ IH]; [done|]. intros Hr. cbn. econstructor; eauto. Qed.

(** One transaction goes from idle to idle. *)
Lemma work_run sts q l : q ∈ sts → work_trace q l → client_run sts Idle l Idle.
Proof.
  intros Hq [|b|ok b|b];
    repeat (eapply client_go; [solve [by constructor | by apply client_rollback]|]); constructor.
Qed.

Section construction_silent.
Context `{Env, Build, Platform, Crow}.

Lemma silent_log_call c : silent (run_log c).
Proof.
  intros l h. destruct (run_log_run c l h) as (es & -> & Hes & _). apply sql_points_app.
  eapply Forall_impl; [|exact Hes]. intros e [He|He]; by destruct e.
Qed.

Lemma silent_open_log path : silent (open_log path).
Proof. unfold open_log. solve_silent. Qed.
Hint Resolve silent_open_log : silent.

Lemma silent_init path level : silent (init path level).
Proof. unfold init. solve_silent. Qed.

Lemma silent_initWithLoki path level host port : silent (initWithLoki path level host port).
Proof. unfold initWithLoki. solve_silent. Qed.
Hint Resolve silent_initWithLoki : silent.

Lemma silent_log {A} (m : prog Logger A) : silent m → silent (with_log m).
Proof. intros Hm. unfold with_log. by apply silent_zoom. Qed.
Lemma silent_info m : silent (info m).
Proof. apply (silent_log_call (LogCtx INFO m "webserver.cpp")). Qed.
Lemma silent_error m : silent (error m).
Proof. apply (silent_log_call (LogCtx ERROR m "webserver.cpp")). Qed.
Lemma silent_logDatabase op ok d : silent (logDatabase op ok d).
Proof. apply (silent_log_call (LogDatabase op ok d)). Qed.
Lemma silent_logLifecycle e d : silent (logLifecycle e d).
Proof. apply (silent_log_call (LogLifecycle e d)). Qed.
Hint Resolve silent_log silent_info silent_error silent_logDatabase silent_logLifecycle : silent.

Lemma silent_Database_new {S} conn_str : silent (S:=S) (Database_new conn_str).
Proof.
  intros u h. unfold Database_new. pose proof (silent_connection_init conn_str (mk_connection false None) h) as Hc.
  destruct (connection_init _ _ h) as [[[a|e] c] h1].
  - set (m := mbind _ _). assert (Hm : silent m) by (unfold m; solve_silent; by destruct a0).
    specialize (Hm c h1). destruct (m c h1) as [[r c'] h2]. congruence.
  - by rewrite sql_points_other.
Qed.
Hint Resolve silent_Database_new : silent.

Lemma silent_db_connect : silent db_connect.
Proof.
  intros s h. unfold db_connect. destruct (db s) as [[c|]|]; [|done..]. cbn [connect].
  pose proof (silent_connection_is_open c h) as Ho. by destruct (PqxxTransaction.is_open c h) as [[r c'] h'].
Qed.
Hint Resolve silent_db_connect : silent.

Lemma silent_initialize_metrics : silent initialize_metrics.
Proof.
  unfold initialize_metrics. apply silent_bind; [auto with silent|]. intros s.
  destruct (initialize (server_metrics s)) as [r lines]. apply silent_bind; [|auto with silent].
  apply silent_emit_all. by apply Forall_map, Forall_true.
Qed.
Hint Resolve silent_initialize_metrics : silent.

Lemma silent_WebServer_init config_file : silent (WebServer_init config_file).
Proof.
  unfold WebServer_init, configure, set_db, set_port, setupRoutes, open_file, setServiceName.
  solve_silent.
Qed.
End construction_silent.

(** ** One transaction per request *)

(** [m] gives a free connection back free, having sent the commands of at most
    one transaction of statement [q]. *)
Definition transacts `{Env} {A} (q : string) (m : prog app_state A) : Prop :=
  ∀ s h, app_conn s = free →
    match m s h with
    | (_, s', h') => app_conn s' = free ∧
        ∃ l, (l = [] ∨ work_trace q l) ∧ sql_trace h' = sql_trace h ++ l
    end.

Section transacts.
Context `{Env, Build, Platform, Crow}.

Lemma nothing_sent q h h' :
  sql_points h' = sql_points h → ∃ l, (l = [] ∨ work_trace q l) ∧ sql_trace h' = sql_trace h ++ l.
Proof. intros Hp. exists []. split; [by left|]. by rewrite app_nil_r, (trace_points _ _ Hp). Qed.

Lemma transacts_offline {A} q (m : prog app_state A) : offline m → transacts q m.
Proof.
  intros Hm s h Hs. specialize (Hm s h). destruct (m s h) as [[r s'] h']. destruct Hm as [-> Hp].
  split; [done|]. by apply nothing_sent.
Qed.

Lemma transacts_after {A B} q (m : prog app_state A) (f : A → prog app_state B) :
  offline m → (∀ a, transacts q (f a)) → transacts q (m ≫= f).
Proof.
  intros Hm Hf s h Hs. rewrite prog_bind_unfold. pose proof (Hm s h) as Hm1.
  destruct (m s h) as [[[a|e] s1] h1] eqn:E; destruct Hm1 as [Hc Hl].
  - rewrite <-(trace_points _ _ Hl). apply Hf. by rewrite Hc.
  - split; [by rewrite Hc|]. by apply nothing_sent.
Qed.

Lemma transacts_before {A B} q (m : prog app_state A) (f : A → prog app_state B) :
  transacts q m → (∀ a, offline (f a)) → transacts q (m ≫= f).
Proof.
  intros Hm Hf s h Hs. rewrite prog_bind_unfold. specialize (Hm s h Hs).
  destruct (m s h) as [[[a|e] s1] h1]; [|done]. specialize (Hf a s1 h1).
  destruct (f a s1 h1) as [[r s2] h2]. destruct Hf as [-> Hp]. by rewrite (trace_points _ _ Hp).
Qed.

Lemma transacts_try {A} q (m : prog app_state A) handler :
  transacts q m → (∀ e, offline (handler e)) → transacts q (try_catch m handler).
Proof.
  intros Hm Hf s h Hs. unfold try_catch. specialize (Hm s h Hs).
  destruct (m s h) as [[[a|e] s1] h1]; [done|]. specialize (Hf e s1 h1).
  destruct (handler e s1 h1) as [[r s2] h2]. destruct Hf as [-> Hp]. by rewrite (trace_points _ _ Hp).
Qed.

(** The calls of the data access layer. *)
Lemma transacts_call {A} q (m : prog connection A) : call_traces q m → transacts q (on_db m).
Proof.
  intros Hm s h Hs. unfold on_db, zoom. rewrite Hs. specialize (Hm h).
  destruct (m free h) as [[r c] h']. destruct Hm as (-> & l & Hl & Ht). split; [done|]. exists l. by auto.
Qed.

Lemma transacts_read {A} sql error_text (of_row : row → result exn A) :
  c_str sql = sql → transacts sql (on_db (read_rows sql error_text of_row)).
Proof. intros Hc. rewrite <-Hc at 1. apply transacts_call, read_rows_traces. Qed.

Lemma transacts_change sql error_text args :
  c_str sql = sql → transacts sql (on_db (change_rows sql error_text args)).
Proof. intros Hc. rewrite <-Hc at 1. apply transacts_call, change_rows_traces. Qed.

Lemma transacts_test : transacts sql_test (on_db testConnection).
Proof. apply transacts_call, test_traces. Qed.

Lemma transacts_history : transacts sql_history (on_db getDetailedServiceHistory).
Proof.
  apply transacts_call. intros h. unfold getDetailedServiceHistory. rewrite prog_bind_unfold.
  pose proof (read_rows_traces sql_history "Error getting detailed history: " history_of_row h) as Hr.
  by destruct (read_rows _ _ _ _ h) as [[[items|e] c] h'].
Qed.

Lemma transacts_table q path operation read :
  transacts q read → transacts q (handle_table path operation read).
Proof.
  intros Hr. unfold handle_table. cbv zeta. apply transacts_after; [apply offline_now|]. intros ?.
  apply transacts_before; [done|]. intros ?. solve_offline; auto using offline_now, offline_json_response.
Qed.

(** The statement each route may send. *)
Definition route_statement (r : route) : option string :=
  match r with
  | GetTestDb => Some sql_test
  | GetDevices => Some sql_get_devices
  | GetServiceTypes => Some sql_get_service_types
  | GetServiceHistory => Some sql_history
  | PostServiceHistory => Some sql_add_service_record
  | GetServiceRecords => Some sql_get_service_records
  | GetMetrics | GetIndex | GetFile _ | PostLogin | PostLogout | PostDevices => None
  end.

Definition served_statements : list string :=
  [sql_test; sql_get_devices; sql_get_service_types; sql_history; sql_add_service_record;
   sql_get_service_records].

Lemma handle_transacts r req : transacts (default sql_test (route_statement r)) (handle r req).
Proof.
  destruct (offline_route r) eqn:Er; [by apply transacts_offline, handle_offline|].
  destruct r; try done; cbn [handle route_statement default from_option].
  - unfold handle_test_db. cbv zeta. apply transacts_after; [apply offline_now|]. intros ?.
    apply transacts_before; [apply transacts_test|]. intros ?. solve_offline;
      auto using offline_now, offline_fields_response.
  - unfold handle_get_devices, getAllDevices. apply transacts_table, transacts_before; [apply transacts_read; reflexivity|].
    intros ?. apply offline_lift.
  - unfold handle_get_service_types, getAllServiceTypes. apply transacts_table, transacts_before; [apply transacts_read; reflexivity|].
    intros ?. apply offline_lift.
  - unfold handle_get_service_history. apply transacts_table, transacts_history.
  - unfold handle_post_service_history. apply transacts_after; [apply offline_now|]. intros ?.
    apply transacts_try.
    + unfold post_history_try. cbv zeta. apply transacts_after; [apply offline_lift|]. intros ?.
      unfold addServiceRecord.
      apply transacts_before; [apply transacts_change; reflexivity|]. intros ?. solve_offline;
        auto using offline_now, offline_json_response.
    + intros ?. unfold post_history_catch. cbv zeta. solve_offline;
        auto using offline_now, offline_fields_response.
  - unfold handle_get_service_records, getAllServiceRecords. apply transacts_table, transacts_before; [apply transacts_read; reflexivity|].
    intros ?. apply offline_lift.
Qed.

Lemma serve_transacts r req s h :
  server_ok s →
  match serve r req s h with
  | (_, s', h') => ∃ l, (l = [] ∨ work_trace (default sql_test (route_statement r)) l) ∧
      sql_trace h' = sql_trace h ++ l
  end.
Proof.
  intros Hs. unfold serve. destruct (decide _) as [Hin|]; [|by apply nothing_sent].
  destruct Hs as [Hr|[Hr Hd]]; [by rewrite Hr in Hin; inversion Hin|]. rewrite Hd.
  pose proof (handle_transacts r req (mk_app_state free (server_log s) (server_metrics s)) h eq_refl) as Hk.
  destruct (handle _ _ _ _) as [[res a] h']. by destruct Hk as [_ Hk].
Qed.

Lemma serve_all_run reqs s h :
  server_ok s →
  ∃ l, sql_trace (serve_all reqs s h).2 = sql_trace h ++ l ∧ client_run served_statements Idle l Idle.
Proof.
  revert s h. induction reqs as [|[r req] reqs IH]; intros s h Hs; cbn [serve_all].
  { exists []. split; [by rewrite app_nil_r|constructor]. }
  pose proof (serve_ok r req s h Hs) as Hs'. pose proof (serve_transacts r req s h Hs) as Ht.
  destruct (serve r req s h) as [[res s1] h1]. destruct Ht as (l1 & Hw & Hl1).
  assert (Hq : default sql_test (route_statement r) ∈ served_statements).
  { apply list_elem_of_In. destruct r; cbn; tauto. }
  destruct (IH s1 h1 Hs') as (l2 & Hl2 & Hrun2).
  exists (l1 ++ l2). split; [by rewrite Hl2, Hl1, app_assoc|]. eapply client_run_app; [|exact Hrun2].
  destruct Hw as [->|Hw]; [constructor|]. by eapply work_run.
Qed.

(** C3. The whole program refines the abstract client: from the constructor on,
    whatever the requests (one after the other), the environment and the
    database server do, the commands sent are whole transactions: [BEGIN], one
    of six constant statements, and [COMMIT] or [ROLLBACK].  A transaction is
    begun only when no other one is; one whose [BEGIN] was carried out is ended
    before the next one begins and before the program is done; one whose
    [BEGIN] was not carried out sends nothing more; and [COMMIT] is sent only
    after the statement was carried out.  (Carried out means what the library
    makes of it: when the connection cannot be read after the reply to
    [BEGIN], no [ROLLBACK] is sent.)  No text of a request ever becomes part of
    a command, and the only statement that changes data inserts a service
    record. *)
Theorem server_sql_refines config_file reqs h :
  match WebServer_init config_file server_start h with
  | (_, s, h1) =>
      ∃ l, sql_trace (serve_all reqs s h1).2 = sql_trace h ++ l ∧
        client_run served_statements Idle l Idle
  end.
Proof.
  pose proof (silent_WebServer_init config_file server_start h) as Hq.
  pose proof (WebServer_init_spec config_file server_start h start_ok) as Hi.
  destruct (WebServer_init config_file server_start h) as [[r s] h1]. destruct Hi as [_ Hs].
  rewrite <-(trace_points _ _ Hq). by apply serve_all_run.
Qed.
End transacts.
