(* ===== verification/HandlerSpec.v ===== *)
(** What the handlers answer and record. *)

From stdpp Require Import gmap.
From S2P Require Import Prelude Decimal StdMap Doubles Exceptions JsonValue JsonLexer.
From S2P Require Import JsonParser JsonDump JsonUtf8 JsonSpec Effects EffectsFacts Metrics.
From S2P Require Import Logger LoggerFacts PqxxConv PqxxResult PqxxTransaction.
From S2P Require Import PqxxTransactionFacts Database DatabaseFacts WebServer Server.
From S2P Require Import ServerFacts TestEnv.

Local Open Scope string_scope.

Section handlers.
Context `{Env, Build, Platform, Crow}.

(** ** Steps of a handler *)

Definition no_sql (es : list event) : Prop := Forall (λ e, sql_of e = []) es.

Lemma log_bind {B} c (k : unit → prog app_state B) s h :
  ∃ es, (on_log (run_log c) ≫= k) s h = k tt s (es ++ h)%list ∧ no_sql es.
Proof.
  destruct (on_log_run c s h) as (es & E & Hes). exists es. rewrite prog_bind_unfold, E. by split.
Qed.

Ltac log_step c :=
  match goal with
  | |- context [(on_log ?m ≫= ?k) ?s ?h] =>
      let es := fresh "es" in let E := fresh "E" in let Hes := fresh "Hes" in
      destruct (log_bind c k s h) as (es & E & Hes);
      change (on_log m) with (on_log (run_log c)); rewrite E; clear E
  end.

Definition set_metrics (m : MetricsRegistry) (s : app_state) : app_state :=
  mk_app_state (app_conn s) (app_log s) m.

Lemma metrics_bind {B} f (k : unit → prog app_state B) s h :
  (on_metrics f ≫= k) s h = k tt (set_metrics (f (app_metrics s)) s) h.
Proof. done. Qed.

Lemma now_bind {B} (k : Z → prog app_state B) s h :
  (now ≫= k) s h = k (now_ns (Clock :: h)) s (Clock :: h).
Proof. done. Qed.

Lemma lift_bind {A B} (a : A) (k : A → prog app_state B) s h :
  (lift_result (Ok a) ≫= k) s h = k a s h.
Proof. done. Qed.

Lemma state_eta s : app_conn s = free → mk_app_state free (app_log s) (app_metrics s) = s.
Proof. intros Hs. rewrite <-Hs. by destruct s. Qed.

Lemma json_response_run code j text s h :
  json_dump j = Ok text → json_response code j s h = (Ok (mk_response code json_headers text), s, h).
Proof. intros E. unfold json_response. rewrite prog_bind_unfold. unfold lift_result. by rewrite E. Qed.

(** What becomes of a response with the JSON value [j]: it is sent with
    [code], or, if a text in it is not UTF-8, writing it throws. *)
Definition answers (code : Z) (j : json) (r : result exn response) : Prop :=
  match r with
  | Ok res => json_utf8 j ∧ ∃ text, json_dump j = Ok text ∧ res = mk_response code json_headers text
  | Throw e => ¬ json_utf8 j ∧ not_utf8 e
  end.

Lemma json_response_answers code j s h :
  ∃ r, json_response code j s h = (r, s, h) ∧ answers code j r.
Proof.
  unfold json_response. rewrite prog_bind_unfold. unfold lift_result. pose proof (json_dump_dumps j) as Hd.
  destruct (json_dump j) as [text|e] eqn:E; (eexists; split; [reflexivity|]); [|done].
  split; [done|]. by exists text.
Qed.

(** ** Blocked and offline routes *)

Definition blocked_value : json :=
  JObject [("error", JString "Adding new devices is disabled"); ("success", JBool false)].
Lemma blocked_json :
  json_fields [("success", JBool false); ("error", JString "Adding new devices is disabled")] JNull =
  Ok blocked_value.
Proof. reflexivity. Qed.
Lemma blocked_text :
  json_dump blocked_value = Ok (bq "{`error`:`Adding new devices is disabled`,`success`:false}").
Proof. vm_compute. reflexivity. Qed.

(** The routes for files, metrics, login, logout and adding a device send
    nothing to the database and leave its connection alone. *)
Theorem offline_routes r req s h :
  offline_route r = true →
  match handle r req s h with
  | (_, s', h') => app_conn s' = app_conn s ∧ sql_log h' = sql_log h
  end.
Proof.
  intros Hr. pose proof (handle_offline r req Hr s h) as Ho. destruct (handle r req s h) as [[res s'] h'].
  destruct Ho as [-> Hp]. by rewrite !sql_points_log, Hp.
Qed.

(** Adding a device is always refused with 403, recorded as a blocked
    attempt; the database is not touched. *)
Theorem device_creation_blocked req s h :
  ∃ h', handle (PostDevices) req s h =
    (Ok (mk_response 403 json_headers
           (bq "{`error`:`Adding new devices is disabled`,`success`:false}")),
     set_metrics (recordHttpRequest "POST" "/api/devices" 403 one_ms
       (recordDeviceOperation "create_blocked" (-1) false (app_metrics s))) s, h') ∧
    sql_log h' = sql_log h.
Proof.
  cbn [handle]. unfold handle_post_devices. rewrite now_bind.
  log_step (LogCtx WARNING ("Blocked device creation attempt from IP: " +:+ client_ip req) "webserver.cpp").
  log_step (LogDevice (-1) "create_blocked" false).
  rewrite !metrics_bind, blocked_json, lift_bind, now_bind, (json_response_run _ _ _ _ _ blocked_text).
  eexists. split; [reflexivity|].
  by rewrite sql_log_other, !sql_log_app, sql_log_other.
Qed.

(** ** Tables *)

(** The JSON object of each kind of row; the keys are in order. *)
Definition device_object (d : Device) : json :=
  JObject [("id", JInteger (d_id d)); ("model", JString (d_model d)); ("name", JString (d_name d));
           ("purchase_date", JString (d_purchase_date d)); ("status", JString (d_status d))].
Definition service_type_object (t : ServiceType) : json :=
  JObject [("id", JInteger (st_id t)); ("name", JString (st_name t));
           ("recommended_interval_months", JInteger (st_recommended_interval_months t));
           ("standard_cost", JFloat (st_standard_cost t))].
Definition service_record_object (r : ServiceRecord) : json :=
  JObject [("cost", JFloat (sr_cost r)); ("device_id", JInteger (sr_device_id r));
           ("id", JInteger (sr_id r)); ("next_due_date", JString (sr_next_due_date r));
           ("notes", JString (sr_notes r)); ("service_date", JString (sr_service_date r));
           ("service_id", JInteger (sr_service_id r))].

Lemma json_rows_map {A} (to_json : A → result exn json) (to_object : A → json) items acc :
  (∀ x, to_json x = Ok (to_object x)) →
  json_rows to_json items (JArray acc) = Ok (JArray (acc ++ map to_object items)%list).
Proof.
  intros Hto. revert acc. induction items as [|x items IH]; intros acc; cbn [json_rows map].
  - by rewrite app_nil_r.
  - rewrite Hto. cbn [mbind result_bind push_back]. by rewrite IH, <-app_assoc.
Qed.

(** What a route that returns a table promises: the response has the rows the
    data access function returns and the code 200, even when the server
    reported an error, unless a text in the rows is not UTF-8: then the
    handler throws.  The operation is counted as a success in any case. *)
Definition table_contract {A} (path operation sql : string) (of_row : row → result exn A)
    (to_object : A → json) (m : prog app_state response) : Prop :=
  ∀ s h, app_conn s = free →
  ∃ items d h' r,
    read_outcome sql of_row (sql_log h) items h' ∧
    m s h = (r, set_metrics (recordDbOperation operation true
               (recordHttpRequest "GET" path 200 d (app_metrics s))) s, h') ∧
    answers 200 (JArray (map to_object items)) r.

(** Events that are not SQL do not change what was sent or answered. *)
Lemma read_outcome_app {A} sql (of_row : row → result exn A) log items es h :
  no_sql es → read_outcome sql of_row log items h → read_outcome sql of_row log items (es ++ h)%list.
Proof.
  intros Hes [(Hi & cmds & Hin & Hl)|(reply & Ha & Hi & Hl)]; [left|right].
  - split; [done|]. exists cmds. by rewrite sql_log_app.
  - exists reply. split; [by apply answered_app|]. by rewrite sql_log_app.
Qed.

Lemma handle_table_run path operation (read : prog app_state json) s h j h1 :
  read s (Clock :: h) = (Ok j, s, h1) →
  ∃ d r, handle_table path operation read s h =
    (r, set_metrics (recordDbOperation operation true (recordHttpRequest "GET" path 200 d (app_metrics s))) s,
     Clock :: h1) ∧ answers 200 j r.
Proof.
  intros Hread. unfold handle_table. rewrite now_bind, prog_bind_unfold, Hread, now_bind.
  cbv zeta. rewrite !metrics_bind. set (s' := set_metrics _ _).
  destruct (json_response_answers 200 j s' (Clock :: h1)) as (r & -> & Hr). by eexists _, r.
Qed.

Lemma table_of_rows {A} path operation sql error_text (of_row : row → result exn A)
    (to_json : A → result exn json) to_object :
  c_str sql = sql → (∀ x, to_json x = Ok (to_object x)) →
  table_contract path operation sql of_row to_object
    (handle_table path operation
       (items ← on_db (read_rows sql error_text of_row);
        lift_result (json_rows to_json items (JArray [])))).
Proof.
  intros Hsql Hto s h Hs.
  pose proof (read_rows_spec sql error_text of_row _ (Clock :: h) eq_refl) as Hr.
  destruct (read_rows sql error_text of_row free (Clock :: h)) as [[r c] h1] eqn:Er.
  destruct Hr as (-> & items & -> & Ho). rewrite Hsql in Ho. rewrite sql_log_other in Ho by done.
  edestruct (handle_table_run path operation) as (d & r & E & Hr); cycle 1.
  - exists items, d, (Clock :: h1), r. split; [by apply (read_outcome_app _ _ _ _ [Clock]); [repeat constructor|]|].
    split; [exact E|exact Hr].
  - rewrite prog_bind_unfold. unfold on_db, zoom. rewrite Hs, Er.
    unfold lift_result. rewrite (json_rows_map _ to_object) by done. by destruct s; cbn in *; subst.
Qed.

(** C21. The four routes that return a table answer 200 with the rows the data
    access function returned, in order, whatever the database server did; a
    text in them that is not UTF-8 makes the route throw the serializer's
    exception instead. *)
Theorem table_routes :
  table_contract "/api/devices" "get_devices" sql_get_devices device_of_row device_object
    handle_get_devices ∧
  table_contract "/api/service-types" "get_service_types" sql_get_service_types
    service_type_of_row service_type_object handle_get_service_types ∧
  table_contract "/api/service-records" "get_service_records" sql_get_service_records
    service_record_of_row service_record_object handle_get_service_records ∧
  table_contract "/api/service-history" "get_service_history" sql_history
    history_of_row (λ j, j) handle_get_service_history.
Proof.
  split; [|split; [|split]].
  - exact (table_of_rows "/api/devices" "get_devices" sql_get_devices "Error getting devices: "
      device_of_row device_json device_object eq_refl (λ _, eq_refl)).
  - exact (table_of_rows "/api/service-types" "get_service_types" sql_get_service_types
      "Error getting service types: " service_type_of_row service_type_json service_type_object
      eq_refl (λ _, eq_refl)).
  - exact (table_of_rows "/api/service-records" "get_service_records" sql_get_service_records
      "Error getting service records: " service_record_of_row service_record_json
      service_record_object eq_refl (λ _, eq_refl)).
  - intros s h Hs. unfold handle_get_service_history.
    pose proof (read_rows_spec sql_history "Error getting detailed history: " history_of_row _
      (Clock :: h) eq_refl) as Hr.
    destruct (read_rows sql_history "Error getting detailed history: " history_of_row free
      (Clock :: h)) as [[r c] h1] eqn:Er.
    destruct Hr as (-> & items & -> & Ho). rewrite sql_log_other in Ho by done.
    assert (Hsql : c_str sql_history = sql_history) by reflexivity. rewrite Hsql in Ho.
    edestruct (handle_table_run "/api/service-history" "get_service_history") as (d & r & E & Hr'); cycle 1.
    + exists items, d, (Clock :: h1), r.
      split; [by apply (read_outcome_app _ _ _ _ [Clock]); [repeat constructor|]|].
      split; [exact E|by rewrite map_id].
    + unfold on_db, zoom, getDetailedServiceHistory.
      rewrite prog_bind_unfold, Hs, Er. by destruct s; cbn in *; subst.
Qed.

(** ** The connection test and adding a service record *)

Lemma test_outcome_app log ok es h :
  no_sql es → test_outcome log ok h → test_outcome log ok (es ++ h)%list.
Proof.
  intros Hes. unfold test_outcome. destruct ok.
  - intros [[reply Ha] Hl]. rewrite sql_log_app by done. split; [|done]. exists reply.
    by apply answered_app.
  - intros (cmds & Hin & Hl). exists cmds. by rewrite sql_log_app.
Qed.

Lemma change_outcome_app sql args log ok es h :
  no_sql es → change_outcome sql args log ok h → change_outcome sql args log ok (es ++ h)%list.
Proof.
  intros Hes. unfold change_outcome. destruct ok.
  - intros (Hl & [r1 Hr1] & vs & Hvs & r2 & Hr2). rewrite sql_log_app by done. split; [done|].
    split; [exists r1; by apply answered_app|]. exists vs. split; [done|]. exists r2.
    by apply answered_app.
  - intros (cmds & Hin & Hl). exists cmds. by rewrite sql_log_app.
Qed.

Definition success_body (ok : bool) : string :=
  if ok then bq "{`success`:true}" else bq "{`success`:false}".

Lemma success_json ok : json_fields [("success", JBool ok)] JNull = Ok (JObject [("success", JBool ok)]).
Proof. reflexivity. Qed.
Lemma success_dump ok : json_dump (JObject [("success", JBool ok)]) = Ok (success_body ok).
Proof. destruct ok; vm_compute; reflexivity. Qed.

Definition error_value (message : string) : json :=
  JObject [("error", JString message); ("success", JBool false)].
Lemma error_json message :
  json_fields [("success", JBool false); ("error", JString message)] JNull = Ok (error_value message).
Proof. reflexivity. Qed.

(** C8. Adding a service record: a body that is not a record is answered with
    400 and the message of the exception, unless that message is not UTF-8 (it
    repeats a part of the body), when the serializer's exception leaves the
    handler; nothing is sent to the database.  Otherwise the response reports
    what the database did, always with the framework's default code, while
    the metrics record 400 for a failed insertion. *)
Theorem post_service_history req s h :
  app_conn s = free →
  match handle PostServiceHistory req s h with
  | (r, s', h') =>
      match record_of_body (req_body req) with
      | Throw e =>
          sql_log h' = sql_log h ∧
          answers 400 (error_value (what e)) r ∧
          ∃ d, s' = set_metrics (recordHttpRequest "POST" "/api/service-history" 400 d
            (recordDbOperation "add_service_record" false
              (recordServiceOperation "create" (-1) false (app_metrics s)))) s
      | Ok record =>
          ∃ ok d, change_outcome sql_add_service_record (service_record_params record) (sql_log h) ok h' ∧
            r = Ok (mk_response default_code json_headers (success_body ok)) ∧
            s' = set_metrics (recordHttpRequest "POST" "/api/service-history"
                   (if ok then 200 else 400)%Z d
              (recordDbOperation "add_service_record" ok
                (recordServiceOperation "create" (if ok then 1 else -1)%Z ok (app_metrics s)))) s
      end
  end.
Proof.
  intros Hs. cbn [handle]. unfold handle_post_service_history. rewrite now_bind.
  unfold try_catch, post_history_try. destruct (record_of_body (req_body req)) as [record|e].
  - rewrite lift_bind, prog_bind_unfold. unfold on_db, zoom. rewrite Hs.
    pose proof (change_rows_spec sql_add_service_record "Error adding service record: "
      (service_record_params record) _ (Clock :: h) eq_refl) as Hc.
    change (addServiceRecord record) with (change_rows sql_add_service_record
      "Error adding service record: " (service_record_params record)).
    destruct (change_rows _ _ _ _ _) as [[r c] h1]. destruct Hc as (-> & ok & -> & Ho).
    cbv zeta. rewrite !metrics_bind, success_json, lift_bind, now_bind, metrics_bind.
    rewrite (json_response_run _ _ _ _ _ (success_dump ok)).
    eexists ok, _. split; [apply (change_outcome_app _ _ _ _ [Clock]); [by repeat constructor|]|].
    + rewrite sql_log_other in Ho by done. exact Ho.
    + split; [done|]. by destruct s; cbn in *; subst.
  - change ((lift_result (Throw e) ≫= ?k) s ?h) with (@Throw exn response e, s, h).
    cbv iota beta. unfold post_history_catch. rewrite now_bind, !metrics_bind.
    unfold fields_response. rewrite error_json, lift_bind. set (s' := set_metrics _ _).
    destruct (json_response_answers 400 (error_value (what e)) s' (Clock :: Clock :: h)) as (r & -> & Hr).
    split; [by rewrite !sql_log_other|]. split; [done|]. by eexists.
Qed.

Definition test_value (ok : bool) (t : Z) : json :=
  JObject [("database_connected", JBool ok); ("timestamp", JInteger t)].
Lemma test_json ok t :
  json_fields [("database_connected", JBool ok); ("timestamp", JInteger t)] JNull = Ok (test_value ok t).
Proof. reflexivity. Qed.
Lemma test_dump ok t : ∃ text, json_dump (test_value ok t) = Ok text.
Proof.
  assert (E1 : dump_string "database_connected" = Ok (bq "`database_connected`")) by by vm_compute.
  assert (E2 : dump_string "timestamp" = Ok (bq "`timestamp`")) by by vm_compute.
  eexists. unfold test_value. cbn [json_dump]. rewrite E1, E2. cbn [mbind result_bind mret result_ret].
  reflexivity.
Qed.

(** The connection test answers 200 with the outcome of the test. *)
Theorem test_db_route req s h :
  app_conn s = free →
  ∃ ok t text d h', handle GetTestDb req s h =
    (Ok (mk_response 200 json_headers text),
     set_metrics (recordDbOperation "test_connection" ok
       (recordHttpRequest "GET" "/api/test-db" 200 d (app_metrics s))) s, h') ∧
    json_dump (test_value ok t) = Ok text ∧
    test_outcome (sql_log h) ok h'.
Proof.
  intros Hs. cbn [handle]. unfold handle_test_db. rewrite now_bind, prog_bind_unfold.
  unfold on_db, zoom. rewrite Hs. pose proof (test_spec _ (Clock :: h) eq_refl) as Ht.
  destruct (testConnection _ _) as [[r c] h1]. destruct Ht as (-> & ok & -> & Ho).
  cbv iota beta. rewrite (state_eta s Hs), !now_bind. cbv zeta. rewrite !metrics_bind.
  set (t := (now_ns (Clock :: h1) / 1000000000)%Z).
  clearbody t. destruct (test_dump ok t) as [text Ed].
  unfold fields_response. rewrite test_json, lift_bind. rewrite (json_response_run _ _ _ _ _ Ed).
  eexists ok, t, text, _, _. split; [reflexivity|]. split; [done|].
  apply (test_outcome_app _ _ [_; _]); [by repeat constructor|].
  by rewrite sql_log_other in Ho.
Qed.

(** ** Files *)

Lemma open_www_run name s h :
  let first := OpenFile (c_str ("www/" +:+ name)) :: h in
  let second := OpenFile (c_str ("../www/" +:+ name)) :: first in
  open_www name s h =
  match file_contents first with
  | Some content => (Ok (Some content), s, first)
  | None => (Ok (file_contents second), s, second)
  end.
Proof.
  intros first second. unfold open_www. rewrite prog_bind_unfold. unfold open_file, interact.
  fold first second. by destruct (file_contents first).
Qed.

(** A file is looked for in [www] and then in [../www]; it is served with
    the type its name suggests, 404 means that neither opens, and nothing else
    happens. *)
Theorem file_route filename req s h :
  let first := OpenFile (c_str ("www/" +:+ filename)) :: h in
  let second := OpenFile (c_str ("../www/" +:+ filename)) :: first in
  let found (content : string) :=
    mk_response default_code [("Content-Type", content_type filename)] content in
  handle (GetFile filename) req s h =
  match file_contents first with
  | Some content => (Ok (found content), s, first)
  | None =>
      match file_contents second with
      | Some content => (Ok (found content), s, second)
      | None => (Ok (mk_response 404 [] ("File not found: " +:+ filename)), s, second)
      end
  end.
Proof.
  intros first second found. cbn [handle]. unfold handle_file. rewrite prog_bind_unfold.
  rewrite open_www_run. fold first second.
  destruct (file_contents first); [reflexivity|]. destruct (file_contents second); reflexivity.
Qed.

(** ** Login *)

(** The credentials in the body of a login request. *)
Definition login_fields (text : string) : result exn (string * string) :=
  body ← json_parse text;
  '(body, u) ← subscript_get "username" body;
  username ← get_string u;
  '(body, p) ← subscript_get "password" body;
  password ← get_string p;
  mret (username, password).

(** The two accounts the program knows. *)
Definition known_account (username password : string) : Prop :=
  (username = "admin" ∧ password = "admin123") ∨ (username = "user" ∧ password = "user123").

Lemma check_credentials_spec username password :
  is_Some (check_credentials username password) ↔ known_account username password.
Proof.
  unfold check_credentials, known_account. split.
  - destruct (String.eqb_spec username "admin"), (String.eqb_spec password "admin123"),
      (String.eqb_spec username "user"), (String.eqb_spec password "user123"); subst;
      cbn; intros [? ?]; by auto.
  - intros [[-> ->]|[-> ->]]; by eexists.
Qed.

(** The answer to a login. *)
Definition login_value (username : string) (auth : option string) : json :=
  let ok := if auth is Some _ then true else false in
  JObject [("message", JString (default "Invalid credentials" auth)); ("success", JBool ok);
           ("token", JString (if ok then "mock-jwt-token-" +:+ username else ""));
           ("username", JString username)].

Lemma login_json username auth :
  let ok := if auth is Some _ then true else false in
  json_fields
    [("success", JBool ok); ("message", JString (default "Invalid credentials" auth));
     ("username", JString username);
     ("token", JString (if ok then "mock-jwt-token-" +:+ username else ""))] JNull =
  Ok (login_value username auth).
Proof. by destruct auth. Qed.

Lemma subscript_get_good key j j' v :
  utf8_ok key → json_good j → subscript_get key j = Ok (j', v) → json_good j' ∧ json_good v.
Proof.
  intros Hk Hj. unfold subscript_get. intros (fs & Hfs & E)%result_bind_ok. injection E as <- <-.
  assert (Hobj : json_good (JObject fs)).
  { destruct j; try done; cbn [subscript_object] in Hfs; injection Hfs as <-; [apply json_good_object; repeat constructor; done|].
    exact (object_emplace_null_good key (JObject _) Hk Hj). }
  split; [done|]. apply json_good_object in Hobj as [_ Hobj].
  destruct (om_find key fs) as [v|] eqn:Ef; [|done].
  by destruct (om_find_Forall _ _ _ _ Hobj Ef).
Qed.

Lemma login_fields_utf8 text u p : login_fields text = Ok (u, p) → utf8_ok u.
Proof.
  unfold login_fields. intros (body & Hb & E)%result_bind_ok. apply json_parse_good in Hb.
  apply result_bind_ok in E as ([body' v] & Hs & E).
  destruct (subscript_get_good "username" _ _ _ eq_refl Hb Hs) as [_ Hv].
  apply result_bind_ok in E as (u' & Hu & E). apply result_bind_ok in E as ([body'' v'] & _ & E).
  apply result_bind_ok in E as (p' & _ & E). injection E as <- <-.
  destruct v; try done. injection Hu as <-. by destruct Hv.
Qed.

(** The messages of the program are ASCII. *)
Lemma login_value_dumps u p :
  utf8_ok u → ∃ text, json_dump (login_value u (check_credentials u p)) = Ok text.
Proof.
  intros Hu. apply json_dump_ok, json_utf8_object. unfold check_credentials.
  assert (Ht : utf8_ok ("mock-jwt-token-" +:+ u)) by (unfold utf8_ok; by rewrite dfa_app).
  repeat case_match; repeat constructor; done.
Qed.

(** What follows the credentials in the [try] block. *)
Lemma login_try_run req start_time s h :
  match login_fields (req_body req) with
  | Throw e => login_try req start_time s h = (Throw e, s, h)
  | Ok (u, p) =>
      let auth := check_credentials u p in
      let code := (if auth is Some _ then 200 else 401)%Z in
      ∃ text d h', json_dump (login_value u auth) = Ok text ∧ sql_log h' = sql_log h ∧
        login_try req start_time s h =
        (Ok (mk_response code json_headers text),
         set_metrics (recordHttpRequest "POST" "/api/login" code d
           (recordAuthAttempt u (if auth is Some _ then true else false) (app_metrics s))) s, h')
  end.
Proof.
  destruct (login_fields (req_body req)) as [[u p]|e] eqn:Ef; cycle 1.
  - unfold login_fields in Ef. unfold login_try.
    destruct (json_parse _) as [body|]; cbn in Ef; [|by injection Ef as <-].
    rewrite lift_bind. destruct (subscript_get "username" body) as [[body' v]|]; cbn in Ef;
      [|by injection Ef as <-].
    rewrite lift_bind. destruct (get_string v); cbn in Ef; [|by injection Ef as <-].
    rewrite lift_bind. destruct (subscript_get "password" body') as [[body'' v']|]; cbn in Ef;
      [|by injection Ef as <-].
    rewrite lift_bind. destruct (get_string v'); cbn in Ef; [done|by injection Ef as <-].
  - destruct (login_value_dumps u p (login_fields_utf8 _ _ _ Ef)) as [text Et].
    unfold login_fields in Ef. unfold login_try.
    destruct (json_parse _) as [body|]; cbn in Ef; [|done].
    rewrite lift_bind. destruct (subscript_get "username" body) as [[body' v]|]; cbn in Ef; [|done].
    rewrite lift_bind. destruct (get_string v) as [u'|]; cbn in Ef; [|done].
    rewrite lift_bind. destruct (subscript_get "password" body') as [[body'' v']|]; cbn in Ef; [|done].
    rewrite lift_bind. destruct (get_string v') as [p'|]; cbn in Ef; [|done]. injection Ef as -> ->.
    rewrite lift_bind. log_step (LogAuth u true (client_ip req) "Login attempt started").
    cbv zeta. rewrite login_json. destruct (check_credentials u p) as [message|].
    + set (m := if String.eqb u "admin" then _ else _).
      log_step (LogCtx INFO m "webserver.cpp").
      rewrite lift_bind, now_bind.
      log_step (LogRequest (client_ip req) "POST" "/api/login" 200 (duration_ms start_time
        (now_ns (Clock :: es0 ++ es ++ h)%list))).
      rewrite !metrics_bind, (json_response_run _ _ _ _ _ Et).
      eexists text, _, _. split; [done|]. split; [|reflexivity].
      by rewrite sql_log_app, sql_log_other, !sql_log_app.
    + log_step (LogAuth u false (client_ip req) "Invalid username or password").
      rewrite lift_bind, now_bind.
      log_step (LogRequest (client_ip req) "POST" "/api/login" 401 (duration_ms start_time
        (now_ns (Clock :: es0 ++ es ++ h)%list))).
      rewrite !metrics_bind, (json_response_run _ _ _ _ _ Et).
      eexists text, _, _. split; [done|]. split; [|reflexivity].
      by rewrite sql_log_app, sql_log_other, !sql_log_app.
Qed.

(** C9. Login: a request with a user name and a password is answered with 200
    for the two known accounts and 401 otherwise, and the attempt is counted
    under the name; any other body is answered with 400, counted under
    "unknown" - unless the error message cannot be written as JSON, and then
    the exception leaves the handler.  Nothing but the metrics changes. *)
Theorem login_route req s h :
  ∃ d h', sql_log h' = sql_log h ∧
  match login_fields (req_body req) with
  | Ok (u, p) =>
      let ok := bool_decide (is_Some (check_credentials u p)) in
      let code := (if ok then 200 else 401)%Z in
      (ok = true ↔ known_account u p) ∧
      ∃ text, json_dump (login_value u (check_credentials u p)) = Ok text ∧
        handle PostLogin req s h =
        (Ok (mk_response code json_headers text),
         set_metrics (recordHttpRequest "POST" "/api/login" code d
           (recordAuthAttempt u ok (app_metrics s))) s, h')
  | Throw e =>
      handle PostLogin req s h =
      (text ← json_dump (error_value (what e)); mret (mk_response 400 json_headers text),
       set_metrics (recordHttpRequest "POST" "/api/login" 400 d
         (recordAuthAttempt "unknown" false (app_metrics s))) s, h')
  end.
Proof.
  cbn [handle]. unfold handle_login. rewrite now_bind. set (start_time := now_ns _). unfold try_catch.
  pose proof (login_try_run req start_time s (Clock :: h)) as Ht.
  destruct (login_fields (req_body req)) as [[u p]|e].
  - cbv zeta in Ht. destruct Ht as (text & d & h' & Et & Hl & ->). exists d, h'.
    split; [by rewrite sql_log_other in Hl|]. cbv zeta. rewrite bool_decide_eq_true.
    split; [apply check_credentials_spec|]. exists text. split; [done|].
    by destruct (check_credentials u p).
  - rewrite Ht. unfold login_catch. rewrite now_bind. cbv zeta.
    set (h1 := (Clock :: _)%list).
    log_step (LogRequest (client_ip req) "POST" "/api/login" 400 (duration_ms start_time (now_ns h1))).
    log_step (LogCtx ERROR ("Login error: " +:+ what e) "webserver.cpp").
    rewrite !metrics_bind. unfold fields_response. rewrite error_json, lift_bind.
    eexists _, _. split; cycle 1.
    + unfold json_response. rewrite prog_bind_unfold. unfold lift_result.
      destruct (json_dump _); reflexivity.
    + rewrite !sql_log_app by done. unfold h1. by rewrite !sql_log_other.
Qed.

Lemma bad_login :
  match login_fields (String "255" EmptyString) with
  | Throw e => is_ok (json_dump (error_value (what e))) = false
  | Ok _ => False
  end.
Proof. vm_compute. reflexivity. Qed.

(** A login whose body is a single byte that is not UTF-8 makes the
    handler itself throw: the error message repeats the byte, and writing the
    400 response throws inside the [catch] block. *)
Theorem login_error_escapes ip s h :
  ∃ e s' h', handle PostLogin (mk_request ip (String "255" EmptyString)) s h = (Throw e, s', h').
Proof.
  cbn [handle]. unfold handle_login. rewrite now_bind. set (start_time := now_ns _). unfold try_catch.
  set (req := mk_request _ _).
  pose proof (login_try_run req start_time s (Clock :: h)) as Ht.
  pose proof bad_login as Hd. change (String "255" EmptyString) with (req_body req) in Hd.
  destruct (login_fields (req_body req)) as [|e]; [done|]. rewrite Ht.
  unfold login_catch. rewrite now_bind. cbv zeta. set (h1 := (Clock :: _)%list).
  log_step (LogRequest (client_ip req) "POST" "/api/login" 400 (duration_ms start_time (now_ns h1))).
  log_step (LogCtx ERROR ("Login error: " +:+ what e) "webserver.cpp").
  rewrite !metrics_bind. unfold fields_response. rewrite error_json, lift_bind.
  unfold json_response. rewrite prog_bind_unfold. unfold lift_result.
  destruct (json_dump _); [done|]. by eexists _, _, _.
Qed.
End handlers.

(** ** Witnesses *)

Definition test_app : app_state := mk_app_state free Logger_new empty_registry.

Lemma offline_routes_witness :
  match @handle test_env test_build test_platform test_crow GetIndex (mk_request "" "") test_app [] with
  | (_, s', h') => app_conn s' = app_conn test_app ∧ sql_log h' = sql_log []
  end.
Proof.
  exact (@offline_routes test_env test_build test_platform test_crow GetIndex (mk_request "" "")
    test_app [] eq_refl).
Defined.

Lemma test_db_route_witness :
  ∃ ok t text d h', @handle test_env test_build test_platform test_crow GetTestDb (mk_request "" "")
      test_app [] =
    (Ok (mk_response 200 json_headers text),
     set_metrics (recordDbOperation "test_connection" ok
       (recordHttpRequest "GET" "/api/test-db" 200 d (app_metrics test_app))) test_app, h') ∧
    json_dump (test_value ok t) = Ok text ∧ @test_outcome test_env (sql_log []) ok h'.
Proof.
  exact (@test_db_route test_env test_build test_platform test_crow (mk_request "" "") test_app []
    eq_refl).
Defined.

Definition record_request : request := mk_request ""
  (bq "{`device_id`:7,`service_id`:3,`service_date`:`2024-05-01`,`cost`:1500.5,`notes`:``,`next_due_date`:``}").

Lemma post_service_history_witness :
  match @handle test_env test_build test_platform test_crow PostServiceHistory record_request test_app [] with
  | (r, _, h') => ∃ ok, r = Ok (mk_response 200 json_headers (success_body ok)) ∧
      ∃ record, @change_outcome test_env sql_add_service_record
        (@service_record_params test_build record) [] ok h'
  end.
Proof.
  pose proof (@post_service_history test_env test_build test_platform test_crow record_request
    test_app [] eq_refl) as Hp.
  assert (Hr : ∃ record, @record_of_body test_platform (req_body record_request) = Ok record)
    by (eexists; vm_compute; reflexivity).
  destruct Hr as [record Hr]. rewrite Hr in Hp.
  destruct (@handle test_env test_build test_platform test_crow PostServiceHistory record_request
    test_app []) as [[r s'] h'].
  destruct Hp as (ok & d & Ho & Hres & _). exists ok. split; [exact Hres|]. by exists record.
Defined.
